(** * Octree: min/max pyramid over a dense volume (Fusion/Base/Octree)

    A shallow embedding of [Octree.h] / [Octree.cpp] and the properties of
    its layer grids, fill pass, range classification and box enumeration.

    Conventions of the embedding.
    - C++ [int] values that carry extents, voxel values and range bounds
      are [Z]; [/] on [int] truncates towards zero and is [Z.quot].  Signed
      overflow is undefined behaviour in C++, so the arithmetic is the
      mathematical one.
    - Loop counters and container indices ([layer], [px], [elementPos], ...)
      only ever take non-negative values and are [nat].
    - Member functions are computations in a small state monad over the
      object; an out-of-range container access is [Fault], a propagating
      [ThreadAbortedException] is [Exc] and carries the object state at the
      throw, and recursion or a [while] loop that exhausts its fuel is
      [Diverge]. *)

From Stdlib Require Import ZArith List Bool Arith Lia.
Import ListNotations.
Local Open Scope Z_scope.

Set Implicit Arguments.

(** ** Outcomes and the state monad *)

Inductive Res (S A : Type) : Type :=
| Ret (a : A) (s : S)
| Exc (s : S)
| Fault
| Diverge.

Arguments Ret {S A} a s.
Arguments Exc {S A} s.
Arguments Fault {S A}.
Arguments Diverge {S A}.

Definition M (S A : Type) : Type := S -> Res S A.

Definition ret {S A} (a : A) : M S A := fun s => Ret a s.

Definition bind {S A B} (m : M S A) (f : A -> M S B) : M S B :=
  fun s =>
    match m s with
    | Ret a s' => f a s'
    | Exc s' => Exc s'
    | Fault => Fault
    | Diverge => Diverge
    end.

Definition get {S} : M S S := fun s => Ret s s.
Definition put {S} (s : S) : M S unit := fun _ => Ret tt s.
Definition modify {S} (f : S -> S) : M S unit := fun s => Ret tt (f s).
Definition fault {S A} : M S A := fun _ => Fault.
Definition diverge {S A} : M S A := fun _ => Diverge.
Definition throw {S A} : M S A := fun s => Exc s.

(** [try { m } catch (ThreadAbortedException&) { h }] *)
Definition try_catch {S A} (m : M S A) (h : M S A) : M S A :=
  fun s =>
    match m s with
    | Exc s' => h s'
    | r => r
    end.

(** A container access: [None] is an index out of range. *)
Definition lift {S A} (o : option A) : M S A :=
  match o with
  | Some a => ret a
  | None => fault
  end.

(** Run a computation on a member of the object. *)
Definition zoom {S T A} (prj : S -> T) (upd : T -> S -> S) (m : M T A) : M S A :=
  fun s =>
    match m (prj s) with
    | Ret a t => Ret a (upd t s)
    | Exc t => Exc (upd t s)
    | Fault => Fault
    | Diverge => Diverge
    end.

Declare Scope monad_scope.
Delimit Scope monad_scope with monad.
Notation "x <- m ;; k" := (bind m (fun x => k))
  (at level 61, m at next level, right associativity) : monad_scope.
Notation "' p <- m ;; k" := (bind m (fun p => k))
  (at level 61, p pattern, m at next level, right associativity) : monad_scope.
Notation "m ;;; k" := (bind m (fun _ => k))
  (at level 61, right associativity) : monad_scope.
Local Open Scope monad_scope.

(** A [for] loop over the values of [l], with the loop-carried locals in
    the accumulator. *)
Fixpoint foldM {S A X} (body : A -> X -> M S A) (acc : A) (l : list X) : M S A :=
  match l with
  | [] => ret acc
  | x :: l' => acc' <- body acc x ;; foldM body acc' l'
  end.

(** [for (int i = 0; i < n; i++)] with an [int] bound. *)
Definition zrange (n : Z) : list Z := map Z.of_nat (seq 0 (Z.to_nat n)).

(** The triple loop nest [for zz < nzz; for yy < nyy; for xx < nxx]. *)
Definition for3 {S A X} (zs ys xs : list X) (body : A -> X -> X -> X -> M S A)
    (acc : A) : M S A :=
  foldM (fun a zz =>
    foldM (fun a yy =>
      foldM (fun a xx => body a xx yy zz) a xs) a ys) acc zs.

(** ** Limits *)

Definition INT_MAX : Z := 2147483647.
Definition INT_MIN : Z := -2147483648.

(** ** Layer grid builder: [Octree::createLayerGrid] *)

Definition Grid : Type := list (list Z).

(** The inner [for] loop: every cell of the current layer pushes
    [size / 2] and [size - size / 2]. *)
Fixpoint splitLayer (cur : list Z) : list Z :=
  match cur with
  | [] => []
  | size :: rest =>
      let halfSize := Z.quot size 2 in
      halfSize :: (size - halfSize) :: splitLayer rest
  end.

(** The [while (cubeSizeHalf >= m_minCubeSize)] loop. *)
Fixpoint createLayerGrid_loop (fuel : nat) (minCubeSize cubeSizeHalf : Z)
    (layer : nat) : M Grid nat :=
  match fuel with
  | O => diverge
  | S fuel' =>
      if cubeSizeHalf >=? minCubeSize then
        grid <- get ;;
        cur <- lift (nth_error grid layer) ;;
        put (grid ++ [splitLayer cur]) ;;;
        createLayerGrid_loop fuel' minCubeSize (Z.quot cubeSizeHalf 2) (S layer)
      else ret (layer + 1)%nat
  end.

Definition createLayerGrid (fuel : nat) (minCubeSize dim : Z) : M Grid nat :=
  modify (fun grid => grid ++ [[dim]]) ;;;
  createLayerGrid_loop fuel minCubeSize (Z.quot dim 2) 0.

Definition zsum (l : list Z) : Z := fold_right Z.add 0 l.

(** ** Data model ([Octree.h]) *)

Inductive ElementType : Type :=
| NODE      (* children with mixed conditions *)
| LEAF_IN   (* all children satisfy the condition *)
| LEAF_OUT. (* all children violate the condition *)

Record OctreeElement : Type := mkElement {
  e_min : Z;
  e_max : Z;
  e_type : ElementType
}.

(** [OctreeElement::OctreeElement()] *)
Definition OctreeElement_ctor : OctreeElement :=
  {| e_min := INT_MAX; e_max := INT_MIN; e_type := NODE |}.

Definition with_min (v : Z) (e : OctreeElement) : OctreeElement :=
  {| e_min := v; e_max := e_max e; e_type := e_type e |}.
Definition with_max (v : Z) (e : OctreeElement) : OctreeElement :=
  {| e_min := e_min e; e_max := v; e_type := e_type e |}.
Definition with_type (ty : ElementType) (e : OctreeElement) : OctreeElement :=
  {| e_min := e_min e; e_max := e_max e; e_type := ty |}.

(** Modelled from the spec: [Fusion/Base/TypedImage.h] is not part of the
    sources.  The element-type tag of an image has the two enumerators the
    code dispatches on, [Image::UBYTE] and [Image::USHORT], and any further
    element type is [OTHER]. *)
Inductive ImageType : Type := UBYTE | USHORT | OTHER.

(** Modelled from the spec: the volume, "width x height x slices, element
    bit-depth, contiguous row-major (x fastest, then y, then z) read-only
    scalar storage".  [pointer] is the storage behind
    [TypedImage<T>::pointer()], each sample already converted to [int]. *)
Record MemImage : Type := mkImage {
  width : Z;
  height : Z;
  slices : Z;
  type : ImageType;
  typeSize : Z;
  pointer : list Z
}.

Record Octree : Type := mkOctree {
  m_minCubeSize : Z;
  m_numLayers : nat;
  m_gridX : Grid;
  m_gridY : Grid;
  m_gridZ : Grid;
  m_data : list (list OctreeElement);
  m_min : Z;
  m_max : Z;
  m_scale : Z;
  m_cubesInside : list Z;
  m_voxelsInside : Z;
  m_usable : bool
}.

(** [Octree::Octree(int minCubeSize)].  [m_numLayers] is left
    uninitialised by the constructor and assigned by [setImage] before any
    read; the vectors start empty. *)
Definition Octree_ctor (minCubeSize : Z) : Octree :=
  {| m_minCubeSize := minCubeSize; m_numLayers := 0;
     m_gridX := []; m_gridY := []; m_gridZ := []; m_data := [];
     m_min := INT_MIN; m_max := INT_MAX; m_scale := 1;
     m_cubesInside := []; m_voxelsInside := 0; m_usable := false |}.

Definition set_usable (b : bool) (t : Octree) : Octree :=
  mkOctree (m_minCubeSize t) (m_numLayers t) (m_gridX t) (m_gridY t) (m_gridZ t)
    (m_data t) (m_min t) (m_max t) (m_scale t) (m_cubesInside t)
    (m_voxelsInside t) b.
Definition set_scale (v : Z) (t : Octree) : Octree :=
  mkOctree (m_minCubeSize t) (m_numLayers t) (m_gridX t) (m_gridY t) (m_gridZ t)
    (m_data t) (m_min t) (m_max t) v (m_cubesInside t)
    (m_voxelsInside t) (m_usable t).
Definition set_numLayers (n : nat) (t : Octree) : Octree :=
  mkOctree (m_minCubeSize t) n (m_gridX t) (m_gridY t) (m_gridZ t)
    (m_data t) (m_min t) (m_max t) (m_scale t) (m_cubesInside t)
    (m_voxelsInside t) (m_usable t).
Definition set_gridX (g : Grid) (t : Octree) : Octree :=
  mkOctree (m_minCubeSize t) (m_numLayers t) g (m_gridY t) (m_gridZ t)
    (m_data t) (m_min t) (m_max t) (m_scale t) (m_cubesInside t)
    (m_voxelsInside t) (m_usable t).
Definition set_gridY (g : Grid) (t : Octree) : Octree :=
  mkOctree (m_minCubeSize t) (m_numLayers t) (m_gridX t) g (m_gridZ t)
    (m_data t) (m_min t) (m_max t) (m_scale t) (m_cubesInside t)
    (m_voxelsInside t) (m_usable t).
Definition set_gridZ (g : Grid) (t : Octree) : Octree :=
  mkOctree (m_minCubeSize t) (m_numLayers t) (m_gridX t) (m_gridY t) g
    (m_data t) (m_min t) (m_max t) (m_scale t) (m_cubesInside t)
    (m_voxelsInside t) (m_usable t).
Definition set_data (d : list (list OctreeElement)) (t : Octree) : Octree :=
  mkOctree (m_minCubeSize t) (m_numLayers t) (m_gridX t) (m_gridY t) (m_gridZ t)
    d (m_min t) (m_max t) (m_scale t) (m_cubesInside t)
    (m_voxelsInside t) (m_usable t).
Definition set_range (lo hi : Z) (t : Octree) : Octree :=
  mkOctree (m_minCubeSize t) (m_numLayers t) (m_gridX t) (m_gridY t) (m_gridZ t)
    (m_data t) lo hi (m_scale t) (m_cubesInside t)
    (m_voxelsInside t) (m_usable t).
Definition set_cubesInside (c : list Z) (t : Octree) : Octree :=
  mkOctree (m_minCubeSize t) (m_numLayers t) (m_gridX t) (m_gridY t) (m_gridZ t)
    (m_data t) (m_min t) (m_max t) (m_scale t) c
    (m_voxelsInside t) (m_usable t).
Definition set_voxelsInside (v : Z) (t : Octree) : Octree :=
  mkOctree (m_minCubeSize t) (m_numLayers t) (m_gridX t) (m_gridY t) (m_gridZ t)
    (m_data t) (m_min t) (m_max t) (m_scale t) (m_cubesInside t)
    v (m_usable t).

(** ** Element arrays *)

(** [l[i] = a]; a position past the end leaves the list as it is (the
    callers test the bound and fault instead). *)
Fixpoint list_update {A} (l : list A) (i : nat) (a : A) : list A :=
  match l, i with
  | [], _ => []
  | _ :: l', O => a :: l'
  | b :: l', S i' => b :: list_update l' i' a
  end.

(** [m_data[layer][pos]] read. *)
Definition readElement (layer pos : nat) : M Octree OctreeElement :=
  t <- get ;;
  arr <- lift (nth_error (m_data t) layer) ;;
  lift (nth_error arr pos).

(** An update through the reference [OctreeElement& element =
    m_data[layer][pos]]. *)
Definition modifyElement (layer pos : nat) (f : OctreeElement -> OctreeElement)
    : M Octree unit :=
  t <- get ;;
  arr <- lift (nth_error (m_data t) layer) ;;
  element <- lift (nth_error arr pos) ;;
  put (set_data (list_update (m_data t) layer (list_update arr pos (f element))) t).

(** [getSplit]: one or two cubes per dimension in the layer below.  The
    quotient of two [int]s; a zero divisor is undefined. *)
Definition getSplit (layer : nat) : M Octree (nat * nat * nat) :=
  t <- get ;;
  x0 <- lift (nth_error (m_gridX t) layer) ;;
  x1 <- lift (nth_error (m_gridX t) (layer + 1)) ;;
  y0 <- lift (nth_error (m_gridY t) layer) ;;
  y1 <- lift (nth_error (m_gridY t) (layer + 1)) ;;
  z0 <- lift (nth_error (m_gridZ t) layer) ;;
  z1 <- lift (nth_error (m_gridZ t) (layer + 1)) ;;
  if ((length x0 =? 0) || (length y0 =? 0) || (length z0 =? 0))%nat then fault
  else ret ((length x1 / length x0)%nat, (length y1 / length y0)%nat,
            (length z1 / length z0)%nat).

(** ** The fill pass: [Octree::fill] and [Octree::setImage] *)

(** [imgPtr[i]] with an [int] index. *)
Definition zget {A} (l : list A) (i : Z) : option A :=
  if i <? 0 then None else nth_error l (Z.to_nat i).

(** The body of the innermost scan loop: one voxel folded into the
    running min/max of the cell. *)
Definition scanVoxel (image : MemImage) (px py pz : Z) (element : OctreeElement)
    (xx yy zz : Z) : M Octree OctreeElement :=
  value <- lift (zget (pointer image)
             (px + xx + width image * (py + yy + height image * (pz + zz)))) ;;
  let element1 := if e_min element >? value then with_min value element else element in
  let element2 := if e_max element1 <? value then with_max value element1 else element1 in
  ret element2.

(** One iteration of the [x] loop of the finest layer. *)
Definition fillFinestCell (image : MemImage) (last : nat) (lx ly lz : list Z)
    (pz py : Z) (z y : nat) (acc : Z * nat) (x : nat) : M Octree (Z * nat) :=
  let '(px, elementPos) := acc in
  element <- readElement last elementPos ;;
  element' <- for3 (zrange (nth z lz 0)) (zrange (nth y ly 0)) (zrange (nth x lx 0))
                (scanVoxel image px py pz) element ;;
  modifyElement last elementPos (fun _ => element') ;;;
  ret (px + nth x lx 0, S elementPos).

(** One iteration of the [y] loop of the finest layer. *)
Definition fillFinestRow (image : MemImage) (last : nat) (lx ly lz : list Z)
    (pz : Z) (z : nat) (acc : Z * nat) (y : nat) : M Octree (Z * nat) :=
  let '(py, elementPos) := acc in
  '(_, elementPos') <- foldM (fillFinestCell image last lx ly lz pz py z y)
                         (0, elementPos) (seq 0 (length lx)) ;;
  ret (py + nth y ly 0, elementPos').

(** The body of a [z] iteration of the finest layer, after the abort test. *)
Definition fillFinestSlice (image : MemImage) (last : nat) (lx ly lz : list Z)
    (acc : Z * nat) (z : nat) : M Octree (Z * nat) :=
  let '(pz, elementPos) := acc in
  '(_, elementPos') <- foldM (fillFinestRow image last lx ly lz pz z)
                         (0, elementPos) (seq 0 (length ly)) ;;
  ret (pz + nth z lz 0, elementPos').

(** One child folded into its parent. *)
Definition mergeDown (elementUp elementDown : OctreeElement) : OctreeElement :=
  let up1 := if e_min elementUp >? e_min elementDown
             then with_min (e_min elementDown) elementUp else elementUp in
  if e_max up1 <? e_max elementDown then with_max (e_max elementDown) up1 else up1.

(** One iteration of the [x] loop of an aggregation layer. *)
Definition fillUpCell (layer nx ny : nat) (z y : nat) (elementPos : nat) (x : nat)
    : M Octree nat :=
  '(nxx, nyy, nzz) <- getSplit layer ;;
  elementUp <- readElement layer elementPos ;;
  elementUp' <- for3 (seq 0 nzz) (seq 0 nyy) (seq 0 nxx)
    (fun up xx yy zz =>
       let indexDown :=
         (nxx * x + xx + nx * nxx * (nyy * y + yy + ny * nyy * (nzz * z + zz)))%nat in
       elementDown <- readElement (layer + 1) indexDown ;;
       ret (mergeDown up elementDown)) elementUp ;;
  modifyElement layer elementPos (fun _ => elementUp') ;;;
  ret (S elementPos).

(** The body of a [z] iteration of an aggregation layer, after the abort
    test. *)
Definition fillUpSlice (layer nx ny : nat) (elementPos : nat) (z : nat) : M Octree nat :=
  foldM (fun pos y => foldM (fillUpCell layer nx ny z y) pos (seq 0 nx))
    elementPos (seq 0 ny).

(** The object together with the number of reads of [m_abortThread] made
    so far. *)
Record World : Type := mkWorld {
  tree : Octree;
  reads : nat
}.

Definition onTree {A} (m : M Octree A) : M World A :=
  zoom tree (fun t w => {| tree := t; reads := reads w |}) m.

Section Fill.

(** [m_abortThread] is written by another thread ([~Octree]).
    [abortThread k] is the value the [k]-th read of the flag observes. *)
Variable abortThread : nat -> bool.

(** [if (m_abortThread) throw ThreadAbortedException();] *)
Definition checkAbort : M World unit :=
  fun w =>
    let w' := {| tree := tree w; reads := S (reads w) |} in
    if abortThread (reads w) then Exc w' else Ret tt w'.

(** The loop nest that fills the highest layer from image data; the
    abort flag is tested at the head of every [z] iteration. *)
Definition fillFinestLayer (image : MemImage) (last : nat) (lx ly lz : list Z)
    : M World (Z * nat) :=
  foldM (fun acc z =>
           checkAbort ;;;
           onTree (fillFinestSlice image last lx ly lz acc z))
    (0, O) (seq 0 (length lz)).

(** One iteration of the [for (layer = m_numLayers - 2; layer >= 0; layer--)]
    loop that propagates up to the other layers. *)
Definition fillUpLayer (_ : unit) (layer : nat) : M World unit :=
  t <- onTree get ;;
  gx <- lift (nth_error (m_gridX t) layer) ;;
  gy <- lift (nth_error (m_gridY t) layer) ;;
  gz <- lift (nth_error (m_gridZ t) layer) ;;
  foldM (fun elementPos z =>
           checkAbort ;;;
           onTree (fillUpSlice layer (length gx) (length gy) elementPos z))
    O (seq 0 (length gz)) ;;;
  ret tt.

(** [template<typename T> void Octree::fill(TypedImage<T>* image)] *)
Definition fill (image : MemImage) : M World unit :=
  onTree (modify (set_usable false)) ;;;
  t <- onTree get ;;
  match m_numLayers t with
  | O => fault
  | S last =>
      lx <- lift (nth_error (m_gridX t) last) ;;
      ly <- lift (nth_error (m_gridY t) last) ;;
      lz <- lift (nth_error (m_gridZ t) last) ;;
      fillFinestLayer image last lx ly lz ;;;
      foldM fillUpLayer tt (rev (seq 0 last)) ;;;
      onTree (modify (set_usable true))
  end.

(** The [while (nx < m_numLayers)] loops that repeat the last layer of a
    shorter axis; [k] is [m_numLayers - nx]. *)
Fixpoint padGrid (k : nat) (nx : nat) : M Grid nat :=
  match k with
  | O => ret nx
  | S k' =>
      grid <- get ;;
      match nx with
      | O => fault
      | S prev =>
          cur <- lift (nth_error grid prev) ;;
          put (grid ++ [cur]) ;;;
          padGrid k' (S nx)
      end
  end.

(** The allocation loop: one array of default-constructed elements per
    layer. *)
Definition allocLayer (nx ny nz : nat) (acc : nat * nat * nat) (i : nat)
    : M Octree (nat * nat * nat) :=
  let '(lx, ly, lz) := acc in
  t <- get ;;
  gx <- lift (nth_error (m_gridX t) lx) ;;
  gy <- lift (nth_error (m_gridY t) ly) ;;
  gz <- lift (nth_error (m_gridZ t) lz) ;;
  let size := (length gx * length gy * length gz)%nat in
  put (set_data (m_data t ++ [repeat OctreeElement_ctor size]) t) ;;;
  ret (if (Z.of_nat lx <? Z.of_nat nx - 1) then S lx else lx,
       if (Z.of_nat ly <? Z.of_nat ny - 1) then S ly else ly,
       if (Z.of_nat lz <? Z.of_nat nz - 1) then S lz else lz).

Definition onGridX {A} : M Grid A -> M Octree A := zoom m_gridX set_gridX.
Definition onGridY {A} : M Grid A -> M Octree A := zoom m_gridY set_gridY.
Definition onGridZ {A} : M Grid A -> M Octree A := zoom m_gridZ set_gridZ.

(** The part of [setImage] before the [try] block. *)
Definition prepare (fuel : nat) (image : MemImage) : M Octree unit :=
  modify (set_usable false) ;;;
  modify (set_scale (Z.shiftl 1 (8 * typeSize image) - 1)) ;;;
  t <- get ;;
  nx <- onGridX (createLayerGrid fuel (m_minCubeSize t) (width image)) ;;
  ny <- onGridY (createLayerGrid fuel (m_minCubeSize t) (height image)) ;;
  nz <- onGridZ (createLayerGrid fuel (m_minCubeSize t) (slices image)) ;;
  let numLayers := Nat.max (Nat.max nx ny) nz in
  modify (set_numLayers numLayers) ;;;
  (* Fill up smaller dimensions, if applicable *)
  nx <- onGridX (padGrid (numLayers - nx) nx) ;;
  ny <- onGridY (padGrid (numLayers - ny) ny) ;;
  nz <- onGridZ (padGrid (numLayers - nz) nz) ;;
  (* Allocate data *)
  foldM (allocLayer nx ny nz) (O, O, O) (seq 0 numLayers) ;;;
  ret tt.

(** [void Octree::setImage(MemImage* image)] *)
Definition setImage (fuel : nat) (image : MemImage) : M World unit :=
  onTree (prepare fuel image) ;;;
  try_catch
    ((match type image with
      | USHORT => fill image
      | UBYTE => fill image
      | OTHER => ret tt
      end) ;;;
     onTree (modify (set_usable true)))
    (ret tt).

End Fill.

(** ** Range classification: [setInsideRange] and [checkChildren] *)

(** The update of [allIn] / [allOut] for one child result. *)
Definition noteChild (flags : bool * bool) (value : ElementType) : bool * bool :=
  let '(allIn, allOut) := flags in
  match value with
  | LEAF_IN => (allIn, false)
  | LEAF_OUT => (false, allOut)
  | NODE => (false, false)
  end.

Definition labelOfFlags (flags : bool * bool) : ElementType :=
  let '(allIn, allOut) := flags in
  if allIn then LEAF_IN else if allOut then LEAF_OUT else NODE.

(** [(m_min > element.max) || (m_max < element.min)] *)
Definition rejected (lo hi : Z) (element : OctreeElement) : bool :=
  (lo >? e_max element) || (hi <? e_min element).

Fixpoint checkChildren (fuel : nat) (layer px py pz : nat) : M Octree ElementType :=
  match fuel with
  | O => diverge
  | S fuel' =>
      t <- get ;;
      gx <- lift (nth_error (m_gridX t) layer) ;;
      gy <- lift (nth_error (m_gridY t) layer) ;;
      let nx := length gx in
      let ny := length gy in
      let pos := (px + nx * (py + ny * pz))%nat in
      element <- readElement layer pos ;;
      value <-
        (if rejected (m_min t) (m_max t) element then
           (* Current element is outside of requested range, return at any level *)
           ret LEAF_OUT
         else if Z.of_nat layer =? Z.of_nat (m_numLayers t) - 1 then
           (* Element is inside and on the last level *)
           gz <- lift (nth_error (m_gridZ t) layer) ;;
           sx <- lift (nth_error gx px) ;;
           sy <- lift (nth_error gy py) ;;
           sz <- lift (nth_error gz pz) ;;
           modify (fun t' => set_voxelsInside (m_voxelsInside t' + sx * sy * sz) t') ;;;
           ret LEAF_IN
         else
           (* Something else, need to check children *)
           '(nxx, nyy, nzz) <- getSplit layer ;;
           flags <- for3 (seq 0 nzz) (seq 0 nyy) (seq 0 nxx)
             (fun flags xx yy zz =>
                value <- checkChildren fuel' (layer + 1)
                           (nxx * px + xx) (nyy * py + yy) (nzz * pz + zz) ;;
                ret (noteChild flags value)) (true, true) ;;
           ret (labelOfFlags flags)) ;;
      modifyElement layer pos (with_type value) ;;;
      ret value
  end.

(** [bool Octree::setInsideRange(int min, int max)] *)
Definition setInsideRange (fuel : nat) (min max : Z) : M Octree bool :=
  t <- get ;;
  if (m_min t =? min) && (m_max t =? max) then ret false
  else
    put (set_voxelsInside 0 (set_range min max t)) ;;;
    (* Recurse into Octree *)
    checkChildren fuel 0 0 0 0 ;;;
    (* Print statistics *)
    t <- get ;;
    gx <- lift (nth_error (m_gridX t) 0) ;;
    gy <- lift (nth_error (m_gridY t) 0) ;;
    gz <- lift (nth_error (m_gridZ t) 0) ;;
    sx <- lift (nth_error gx 0) ;;
    sy <- lift (nth_error gy 0) ;;
    sz <- lift (nth_error gz 0) ;;
    let numVoxels := sx * sy * sz in
    ret true.

(** ** Box enumeration: [enumerate] and [enumerateChildren] *)

(** [for (i = 0; i < p; i++) v += grid[layer][i];] *)
Definition voxelPos (cells : list Z) (p : nat) : M Octree Z :=
  foldM (fun v i => s <- lift (nth_error cells i) ;; ret (v + s)) 0 (seq 0 p).

Fixpoint enumerateChildren (fuel : nat) (layer px py pz : nat) : M Octree Z :=
  match fuel with
  | O => diverge
  | S fuel' =>
      t <- get ;;
      gx <- lift (nth_error (m_gridX t) layer) ;;
      gy <- lift (nth_error (m_gridY t) layer) ;;
      let nx := length gx in
      let ny := length gy in
      element <- readElement layer (px + nx * (py + ny * pz)) ;;
      match e_type element with
      | LEAF_IN =>
          (* Compute voxel position of this cube *)
          gz <- lift (nth_error (m_gridZ t) layer) ;;
          vx <- voxelPos gx px ;;
          vy <- voxelPos gy py ;;
          vz <- voxelPos gz pz ;;
          (* Add this cube *)
          sx <- lift (nth_error gx px) ;;
          sy <- lift (nth_error gy py) ;;
          sz <- lift (nth_error gz pz) ;;
          modify (fun t' => set_cubesInside (m_cubesInside t' ++ [vx; vy; vz; sx; sy; sz]) t') ;;;
          ret 1
      | NODE =>
          (* Node, need to check children *)
          '(nxx, nyy, nzz) <- getSplit layer ;;
          for3 (seq 0 nzz) (seq 0 nyy) (seq 0 nxx)
            (fun count xx yy zz =>
               c <- enumerateChildren fuel' (layer + 1)
                      (nxx * px + xx) (nyy * py + yy) (nzz * pz + zz) ;;
               ret (count + c)) 0
      | LEAF_OUT => ret 0
      end
  end.

(** [const std::vector<int>& Octree::enumerate()] *)
Definition enumerate (fuel : nat) : M Octree (list Z) :=
  modify (set_cubesInside []) ;;;
  num <- enumerateChildren fuel 0 0 0 0 ;;
  t <- get ;;
  ret (m_cubesInside t).

(** ** Specification-level notions *)

(** *** Layer grids *)

(** What [createLayerGrid] builds for one axis from an empty vector. *)
Definition pyramid (dim : Z) (g : Grid) : Prop :=
  nth_error g 0 = Some [dim] /\
  (forall l cur next, nth_error g l = Some cur -> nth_error g (S l) = Some next ->
                      next = splitLayer cur) /\
  Forall (fun cur => Forall (fun s => 1 <= s) cur /\ zsum cur = dim) g.

(** An axis after padding: every layer either splits the one above or
    repeats it. *)
Definition axisGrid (dim : Z) (n : nat) (g : Grid) : Prop :=
  length g = n /\
  nth_error g 0 = Some [dim] /\
  (forall l cur next, nth_error g l = Some cur -> nth_error g (S l) = Some next ->
                      next = splitLayer cur \/ next = cur) /\
  Forall (fun cur => Forall (fun s => 1 <= s) cur /\ zsum cur = dim) g.

(** Voxel position and extent of cell [p] of a layer of one axis. *)
Definition offset (cells : list Z) (p : nat) : Z := zsum (firstn p cells).
Definition extent (cells : list Z) (p : nat) : Z := nth p cells 0.

(** [a] lies in cell [p] of the layer. *)
Definition inCell (cells : list Z) (p : nat) (a : Z) : Prop :=
  offset cells p <= a < offset cells p + extent cells p.

(** *** The volume *)

(** The sample at voxel [(a, b, c)]: x fastest, then y, then z. *)
Definition voxelAt (image : MemImage) (a b c : Z) : Z :=
  nth (Z.to_nat (a + width image * (b + height image * c))) (pointer image) 0.

(** The range of values of the element type a supported image holds. *)
Definition maxValue (ty : ImageType) : Z :=
  match ty with
  | UBYTE => 255
  | USHORT => 65535
  | OTHER => 0
  end.

(** A volume as the octree expects it: positive dimensions, one sample per
    voxel, every sample a value of the element type. *)
Definition wfImage (image : MemImage) : Prop :=
  0 < width image /\ 0 < height image /\ 0 < slices image /\
  Z.of_nat (length (pointer image)) = width image * height image * slices image /\
  Forall (fun v => 0 <= v <= maxValue (type image)) (pointer image).

Definition supported (image : MemImage) : Prop :=
  type image = UBYTE \/ type image = USHORT.

(** *** What the fill pass computes *)

(** The iteration space of a triple loop nest, in iteration order. *)
Definition triples {X} (zs ys xs : list X) : list (X * X * X) :=
  flat_map (fun zz => flat_map (fun yy => map (fun xx => (xx, yy, zz)) xs) ys) zs.

(** A layer array laid out x fastest, then y, then z. *)
Definition tab3 {A} (nx ny nz : nat) (f : nat -> nat -> nat -> A) : list A :=
  flat_map (fun z => flat_map (fun y => map (fun x => f x y z) (seq 0 nx)) (seq 0 ny))
    (seq 0 nz).

Definition scanStep (element : OctreeElement) (value : Z) : OctreeElement :=
  let element1 := if e_min element >? value then with_min value element else element in
  if e_max element1 <? value then with_max value element1 else element1.

(** The element of a finest-layer cell with origin [(px, py, pz)] and
    extent [(sx, sy, sz)]. *)
Definition cellScan (image : MemImage) (px py pz sx sy sz : Z) : OctreeElement :=
  fold_left
    (fun e '(xx, yy, zz) => scanStep e (voxelAt image (px + xx) (py + yy) (pz + zz)))
    (triples (zrange sz) (zrange sy) (zrange sx)) OctreeElement_ctor.

Definition finestElems (image : MemImage) (lx ly lz : list Z) : list OctreeElement :=
  tab3 (length lx) (length ly) (length lz)
    (fun x y z => cellScan image (offset lx x) (offset ly y) (offset lz z)
                    (extent lx x) (extent ly y) (extent lz z)).

(** The element of a coarser cell, from the array [down] of the layer
    below. *)
Definition cellMerge (down : list OctreeElement) (nx ny nxx nyy nzz : nat)
    (x y z : nat) : OctreeElement :=
  fold_left
    (fun up '(xx, yy, zz) =>
       mergeDown up
         (nth (nxx * x + xx + nx * nxx * (nyy * y + yy + ny * nyy * (nzz * z + zz)))
              down OctreeElement_ctor))
    (triples (seq 0 nzz) (seq 0 nyy) (seq 0 nxx)) OctreeElement_ctor.

(** The object with the array of [layer] replaced. *)
Definition withLayer (layer : nat) (arr : list OctreeElement) (t : Octree) : Octree :=
  set_data (list_update (m_data t) layer arr) t.

(** The array of [layer], from the array [down] of the layer below. *)
Definition layerAbove (gX gY gZ : Grid) (layer : nat) (down : list OctreeElement)
    : list OctreeElement :=
  let nx := length (nth layer gX []) in
  let ny := length (nth layer gY []) in
  let nz := length (nth layer gZ []) in
  let nxx := (length (nth (S layer) gX []) / nx)%nat in
  let nyy := (length (nth (S layer) gY []) / ny)%nat in
  let nzz := (length (nth (S layer) gZ []) / nz)%nat in
  tab3 nx ny nz (cellMerge down nx ny nxx nyy nzz).

(** The arrays of layers [0 .. k], given the array of layer [k]. *)
Fixpoint upLayers (gX gY gZ : Grid) (k : nat) (arr : list OctreeElement)
    : list (list OctreeElement) :=
  match k with
  | O => [arr]
  | S k' => upLayers gX gY gZ k' (layerAbove gX gY gZ k' arr) ++ [arr]
  end.

(** The arrays as the allocation loop leaves them. *)
Definition freshLayers (gX gY gZ : Grid) (k : nat) : list (list OctreeElement) :=
  map (fun l => repeat OctreeElement_ctor
                  (length (nth l gX []) * length (nth l gY []) * length (nth l gZ [])))
    (seq 0 k).

(** The number of times a complete fill reads the abort flag. *)
Definition abortChecks (gZ : Grid) : nat :=
  fold_right (fun cells n => (length cells + n)%nat) O gZ.

(** No read of the abort flag among the [n] reads starting at read [r]
    observes it set. *)
Definition noAbort (abortThread : nat -> bool) (r n : nat) : Prop :=
  forall j, (j < n)%nat -> abortThread (r + j)%nat = false.

(** The read [r + k] is the first one from read [r] on to observe the flag
    set. *)
Definition firstAbort (abortThread : nat -> bool) (r k : nat) : Prop :=
  noAbort abortThread r k /\ abortThread (r + k)%nat = true.

(** The three axes of a tree over [image] with [m_numLayers] layers each. *)
Definition gridsOf (image : MemImage) (t : Octree) : Prop :=
  (1 <= m_numLayers t)%nat /\
  axisGrid (width image) (m_numLayers t) (m_gridX t) /\
  axisGrid (height image) (m_numLayers t) (m_gridY t) /\
  axisGrid (slices image) (m_numLayers t) (m_gridZ t).

(** The object as [setImage] leaves it at the [try] block. *)
Definition Prepared (image : MemImage) (t : Octree) : Prop :=
  gridsOf image t /\
  m_data t = freshLayers (m_gridX t) (m_gridY t) (m_gridZ t) (m_numLayers t) /\
  m_usable t = false.

(** The element arrays after a complete fill. *)
Definition filledData (image : MemImage) (gX gY gZ : Grid) (n : nat)
    : list (list OctreeElement) :=
  match n with
  | O => []
  | S last =>
      upLayers gX gY gZ last
        (finestElems image (nth last gX []) (nth last gY []) (nth last gZ []))
  end.

(** The object after a complete fill over [image]. *)
Definition Filled (image : MemImage) (t : Octree) : Prop :=
  gridsOf image t /\
  m_data t = filledData image (m_gridX t) (m_gridY t) (m_gridZ t) (m_numLayers t).

(** Fuel that lets the three [createLayerGrid] calls of [setImage] run to
    completion. *)
Definition enoughFuel (image : MemImage) (fuel : nat) : Prop :=
  (Z.to_nat (Z.max (Z.max (width image) (height image)) (slices image)) < fuel)%nat.

(** *** Nodes of the tree *)

(** The element of node [(x, y, z)] of [layer]. *)
Definition elemAt (t : Octree) (layer x y z : nat) : option OctreeElement :=
  match nth_error (m_data t) layer with
  | Some arr =>
      nth_error arr (x + length (nth layer (m_gridX t) [])
                         * (y + length (nth layer (m_gridY t) []) * z))
  | None => None
  end.

Definition inBounds (t : Octree) (layer x y z : nat) : Prop :=
  (layer < m_numLayers t)%nat /\
  (x < length (nth layer (m_gridX t) []))%nat /\
  (y < length (nth layer (m_gridY t) []))%nat /\
  (z < length (nth layer (m_gridZ t) []))%nat.

(** Voxel [(a, b, c)] lies in the cell of node [(x, y, z)] of [layer]. *)
Definition inCell3 (t : Octree) (layer x y z : nat) (a b c : Z) : Prop :=
  inCell (nth layer (m_gridX t) []) x a /\
  inCell (nth layer (m_gridY t) []) y b /\
  inCell (nth layer (m_gridZ t) []) z c.

(** The split between [layer] and the next, as [getSplit] computes it. *)
Definition splitX (t : Octree) (layer : nat) : nat :=
  (length (nth (S layer) (m_gridX t) []) / length (nth layer (m_gridX t) []))%nat.
Definition splitY (t : Octree) (layer : nat) : nat :=
  (length (nth (S layer) (m_gridY t) []) / length (nth layer (m_gridY t) []))%nat.
Definition splitZ (t : Octree) (layer : nat) : nat :=
  (length (nth (S layer) (m_gridZ t) []) / length (nth layer (m_gridZ t) []))%nat.

(** The coordinates the triple loop of [checkChildren] and
    [enumerateChildren] passes to the recursive calls, in loop order. *)
Definition childCoords (nxx nyy nzz x y z : nat) : list (nat * nat * nat) :=
  map (fun '(xx, yy, zz) => ((nxx * x + xx)%nat, (nyy * y + yy)%nat, (nzz * z + zz)%nat))
    (triples (seq 0 nzz) (seq 0 nyy) (seq 0 nxx)).

(** The children of node [(x, y, z)] of [layer]. *)
Definition children (t : Octree) (layer x y z : nat) : list (nat * nat * nat) :=
  childCoords (splitX t layer) (splitY t layer) (splitZ t layer) x y z.

(** [m] is the least (greatest) value of [image] over the voxels
    selected by [P]. *)
Definition leastOver (image : MemImage) (P : Z -> Z -> Z -> Prop) (m : Z) : Prop :=
  (forall a b c, P a b c -> m <= voxelAt image a b c) /\
  (exists a b c, P a b c /\ voxelAt image a b c = m).
Definition greatestOver (image : MemImage) (P : Z -> Z -> Z -> Prop) (m : Z) : Prop :=
  (forall a b c, P a b c -> voxelAt image a b c <= m) /\
  (exists a b c, P a b c /\ voxelAt image a b c = m).

(** Two element arrays that differ at most in the classification. *)
Definition sameBounds (d d' : list (list OctreeElement)) : Prop :=
  Forall2 (Forall2 (fun e e' => e_min e = e_min e' /\ e_max e = e_max e')) d d'.

(** A tree over [image] whose min/max data is that of a complete fill;
    the classification is arbitrary. *)
Definition Summarised (image : MemImage) (t : Octree) : Prop :=
  gridsOf image t /\
  sameBounds (m_data t)
    (filledData image (m_gridX t) (m_gridY t) (m_gridZ t) (m_numLayers t)).

(** The element of node [(x, y, z)] of [layer] in the data of a complete
    fill over the grids of [t]. *)
Definition filledElem (image : MemImage) (t : Octree) (layer x y z : nat)
    : OctreeElement :=
  nth (x + length (nth layer (m_gridX t) [])
           * (y + length (nth layer (m_gridY t) []) * z))
      (nth layer (filledData image (m_gridX t) (m_gridY t) (m_gridZ t) (m_numLayers t)) [])
      OctreeElement_ctor.

(** A tree that a successful [setImage] on a freshly constructed object
    produced: the run returned and left [isUsable()] true. *)
Definition FillCompleted (image : MemImage) (minCubeSize : Z) (t : Octree) : Prop :=
  exists (abortThread : nat -> bool) (fuel r : nat) (w : World),
    setImage abortThread fuel image {| tree := Octree_ctor minCubeSize; reads := r |}
    = Ret tt w /\
    m_usable (tree w) = true /\ tree w = t.

(** *** Classification, as a function of the min/max data *)

Definition isIn (v : ElementType) : bool :=
  match v with LEAF_IN => true | _ => false end.
Definition isOut (v : ElementType) : bool :=
  match v with LEAF_OUT => true | _ => false end.

(** The label of a node from the results of its children. *)
Definition labelOf (vs : list ElementType) : ElementType :=
  if forallb isIn vs then LEAF_IN else if forallb isOut vs then LEAF_OUT else NODE.

(** The recursive calls of one node, in loop order, with their results. *)
Fixpoint mapM {S A B} (f : A -> M S B) (l : list A) : M S (list B) :=
  match l with
  | [] => ret []
  | a :: l' => b <- f a ;; bs <- mapM f l' ;; ret (b :: bs)
  end.

(** The label of node [(x, y, z)] of [layer] for the range [[lo, hi]];
    [k] is the number of layers below [layer]. *)
Fixpoint specLabel (image : MemImage) (t : Octree) (lo hi : Z) (k : nat)
    (layer x y z : nat) : ElementType :=
  if rejected lo hi (filledElem image t layer x y z) then LEAF_OUT
  else
    match k with
    | O => LEAF_IN
    | S k' =>
        labelOf (map (fun '(cx, cy, cz) => specLabel image t lo hi k' (S layer) cx cy cz)
                   (children t layer x y z))
    end.

(** *** Boxes *)

Record Box : Type := mkBox {
  originX : Z; originY : Z; originZ : Z;
  extentX : Z; extentY : Z; extentZ : Z
}.

(** The sextuples of [m_cubesInside]. *)
Fixpoint boxesOf (cubes : list Z) : list Box :=
  match cubes with
  | vx :: vy :: vz :: sx :: sy :: sz :: rest => mkBox vx vy vz sx sy sz :: boxesOf rest
  | _ => []
  end.

Definition flatBox (b : Box) : list Z :=
  [originX b; originY b; originZ b; extentX b; extentY b; extentZ b].

(** Voxel [(a, b, c)] lies in the box. *)
Definition covers (box : Box) (a b c : Z) : Prop :=
  originX box <= a < originX box + extentX box /\
  originY box <= b < originY box + extentY box /\
  originZ box <= c < originZ box + extentZ box.

Definition coversb (box : Box) (a b c : Z) : bool :=
  (originX box <=? a) && (a <? originX box + extentX box) &&
  (originY box <=? b) && (b <? originY box + extentY box) &&
  (originZ box <=? c) && (c <? originZ box + extentZ box).

(** The box of the cell of a node. *)
Definition cellBox (t : Octree) (layer x y z : nat) : Box :=
  mkBox (offset (nth layer (m_gridX t) []) x) (offset (nth layer (m_gridY t) []) y)
        (offset (nth layer (m_gridZ t) []) z)
        (extent (nth layer (m_gridX t) []) x) (extent (nth layer (m_gridY t) []) y)
        (extent (nth layer (m_gridZ t) []) z).

(** The boxes of the subtree of a node, in pre-order. *)
Fixpoint specEnum (image : MemImage) (t : Octree) (lo hi : Z) (k : nat)
    (layer x y z : nat) : list Box :=
  match specLabel image t lo hi k layer x y z with
  | LEAF_IN => [cellBox t layer x y z]
  | NODE =>
      match k with
      | O => []
      | S k' =>
          flat_map (fun '(cx, cy, cz) => specEnum image t lo hi k' (S layer) cx cy cz)
            (children t layer x y z)
      end
  | LEAF_OUT => []
  end.

(** The classification stored for a node. *)
Definition typeAt (t : Octree) (layer x y z : nat) : option ElementType :=
  option_map e_type (elemAt t layer x y z).

(** The classification stored in [t] for the subtree of a node is the
    one of [specLabel] over the grids of [t0], as far down as
    [enumerateChildren] descends. *)
Fixpoint classified (image : MemImage) (t0 : Octree) (lo hi : Z) (t : Octree) (k : nat)
    (layer x y z : nat) : Prop :=
  typeAt t layer x y z = Some (specLabel image t0 lo hi k layer x y z) /\
  match k with
  | O => True
  | S k' =>
      specLabel image t0 lo hi k layer x y z = NODE ->
      forall cx cy cz, In (cx, cy, cz) (children t0 layer x y z) ->
                       classified image t0 lo hi t k' (S layer) cx cy cz
  end.

(** Node [(x', y', z')] of [layer'] belongs to the subtree of node
    [(x, y, z)] of [layer], at most [k] layers down. *)
Fixpoint inSubtree (t : Octree) (k : nat) (layer x y z layer' x' y' z' : nat) : Prop :=
  (layer' = layer /\ x' = x /\ y' = y /\ z' = z) \/
  match k with
  | O => False
  | S k' =>
      exists cx cy cz, In (cx, cy, cz) (children t layer x y z) /\
                       inSubtree t k' (S layer) cx cy cz layer' x' y' z'
  end.

(** The object during a classification pass over [t0] for the range
    [[lo, hi]]: only the element arrays and the voxel counter differ. *)
Definition passState (t0 : Octree) (lo hi : Z) (d : list (list OctreeElement)) (v : Z)
    : Octree :=
  set_voxelsInside v (set_data d (set_range lo hi t0)).

(** The recursive calls of an internal node of [checkChildren], in loop
    order, with the label each returns. *)
Definition visitChildren (fuel layer : nat) (cs : list (nat * nat * nat))
    : M Octree (list ElementType) :=
  mapM (fun '(cx, cy, cz) => checkChildren fuel layer cx cy cz) cs.

(** What a call of [checkChildren] on a node with [k] layers below it
    does to a pass state: it returns the node's label, keeps the min/max
    data, touches the classification of the node's subtree only, and
    leaves that subtree classified. *)
Definition RunSpec (image : MemImage) (t0 : Octree) (lo hi : Z) (k : nat) : Prop :=
  forall l x y z d v fuel,
    S (l + k) = m_numLayers t0 -> inBounds t0 l x y z ->
    sameBounds d (filledData image (m_gridX t0) (m_gridY t0) (m_gridZ t0) (m_numLayers t0)) ->
    (k < fuel)%nat ->
    exists d' v',
      checkChildren fuel l x y z (passState t0 lo hi d v)
      = Ret (specLabel image t0 lo hi k l x y z) (passState t0 lo hi d' v') /\
      sameBounds d'
        (filledData image (m_gridX t0) (m_gridY t0) (m_gridZ t0) (m_numLayers t0)) /\
      (forall l' x' y' z',
         inBounds t0 l' x' y' z' -> ~ inSubtree t0 k l x y z l' x' y' z' ->
         typeAt (passState t0 lo hi d' v') l' x' y' z'
         = typeAt (passState t0 lo hi d v) l' x' y' z') /\
      classified image t0 lo hi (passState t0 lo hi d' v') k l x y z.

(** *** Coverage *)

(** The number of boxes that contain voxel [(a, b, c)]. *)
Definition countCover (boxes : list Box) (a b c : Z) : nat :=
  length (filter (fun box => coversb box a b c) boxes).

(** The finest-layer cell that contains voxel [(a, b, c)] is not
    bounding-box rejected for [[lo, hi]]: its least value is at most [hi]
    and its greatest value is at least [lo]. *)
Definition meetsRange (image : MemImage) (t : Octree) (lo hi : Z) (a b c : Z) : Prop :=
  exists x y z,
    inBounds t (m_numLayers t - 1) x y z /\
    inCell3 t (m_numLayers t - 1) x y z a b c /\
    rejected lo hi (filledElem image t (m_numLayers t - 1) x y z) = false.

(** The voxels of the cell of node [(x, y, z)] of [layer] whose
    finest-layer cell is not bounding-box rejected. *)
Definition live (image : MemImage) (t : Octree) (lo hi : Z) (layer x y z : nat)
    (a b c : Z) : Prop :=
  inCell3 t layer x y z a b c /\ meetsRange image t lo hi a b c.

(** Voxel [(a, b, c)] belongs to the volume. *)
Definition inVolume (image : MemImage) (a b c : Z) : Prop :=
  0 <= a < width image /\ 0 <= b < height image /\ 0 <= c < slices image.

(** Voxel [(a, b, c)] has a value in [[lo, hi]]. *)
Definition inRange (image : MemImage) (lo hi : Z) (a b c : Z) : Prop :=
  lo <= voxelAt image a b c <= hi.

(** A caller that sets one range after the other. *)
Definition setRanges (fuel : nat) (ranges : list (Z * Z)) : M Octree unit :=
  foldM (fun _ '(lo, hi) => setInsideRange fuel lo hi ;;; ret tt) tt ranges.

(** The boxes read from [cubes] cover exactly the voxels of the volume
    selected by [P], and no two of them share a voxel. *)
Definition exactCover (image : MemImage) (cubes : list Z) (P : Z -> Z -> Z -> Prop) : Prop :=
  cubes = flat_map flatBox (boxesOf cubes) /\
  (forall i j bi bj a b c,
     i <> j -> nth_error (boxesOf cubes) i = Some bi -> nth_error (boxesOf cubes) j = Some bj ->
     ~ (covers bi a b c /\ covers bj a b c)) /\
  (forall a b c,
     (exists box, In box (boxesOf cubes) /\ covers box a b c)
     <-> inVolume image a b c /\ P a b c).

(** The finest-layer cell that contains voxel [(a, b, c)] holds a value
    that is at most [hi] and a value that is at least [lo]. *)
Definition nearRange (image : MemImage) (t : Octree) (lo hi : Z) (a b c : Z) : Prop :=
  exists x y z,
    inBounds t (m_numLayers t - 1) x y z /\
    inCell3 t (m_numLayers t - 1) x y z a b c /\
    (exists p q r, inCell3 t (m_numLayers t - 1) x y z p q r /\ voxelAt image p q r <= hi) /\
    (exists p q r, inCell3 t (m_numLayers t - 1) x y z p q r /\ lo <= voxelAt image p q r).

(** *** Example volumes *)

(** Two voxels along x, with the values 0 and 100. *)
Definition twoVoxels : MemImage :=
  {| width := 2; height := 1; slices := 1; type := UBYTE; typeSize := 1;
     pointer := [0; 100] |}.

(** The same two voxels held as an element type [setImage] has no branch
    for. *)
Definition twoShorts : MemImage :=
  {| width := 2; height := 1; slices := 1; type := OTHER; typeSize := 2;
     pointer := [0; 100] |}.

(** A 4 x 2 x 1 volume with the values 0 .. 7. *)
Definition eightVoxels : MemImage :=
  {| width := 4; height := 2; slices := 1; type := UBYTE; typeSize := 1;
     pointer := [0; 1; 2; 3; 4; 5; 6; 7] |}.

(** The abort flag is never set. *)
Definition neverAbort : nat -> bool := fun _ => false.


(** A freshly constructed object. *)
Definition freshWorld (minCubeSize : Z) : World :=
  {| tree := Octree_ctor minCubeSize; reads := 0 |}.

(** The tree [setImage] leaves for an image when the flag is never set. *)
Definition builtTree (image : MemImage) (minCubeSize : Z) : Octree :=
  match setImage neverAbort 4 image (freshWorld minCubeSize) with
  | Ret _ w => tree w
  | _ => Octree_ctor minCubeSize
  end.

(** [twoVoxels] with one cell per voxel at the finest layer, and with a
    single cell. *)
Definition twoVoxelsTree : Octree := Eval vm_compute in builtTree twoVoxels 1.
Definition twoVoxelsCoarse : Octree := Eval vm_compute in builtTree twoVoxels 2.

(** *** Padded axes *)

(** The layers of an axis that stopped splitting after [length p] layers,
    in a tree of [n] layers: the [while (nx < m_numLayers)] loop of
    [setImage] repeats the last layer. *)
Definition padded (p : Grid) (n : nat) : Grid :=
  p ++ repeat (nth (length p - 1) p []) (n - length p).

(** *** Callers of the two public operations *)

(** A call of [setInsideRange(min, max)] or of [enumerate()], its result
    dropped as in [if (octree.setInsideRange(..)) octree.enumerate();]. *)
Inductive Call : Type :=
| SetInsideRange (min max : Z)
| Enumerate.

Definition runCall (fuel : nat) (call : Call) : M Octree unit :=
  match call with
  | SetInsideRange min max => setInsideRange fuel min max ;;; ret tt
  | Enumerate => enumerate fuel ;;; ret tt
  end.

(** The calls of a caller, one after the other. *)
Definition runCalls (fuel : nat) (calls : list Call) : M Octree unit :=
  foldM (fun _ call => runCall fuel call) tt calls.

(** A [setInsideRange] call with bounds other than the ones the
    constructors store. *)
Definition properRange (call : Call) : bool :=
  match call with
  | SetInsideRange min max => negb ((min =? INT_MIN) && (max =? INT_MAX))
  | Enumerate => false
  end.

(** No [enumerate] comes before the first [setInsideRange] with bounds
    other than the constructors'; [seen] tells whether there was one
    already. *)
Fixpoint ordered (seen : bool) (calls : list Call) : bool :=
  match calls with
  | [] => true
  | Enumerate :: rest => seen && ordered seen rest
  | call :: rest => ordered (seen || properRange call) rest
  end.

(** The bounds of the last [setInsideRange] call, [cur] when there is
    none. *)
Fixpoint lastRange (cur : Z * Z) (calls : list Call) : Z * Z :=
  match calls with
  | [] => cur
  | SetInsideRange min max :: rest => lastRange (min, max) rest
  | Enumerate :: rest => lastRange cur rest
  end.

(** *** More example volumes *)

(** One voxel with the value 5. *)
Definition oneVoxel : MemImage :=
  {| width := 1; height := 1; slices := 1; type := UBYTE; typeSize := 1;
     pointer := [5] |}.

(** Two voxels along x, both with the value 50. *)
Definition twoFifties : MemImage :=
  {| width := 2; height := 1; slices := 1; type := UBYTE; typeSize := 1;
     pointer := [50; 50] |}.

(** Two voxels along y. *)
Definition twoRows : MemImage :=
  {| width := 1; height := 2; slices := 1; type := UBYTE; typeSize := 1;
     pointer := [1; 2] |}.

(** Eight voxels along z. *)
Definition eightSlices : MemImage :=
  {| width := 1; height := 1; slices := 8; type := UBYTE; typeSize := 1;
     pointer := [1; 2; 3; 4; 5; 6; 7; 8] |}.

(** Four voxels along x. *)
Definition fourVoxels : MemImage :=
  {| width := 4; height := 1; slices := 1; type := UBYTE; typeSize := 1;
     pointer := [7; 200; 3; 9] |}.

(** [Octree octree(minCubeSize); octree.setImage(first);
    octree.setImage(second);] with the abort flag never set. *)
Definition rebind (minCubeSize : Z) (first second : MemImage) : Res World unit :=
  (setImage neverAbort 8 first ;;; setImage neverAbort 8 second) (freshWorld minCubeSize).

(** *** The client of the class *)

(** [bool isUsable() const] *)
Definition isUsable : M Octree bool :=
  t <- get ;; ret (m_usable t).

(** [const std::vector<int>& getCubesInside() const] *)
Definition getCubesInside : M Octree (list Z) :=
  t <- get ;; ret (m_cubesInside t).

(** The client's use of a constructed object for one pair of intensities,
    taken as [int]s:
    [if (octree.isUsable()) {
       if (octree.setInsideRange(minIntesity, maxIntensity)) octree.enumerate();
       const vector<int>& cubes = octree.getCubesInside();
       performOptimizedRendering(image, cubes);
     } else performUnoptimizedRendering(image);]
    The result [Some cubes] is the list handed to the optimized renderer,
    [None] the unoptimized rendering. *)
Definition render (fuel : nat) (minIntensity maxIntensity : Z)
    : M Octree (option (list Z)) :=
  usable <- isUsable ;;
  if usable then
    changed <- setInsideRange fuel minIntensity maxIntensity ;;
    (if changed then enumerate fuel ;;; ret tt else ret tt) ;;;
    cubes <- getCubesInside ;;
    ret (Some cubes)
  else ret None.

(** The client run once per pair of intensities, on the same object. *)
Definition renders (fuel : nat) (ranges : list (Z * Z))
    : M Octree (list (option (list Z))) :=
  mapM (fun '(lo, hi) => render fuel lo hi) ranges.

(** A pair of intensities other than the bounds the constructors store. *)
Definition properPair (range : Z * Z) : bool :=
  negb ((fst range =? INT_MIN) && (snd range =? INT_MAX)).

(** *** The voxel counter *)

(** The number of voxels of a box. *)
Definition boxVolume (b : Box) : Z := extentX b * extentY b * extentZ b.

(** What a call of [checkChildren] on node [(x, y, z)] of [layer] adds to
    [m_voxelsInside]: the voxels of the finest-layer cells below the node
    that it reaches and does not reject; [k] is the number of layers below
    [layer]. *)
Fixpoint specVoxels (image : MemImage) (t : Octree) (lo hi : Z) (k : nat)
    (layer x y z : nat) : Z :=
  if rejected lo hi (filledElem image t layer x y z) then 0
  else
    match k with
    | O => extent (nth layer (m_gridX t) []) x * extent (nth layer (m_gridY t) []) y
           * extent (nth layer (m_gridZ t) []) z
    | S k' =>
        zsum (map (fun '(cx, cy, cz) => specVoxels image t lo hi k' (S layer) cx cy cz)
                (children t layer x y z))
    end.

(** *** Intermediate states of the fill loops *)

Unset Implicit Arguments.

(** The elements the finest-layer loop nest has written after a cell, a
    row of cells and a slice of rows. *)
Definition finestCell (image : MemImage) (lx ly lz : list Z) (x y z : nat)
    : OctreeElement :=
  cellScan image (offset lx x) (offset ly y) (offset lz z)
    (extent lx x) (extent ly y) (extent lz z).

Definition finestRow (image : MemImage) (lx ly lz : list Z) (y z : nat)
    : list OctreeElement :=
  map (fun x => finestCell image lx ly lz x y z) (seq 0 (length lx)).

Definition finestSlice (image : MemImage) (lx ly lz : list Z) (z : nat)
    : list OctreeElement :=
  flat_map (fun y => finestRow image lx ly lz y z) (seq 0 (length ly)).

(** What the propagation loop of [layer] relies on: the split to the
    layer below and that layer's array. *)
Definition upReady (layer nxx nyy nzz : nat) (down : list OctreeElement) (t : Octree)
    : Prop :=
  getSplit layer t = Ret (nxx, nyy, nzz) t /\
  nth_error (m_data t) (layer + 1) = Some down.

(** The elements the propagation loop nest has written after a cell, a
    row of cells and a slice of rows. *)
Definition upCell (nx ny nxx nyy nzz : nat) (down : list OctreeElement) (x y z : nat)
    : OctreeElement :=
  cellMerge down nx ny nxx nyy nzz x y z.

Definition upRow (nx ny nxx nyy nzz : nat) (down : list OctreeElement) (y z : nat)
    : list OctreeElement :=
  map (fun x => upCell nx ny nxx nyy nzz down x y z) (seq 0 nx).

Definition upSlice (nx ny nxx nyy nzz : nat) (down : list OctreeElement) (z : nat)
    : list OctreeElement :=
  flat_map (fun y => upRow nx ny nxx nyy nzz down y z) (seq 0 ny).

(** One iteration of a [z] loop of [fill]: the test of the abort flag,
    then the body on the object. *)
Definition guarded (abortThread : nat -> bool) {A X : Type}
    (body : A -> X -> M Octree A) (acc : A) (x : X) : M World A :=
  checkAbort abortThread ;;; onTree (body acc x).

(** *** Tactics for the example volumes *)

Ltac prove_wfImage :=
  unfold wfImage; cbn; repeat split; try lia; repeat constructor; lia.

Ltac prove_supported := left; reflexivity.

Ltac prove_filled :=
  exists neverAbort, 4%nat, 0%nat; eexists;
  split; [vm_compute; reflexivity | split; reflexivity].

(** * Properties *)

(** ** Monad laws used as rewriting rules *)

Lemma bind_unfold {S A B} (m : M S A) (f : A -> M S B) (s : S) :
  bind m f s = match m s with
               | Ret a s' => f a s'
               | Exc s' => Exc s'
               | Fault => Fault
               | Diverge => Diverge
               end.
Proof. reflexivity. Qed.

Lemma bind_Ret {S A B} {m : M S A} (f : A -> M S B) {s s' : S} {a : A} :
  m s = Ret a s' -> bind m f s = f a s'.
Proof. intros H. unfold bind. now rewrite H. Qed.

Lemma foldM_app {S A X} (body : A -> X -> M S A) (l1 l2 : list X) (acc : A) (s : S) :
  foldM body acc (l1 ++ l2) s = bind (foldM body acc l1) (fun a => foldM body a l2) s.
Proof.
  revert acc s. induction l1 as [|x l1 IH]; intros acc s; simpl.
  - reflexivity.
  - unfold bind. destruct (body acc x s) as [a s'| | |]; auto.
Qed.

(** ** The layer grid builder *)

Lemma zsum_splitLayer (cur : list Z) : zsum (splitLayer cur) = zsum cur.
Proof. induction cur as [|s cur IH]; simpl; [reflexivity | lia]. Qed.

Lemma length_splitLayer (cur : list Z) : length (splitLayer cur) = (2 * length cur)%nat.
Proof. induction cur as [|s cur IH]; simpl; [reflexivity | lia]. Qed.

Lemma splitLayer_flat_map (cur : list Z) :
  splitLayer cur = flat_map (fun s => [Z.quot s 2; s - Z.quot s 2]) cur.
Proof. induction cur as [|s cur IH]; simpl; [reflexivity | now rewrite IH]. Qed.

Lemma quot2_bounds (s h : Z) : 1 <= h -> 2 * h <= s ->
  h <= Z.quot s 2 /\ h <= s - Z.quot s 2 /\ Z.quot s 2 = s / 2.
Proof.
  intros Hh Hs. rewrite Z.quot_div_nonneg by lia.
  pose proof (Z.div_mod s 2 ltac:(lia)). pose proof (Z.mod_pos_bound s 2 ltac:(lia)).
  lia.
Qed.

Lemma splitLayer_lower (h : Z) (cur : list Z) : 1 <= h ->
  Forall (fun s => 2 * h <= s) cur -> Forall (fun s => h <= s) (splitLayer cur).
Proof.
  intros Hh. induction 1 as [|s cur Hs _ IH]; simpl; constructor.
  - apply (quot2_bounds s h); assumption.
  - constructor; [apply (quot2_bounds s h); assumption | exact IH].
Qed.

Lemma loop_fuel_mono (fuel : nat) : forall fuel' mcs h layer g n g',
  createLayerGrid_loop fuel mcs h layer g = Ret n g' -> (fuel <= fuel')%nat ->
  createLayerGrid_loop fuel' mcs h layer g = Ret n g'.
Proof.
  induction fuel as [|fuel IH]; intros fuel' mcs h layer g n g' H Hle.
  - discriminate.
  - destruct fuel' as [|fuel']; [lia|]. simpl in *.
    destruct (h >=? mcs); [|exact H].
    unfold bind, get in *. destruct (nth_error g layer); simpl in *; [|discriminate].
    apply IH; [exact H | lia].
Qed.

(** The loop never reads outside the vector, whatever it held on entry. *)
Lemma loop_returns (fuel : nat) : forall mcs h layer g,
  1 <= mcs -> (Z.to_nat h < fuel)%nat -> (layer < length g)%nat ->
  exists n g', createLayerGrid_loop fuel mcs h layer g = Ret n g'.
Proof.
  induction fuel as [|fuel IH]; intros mcs h layer g Hmcs Hfuel Hlayer; [lia|].
  simpl. destruct (Z.geb_spec h mcs) as [Hge|Hlt].
  - unfold bind, get. destruct (nth_error g layer) as [cur|] eqn:Hcur.
    + simpl. apply IH; try assumption.
      * assert (Z.quot h 2 < h) by (apply Z.quot_lt; lia).
        assert (0 <= Z.quot h 2) by (apply Z.quot_pos; lia). lia.
      * rewrite length_app. simpl. lia.
    + apply nth_error_None in Hcur. lia.
  - eauto.
Qed.

Lemma loop_diverges (fuel : nat) : forall mcs h layer g,
  mcs <= 0 -> mcs <= h -> (layer < length g)%nat ->
  createLayerGrid_loop fuel mcs h layer g = Diverge.
Proof.
  induction fuel as [|fuel IH]; intros mcs h layer g Hmcs Hh Hlayer; [reflexivity|].
  simpl. destruct (Z.geb_spec h mcs) as [Hge|Hlt]; [|lia].
  unfold bind, get. destruct (nth_error g layer) as [cur|] eqn:Hcur.
  - simpl. apply IH; try assumption.
    + destruct (Z.le_gt_cases 0 h) as [Hpos|Hneg].
      * pose proof (Z.quot_pos h 2 Hpos ltac:(lia)). lia.
      * assert (0 <= Z.quot (- h) 2) by (apply Z.quot_pos; lia).
        assert (Z.quot (- h) 2 <= - h) by (apply Z.quot_le_upper_bound; lia).
        rewrite Z.quot_opp_l in * by lia. lia.
    + rewrite length_app. simpl. lia.
  - apply nth_error_None in Hcur. lia.
Qed.

Lemma pyramid_snoc (dim h : Z) (g : Grid) (layer : nat) (cur : list Z) :
  1 <= h -> length g = S layer -> pyramid dim g -> nth_error g layer = Some cur ->
  Forall (fun s => 2 * h <= s) cur ->
  pyramid dim (g ++ [splitLayer cur]).
Proof.
  intros Hh Hlen (H0 & Hchain & Hall) Hcur Hbig. repeat split.
  - rewrite nth_error_app1 by lia. exact H0.
  - intros l c nx Hc Hnx.
    destruct (Nat.lt_ge_cases (S l) (length g)) as [Hin|Hout].
    + rewrite nth_error_app1 in Hc, Hnx by lia. eauto.
    + assert (Hl : l = layer).
      { assert (nth_error (g ++ [splitLayer cur]) (S l) <> None) by congruence.
        apply nth_error_Some in H. rewrite length_app in H. simpl in H. lia. }
      subst l. rewrite nth_error_app1 in Hc by lia.
      rewrite nth_error_app2 in Hnx by lia.
      replace (S layer - length g)%nat with O in Hnx by lia. simpl in Hnx.
      congruence.
  - apply Forall_app. split; [exact Hall|]. constructor; [|constructor]. split.
    + eapply Forall_impl; [|apply (splitLayer_lower h); eassumption].
      cbv beta. intros; lia.
    + rewrite zsum_splitLayer. rewrite Forall_forall in Hall.
      apply (Hall cur). eapply nth_error_In; eassumption.
Qed.

Lemma loop_pyramid (fuel : nat) : forall mcs h layer g cur dim,
  1 <= mcs -> (Z.to_nat h < fuel)%nat -> length g = S layer -> pyramid dim g ->
  nth_error g layer = Some cur -> Forall (fun s => 2 * h <= s) cur ->
  exists g', createLayerGrid_loop fuel mcs h layer g = Ret (length g') g' /\
             pyramid dim g' /\ (length g <= length g')%nat.
Proof.
  induction fuel as [|fuel IH]; intros mcs h layer g cur dim Hmcs Hfuel Hlen Hpyr Hcur Hbig;
    [lia|].
  simpl. destruct (Z.geb_spec h mcs) as [Hge|Hlt].
  - unfold bind, get. rewrite Hcur. simpl.
    assert (Hq : 0 <= Z.quot h 2 < h).
    { split; [apply Z.quot_pos; lia | apply Z.quot_lt; lia]. }
    assert (Hq2 : 2 * Z.quot h 2 <= h).
    { rewrite Z.quot_div_nonneg by lia.
      pose proof (Z.div_mod h 2 ltac:(lia)). pose proof (Z.mod_pos_bound h 2 ltac:(lia)).
      lia. }
    destruct (IH mcs (Z.quot h 2) (S layer) (g ++ [splitLayer cur]) (splitLayer cur) dim)
      as (g' & Hrun & Hpyr' & Hlen'); try assumption.
    + lia.
    + rewrite length_app. simpl. lia.
    + apply (@pyramid_snoc dim h g layer cur); auto; lia.
    + rewrite nth_error_app2 by lia.
      replace (S layer - length g)%nat with O by lia. reflexivity.
    + eapply Forall_impl; [|apply (splitLayer_lower h); [lia|eassumption]].
      cbv beta. intros; lia.
    + exists g'. rewrite length_app in Hlen'. simpl in Hlen'.
      split; [exact Hrun | split; [exact Hpyr' | lia]].
  - exists g. unfold ret. rewrite Hlen. replace (layer + 1)%nat with (S layer) by lia.
    split; [reflexivity | split; [exact Hpyr | lia]].
Qed.

Lemma quot2_double_le (d : Z) : 0 <= d -> 2 * Z.quot d 2 <= d.
Proof.
  intros Hd. rewrite Z.quot_div_nonneg by lia.
  pose proof (Z.div_mod d 2 ltac:(lia)). pose proof (Z.mod_pos_bound d 2 ltac:(lia)). lia.
Qed.

Lemma pyramid_single (dim : Z) : 1 <= dim -> pyramid dim [[dim]].
Proof.
  intros Hd. repeat split.
  - intros [|l] c nx Hc Hnx; simpl in Hnx; [discriminate|].
    destruct l; discriminate.
  - repeat constructor; simpl; lia.
Qed.

(** On an empty vector the builder returns a pyramid, and its return value is
    the number of layers. *)
Lemma createLayerGrid_pyramid (mcs dim : Z) : 1 <= mcs -> 1 <= dim ->
  exists g, (forall fuel, (Z.to_nat dim < fuel)%nat ->
               createLayerGrid fuel mcs dim [] = Ret (length g) g) /\
            pyramid dim g /\ (1 <= length g)%nat.
Proof.
  intros Hmcs Hdim.
  assert (Hq : 0 <= Z.quot dim 2 < dim).
  { split; [apply Z.quot_pos; lia | apply Z.quot_lt; lia]. }
  destruct (loop_pyramid (S (Z.to_nat (Z.quot dim 2))) mcs (Z.quot dim 2) O [[dim]] [dim] dim)
    as (g & Hrun & Hpyr & Hlen); auto using pyramid_single.
  - repeat constructor. apply quot2_double_le. lia.
  - exists g. split; [|split; [exact Hpyr | simpl in Hlen; lia]].
    intros fuel Hfuel. unfold createLayerGrid, bind, modify. simpl.
    eapply loop_fuel_mono; [exact Hrun | lia].
Qed.

(** C9.  For every positive [dim] and positive [minCubeSize],
    [createLayerGrid] on an empty grid returns, and returns the number of
    layers it built: layer 0 is [[dim]], the extents of every layer are
    positive and sum to [dim], layer [l] has [2 ^ l] cells, and every later
    layer splits each cell of size [s] of the layer above into [s / 2] and
    [s - s / 2].  For [dim = 8] and [minCubeSize = 2] the layers are
    [[8]], [[4; 4]], [[2; 2; 2; 2]]. *)
Theorem createLayerGrid_layers (dim mcs : Z) :
  0 < dim -> 0 < mcs ->
  (exists fuel grid,
     (forall fuel', (fuel <= fuel')%nat ->
        createLayerGrid fuel' mcs dim [] = Ret (length grid) grid) /\
     nth_error grid 0 = Some [dim] /\
     (forall l cur, nth_error grid l = Some cur ->
        zsum cur = dim /\ Forall (fun s => 0 < s) cur /\ length cur = (2 ^ l)%nat) /\
     (forall l cur next, nth_error grid l = Some cur -> nth_error grid (S l) = Some next ->
        next = flat_map (fun s => [s / 2; s - s / 2]) cur)) /\
  createLayerGrid 3 2 8 [] = Ret 3%nat [[8]; [4; 4]; [2; 2; 2; 2]].
Proof.
  intros Hdim Hmcs. split; [|reflexivity].
  destruct (createLayerGrid_pyramid mcs dim) as (g & Hrun & (H0 & Hchain & Hall) & Hlen);
    try lia.
  exists (S (Z.to_nat dim)), g. rewrite Forall_forall in Hall.
  assert (Hcells : forall l cur, nth_error g l = Some cur -> Forall (fun s => 1 <= s) cur).
  { intros l cur Hcur. apply (Hall cur). eapply nth_error_In; eauto. }
  repeat split.
  - intros fuel' Hf. apply Hrun. lia.
  - exact H0.
  - apply (Hall cur). eapply nth_error_In; eauto.
  - eapply Forall_impl; [|eapply Hcells; eauto]. simpl. intros; lia.
  - revert cur H. induction l as [|l IH]; intros cur Hcur.
    + rewrite H0 in Hcur. injection Hcur as <-. reflexivity.
    + destruct (nth_error g l) as [prev|] eqn:Hprev.
      * rewrite (Hchain l prev cur Hprev Hcur), length_splitLayer, (IH prev eq_refl).
        simpl. lia.
      * apply nth_error_None in Hprev.
        assert (nth_error g (S l) <> None) by congruence.
        apply nth_error_Some in H. lia.
  - intros l cur next Hcur Hnext. rewrite (Hchain l cur next Hcur Hnext).
    rewrite splitLayer_flat_map. specialize (Hcells l cur Hcur).
    clear - Hcells. induction Hcells as [|s cur Hs _ IH]; simpl; [reflexivity|].
    rewrite IH, Z.quot_div_nonneg by lia. reflexivity.
Qed.

(** The layers of an axis of 20 voxels with minimum cube size 3. *)
Lemma createLayerGrid_layers_witness :
  exists fuel grid,
    (forall fuel', (fuel <= fuel')%nat ->
       createLayerGrid fuel' 3 20 [] = Ret (length grid) grid) /\
    nth_error grid 0 = Some [20].
Proof.
  destruct (createLayerGrid_layers 20 3 ltac:(lia) ltac:(lia))
    as [(fuel & grid & Hrun & H0 & _) _].
  exists fuel, grid. split; assumption.
Defined.

(** C10.  With [minCubeSize >= 1], [createLayerGrid] returns for every
    [dim] and every grid it is handed (with enough fuel, and then with any
    more).  With [minCubeSize <= 0] and a halving counter [dim / 2] that
    passes the loop test once, the loop never ends: the call diverges for
    every amount of fuel. *)
Theorem createLayerGrid_termination (mcs dim : Z) (grid : Grid) :
  (1 <= mcs ->
   exists fuel n grid', forall fuel', (fuel <= fuel')%nat ->
     createLayerGrid fuel' mcs dim grid = Ret n grid') /\
  (mcs <= 0 -> mcs <= Z.quot dim 2 ->
   forall fuel, createLayerGrid fuel mcs dim grid = Diverge).
Proof.
  split.
  - intros Hmcs.
    destruct (loop_returns (S (Z.to_nat (Z.quot dim 2))) mcs (Z.quot dim 2) O (grid ++ [[dim]]))
      as (n & g' & Hrun); try lia.
    { rewrite length_app. simpl. lia. }
    exists (S (Z.to_nat (Z.quot dim 2))), n, g'. intros fuel' Hf.
    unfold createLayerGrid, bind, modify. eapply loop_fuel_mono; eauto.
  - intros Hmcs Hh fuel. unfold createLayerGrid, bind, modify.
    apply loop_diverges; try assumption. rewrite length_app. simpl. lia.
Qed.

(** An axis of 5 voxels: the builder returns with minimum cube size 1 and
    diverges with minimum cube size 0. *)
Lemma createLayerGrid_termination_witness :
  (exists fuel n grid', forall fuel', (fuel <= fuel')%nat ->
     createLayerGrid fuel' 1 5 [] = Ret n grid') /\
  (forall fuel, createLayerGrid fuel 0 5 [] = Diverge).
Proof.
  split.
  - apply (proj1 (createLayerGrid_termination 1 5 [])). lia.
  - apply (proj2 (createLayerGrid_termination 0 5 [])).
    + lia.
    + vm_compute. discriminate.
Defined.

(** ** Lists as arrays *)

Lemma length_list_update {A} (l : list A) (i : nat) (a : A) :
  length (list_update l i a) = length l.
Proof. revert i. induction l as [|b l IH]; intros [|i]; simpl; auto. Qed.

Lemma nth_error_list_update_eq {A} (l : list A) (i : nat) (a : A) :
  (i < length l)%nat -> nth_error (list_update l i a) i = Some a.
Proof.
  revert i. induction l as [|b l IH]; intros [|i] H; simpl in *; try lia; auto.
  apply IH. lia.
Qed.

Lemma nth_error_list_update_neq {A} (l : list A) (i j : nat) (a : A) :
  i <> j -> nth_error (list_update l i a) j = nth_error l j.
Proof.
  revert i j. induction l as [|b l IH]; intros [|i] [|j] H; simpl; auto; try lia.
Qed.

Lemma list_update_app {A} (l1 l2 : list A) (b a : A) :
  list_update (l1 ++ b :: l2) (length l1) a = l1 ++ a :: l2.
Proof. induction l1 as [|c l1 IH]; simpl; [reflexivity | now rewrite IH]. Qed.

Lemma list_update_twice {A} (l : list A) (i : nat) (a b : A) :
  list_update (list_update l i a) i b = list_update l i b.
Proof. revert i. induction l as [|c l IH]; intros [|i]; simpl; auto. now rewrite IH. Qed.

Lemma list_update_same {A} (l : list A) (i : nat) (a : A) :
  nth_error l i = Some a -> list_update l i a = l.
Proof.
  revert i. induction l as [|c l IH]; intros [|i] H; simpl in *; try discriminate.
  - now injection H as ->.
  - now rewrite IH.
Qed.

Lemma nth_error_split_at {A} (l : list A) (i : nat) (a : A) :
  nth_error l i = Some a -> l = firstn i l ++ a :: skipn (S i) l.
Proof.
  revert i. induction l as [|c l IH]; intros [|i] H; simpl in *; try discriminate.
  - now injection H as ->.
  - f_equal. now apply IH.
Qed.

Lemma nth_error_nth_default {A} (l : list A) (i : nat) (d : A) :
  (i < length l)%nat -> nth_error l i = Some (nth i l d).
Proof.
  revert i. induction l as [|c l IH]; intros [|i] H; simpl in *; try lia; auto.
  apply IH. lia.
Qed.

(** *** Tabulated layers *)

Lemma length_tab_rows {A} (m : nat) (rows : nat -> list A) (a k : nat) :
  (forall y, length (rows y) = m) ->
  length (flat_map rows (seq a k)) = (k * m)%nat.
Proof.
  intros Hm. revert a. induction k as [|k IH]; intros a; simpl; [reflexivity|].
  rewrite length_app, Hm, IH. reflexivity.
Qed.

Lemma nth_error_tab_rows {A} (m : nat) (rows : nat -> list A) (a k y x : nat) :
  (forall y, length (rows y) = m) -> (y < k)%nat -> (x < m)%nat ->
  nth_error (flat_map rows (seq a k)) (x + m * y) = nth_error (rows (a + y)%nat) x.
Proof.
  intros Hm. revert a y. induction k as [|k IH]; intros a y Hy Hx; [lia|]. simpl.
  destruct y as [|y].
  - rewrite nth_error_app1 by (rewrite Hm; lia).
    f_equal; [f_equal|]; lia.
  - rewrite nth_error_app2 by (rewrite Hm; nia).
    rewrite Hm. replace (x + m * S y - m)%nat with (x + m * y)%nat by nia.
    rewrite IH by lia. f_equal. f_equal. lia.
Qed.

Lemma length_tab3 {A} (nx ny nz : nat) (f : nat -> nat -> nat -> A) :
  length (tab3 nx ny nz f) = (nx * ny * nz)%nat.
Proof.
  unfold tab3. rewrite (length_tab_rows (ny * nx)).
  - lia.
  - intros z. rewrite (length_tab_rows nx); [reflexivity|].
    intros y. now rewrite length_map, length_seq.
Qed.

Lemma nth_error_tab3 {A} (nx ny nz : nat) (f : nat -> nat -> nat -> A) (x y z : nat) :
  (x < nx)%nat -> (y < ny)%nat -> (z < nz)%nat ->
  nth_error (tab3 nx ny nz f) (x + nx * (y + ny * z)) = Some (f x y z).
Proof.
  intros Hx Hy Hz. unfold tab3.
  assert (Hrow : forall z', length (flat_map (fun y' => map (fun x' => f x' y' z') (seq 0 nx))
                                      (seq 0 ny)) = (ny * nx)%nat).
  { intros z'. apply length_tab_rows. intros y'. now rewrite length_map, length_seq. }
  replace (x + nx * (y + ny * z))%nat with ((x + nx * y) + (ny * nx) * z)%nat by nia.
  rewrite (nth_error_tab_rows (ny * nx)) by (auto; nia).
  rewrite (nth_error_tab_rows nx); auto.
  - simpl. rewrite nth_error_map, nth_error_seq.
    destruct (Nat.ltb_spec x nx); [reflexivity | lia].
  - intros y'. now rewrite length_map, length_seq.
Qed.

(** ** Element access *)

Lemma readElement_at {t : Octree} {layer pos : nat} {arr : list OctreeElement}
    {e : OctreeElement} :
  nth_error (m_data t) layer = Some arr -> nth_error arr pos = Some e ->
  readElement layer pos t = Ret e t.
Proof.
  intros Harr He. unfold readElement, bind, get. rewrite Harr. simpl. rewrite He.
  reflexivity.
Qed.

Lemma modifyElement_at {t : Octree} {layer pos : nat} {arr : list OctreeElement}
    {e : OctreeElement} (f : OctreeElement -> OctreeElement) :
  nth_error (m_data t) layer = Some arr -> nth_error arr pos = Some e ->
  modifyElement layer pos f t = Ret tt (withLayer layer (list_update arr pos (f e)) t).
Proof.
  intros Harr He. unfold modifyElement, bind, get. rewrite Harr. simpl. rewrite He.
  reflexivity.
Qed.

Lemma withLayer_data (t : Octree) (layer : nat) (arr : list OctreeElement) :
  m_data (withLayer layer arr t) = list_update (m_data t) layer arr.
Proof. reflexivity. Qed.

Lemma withLayer_twice (t : Octree) (layer : nat) (a b : list OctreeElement) :
  withLayer layer b (withLayer layer a t) = withLayer layer b t.
Proof. unfold withLayer, set_data. simpl. now rewrite list_update_twice. Qed.

Lemma withLayer_same (t : Octree) (layer : nat) (arr : list OctreeElement) :
  nth_error (m_data t) layer = Some arr -> withLayer layer arr t = t.
Proof.
  intros H. unfold withLayer, set_data. rewrite (list_update_same _ _ _ H).
  destruct t; reflexivity.
Qed.

Lemma withLayer_lookup (t : Octree) (layer : nat) (arr : list OctreeElement) :
  (layer < length (m_data t))%nat ->
  nth_error (m_data (withLayer layer arr t)) layer = Some arr.
Proof. intros H. simpl. now apply nth_error_list_update_eq. Qed.

Lemma withLayer_lookup_other (t : Octree) (layer l : nat) (arr : list OctreeElement) :
  layer <> l ->
  nth_error (m_data (withLayer layer arr t)) l = nth_error (m_data t) l.
Proof. intros H. simpl. now apply nth_error_list_update_neq. Qed.

(** ** Pure loop bodies *)

Lemma foldM_pure {S A X} (body : A -> X -> M S A) (f : A -> X -> A) (l : list X) (s : S) :
  (forall a x, In x l -> body a x s = Ret (f a x) s) ->
  forall acc, foldM body acc l s = Ret (fold_left f l acc) s.
Proof.
  induction l as [|x l IH]; intros H acc; simpl; [reflexivity|].
  unfold bind. rewrite H by (now left). apply IH. intros a y Hy. apply H. now right.
Qed.

Lemma fold_left_flat_map {A X Y} (f : A -> Y -> A) (g : X -> list Y) (l : list X) (acc : A) :
  fold_left f (flat_map g l) acc = fold_left (fun a x => fold_left f (g x) a) l acc.
Proof.
  revert acc. induction l as [|x l IH]; intros acc; simpl; [reflexivity|].
  now rewrite fold_left_app, IH.
Qed.

Lemma for3_pure {S A X} (body : A -> X -> X -> X -> M S A) (f : A -> X * X * X -> A)
    (zs ys xs : list X) (s : S) :
  (forall a xx yy zz, In xx xs -> In yy ys -> In zz zs ->
                      body a xx yy zz s = Ret (f a (xx, yy, zz)) s) ->
  forall acc, for3 zs ys xs body acc s = Ret (fold_left f (triples zs ys xs) acc) s.
Proof.
  intros H acc. unfold for3, triples. rewrite fold_left_flat_map.
  apply foldM_pure. intros a zz Hzz. rewrite fold_left_flat_map.
  apply foldM_pure. intros a' yy Hyy.
  rewrite (foldM_pure _ (fun a xx => f a (xx, yy, zz))) by (intros; now apply H).
  f_equal. clear. revert a'. induction xs as [|x xs IH]; intros a'; simpl; auto.
Qed.

Lemma in_triples {X} (zs ys xs : list X) (xx yy zz : X) :
  In (xx, yy, zz) (triples zs ys xs) <-> In xx xs /\ In yy ys /\ In zz zs.
Proof.
  unfold triples. rewrite in_flat_map. split.
  - intros (z & Hz & H). apply in_flat_map in H as (y & Hy & H).
    apply in_map_iff in H as (x & Heq & Hx). injection Heq as <- <- <-. auto.
  - intros (Hx & Hy & Hz). exists zz. split; [exact Hz|].
    apply in_flat_map. exists yy. split; [exact Hy|].
    apply in_map_iff. exists xx. auto.
Qed.

Lemma in_zrange (n v : Z) : In v (zrange n) <-> 0 <= v < n.
Proof.
  unfold zrange. rewrite in_map_iff. split.
  - intros (k & <- & Hk). apply in_seq in Hk. lia.
  - intros H. exists (Z.to_nat v). split; [lia|]. apply in_seq. lia.
Qed.

(** ** Offsets along one axis *)

Lemma zsum_cons (s : Z) (l : list Z) : zsum (s :: l) = s + zsum l.
Proof. reflexivity. Qed.

Lemma zsum_app (l1 l2 : list Z) : zsum (l1 ++ l2) = zsum l1 + zsum l2.
Proof. induction l1 as [|s l1 IH]; [reflexivity|]. simpl app. rewrite !zsum_cons, IH. lia. Qed.

Lemma offset_S (cells : list Z) (p : nat) :
  offset cells (S p) = offset cells p + extent cells p.
Proof.
  unfold offset, extent. revert p. induction cells as [|s cells IH]; intros [|p];
    try (simpl; lia).
  specialize (IH p). change (firstn (S (S p)) (s :: cells)) with (s :: firstn (S p) cells).
  change (firstn (S p) (s :: cells)) with (s :: firstn p cells).
  change (nth (S p) (s :: cells) 0) with (nth p cells 0).
  rewrite !zsum_cons. lia.
Qed.

Lemma offset_0 (cells : list Z) : offset cells 0 = 0.
Proof. reflexivity. Qed.

Lemma offset_all (cells : list Z) (p : nat) :
  (length cells <= p)%nat -> offset cells p = zsum cells.
Proof. intros H. unfold offset. now rewrite firstn_all2. Qed.

Lemma extent_nonneg (cells : list Z) (p : nat) :
  Forall (fun s => 0 <= s) cells -> 0 <= extent cells p.
Proof.
  intros H. unfold extent. destruct (Nat.lt_ge_cases p (length cells)) as [Hp|Hp].
  - rewrite Forall_forall in H. apply H. now apply nth_In.
  - rewrite nth_overflow by lia. lia.
Qed.

Lemma offset_mono (cells : list Z) (p q : nat) :
  Forall (fun s => 0 <= s) cells -> (p <= q)%nat -> offset cells p <= offset cells q.
Proof.
  intros H Hpq. induction Hpq as [|q _ IH]; [lia|].
  rewrite offset_S. pose proof (extent_nonneg cells q H). lia.
Qed.

Lemma offset_bounds (cells : list Z) (p : nat) :
  Forall (fun s => 0 <= s) cells ->
  0 <= offset cells p /\ offset cells p + extent cells p <= zsum cells.
Proof.
  intros H. split.
  - rewrite <- (offset_0 cells). apply offset_mono; [assumption | lia].
  - rewrite <- offset_S, <- (offset_all cells (Nat.max (S p) (length cells))) by lia.
    apply offset_mono; [assumption | lia].
Qed.

(** ** The finest layer *)

Section FinestFill.

Variable image : MemImage.
Variable last : nat.
Variables lx ly lz : list Z.

Hypothesis Hpointer :
  Z.of_nat (length (pointer image)) = width image * height image * slices image.
Hypothesis Hlx : Forall (fun s => 0 <= s) lx.
Hypothesis Hly : Forall (fun s => 0 <= s) ly.
Hypothesis Hlz : Forall (fun s => 0 <= s) lz.
Hypothesis Hsx : zsum lx = width image.
Hypothesis Hsy : zsum ly = height image.
Hypothesis Hsz : zsum lz = slices image.

Lemma scanVoxel_pure (t : Octree) (px py pz sx sy sz : Z) (e : OctreeElement)
    (xx yy zz : Z) :
  0 <= px -> px + sx <= width image -> 0 <= py -> py + sy <= height image ->
  0 <= pz -> pz + sz <= slices image ->
  0 <= xx < sx -> 0 <= yy < sy -> 0 <= zz < sz ->
  scanVoxel image px py pz e xx yy zz t
  = Ret (scanStep e (voxelAt image (px + xx) (py + yy) (pz + zz))) t.
Proof.
  intros. unfold scanVoxel, bind, zget, voxelAt.
  set (i := px + xx + width image * (py + yy + height image * (pz + zz))).
  assert (Hi : 0 <= i < Z.of_nat (length (pointer image))).
  { rewrite Hpointer. subst i.
    assert (0 <= height image * (pz + zz)) by (apply Z.mul_nonneg_nonneg; lia).
    assert (height image * (pz + zz) <= height image * (slices image - 1))
      by (apply Z.mul_le_mono_nonneg_l; lia).
    set (r := py + yy + height image * (pz + zz)) in *.
    assert (0 <= r <= height image * slices image - 1) by lia.
    assert (0 <= width image * r) by (apply Z.mul_nonneg_nonneg; lia).
    assert (width image * r <= width image * (height image * slices image - 1))
      by (apply Z.mul_le_mono_nonneg_l; lia).
    lia. }
  destruct (Z.ltb_spec i 0); [lia|].
  rewrite (nth_error_nth_default _ _ 0) by lia. reflexivity.
Qed.

Lemma scanCell_run (t : Octree) (px py pz sx sy sz : Z) :
  0 <= px -> px + sx <= width image -> 0 <= py -> py + sy <= height image ->
  0 <= pz -> pz + sz <= slices image ->
  for3 (zrange sz) (zrange sy) (zrange sx) (scanVoxel image px py pz)
    OctreeElement_ctor t
  = Ret (cellScan image px py pz sx sy sz) t.
Proof.
  intros. unfold cellScan.
  rewrite (for3_pure _
    (fun e '(xx, yy, zz) => scanStep e (voxelAt image (px + xx) (py + yy) (pz + zz))));
    [reflexivity|].
  intros a xx yy zz Hx Hy Hz. apply in_zrange in Hx, Hy, Hz.
  now apply scanVoxel_pure with (sx := sx) (sy := sy) (sz := sz).
Qed.


Lemma fillFinestCell_run (t : Octree) (done rest : list OctreeElement) (x y z : nat) :
  nth_error (m_data t) last = Some (done ++ OctreeElement_ctor :: rest) ->
  fillFinestCell image last lx ly lz (offset lz z) (offset ly y) z y
    (offset lx x, length done) x t
  = Ret (offset lx (S x), S (length done))
        (withLayer last (done ++ (finestCell image lx ly lz) x y z :: rest) t).
Proof.
  intros Hdata. unfold fillFinestCell. cbv beta iota.
  assert (He : nth_error (done ++ OctreeElement_ctor :: rest) (length done)
               = Some OctreeElement_ctor).
  { rewrite nth_error_app2 by lia. now rewrite Nat.sub_diag. }
  rewrite (bind_Ret _ (readElement_at Hdata He)).
  pose proof (offset_bounds lx x Hlx). pose proof (offset_bounds ly y Hly).
  pose proof (offset_bounds lz z Hlz).
  rewrite (bind_Ret _ (scanCell_run t (offset lx x) (offset ly y) (offset lz z)
             (extent lx x) (extent ly y) (extent lz z)
             ltac:(lia) ltac:(unfold extent in *; lia) ltac:(lia)
             ltac:(unfold extent in *; lia) ltac:(lia) ltac:(unfold extent in *; lia))).
  rewrite (bind_Ret _ (modifyElement_at (fun _ => _) Hdata He)).
  unfold ret. rewrite list_update_app, offset_S. reflexivity.
Qed.

Lemma fillFinestRow_cells (k : nat) : forall (a : nat) (t : Octree)
    (done rest : list OctreeElement) (y z : nat),
  nth_error (m_data t) last = Some (done ++ repeat OctreeElement_ctor k ++ rest) ->
  foldM (fillFinestCell image last lx ly lz (offset lz z) (offset ly y) z y)
    (offset lx a, length done) (seq a k) t
  = Ret (offset lx (a + k), (length done + k)%nat)
        (withLayer last (done ++ map (fun x => (finestCell image lx ly lz) x y z) (seq a k) ++ rest) t).
Proof.
  induction k as [|k IH]; intros a t done rest y z Hdata; simpl.
  - unfold ret. rewrite withLayer_same by assumption.
    now rewrite !Nat.add_0_r.
  - simpl in Hdata. rewrite (bind_Ret _ (fillFinestCell_run t _ _ a y z Hdata)).
    assert (Hlast : (last < length (m_data t))%nat).
    { apply nth_error_Some. congruence. }
    set (t1 := withLayer last _ t).
    specialize (IH (S a) t1 (done ++ [(finestCell image lx ly lz) a y z]) rest y z).
    rewrite length_app in IH. simpl in IH.
    replace (length done + 1)%nat with (S (length done)) in IH by lia.
    rewrite IH.
    + subst t1. rewrite withLayer_twice, <- app_assoc. simpl.
      do 2 f_equal; [f_equal|]; lia.
    + subst t1. rewrite nth_error_list_update_eq by assumption.
      now rewrite <- app_assoc.
Qed.


Lemma length_finestRow (y z : nat) : length ((finestRow image lx ly lz) y z) = length lx.
Proof. unfold finestRow. now rewrite length_map, length_seq. Qed.

Lemma fillFinestRow_run (t : Octree) (done rest : list OctreeElement) (y z : nat) :
  nth_error (m_data t) last
  = Some (done ++ repeat OctreeElement_ctor (length lx) ++ rest) ->
  fillFinestRow image last lx ly lz (offset lz z) z (offset ly y, length done) y t
  = Ret (offset ly (S y), (length done + length lx)%nat)
        (withLayer last (done ++ (finestRow image lx ly lz) y z ++ rest) t).
Proof.
  intros Hdata. unfold fillFinestRow. cbv beta iota.
  change 0 with (offset lx 0).
  rewrite (bind_Ret _ (fillFinestRow_cells (length lx) 0 t done rest y z Hdata)).
  unfold ret. now rewrite offset_S.
Qed.

Lemma fillFinestSlice_rows (k : nat) : forall (a : nat) (t : Octree)
    (done rest : list OctreeElement) (z : nat),
  nth_error (m_data t) last
  = Some (done ++ repeat OctreeElement_ctor (k * length lx) ++ rest) ->
  foldM (fillFinestRow image last lx ly lz (offset lz z) z)
    (offset ly a, length done) (seq a k) t
  = Ret (offset ly (a + k), (length done + k * length lx)%nat)
        (withLayer last (done ++ flat_map (fun y => (finestRow image lx ly lz) y z) (seq a k) ++ rest) t).
Proof.
  induction k as [|k IH]; intros a t done rest z Hdata; simpl.
  - unfold ret. rewrite withLayer_same by assumption.
    now rewrite !Nat.add_0_r.
  - simpl in Hdata. rewrite repeat_app, <- app_assoc in Hdata.
    rewrite (bind_Ret _ (fillFinestRow_run t _ _ a z Hdata)).
    assert (Hlast : (last < length (m_data t))%nat).
    { apply nth_error_Some. congruence. }
    set (t1 := withLayer last _ t).
    specialize (IH (S a) t1 (done ++ (finestRow image lx ly lz) a z) rest z).
    rewrite length_app, length_finestRow in IH.
    rewrite IH.
    + subst t1. rewrite withLayer_twice, <- !app_assoc.
      do 2 f_equal; [f_equal|]; lia.
    + subst t1. rewrite withLayer_lookup by assumption.
      now rewrite <- app_assoc.
Qed.


Lemma length_finestSlice (z : nat) :
  length ((finestSlice image lx ly lz) z) = (length ly * length lx)%nat.
Proof. apply length_tab_rows. intros y. apply length_finestRow. Qed.

Lemma fillFinestSlice_run (t : Octree) (done rest : list OctreeElement) (z : nat) :
  nth_error (m_data t) last
  = Some (done ++ repeat OctreeElement_ctor (length ly * length lx) ++ rest) ->
  fillFinestSlice image last lx ly lz (offset lz z, length done) z t
  = Ret (offset lz (S z), (length done + length ly * length lx)%nat)
        (withLayer last (done ++ (finestSlice image lx ly lz) z ++ rest) t).
Proof.
  intros Hdata. unfold fillFinestSlice. cbv beta iota.
  change 0 with (offset ly 0).
  rewrite (bind_Ret _ (fillFinestSlice_rows (length ly) 0 t done rest z Hdata)).
  unfold ret. now rewrite offset_S.
Qed.

Lemma fillFinestLayer_slices (k : nat) : forall (a : nat) (t : Octree)
    (done rest : list OctreeElement),
  nth_error (m_data t) last
  = Some (done ++ repeat OctreeElement_ctor (k * (length ly * length lx)) ++ rest) ->
  foldM (fillFinestSlice image last lx ly lz) (offset lz a, length done) (seq a k) t
  = Ret (offset lz (a + k), (length done + k * (length ly * length lx))%nat)
        (withLayer last (done ++ flat_map (finestSlice image lx ly lz) (seq a k) ++ rest) t).
Proof.
  induction k as [|k IH]; intros a t done rest Hdata.
  - simpl. unfold ret. rewrite withLayer_same by assumption.
    now rewrite !Nat.add_0_r.
  - cbn [seq foldM flat_map] in *.
    replace (S k * (length ly * length lx))%nat
      with (length ly * length lx + k * (length ly * length lx))%nat in Hdata by lia.
    rewrite repeat_app, <- app_assoc in Hdata.
    rewrite (bind_Ret _ (fillFinestSlice_run t _ _ a Hdata)).
    assert (Hlast : (last < length (m_data t))%nat).
    { apply nth_error_Some. congruence. }
    set (t1 := withLayer last _ t).
    specialize (IH (S a) t1 (done ++ (finestSlice image lx ly lz) a) rest).
    rewrite length_app, length_finestSlice in IH.
    rewrite IH.
    + subst t1. rewrite withLayer_twice, <- !app_assoc.
      replace (a + S k)%nat with (S a + k)%nat by lia.
      replace (length done + length ly * length lx + k * (length ly * length lx))%nat
        with (length done + S k * (length ly * length lx))%nat by lia.
      reflexivity.
    + subst t1. rewrite withLayer_lookup by assumption.
      now rewrite <- app_assoc.
Qed.

End FinestFill.

(** ** The coarser layers *)

Lemma getSplit_frame (layer : nat) (t t' : Octree) (r : nat * nat * nat) :
  m_gridX t' = m_gridX t -> m_gridY t' = m_gridY t -> m_gridZ t' = m_gridZ t ->
  getSplit layer t = Ret r t -> getSplit layer t' = Ret r t'.
Proof.
  intros HX HY HZ. unfold getSplit, bind, get. rewrite HX, HY, HZ.
  repeat match goal with
         | |- context [lift ?o _] => destruct o; simpl; try discriminate
         end.
  destruct (_ || _); [discriminate|]. unfold ret. intros H. injection H as <-. reflexivity.
Qed.

Lemma getSplit_run (layer : nat) (t : Octree) (x0 x1 y0 y1 z0 z1 : list Z) :
  nth_error (m_gridX t) layer = Some x0 -> nth_error (m_gridX t) (S layer) = Some x1 ->
  nth_error (m_gridY t) layer = Some y0 -> nth_error (m_gridY t) (S layer) = Some y1 ->
  nth_error (m_gridZ t) layer = Some z0 -> nth_error (m_gridZ t) (S layer) = Some z1 ->
  x0 <> [] -> y0 <> [] -> z0 <> [] ->
  getSplit layer t
  = Ret ((length x1 / length x0)%nat, (length y1 / length y0)%nat,
         (length z1 / length z0)%nat) t.
Proof.
  intros Hx0 Hx1 Hy0 Hy1 Hz0 Hz1 Nx Ny Nz. unfold getSplit, bind, get.
  replace (layer + 1)%nat with (S layer) by lia.
  rewrite Hx0, Hx1, Hy0, Hy1, Hz0, Hz1. simpl.
  destruct x0, y0, z0; try congruence. reflexivity.
Qed.

Lemma index3_lt (a b c A B C : nat) :
  (a < A)%nat -> (b < B)%nat -> (c < C)%nat -> (a + A * (b + B * c) < A * B * C)%nat.
Proof.
  intros Ha Hb Hc.
  assert (H1 : (B * (c + 1) <= B * C)%nat) by (apply Nat.mul_le_mono_l; lia).
  rewrite Nat.mul_add_distr_l, Nat.mul_1_r in H1.
  assert (H2 : (A * (b + B * c + 1) <= A * (B * C))%nat) by (apply Nat.mul_le_mono_l; lia).
  rewrite Nat.mul_add_distr_l, Nat.mul_1_r, Nat.mul_assoc in H2. lia.
Qed.

Section UpFill.

Variable layer : nat.
Variables nx ny nz : nat.
Variables nxx nyy nzz : nat.
Variable down : list OctreeElement.

Hypothesis Hdown : length down = ((nx * nxx) * (ny * nyy) * (nz * nzz))%nat.


Lemma upReady_withLayer (t : Octree) (arr : list OctreeElement) :
  (upReady layer nxx nyy nzz down) t -> (upReady layer nxx nyy nzz down) (withLayer layer arr t).
Proof.
  intros [Hs Hd]. split.
  - apply (getSplit_frame layer t); [reflexivity .. | exact Hs].
  - rewrite withLayer_lookup_other by lia. exact Hd.
Qed.


Lemma fillUpCell_run (t : Octree) (done rest : list OctreeElement) (x y z : nat) :
  (upReady layer nxx nyy nzz down) t -> (x < nx)%nat -> (y < ny)%nat -> (z < nz)%nat ->
  nth_error (m_data t) layer = Some (done ++ OctreeElement_ctor :: rest) ->
  fillUpCell layer nx ny z y (length done) x t
  = Ret (S (length done)) (withLayer layer (done ++ (upCell nx ny nxx nyy nzz down) x y z :: rest) t).
Proof.
  intros [Hs Hd] Hx Hy Hz Hdata. unfold fillUpCell.
  rewrite (bind_Ret _ Hs). cbv beta iota.
  assert (He : nth_error (done ++ OctreeElement_ctor :: rest) (length done)
               = Some OctreeElement_ctor).
  { rewrite nth_error_app2 by lia. now rewrite Nat.sub_diag. }
  rewrite (bind_Ret _ (readElement_at Hdata He)).
  erewrite (bind_Ret _).
  2:{ apply (for3_pure _
        (fun up '(xx, yy, zz) =>
           mergeDown up
             (nth (nxx * x + xx + nx * nxx * (nyy * y + yy + ny * nyy * (nzz * z + zz)))
                  down OctreeElement_ctor))).
      intros a xx yy zz Hxx Hyy Hzz. apply in_seq in Hxx, Hyy, Hzz.
      erewrite (bind_Ret _); [reflexivity|].
      apply (readElement_at Hd). apply nth_error_nth_default.
      rewrite Hdown. apply index3_lt; nia. }
  rewrite (bind_Ret _ (modifyElement_at (fun _ => _) Hdata He)).
  unfold ret. now rewrite list_update_app.
Qed.

Lemma fillUpRow_cells (k : nat) : forall (a : nat) (t : Octree)
    (done rest : list OctreeElement) (y z : nat),
  (upReady layer nxx nyy nzz down) t -> (a + k <= nx)%nat -> (y < ny)%nat -> (z < nz)%nat ->
  nth_error (m_data t) layer = Some (done ++ repeat OctreeElement_ctor k ++ rest) ->
  foldM (fillUpCell layer nx ny z y) (length done) (seq a k) t
  = Ret (length done + k)%nat
        (withLayer layer (done ++ map (fun x => (upCell nx ny nxx nyy nzz down) x y z) (seq a k) ++ rest) t).
Proof.
  induction k as [|k IH]; intros a t done rest y z Hready Hk Hy Hz Hdata.
  - simpl. unfold ret. rewrite withLayer_same by assumption.
    now rewrite !Nat.add_0_r.
  - cbn [seq foldM repeat app] in *.
    rewrite (bind_Ret _ (fillUpCell_run t _ _ a y z Hready ltac:(lia) Hy Hz Hdata)).
    assert (Hlast : (layer < length (m_data t))%nat).
    { apply nth_error_Some. congruence. }
    set (t1 := withLayer layer _ t).
    specialize (IH (S a) t1 (done ++ [(upCell nx ny nxx nyy nzz down) a y z]) rest y z).
    rewrite length_app in IH. cbn [length] in IH.
    replace (length done + 1)%nat with (S (length done)) in IH by lia.
    rewrite IH; try assumption; try lia.
    + subst t1. rewrite withLayer_twice, <- app_assoc. cbn [map app].
      replace (S (length done) + k)%nat with (length done + S k)%nat by lia.
      reflexivity.
    + now apply upReady_withLayer.
    + subst t1. rewrite withLayer_lookup by assumption.
      now rewrite <- app_assoc.
Qed.


Lemma length_upRow (y z : nat) : length ((upRow nx ny nxx nyy nzz down) y z) = nx.
Proof. unfold upRow. now rewrite length_map, length_seq. Qed.

Lemma fillUpSlice_rows (k : nat) : forall (a : nat) (t : Octree)
    (done rest : list OctreeElement) (z : nat),
  (upReady layer nxx nyy nzz down) t -> (a + k <= ny)%nat -> (z < nz)%nat ->
  nth_error (m_data t) layer = Some (done ++ repeat OctreeElement_ctor (k * nx) ++ rest) ->
  foldM (fun pos y => foldM (fillUpCell layer nx ny z y) pos (seq 0 nx))
    (length done) (seq a k) t
  = Ret (length done + k * nx)%nat
        (withLayer layer (done ++ flat_map (fun y => (upRow nx ny nxx nyy nzz down) y z) (seq a k) ++ rest) t).
Proof.
  induction k as [|k IH]; intros a t done rest z Hready Hk Hz Hdata.
  - simpl. unfold ret. rewrite withLayer_same by assumption.
    now rewrite !Nat.add_0_r.
  - cbn [seq foldM flat_map] in *.
    replace (S k * nx)%nat with (nx + k * nx)%nat in Hdata by lia.
    rewrite repeat_app, <- app_assoc in Hdata.
    rewrite (bind_Ret _ (fillUpRow_cells nx 0 t done _ a z Hready ltac:(lia) ltac:(lia)
               Hz Hdata)).
    assert (Hlast : (layer < length (m_data t))%nat).
    { apply nth_error_Some. congruence. }
    fold ((upRow nx ny nxx nyy nzz down) a z). set (t1 := withLayer layer _ t).
    specialize (IH (S a) t1 (done ++ (upRow nx ny nxx nyy nzz down) a z) rest z).
    rewrite length_app, length_upRow in IH.
    rewrite IH; try assumption; try lia.
    + subst t1. rewrite withLayer_twice, <- !app_assoc.
      replace (length done + nx + k * nx)%nat with (length done + S k * nx)%nat by lia.
      reflexivity.
    + now apply upReady_withLayer.
    + subst t1. rewrite withLayer_lookup by assumption.
      now rewrite <- app_assoc.
Qed.


Lemma length_upSlice (z : nat) : length ((upSlice nx ny nxx nyy nzz down) z) = (ny * nx)%nat.
Proof. apply length_tab_rows. intros y. apply length_upRow. Qed.

Lemma fillUpSlice_run (t : Octree) (done rest : list OctreeElement) (z : nat) :
  (upReady layer nxx nyy nzz down) t -> (z < nz)%nat ->
  nth_error (m_data t) layer
  = Some (done ++ repeat OctreeElement_ctor (ny * nx) ++ rest) ->
  fillUpSlice layer nx ny (length done) z t
  = Ret (length done + ny * nx)%nat (withLayer layer (done ++ (upSlice nx ny nxx nyy nzz down) z ++ rest) t).
Proof.
  intros Hready Hz Hdata. unfold fillUpSlice.
  now rewrite (fillUpSlice_rows ny 0 t done rest z Hready ltac:(lia) Hz Hdata).
Qed.

Lemma fillUpLayer_slices (k : nat) : forall (a : nat) (t : Octree)
    (done rest : list OctreeElement),
  (upReady layer nxx nyy nzz down) t -> (a + k <= nz)%nat ->
  nth_error (m_data t) layer
  = Some (done ++ repeat OctreeElement_ctor (k * (ny * nx)) ++ rest) ->
  foldM (fillUpSlice layer nx ny) (length done) (seq a k) t
  = Ret (length done + k * (ny * nx))%nat
        (withLayer layer (done ++ flat_map (upSlice nx ny nxx nyy nzz down) (seq a k) ++ rest) t).
Proof.
  induction k as [|k IH]; intros a t done rest Hready Hk Hdata.
  - simpl. unfold ret. rewrite withLayer_same by assumption.
    now rewrite !Nat.add_0_r.
  - cbn [seq foldM flat_map] in *.
    replace (S k * (ny * nx))%nat with (ny * nx + k * (ny * nx))%nat in Hdata by lia.
    rewrite repeat_app, <- app_assoc in Hdata.
    rewrite (bind_Ret _ (fillUpSlice_run t _ _ a Hready ltac:(lia) Hdata)).
    assert (Hlast : (layer < length (m_data t))%nat).
    { apply nth_error_Some. congruence. }
    set (t1 := withLayer layer _ t).
    specialize (IH (S a) t1 (done ++ (upSlice nx ny nxx nyy nzz down) a) rest).
    rewrite length_app, length_upSlice in IH.
    rewrite IH; try assumption; try lia.
    + subst t1. rewrite withLayer_twice, <- !app_assoc.
      replace (length done + ny * nx + k * (ny * nx))%nat
        with (length done + S k * (ny * nx))%nat by lia.
      reflexivity.
    + now apply upReady_withLayer.
    + subst t1. rewrite withLayer_lookup by assumption.
      now rewrite <- app_assoc.
Qed.

End UpFill.

(** ** Loops guarded by the abort flag *)

Lemma onTree_Ret {A} (m : M Octree A) (w : World) {a : A} {t' : Octree} :
  m (tree w) = Ret a t' -> onTree m w = Ret a {| tree := t'; reads := reads w |}.
Proof. intros H. unfold onTree, zoom. now rewrite H. Qed.

Section AbortLoop.

Variable abortThread : nat -> bool.
Context {A X : Type}.
Variable body : A -> X -> M Octree A.


Lemma guarded_loop_completes (xs : list X) : forall acc w acc' t',
  foldM body acc xs (tree w) = Ret acc' t' ->
  noAbort abortThread (reads w) (length xs) ->
  foldM (guarded abortThread body) acc xs w = Ret acc' {| tree := t'; reads := (reads w + length xs)%nat |}.
Proof.
  induction xs as [|x xs IH]; intros acc w acc' t' Hrun Hno; simpl in *.
  - unfold ret in *. injection Hrun as <- <-. destruct w. simpl.
    now rewrite Nat.add_0_r.
  - unfold bind at 1 in Hrun. destruct (body acc x (tree w)) as [a1 t1| | |] eqn:Hb;
      try discriminate.
    pose proof (Hno O ltac:(lia)) as H0. rewrite Nat.add_0_r in H0.
    unfold bind at 1, guarded at 1, bind at 1, checkAbort. cbv zeta. rewrite H0.
    rewrite (onTree_Ret (body acc x) {| tree := tree w; reads := S (reads w) |} Hb).
    cbn [reads tree].
    rewrite (IH a1 {| tree := t1; reads := S (reads w) |} acc' t' Hrun).
    + simpl. do 2 f_equal. lia.
    + intros j Hj. cbn [reads].
      replace (S (reads w) + j)%nat with (reads w + S j)%nat by lia.
      apply Hno. lia.
Qed.

Lemma guarded_loop_aborts (xs1 : list X) : forall x xs2 acc w acc1 t1,
  foldM body acc xs1 (tree w) = Ret acc1 t1 ->
  firstAbort abortThread (reads w) (length xs1) ->
  foldM (guarded abortThread body) acc (xs1 ++ x :: xs2) w
  = Exc {| tree := t1; reads := (reads w + length xs1 + 1)%nat |}.
Proof.
  intros x xs2 acc w acc1 t1 Hrun [Hno Hab].
  rewrite foldM_app, (bind_Ret _ (guarded_loop_completes xs1 acc w acc1 t1 Hrun Hno)).
  simpl. unfold bind at 1, guarded, bind at 1, checkAbort. simpl.
  rewrite Hab. do 2 f_equal. lia.
Qed.

End AbortLoop.

(** ** Facts about padded axes *)

Section AxisFacts.

Variables (dim : Z) (n : nat) (g : Grid).
Hypothesis Hdim : 0 < dim.
Hypothesis Hg : axisGrid dim n g.

Lemma axis_layer (l : nat) : (l < n)%nat ->
  nth_error g l = Some (nth l g []) /\
  Forall (fun s => 1 <= s) (nth l g []) /\ zsum (nth l g []) = dim /\
  (0 < length (nth l g []))%nat.
Proof.
  destruct Hg as (Hlen & _ & _ & Hall). intros Hl.
  assert (Hin : In (nth l g []) g) by (apply nth_In; lia).
  rewrite Forall_forall in Hall. destruct (Hall _ Hin) as [Hc Hs].
  repeat split; auto.
  - apply nth_error_nth_default. lia.
  - destruct (nth l g []); simpl in *; lia.
Qed.

Lemma axis_layer_nonneg (l : nat) : (l < n)%nat ->
  Forall (fun s => 0 <= s) (nth l g []).
Proof.
  intros Hl. destruct (axis_layer l Hl) as (_ & Hc & _).
  eapply Forall_impl; [|exact Hc]. cbv beta. intros; lia.
Qed.

Lemma axis_step (l : nat) : (S l < n)%nat ->
  nth (S l) g [] = splitLayer (nth l g []) \/ nth (S l) g [] = nth l g [].
Proof.
  intros Hl. destruct Hg as (Hlen & _ & Hchain & _).
  apply (Hchain l); apply nth_error_nth_default; lia.
Qed.

Lemma axis_ratio (l : nat) : (S l < n)%nat ->
  let r := (length (nth (S l) g []) / length (nth l g []))%nat in
  (r = 1 \/ r = 2)%nat /\ length (nth (S l) g []) = (length (nth l g []) * r)%nat.
Proof.
  intros Hl. destruct (axis_layer l ltac:(lia)) as (_ & _ & _ & Hpos).
  destruct (axis_step l Hl) as [-> | ->]; cbv zeta.
  - rewrite length_splitLayer.
    rewrite Nat.div_mul by lia. split; [right; reflexivity | lia].
  - rewrite Nat.div_same by lia. split; [left; reflexivity | lia].
Qed.

Lemma axis_first : nth 0 g [] = [dim].
Proof.
  destruct Hg as (_ & H0 & _). destruct g; simpl in *; congruence.
Qed.

End AxisFacts.

Lemma guarded_seq_outcome (abortThread : nat -> bool) {A : Type}
    (body : A -> nat -> M Octree A) (acc : A) (n : nat) (w : World)
    (accAt : nat -> A) (stAt : nat -> Octree) :
  (forall k, (k <= n)%nat -> foldM body acc (seq 0 k) (tree w) = Ret (accAt k) (stAt k)) ->
  (noAbort abortThread (reads w) n ->
   foldM (guarded abortThread body) acc (seq 0 n) w
   = Ret (accAt n) {| tree := stAt n; reads := (reads w + n)%nat |}) /\
  (forall k, (k < n)%nat -> firstAbort abortThread (reads w) k ->
   foldM (guarded abortThread body) acc (seq 0 n) w
   = Exc {| tree := stAt k; reads := (reads w + k + 1)%nat |}).
Proof.
  intros Hrun. split.
  - intros Hno.
    rewrite (guarded_loop_completes abortThread body (seq 0 n) acc w (accAt n) (stAt n));
      rewrite ?length_seq; auto.
  - intros k Hk Hab.
    replace n with (k + S (n - S k))%nat at 1 by lia.
    rewrite seq_app. cbn [seq Nat.add].
    rewrite (guarded_loop_aborts abortThread body (seq 0 k) k _ acc w (accAt k) (stAt k));
      rewrite ?length_seq; auto. apply Hrun. lia.
Qed.

(** ** Outcome of the two phases of [fill] *)

Section FillOutcome.

Variable abortThread : nat -> bool.
Variable image : MemImage.
Hypothesis Himage : wfImage image.

Lemma repeat_split {A} (a : A) (k n : nat) : (k <= n)%nat ->
  repeat a n = repeat a k ++ repeat a (n - k).
Proof. intros H. rewrite <- repeat_app. f_equal. lia. Qed.

Lemma fillFinestLayer_outcome (w : World) (last : nat) (lx ly lz : list Z) :
  Forall (fun s => 0 <= s) lx -> Forall (fun s => 0 <= s) ly ->
  Forall (fun s => 0 <= s) lz ->
  zsum lx = width image -> zsum ly = height image -> zsum lz = slices image ->
  nth_error (m_data (tree w)) last
  = Some (repeat OctreeElement_ctor (length lx * length ly * length lz)) ->
  (noAbort abortThread (reads w) (length lz) ->
   exists acc,
     fillFinestLayer abortThread image last lx ly lz w
     = Ret acc {| tree := withLayer last (finestElems image lx ly lz) (tree w);
                  reads := (reads w + length lz)%nat |}) /\
  (forall k, (k < length lz)%nat -> firstAbort abortThread (reads w) k ->
   exists arr,
     fillFinestLayer abortThread image last lx ly lz w
     = Exc {| tree := withLayer last arr (tree w);
              reads := (reads w + k + 1)%nat |}).
Proof.
  intros Hlx Hly Hlz Hsx Hsy Hsz Hdata.
  destruct Himage as (_ & _ & _ & Hptr & _).
  set (cells := (length ly * length lx)%nat).
  pose (stAt := fun k =>
    withLayer last (flat_map (finestSlice image lx ly lz) (seq 0 k)
                    ++ repeat OctreeElement_ctor ((length lz - k) * cells)) (tree w)).
  pose (accAt := fun k => (offset lz k, (k * cells)%nat)).
  destruct (guarded_seq_outcome abortThread (fillFinestSlice image last lx ly lz)
              (0, O) (length lz) w accAt stAt) as [Hdone Habort].
  { intros k Hk.
    apply (fillFinestLayer_slices image last lx ly lz Hptr Hlx Hly Hlz Hsx Hsy Hsz
             k 0 (tree w) [] (repeat OctreeElement_ctor ((length lz - k) * cells))).
    cbn [app]. rewrite <- repeat_app, Hdata. do 2 f_equal.
    rewrite <- Nat.mul_add_distr_r. replace (k + (length lz - k))%nat with (length lz) by lia.
    subst cells. lia. }
  split.
  - intros Hno. exists (accAt (length lz)). unfold fillFinestLayer.
    change (fun acc z => checkAbort abortThread;;;
              onTree (fillFinestSlice image last lx ly lz acc z))
      with (guarded abortThread (fillFinestSlice image last lx ly lz)).
    rewrite (Hdone Hno). subst stAt. cbv beta.
    rewrite Nat.sub_diag. cbn [Nat.mul repeat]. rewrite app_nil_r. reflexivity.
  - intros k Hk Hab. exists (flat_map (finestSlice image lx ly lz) (seq 0 k)
                    ++ repeat OctreeElement_ctor ((length lz - k) * cells)).
    unfold fillFinestLayer.
    change (fun acc z => checkAbort abortThread;;;
              onTree (fillFinestSlice image last lx ly lz acc z))
      with (guarded abortThread (fillFinestSlice image last lx ly lz)).
    now rewrite (Habort k Hk Hab).
Qed.

Lemma onTree_get (w : World) : onTree get w = Ret (tree w) w.
Proof. destruct w. reflexivity. Qed.

Lemma fillUpLayer_outcome (w : World) (layer : nat) (down : list OctreeElement) :
  let gX := m_gridX (tree w) in
  let gY := m_gridY (tree w) in
  let gZ := m_gridZ (tree w) in
  let nx := length (nth layer gX []) in
  let ny := length (nth layer gY []) in
  let nz := length (nth layer gZ []) in
  gridsOf image (tree w) -> (S layer < m_numLayers (tree w))%nat ->
  nth_error (m_data (tree w)) layer = Some (repeat OctreeElement_ctor (nx * ny * nz)) ->
  nth_error (m_data (tree w)) (S layer) = Some down ->
  length down = (length (nth (S layer) gX []) * length (nth (S layer) gY [])
                 * length (nth (S layer) gZ []))%nat ->
  (noAbort abortThread (reads w) nz ->
   fillUpLayer abortThread tt layer w
   = Ret tt {| tree := withLayer layer (layerAbove gX gY gZ layer down) (tree w);
               reads := (reads w + nz)%nat |}) /\
  (forall k, (k < nz)%nat -> firstAbort abortThread (reads w) k ->
   exists arr,
     fillUpLayer abortThread tt layer w
     = Exc {| tree := withLayer layer arr (tree w); reads := (reads w + k + 1)%nat |}).
Proof.
  intros gX gY gZ nx ny nz (Hn & HX & HY & HZ) Hlayer Hdata Hdown Hlen.
  destruct Himage as (Hw & Hh & Hs & _).
  destruct (axis_layer _ _ _ Hw HX layer ltac:(lia)) as (HgX & _ & _ & HpX).
  destruct (axis_layer _ _ _ Hh HY layer ltac:(lia)) as (HgY & _ & _ & HpY).
  destruct (axis_layer _ _ _ Hs HZ layer ltac:(lia)) as (HgZ & _ & _ & HpZ).
  destruct (axis_layer _ _ _ Hw HX (S layer) ltac:(lia)) as (HgX1 & _).
  destruct (axis_layer _ _ _ Hh HY (S layer) ltac:(lia)) as (HgY1 & _).
  destruct (axis_layer _ _ _ Hs HZ (S layer) ltac:(lia)) as (HgZ1 & _).
  destruct (axis_ratio _ _ _ Hw HX layer Hlayer) as (_ & HrX).
  destruct (axis_ratio _ _ _ Hh HY layer Hlayer) as (_ & HrY).
  destruct (axis_ratio _ _ _ Hs HZ layer Hlayer) as (_ & HrZ).
  fold gX in HgX, HgX1, HpX, HrX. fold gY in HgY, HgY1, HpY, HrY.
  fold gZ in HgZ, HgZ1, HpZ, HrZ. fold nx in HpX, HrX. fold ny in HpY, HrY.
  fold nz in HpZ, HrZ.
  set (nxx := (length (nth (S layer) gX []) / nx)%nat) in *.
  set (nyy := (length (nth (S layer) gY []) / ny)%nat) in *.
  set (nzz := (length (nth (S layer) gZ []) / nz)%nat) in *.
  assert (Hready : upReady layer nxx nyy nzz down (tree w)).
  { split.
    - apply getSplit_run; auto.
      + intros E. fold gX in E. subst nx. rewrite E in HpX. simpl in HpX. lia.
      + intros E. fold gY in E. subst ny. rewrite E in HpY. simpl in HpY. lia.
      + intros E. fold gZ in E. subst nz. rewrite E in HpZ. simpl in HpZ. lia.
    - replace (layer + 1)%nat with (S layer) by lia. exact Hdown. }
  assert (Hlen' : length down = (nx * nxx * (ny * nyy) * (nz * nzz))%nat).
  { rewrite Hlen, HrX, HrY, HrZ. reflexivity. }
  pose (stAt := fun k =>
    withLayer layer (flat_map (upSlice nx ny nxx nyy nzz down) (seq 0 k)
                     ++ repeat OctreeElement_ctor ((nz - k) * (ny * nx))) (tree w)).
  pose (accAt := fun k => (k * (ny * nx))%nat).
  destruct (guarded_seq_outcome abortThread (fillUpSlice layer nx ny)
              O nz w accAt stAt) as [Hdone Habort].
  { intros k Hk.
    apply (fillUpLayer_slices layer nx ny nz nxx nyy nzz down Hlen'
             k 0 (tree w) [] (repeat OctreeElement_ctor ((nz - k) * (ny * nx))) Hready).
    - lia.
    - cbn [app]. rewrite <- repeat_app, Hdata. do 2 f_equal.
      rewrite <- Nat.mul_add_distr_r. replace (k + (nz - k))%nat with nz by lia. lia. }
  assert (Hhead : forall (k : M World nat),
    fillUpLayer abortThread tt layer w
    = bind (foldM (guarded abortThread (fillUpSlice layer nx ny)) O (seq 0 nz))
           (fun _ => ret tt) w).
  { intros _. unfold fillUpLayer. rewrite (bind_Ret _ (onTree_get w)).
    fold gX gY gZ. rewrite HgX, HgY, HgZ. reflexivity. }
  specialize (Hhead (ret O)). split.
  - intros Hno. rewrite Hhead, (bind_Ret _ (Hdone Hno)). unfold ret. subst stAt. cbv beta.
    rewrite Nat.sub_diag. cbn [Nat.mul repeat]. rewrite app_nil_r. reflexivity.
  - intros k Hk Hab. eexists. rewrite Hhead. unfold bind.
    rewrite (Habort k Hk Hab). reflexivity.
Qed.

End FillOutcome.

(** ** The number of reads of the abort flag *)

Lemma abortChecks_app (g1 g2 : Grid) :
  abortChecks (g1 ++ g2) = (abortChecks g1 + abortChecks g2)%nat.
Proof. induction g1 as [|c g1 IH]; simpl; [reflexivity | rewrite IH; lia]. Qed.

Lemma firstn_S_nth {A} (l : list A) (k : nat) (d : A) :
  (k < length l)%nat -> firstn (S k) l = firstn k l ++ [nth k l d].
Proof.
  revert k. induction l as [|a l IH]; intros [|k] H; simpl in *; try lia; auto.
  f_equal. apply IH. lia.
Qed.

Lemma abortChecks_S (g : Grid) (k : nat) : (k < length g)%nat ->
  abortChecks (firstn (S k) g) = (abortChecks (firstn k g) + length (nth k g []))%nat.
Proof.
  intros H. rewrite (firstn_S_nth g k []) by assumption.
  rewrite abortChecks_app. simpl. lia.
Qed.

Lemma noAbort_split (abortThread : nat -> bool) (r a b : nat) :
  noAbort abortThread r (a + b) ->
  noAbort abortThread r a /\ noAbort abortThread (r + a) b.
Proof.
  intros H. split; intros j Hj.
  - apply H. lia.
  - rewrite <- Nat.add_assoc. apply H. lia.
Qed.

Lemma firstAbort_shift (abortThread : nat -> bool) (r a j : nat) :
  firstAbort abortThread r j -> (a <= j)%nat ->
  noAbort abortThread r a /\ firstAbort abortThread (r + a) (j - a).
Proof.
  intros [Hno Hab] Ha. repeat split.
  - intros i Hi. apply Hno. lia.
  - intros i Hi. rewrite <- Nat.add_assoc. apply Hno. lia.
  - rewrite <- Nat.add_assoc. replace (a + (j - a))%nat with j by lia. exact Hab.
Qed.

Lemma length_freshLayers (gX gY gZ : Grid) (k : nat) :
  length (freshLayers gX gY gZ k) = k.
Proof. unfold freshLayers. now rewrite length_map, length_seq. Qed.

Lemma freshLayers_S (gX gY gZ : Grid) (k : nat) :
  freshLayers gX gY gZ (S k)
  = freshLayers gX gY gZ k
    ++ [repeat OctreeElement_ctor
          (length (nth k gX []) * length (nth k gY []) * length (nth k gZ []))].
Proof. unfold freshLayers. rewrite seq_S, map_app. reflexivity. Qed.

Lemma nth_error_app_at {A} (l1 l2 : list A) (a : A) :
  nth_error (l1 ++ a :: l2) (length l1) = Some a.
Proof. rewrite nth_error_app2 by lia. now rewrite Nat.sub_diag. Qed.

Lemma list_update_app_at {A} (l1 l2 : list A) (k : nat) (b a : A) :
  length l1 = k -> list_update (l1 ++ b :: l2) k a = l1 ++ a :: l2.
Proof. intros <-. apply list_update_app. Qed.

Lemma length_layerAbove (gX gY gZ : Grid) (layer : nat) (down : list OctreeElement) :
  length (layerAbove gX gY gZ layer down)
  = (length (nth layer gX []) * length (nth layer gY []) * length (nth layer gZ []))%nat.
Proof. unfold layerAbove. apply length_tab3. Qed.

Section LayerLoop.

Variable abortThread : nat -> bool.
Variable image : MemImage.
Hypothesis Himage : wfImage image.

Lemma upLoop_outcome (k : nat) : forall (w : World) (arr : list OctreeElement)
    (tail : list (list OctreeElement)),
  let gX := m_gridX (tree w) in
  let gY := m_gridY (tree w) in
  let gZ := m_gridZ (tree w) in
  gridsOf image (tree w) -> (k < m_numLayers (tree w))%nat ->
  m_data (tree w) = freshLayers gX gY gZ k ++ arr :: tail ->
  length arr = (length (nth k gX []) * length (nth k gY []) * length (nth k gZ []))%nat ->
  (noAbort abortThread (reads w) (abortChecks (firstn k gZ)) ->
   foldM (fillUpLayer abortThread) tt (rev (seq 0 k)) w
   = Ret tt {| tree := set_data (upLayers gX gY gZ k arr ++ tail) (tree w);
               reads := (reads w + abortChecks (firstn k gZ))%nat |}) /\
  (forall j, (j < abortChecks (firstn k gZ))%nat -> firstAbort abortThread (reads w) j ->
   exists t',
     foldM (fillUpLayer abortThread) tt (rev (seq 0 k)) w
     = Exc {| tree := t'; reads := (reads w + j + 1)%nat |} /\
     m_usable t' = m_usable (tree w)).
Proof.
  induction k as [|k IH]; intros w arr tail gX gY gZ Hgrids Hk Hdata Hlen.
  - split.
    + intros _. simpl. unfold ret. destruct w as [t r]. simpl in *.
      rewrite Nat.add_0_r. subst gX gY gZ. rewrite <- Hdata. destruct t; reflexivity.
    + simpl. intros j Hj. lia.
  - assert (HlenZ : length gZ = m_numLayers (tree w)).
    { destruct Hgrids as (_ & _ & _ & (H & _)). exact H. }
    rewrite (abortChecks_S gZ k) by lia.
    rewrite seq_S, rev_app_distr. cbn [rev app Nat.add foldM].
    rewrite freshLayers_S, <- app_assoc in Hdata. cbn [app] in Hdata.
    pose proof (length_freshLayers gX gY gZ k) as Hfl.
    assert (Hk0 : nth_error (m_data (tree w)) k
                  = Some (repeat OctreeElement_ctor
                            (length (nth k gX []) * length (nth k gY [])
                             * length (nth k gZ [])))).
    { rewrite Hdata, nth_error_app2 by lia. now rewrite Hfl, Nat.sub_diag. }
    assert (Hk1 : nth_error (m_data (tree w)) (S k) = Some arr).
    { rewrite Hdata, nth_error_app2 by lia. rewrite Hfl.
      replace (S k - k)%nat with 1%nat by lia. reflexivity. }
    destruct (fillUpLayer_outcome abortThread image Himage w k arr Hgrids Hk Hk0 Hk1 Hlen)
      as [Hdone Habort].
    fold gX gY gZ in Hdone, Habort.
    set (nz := length (nth k gZ [])) in *.
    set (w1 := {| tree := withLayer k (layerAbove gX gY gZ k arr) (tree w);
                  reads := (reads w + nz)%nat |}) in *.
    assert (Hdata1 : m_data (tree w1)
                     = freshLayers gX gY gZ k ++ layerAbove gX gY gZ k arr :: arr :: tail).
    { subst w1. cbn [tree]. rewrite withLayer_data, Hdata.
      now apply list_update_app_at. }
    destruct (IH w1 (layerAbove gX gY gZ k arr) (arr :: tail) Hgrids ltac:(simpl; lia)
                Hdata1 (length_layerAbove gX gY gZ k arr)) as [IHdone IHabort].
    subst w1. cbn [tree reads] in IHdone, IHabort.
    change (m_gridX (withLayer k (layerAbove gX gY gZ k arr) (tree w))) with gX
      in IHdone, IHabort.
    change (m_gridY (withLayer k (layerAbove gX gY gZ k arr) (tree w))) with gY
      in IHdone, IHabort.
    change (m_gridZ (withLayer k (layerAbove gX gY gZ k arr) (tree w))) with gZ
      in IHdone, IHabort.
    split.
    + intros Hno. rewrite Nat.add_comm in Hno. apply noAbort_split in Hno as [Hno1 Hno2].
      rewrite (bind_Ret _ (Hdone Hno1)), (IHdone Hno2). cbn [upLayers].
      rewrite <- app_assoc. cbn [app].
      replace (reads w + (abortChecks (firstn k gZ) + nz))%nat
        with (reads w + nz + abortChecks (firstn k gZ))%nat by lia.
      reflexivity.
    + intros j Hj Hab. destruct (Nat.lt_ge_cases j nz) as [Hlt|Hge].
      * destruct (Habort j Hlt Hab) as (arr' & Hexc).
        exists (withLayer k arr' (tree w)). split; [|reflexivity].
        unfold bind. now rewrite Hexc.
      * destruct (firstAbort_shift abortThread (reads w) nz j Hab Hge) as [Hno1 Hab2].
        destruct (IHabort (j - nz)%nat ltac:(lia) Hab2) as (t' & Hexc & Hus).
        exists t'. split; [|exact Hus].
        rewrite (bind_Ret _ (Hdone Hno1)), Hexc.
        replace (reads w + nz + (j - nz) + 1)%nat with (reads w + j + 1)%nat by lia.
        reflexivity.
Qed.

End LayerLoop.

Section FillWhole.

Variable abortThread : nat -> bool.
Variable image : MemImage.
Hypothesis Himage : wfImage image.

Lemma nth_error_freshLayers (gX gY gZ : Grid) (n l : nat) : (l < n)%nat ->
  nth_error (freshLayers gX gY gZ n) l
  = Some (repeat OctreeElement_ctor
            (length (nth l gX []) * length (nth l gY []) * length (nth l gZ []))).
Proof.
  intros H. unfold freshLayers. rewrite nth_error_map, nth_error_seq.
  destruct (Nat.ltb_spec l n); [reflexivity | lia].
Qed.

Lemma fill_outcome (w : World) :
  let gX := m_gridX (tree w) in
  let gY := m_gridY (tree w) in
  let gZ := m_gridZ (tree w) in
  let n := m_numLayers (tree w) in
  gridsOf image (tree w) ->
  m_data (tree w) = freshLayers gX gY gZ n ->
  (noAbort abortThread (reads w) (abortChecks gZ) ->
   fill abortThread image w
   = Ret tt {| tree := set_usable true
                         (set_data (filledData image gX gY gZ n) (tree w));
               reads := (reads w + abortChecks gZ)%nat |}) /\
  (forall j, (j < abortChecks gZ)%nat -> firstAbort abortThread (reads w) j ->
   exists t',
     fill abortThread image w = Exc {| tree := t'; reads := (reads w + j + 1)%nat |} /\
     m_usable t' = false).
Proof.
  intros gX gY gZ n Hgrids Hdata.
  pose proof Hgrids as (Hn & HX & HY & HZ). fold n gX gY gZ in Hn, HX, HY, HZ.
  destruct Himage as (Hw & Hh & Hs & _).
  destruct n as [|last] eqn:En; [lia|].
  destruct (axis_layer _ _ _ Hw HX last ltac:(lia)) as (HgX & HcX & HsX & _).
  destruct (axis_layer _ _ _ Hh HY last ltac:(lia)) as (HgY & HcY & HsY & _).
  destruct (axis_layer _ _ _ Hs HZ last ltac:(lia)) as (HgZ & HcZ & HsZ & _).
  pose proof (axis_layer_nonneg _ _ _ Hw HX last ltac:(lia)) as HnX.
  pose proof (axis_layer_nonneg _ _ _ Hh HY last ltac:(lia)) as HnY.
  pose proof (axis_layer_nonneg _ _ _ Hs HZ last ltac:(lia)) as HnZ.
  set (lx := nth last gX []) in *. set (ly := nth last gY []) in *.
  set (lz := nth last gZ []) in *.
  (* the state after [m_usable = false] *)
  set (w0 := {| tree := set_usable false (tree w); reads := reads w |}).
  assert (Hhead : fill abortThread image w
    = bind (fillFinestLayer abortThread image last lx ly lz)
        (fun _ => bind (foldM (fillUpLayer abortThread) tt (rev (seq 0 last)))
           (fun _ => onTree (modify (set_usable true)))) w0).
  { unfold fill. unfold bind at 1. unfold onTree at 1, zoom, modify. fold w0.
    rewrite (bind_Ret _ (onTree_get w0)). subst w0. cbn [tree m_numLayers set_usable].
    fold n. rewrite En.
    change (m_gridX (set_usable false (tree w))) with gX.
    change (m_gridY (set_usable false (tree w))) with gY.
    change (m_gridZ (set_usable false (tree w))) with gZ.
    rewrite HgX, HgY, HgZ. reflexivity. }
  assert (Hgrids0 : gridsOf image (tree w0)) by exact Hgrids.
  assert (HlenZ : length gZ = S last).
  { destruct HZ as (H & _). exact H. }
  assert (HN : abortChecks gZ = (abortChecks (firstn last gZ) + length lz)%nat).
  { unfold lz. rewrite <- (abortChecks_S gZ last) by lia. now rewrite firstn_all2 by lia. }
  assert (Hd0 : nth_error (m_data (tree w0)) last
                = Some (repeat OctreeElement_ctor (length lx * length ly * length lz))).
  { subst w0. cbn [tree m_data set_usable]. rewrite Hdata.
    apply nth_error_freshLayers. lia. }
  destruct (fillFinestLayer_outcome abortThread image Himage w0 last lx ly lz
              HnX HnY HnZ HsX HsY HsZ Hd0) as [Hdone Habort].
  set (w1 := {| tree := withLayer last (finestElems image lx ly lz) (tree w0);
                reads := (reads w0 + length lz)%nat |}) in *.
  assert (Hd1 : m_data (tree w1)
                = freshLayers gX gY gZ last ++ finestElems image lx ly lz :: []).
  { subst w1 w0. cbn [tree]. rewrite withLayer_data. cbn [m_data set_usable].
    rewrite Hdata, freshLayers_S. apply list_update_app_at, length_freshLayers. }
  assert (Hlen1 : length (finestElems image lx ly lz)
                  = (length lx * length ly * length lz)%nat) by apply length_tab3.
  destruct (upLoop_outcome abortThread image Himage last w1 (finestElems image lx ly lz) []
              Hgrids0 ltac:(cbn; fold n; lia) Hd1 Hlen1) as [Udone Uabort].
  subst w1 w0. cbn [tree reads] in *.
  change (m_gridZ (withLayer last (finestElems image lx ly lz)
                     (set_usable false (tree w)))) with gZ in Udone, Uabort.
  change (m_gridX (withLayer last (finestElems image lx ly lz)
                     (set_usable false (tree w)))) with gX in Udone.
  change (m_gridY (withLayer last (finestElems image lx ly lz)
                     (set_usable false (tree w)))) with gY in Udone.
  rewrite Hhead, HN. split.
  - intros Hno. rewrite Nat.add_comm in Hno. apply noAbort_split in Hno as [Hno1 Hno2].
    destruct (Hdone Hno1) as (acc & Hfin).
    rewrite (bind_Ret _ Hfin), (bind_Ret _ (Udone Hno2)).
    unfold onTree, zoom, modify. cbn [tree reads]. rewrite app_nil_r.
    replace (reads w + (abortChecks (firstn last gZ) + length lz))%nat
      with (reads w + length lz + abortChecks (firstn last gZ))%nat by lia.
    reflexivity.
  - intros j Hj Hab. destruct (Nat.lt_ge_cases j (length lz)) as [Hlt|Hge].
    + destruct (Habort j Hlt Hab) as (arr & Hexc).
      eexists. split; [unfold bind; rewrite Hexc; reflexivity | reflexivity].
    + destruct (firstAbort_shift abortThread (reads w) (length lz) j Hab Hge)
        as [Hno1 Hab2].
      destruct (Hdone Hno1) as (acc & Hfin).
      destruct (Uabort (j - length lz)%nat ltac:(lia) Hab2) as (t' & Hexc & Hus).
      exists t'. split; [|exact Hus].
      rewrite (bind_Ret _ Hfin). unfold bind. rewrite Hexc.
      replace (reads w + length lz + (j - length lz) + 1)%nat
        with (reads w + j + 1)%nat by lia.
      reflexivity.
Qed.

End FillWhole.

(** ** [setImage] up to the [try] block *)

Lemma pyramid_axisGrid (dim : Z) (g : Grid) :
  pyramid dim g -> axisGrid dim (length g) g.
Proof.
  intros (H0 & Hchain & Hall). repeat split; auto.
  intros l cur next Hc Hn. left. eauto.
Qed.

Lemma axisGrid_snoc (dim : Z) (n : nat) (g : Grid) (cur : list Z) :
  axisGrid dim (S n) g -> nth_error g n = Some cur ->
  axisGrid dim (S (S n)) (g ++ [cur]).
Proof.
  intros (Hlen & H0 & Hchain & Hall) Hcur. repeat split.
  - rewrite length_app. simpl. lia.
  - rewrite nth_error_app1 by lia. exact H0.
  - intros l c nx Hc Hnx.
    destruct (Nat.lt_ge_cases (S l) (length g)) as [Hin|Hout].
    + rewrite nth_error_app1 in Hc, Hnx by lia. eauto.
    + assert (Hl : l = n).
      { assert (H : nth_error (g ++ [cur]) (S l) <> None) by congruence.
        apply nth_error_Some in H. rewrite length_app in H. simpl in H. lia. }
      subst l. rewrite nth_error_app1 in Hc by lia.
      rewrite nth_error_app2 in Hnx by lia.
      replace (S n - length g)%nat with O in Hnx by lia. simpl in Hnx.
      right. congruence.
  - apply Forall_app. split; [exact Hall|]. constructor; [|constructor].
    rewrite Forall_forall in Hall. apply Hall. eapply nth_error_In; eauto.
Qed.

Lemma padGrid_axis (dim : Z) (k : nat) : forall (nx : nat) (g : Grid),
  axisGrid dim (S nx) g ->
  exists g', padGrid k (S nx) g = Ret (S nx + k)%nat g' /\
             axisGrid dim (S nx + k) g'.
Proof.
  induction k as [|k IH]; intros nx g Hg.
  - exists g. simpl. unfold ret. rewrite Nat.add_0_r. split; [reflexivity | exact Hg].
  - simpl. unfold bind at 1, get.
    destruct (nth_error g nx) as [cur|] eqn:Hcur.
    + destruct (IH (S nx) (g ++ [cur])) as (g' & Hrun & Hax).
      { now apply axisGrid_snoc. }
      exists g'. simpl. unfold bind at 1. simpl.
      replace (S (nx + S k)) with (S (S nx + k)) by lia. split; assumption.
    + apply nth_error_None in Hcur. destruct Hg as (Hlen & _). lia.
Qed.

Lemma allocLayer_run (n a i : nat) (t : Octree) :
  (a < length (m_gridX t))%nat -> (a < length (m_gridY t))%nat ->
  (a < length (m_gridZ t))%nat ->
  allocLayer n n n (a, a, a) i t
  = Ret (if Z.of_nat a <? Z.of_nat n - 1 then S a else a,
         if Z.of_nat a <? Z.of_nat n - 1 then S a else a,
         if Z.of_nat a <? Z.of_nat n - 1 then S a else a)
        (set_data (m_data t
                   ++ [repeat OctreeElement_ctor
                         (length (nth a (m_gridX t) []) * length (nth a (m_gridY t) [])
                          * length (nth a (m_gridZ t) []))]) t).
Proof.
  intros HX HY HZ. unfold allocLayer, bind, get.
  rewrite (nth_error_nth_default (m_gridX t) a []) by lia.
  rewrite (nth_error_nth_default (m_gridY t) a []) by lia.
  rewrite (nth_error_nth_default (m_gridZ t) a []) by lia.
  reflexivity.
Qed.

Lemma allocLayer_loop (n k : nat) : forall (a : nat) (acc : nat * nat * nat) (t : Octree),
  (a + k <= n)%nat -> acc = (a, a, a) \/ k = O ->
  length (m_gridX t) = n -> length (m_gridY t) = n -> length (m_gridZ t) = n ->
  exists acc',
    foldM (allocLayer n n n) acc (seq a k) t
    = Ret acc' (set_data (m_data t
                          ++ map (fun l => repeat OctreeElement_ctor
                                    (length (nth l (m_gridX t) [])
                                     * length (nth l (m_gridY t) [])
                                     * length (nth l (m_gridZ t) [])))
                               (seq a k)) t).
Proof.
  induction k as [|k IH]; intros a acc t Hk Hacc HX HY HZ.
  - exists acc. simpl. unfold ret. rewrite app_nil_r. destruct t; reflexivity.
  - destruct Hacc as [-> | ?]; [|discriminate]. cbn [seq foldM map].
    rewrite (bind_Ret _ (allocLayer_run n a a t ltac:(lia) ltac:(lia) ltac:(lia))).
    set (t1 := set_data _ t).
    destruct (IH (S a)
                (if Z.of_nat a <? Z.of_nat n - 1 then S a else a,
                 if Z.of_nat a <? Z.of_nat n - 1 then S a else a,
                 if Z.of_nat a <? Z.of_nat n - 1 then S a else a) t1) as (acc' & Hrun);
      auto; try lia.
    { destruct k; [now right | left].
      destruct (Z.ltb_spec (Z.of_nat a) (Z.of_nat n - 1)); [reflexivity | lia]. }
    exists acc'. rewrite Hrun. subst t1.
    cbn [m_data set_data m_gridX m_gridY m_gridZ].
    rewrite <- app_assoc. reflexivity.
Qed.

Lemma zoom_Ret {S T A} (prj : S -> T) (upd : T -> S -> S) (m : M T A) (s : S)
    (a : A) (t : T) :
  m (prj s) = Ret a t -> zoom prj upd m s = Ret a (upd t s).
Proof. intros H. unfold zoom. now rewrite H. Qed.

Lemma prepare_run (fuel : nat) (image : MemImage) (t0 : Octree) :
  wfImage image -> 1 <= m_minCubeSize t0 ->
  m_gridX t0 = [] -> m_gridY t0 = [] -> m_gridZ t0 = [] -> m_data t0 = [] ->
  (Z.to_nat (Z.max (Z.max (width image) (height image)) (slices image)) < fuel)%nat ->
  exists t1, prepare fuel image t0 = Ret tt t1 /\ Prepared image t1 /\
             m_minCubeSize t1 = m_minCubeSize t0 /\
             m_min t1 = m_min t0 /\ m_max t1 = m_max t0.
Proof.
  intros (Hw & Hh & Hs & _) Hmcs HX HY HZ HD Hfuel.
  destruct t0 as [mcs nl gx gy gz d lo hi sc cu vi us]. simpl in *. subst gx gy gz d.
  destruct (createLayerGrid_pyramid mcs (width image)) as (gX & RX & PX & LX); try lia.
  destruct (createLayerGrid_pyramid mcs (height image)) as (gY & RY & PY & LY); try lia.
  destruct (createLayerGrid_pyramid mcs (slices image)) as (gZ & RZ & PZ & LZ); try lia.
  specialize (RX fuel ltac:(lia)). specialize (RY fuel ltac:(lia)).
  specialize (RZ fuel ltac:(lia)).
  set (n := Nat.max (Nat.max (length gX) (length gY)) (length gZ)).
  apply pyramid_axisGrid in PX, PY, PZ.
  destruct (length gX) as [|nx] eqn:EX; [lia|].
  destruct (length gY) as [|ny] eqn:EY; [lia|].
  destruct (length gZ) as [|nz] eqn:EZ; [lia|].
  destruct (padGrid_axis (width image) (n - S nx) nx gX PX) as (gX' & QX & AX).
  destruct (padGrid_axis (height image) (n - S ny) ny gY PY) as (gY' & QY & AY).
  destruct (padGrid_axis (slices image) (n - S nz) nz gZ PZ) as (gZ' & QZ & AZ).
  replace (S nx + (n - S nx))%nat with n in * by lia.
  replace (S ny + (n - S ny))%nat with n in * by lia.
  replace (S nz + (n - S nz))%nat with n in * by lia.
  set (t1 := mkOctree mcs n gX' gY' gZ' [] lo hi
               (Z.shiftl 1 (8 * typeSize image) - 1) cu vi false).
  destruct (allocLayer_loop n n 0 (O, O, O) t1) as (acc' & Hal);
    try (subst t1; simpl; first [lia | now left | apply AX | apply AY | apply AZ]).
  exists (set_data (m_data t1 ++ freshLayers gX' gY' gZ' n) t1).
  split; [|split].
  - unfold prepare. unfold bind at 1, modify at 1. unfold bind at 1, modify at 1.
    unfold bind at 1, get at 1.
    cbv [set_scale set_usable m_minCubeSize m_numLayers m_gridX m_gridY m_gridZ m_data
         m_min m_max m_scale m_cubesInside m_voxelsInside m_usable].
    unfold onGridX, onGridY, onGridZ.
    match goal with |- bind (zoom _ _ ?m) _ ?s = _ =>
      rewrite (bind_Ret _ (zoom_Ret m_gridX set_gridX m s _ _ RX)) end.
    cbv [set_gridX m_minCubeSize m_numLayers m_gridX m_gridY m_gridZ m_data
         m_min m_max m_scale m_cubesInside m_voxelsInside m_usable].
    match goal with |- bind (zoom _ _ ?m) _ ?s = _ =>
      rewrite (bind_Ret _ (zoom_Ret m_gridY set_gridY m s _ _ RY)) end.
    cbv [set_gridY m_minCubeSize m_numLayers m_gridX m_gridY m_gridZ m_data
         m_min m_max m_scale m_cubesInside m_voxelsInside m_usable].
    match goal with |- bind (zoom _ _ ?m) _ ?s = _ =>
      rewrite (bind_Ret _ (zoom_Ret m_gridZ set_gridZ m s _ _ RZ)) end.
    cbv [set_gridZ m_minCubeSize m_numLayers m_gridX m_gridY m_gridZ m_data
         m_min m_max m_scale m_cubesInside m_voxelsInside m_usable].
    fold n. unfold bind at 1, modify at 1.
    cbv [set_numLayers m_minCubeSize m_numLayers m_gridX m_gridY m_gridZ m_data
         m_min m_max m_scale m_cubesInside m_voxelsInside m_usable].
    match goal with |- bind (zoom _ _ ?m) _ ?s = _ =>
      rewrite (bind_Ret _ (zoom_Ret m_gridX set_gridX m s _ _ QX)) end.
    cbv [set_gridX m_minCubeSize m_numLayers m_gridX m_gridY m_gridZ m_data
         m_min m_max m_scale m_cubesInside m_voxelsInside m_usable].
    match goal with |- bind (zoom _ _ ?m) _ ?s = _ =>
      rewrite (bind_Ret _ (zoom_Ret m_gridY set_gridY m s _ _ QY)) end.
    cbv [set_gridY m_minCubeSize m_numLayers m_gridX m_gridY m_gridZ m_data
         m_min m_max m_scale m_cubesInside m_voxelsInside m_usable].
    match goal with |- bind (zoom _ _ ?m) _ ?s = _ =>
      rewrite (bind_Ret _ (zoom_Ret m_gridZ set_gridZ m s _ _ QZ)) end.
    cbv [set_gridZ m_minCubeSize m_numLayers m_gridX m_gridY m_gridZ m_data
         m_min m_max m_scale m_cubesInside m_voxelsInside m_usable].
    fold t1. unfold bind at 1. rewrite Hal. reflexivity.
  - subst t1. unfold Prepared, gridsOf.
    cbn [set_data m_numLayers m_gridX m_gridY m_gridZ m_data m_usable app].
    split; [split; [subst n; lia | split; [exact AX | split; [exact AY | exact AZ]]]
           | split; reflexivity].
  - subst t1. cbn. auto.
Qed.

(** ** Outcome of [setImage] on a freshly constructed object *)

Lemma abort_dichotomy (abortThread : nat -> bool) (r n : nat) :
  noAbort abortThread r n \/ exists j, (j < n)%nat /\ firstAbort abortThread r j.
Proof.
  induction n as [|n [IH | (j & Hj & Hab)]].
  - left. intros j Hj. lia.
  - destruct (abortThread (r + n)%nat) eqn:E.
    + right. exists n. split; [lia | split; assumption].
    + left. intros j Hj. destruct (Nat.eq_dec j n) as [-> | Hne]; [exact E|].
      apply IH. lia.
  - right. exists j. split; [lia | exact Hab].
Qed.

Section SetImage.

Variable abortThread : nat -> bool.
Variable image : MemImage.
Hypothesis Himage : wfImage image.

Lemma setImage_outcome (fuel : nat) (w0 : World) :
  1 <= m_minCubeSize (tree w0) ->
  m_gridX (tree w0) = [] -> m_gridY (tree w0) = [] -> m_gridZ (tree w0) = [] ->
  m_data (tree w0) = [] -> enoughFuel image fuel ->
  exists t1,
    Prepared image t1 /\
    let N := abortChecks (m_gridZ t1) in
    let filled := set_usable true
                    (set_data (filledData image (m_gridX t1) (m_gridY t1) (m_gridZ t1)
                                 (m_numLayers t1)) t1) in
    (supported image -> noAbort abortThread (reads w0) N ->
     setImage abortThread fuel image w0
     = Ret tt {| tree := filled; reads := (reads w0 + N)%nat |}) /\
    (supported image -> forall j, (j < N)%nat -> firstAbort abortThread (reads w0) j ->
     exists t',
       setImage abortThread fuel image w0
       = Ret tt {| tree := t'; reads := (reads w0 + j + 1)%nat |} /\
       m_usable t' = false) /\
    (type image = OTHER ->
     setImage abortThread fuel image w0
     = Ret tt {| tree := set_usable true t1; reads := reads w0 |}).
Proof.
  intros Hmcs HX HY HZ HD Hfuel.
  destruct (prepare_run fuel image (tree w0) Himage Hmcs HX HY HZ HD Hfuel)
    as (t1 & Hprep & HP & _).
  exists t1. split; [exact HP|]. cbv zeta.
  destruct HP as (Hgrids & Hdata & Hus).
  set (w1 := {| tree := t1; reads := reads w0 |}).
  destruct (fill_outcome abortThread image Himage w1 Hgrids Hdata) as [Fdone Fabort].
  cbn [tree reads w1] in Fdone, Fabort.
  assert (Hstep : onTree (prepare fuel image) w0 = Ret tt w1).
  { unfold onTree, zoom. now rewrite Hprep. }
  split; [|split].
  - intros Hsup Hno. unfold setImage. rewrite (bind_Ret _ Hstep).
    unfold try_catch, bind.
    destruct Hsup as [-> | ->]; rewrite (Fdone Hno); reflexivity.
  - intros Hsup j Hj Hab. destruct (Fabort j Hj Hab) as (t' & Hexc & Hus').
    exists t'. split; [|exact Hus'].
    unfold setImage. rewrite (bind_Ret _ Hstep). unfold try_catch, bind.
    destruct Hsup as [-> | ->]; rewrite Hexc; reflexivity.
  - intros Hty. unfold setImage. rewrite (bind_Ret _ Hstep), Hty. reflexivity.
Qed.

End SetImage.

(** ** More fuel does not change a run that returned *)

Lemma createLayerGrid_fuel_mono {fuel fuel' : nat} {mcs dim : Z} {g g' : Grid} {n : nat} :
  createLayerGrid fuel mcs dim g = Ret n g' -> (fuel <= fuel')%nat ->
  createLayerGrid fuel' mcs dim g = Ret n g'.
Proof.
  unfold createLayerGrid, bind, modify. intros H Hle. eapply loop_fuel_mono; eauto.
Qed.

Lemma prepare_fuel_mono {fuel fuel' : nat} {image : MemImage} {t t1 : Octree} :
  prepare fuel image t = Ret tt t1 -> (fuel <= fuel')%nat ->
  prepare fuel' image t = Ret tt t1.
Proof.
  intros H Hle. unfold prepare in *.
  unfold bind at 1, modify at 1 in H. unfold bind at 1, modify at 1 in H.
  unfold bind at 1, get at 1 in H.
  unfold bind at 1, modify at 1. unfold bind at 1, modify at 1.
  unfold bind at 1, get at 1.
  unfold bind at 1, onGridX at 1, zoom at 1 in H. unfold bind at 1, onGridX at 1, zoom at 1.
  destruct (createLayerGrid fuel _ (width image) _) as [nx gX| | |] eqn:EX;
    try discriminate.
  rewrite (createLayerGrid_fuel_mono EX Hle).
  unfold bind at 1, onGridY at 1, zoom at 1 in H. unfold bind at 1, onGridY at 1, zoom at 1.
  destruct (createLayerGrid fuel _ (height image) _) as [ny gY| | |] eqn:EY;
    try discriminate.
  rewrite (createLayerGrid_fuel_mono EY Hle).
  unfold bind at 1, onGridZ at 1, zoom at 1 in H. unfold bind at 1, onGridZ at 1, zoom at 1.
  destruct (createLayerGrid fuel _ (slices image) _) as [nz gZ| | |] eqn:EZ;
    try discriminate.
  rewrite (createLayerGrid_fuel_mono EZ Hle).
  exact H.
Qed.

Lemma setImage_fuel_mono {abortThread : nat -> bool} {fuel : nat} (fuel' : nat)
    {image : MemImage} {w w' : World} :
  setImage abortThread fuel image w = Ret tt w' -> (fuel <= fuel')%nat ->
  setImage abortThread fuel' image w = Ret tt w'.
Proof.
  intros H Hle. unfold setImage in *. unfold bind at 1 in H. unfold bind at 1.
  unfold onTree at 1, zoom at 1 in H. unfold onTree at 1, zoom at 1.
  destruct (prepare fuel image (tree w)) as [[] t1| | |] eqn:EP; try discriminate.
  rewrite (prepare_fuel_mono EP Hle). exact H.
Qed.

(** ** What a successful [setImage] leaves behind *)

Lemma filled_inversion (abortThread : nat -> bool) (fuel : nat) (image : MemImage)
    (mcs : Z) (r : nat) (w : World) :
  wfImage image -> supported image -> 1 <= mcs ->
  setImage abortThread fuel image {| tree := Octree_ctor mcs; reads := r |} = Ret tt w ->
  m_usable (tree w) = true ->
  Filled image (tree w) /\
  noAbort abortThread r (abortChecks (m_gridZ (tree w))) /\
  reads w = (r + abortChecks (m_gridZ (tree w)))%nat.
Proof.
  intros Himage Hsup Hmcs Hrun Hus.
  set (fuel' := Nat.max fuel
                  (S (Z.to_nat (Z.max (Z.max (width image) (height image)) (slices image))))).
  apply (setImage_fuel_mono fuel') in Hrun; [|lia].
  destruct (setImage_outcome abortThread image Himage fuel'
              {| tree := Octree_ctor mcs; reads := r |})
    as (t1 & (Hgrids & Hdata & _) & Hdone & Habort & _);
    try reflexivity; try (unfold enoughFuel; lia); try assumption.
  cbn [reads] in Hdone, Habort.
  destruct (abort_dichotomy abortThread r (abortChecks (m_gridZ t1)))
    as [Hno | (j & Hj & Hab)].
  - rewrite (Hdone Hsup Hno) in Hrun. injection Hrun as <-. cbn [tree reads].
    split; [|split]; [| exact Hno | reflexivity].
    split; [exact Hgrids | reflexivity].
  - destruct (Habort Hsup j Hj Hab) as (t' & Hrun' & Hus').
    rewrite Hrun' in Hrun. injection Hrun as <-. cbn [tree] in Hus. congruence.
Qed.

(** ** Geometry of one axis *)

Lemma nth_nil_default {A} (i : nat) (d : A) : nth i [] d = d.
Proof. destruct i; reflexivity. Qed.

Lemma extent_splitLayer_even (cur : list Z) (x : nat) :
  extent (splitLayer cur) (2 * x) = Z.quot (extent cur x) 2.
Proof.
  unfold extent. revert x. induction cur as [|s cur IH]; intros x.
  - cbn [splitLayer]. now rewrite !nth_nil_default.
  - destruct x as [|x]; [reflexivity|].
    replace (2 * S x)%nat with (S (S (2 * x))) by lia. simpl nth at 1. simpl nth at 2.
    apply IH.
Qed.

Lemma extent_splitLayer_odd (cur : list Z) (x : nat) :
  extent (splitLayer cur) (2 * x + 1) = extent cur x - Z.quot (extent cur x) 2.
Proof.
  unfold extent. revert x. induction cur as [|s cur IH]; intros x.
  - cbn [splitLayer]. now rewrite !nth_nil_default.
  - destruct x as [|x]; [reflexivity|].
    replace (2 * S x + 1)%nat with (S (S (2 * x + 1))) by lia.
    simpl nth at 1. simpl nth at 2. simpl nth at 3. apply IH.
Qed.

Lemma offset_splitLayer (cur : list Z) (x : nat) :
  offset (splitLayer cur) (2 * x) = offset cur x.
Proof.
  unfold offset. revert x. induction cur as [|s cur IH]; intros x.
  - simpl. now rewrite !firstn_nil.
  - destruct x as [|x]; [reflexivity|].
    replace (2 * S x)%nat with (S (S (2 * x))) by lia.
    cbn [splitLayer firstn]. rewrite !zsum_cons, IH. lia.
Qed.

Lemma inCell_inj (cells : list Z) (i j : nat) (a : Z) :
  Forall (fun s => 0 <= s) cells -> inCell cells i a -> inCell cells j a -> i = j.
Proof.
  intros Hc [Hi1 Hi2] [Hj1 Hj2].
  destruct (Nat.lt_trichotomy i j) as [Hlt | [-> | Hlt]]; [|reflexivity|].
  - pose proof (offset_mono cells (S i) j Hc ltac:(lia)). rewrite offset_S in H. lia.
  - pose proof (offset_mono cells (S j) i Hc ltac:(lia)). rewrite offset_S in H. lia.
Qed.

Lemma inCell_lt_length (cells : list Z) (i : nat) (a : Z) :
  inCell cells i a -> (i < length cells)%nat.
Proof.
  intros [H1 H2]. destruct (Nat.lt_ge_cases i (length cells)) as [H|H]; [exact H|].
  unfold extent in H2. rewrite nth_overflow in H2 by lia. lia.
Qed.

Lemma inCell_exists (cells : list Z) (a : Z) :
  Forall (fun s => 0 <= s) cells -> 0 <= a < zsum cells ->
  exists i, inCell cells i a.
Proof.
  intros Hc Ha.
  assert (H : forall n, a < offset cells n -> exists i, inCell cells i a).
  { induction n as [|n IH]; intros Hn.
    - rewrite offset_0 in Hn. lia.
    - destruct (Z.lt_ge_cases a (offset cells n)) as [Hlt|Hge]; [now apply IH|].
      exists n. rewrite offset_S in Hn. split; lia. }
  apply (H (length cells)). rewrite offset_all by lia. lia.
Qed.

Section AxisChildren.

Variables (dim : Z) (n : nat) (g : Grid).
Hypothesis Hdim : 0 < dim.
Hypothesis Hg : axisGrid dim n g.
Variable l : nat.
Hypothesis Hl : (S l < n)%nat.

Let cur := nth l g [].
Let next := nth (S l) g [].
Let r := (length next / length cur)%nat.

Lemma axis_children (x : nat) (a : Z) :
  inCell cur x a <-> exists xx, (xx < r)%nat /\ inCell next (r * x + xx) a.
Proof.
  destruct (axis_layer dim n g Hdim Hg l ltac:(lia)) as (_ & Hc & _ & Hpos).
  fold cur in Hc, Hpos.
  assert (Hx : 0 <= extent cur x).
  { apply extent_nonneg. eapply Forall_impl; [|exact Hc]. cbv beta. intros; lia. }
  destruct (axis_step dim n g Hg l Hl) as [E | E]; fold cur next in E; subst r;
    rewrite E.
  - rewrite length_splitLayer, Nat.div_mul by lia.
    pose proof (extent_splitLayer_even cur x) as He.
    pose proof (extent_splitLayer_odd cur x) as Ho.
    pose proof (offset_splitLayer cur x) as Hoff.
    pose proof (offset_S (splitLayer cur) (2 * x)) as HS.
    replace (S (2 * x)) with (2 * x + 1)%nat in HS by lia.
    assert (Hq : 0 <= Z.quot (extent cur x) 2 <= extent cur x).
    { split; [apply Z.quot_pos; lia|]. pose proof (quot2_double_le (extent cur x) Hx).
      lia. }
    unfold inCell. split.
    + intros [H1 H2].
      destruct (Z.lt_ge_cases a (offset cur x + Z.quot (extent cur x) 2)).
      * exists O. split; [lia|]. rewrite Nat.add_0_r. lia.
      * exists 1%nat. split; [lia|]. lia.
    + intros (xx & Hxx & H1 & H2).
      assert (xx = O \/ xx = 1%nat) as [-> | ->] by lia.
      * rewrite Nat.add_0_r in *. lia.
      * lia.
  - rewrite Nat.div_same by lia. split.
    + intros H. exists O. split; [lia|]. now rewrite Nat.mul_1_l, Nat.add_0_r.
    + intros (xx & Hxx & H). assert (xx = O) as -> by lia.
      now rewrite Nat.mul_1_l, Nat.add_0_r in H.
Qed.

End AxisChildren.

(** ** Running minimum and maximum *)

Lemma fold_min_spec (l : list Z) : forall m0,
  let m := fold_left Z.min l m0 in
  m <= m0 /\ (forall v, In v l -> m <= v) /\ (m = m0 \/ In m l).
Proof.
  induction l as [|v l IH]; intros m0; simpl.
  - split; [lia | split; [contradiction | now left]].
  - destruct (IH (Z.min m0 v)) as (H1 & H2 & H3). split; [|split].
    + lia.
    + intros u [<- | Hu]; [lia | now apply H2].
    + destruct H3 as [H3 | H3]; [|now right; right].
      destruct (Z.min_spec m0 v) as [[_ E] | [_ E]]; rewrite E in *;
        [now left | right; left; now symmetry].
Qed.

Lemma fold_max_spec (l : list Z) : forall m0,
  let m := fold_left Z.max l m0 in
  m0 <= m /\ (forall v, In v l -> v <= m) /\ (m = m0 \/ In m l).
Proof.
  induction l as [|v l IH]; intros m0; simpl.
  - split; [lia | split; [contradiction | now left]].
  - destruct (IH (Z.max m0 v)) as (H1 & H2 & H3). split; [|split].
    + lia.
    + intros u [<- | Hu]; [lia | now apply H2].
    + destruct H3 as [H3 | H3]; [|now right; right].
      destruct (Z.max_spec m0 v) as [[_ E] | [_ E]]; rewrite E in *;
        [right; left; now symmetry | now left].
Qed.

Lemma scanStep_min (e : OctreeElement) (v : Z) : e_min (scanStep e v) = Z.min (e_min e) v.
Proof.
  unfold scanStep. destruct (Z.gtb_spec (e_min e) v);
    cbn [e_min e_max with_min with_max];
    match goal with |- context [?a <? ?b] => destruct (Z.ltb_spec a b) end;
    cbn [e_min e_max with_min with_max]; lia.
Qed.

Lemma scanStep_max (e : OctreeElement) (v : Z) : e_max (scanStep e v) = Z.max (e_max e) v.
Proof.
  unfold scanStep. destruct (Z.gtb_spec (e_min e) v);
    cbn [e_min e_max with_min with_max];
    match goal with |- context [?a <? ?b] => destruct (Z.ltb_spec a b) end;
    cbn [e_min e_max with_min with_max]; lia.
Qed.

Lemma mergeDown_min (up down : OctreeElement) :
  e_min (mergeDown up down) = Z.min (e_min up) (e_min down).
Proof.
  unfold mergeDown. destruct (Z.gtb_spec (e_min up) (e_min down));
    cbn [e_min e_max with_min with_max];
    match goal with |- context [?a <? ?b] => destruct (Z.ltb_spec a b) end;
    cbn [e_min e_max with_min with_max]; lia.
Qed.

Lemma mergeDown_max (up down : OctreeElement) :
  e_max (mergeDown up down) = Z.max (e_max up) (e_max down).
Proof.
  unfold mergeDown. destruct (Z.gtb_spec (e_min up) (e_min down));
    cbn [e_min e_max with_min with_max];
    match goal with |- context [?a <? ?b] => destruct (Z.ltb_spec a b) end;
    cbn [e_min e_max with_min with_max]; lia.
Qed.

Lemma fold_scanStep (vals : list Z) : forall e0,
  e_min (fold_left scanStep vals e0) = fold_left Z.min vals (e_min e0) /\
  e_max (fold_left scanStep vals e0) = fold_left Z.max vals (e_max e0).
Proof.
  induction vals as [|v vals IH]; intros e0; simpl; [auto|].
  destruct (IH (scanStep e0 v)) as [H1 H2].
  now rewrite H1, H2, scanStep_min, scanStep_max.
Qed.

Lemma fold_mergeDown (kids : list OctreeElement) : forall e0,
  e_min (fold_left mergeDown kids e0) = fold_left Z.min (map e_min kids) (e_min e0) /\
  e_max (fold_left mergeDown kids e0) = fold_left Z.max (map e_max kids) (e_max e0).
Proof.
  induction kids as [|k kids IH]; intros e0; simpl; [auto|].
  destruct (IH (mergeDown e0 k)) as [H1 H2].
  now rewrite H1, H2, mergeDown_min, mergeDown_max.
Qed.

Lemma fold_left_map {A B C} (h : A -> B -> A) (f : A -> C -> A) (g : B -> C)
    (l : list B) (a : A) :
  (forall acc b, h acc b = f acc (g b)) ->
  fold_left h l a = fold_left f (map g l) a.
Proof.
  intros H. revert a. induction l as [|b l IH]; intros a; simpl; [reflexivity|].
  now rewrite H, IH.
Qed.

(** ** Voxel values *)

Lemma voxelAt_range (image : MemImage) (a b c : Z) :
  wfImage image -> 0 <= voxelAt image a b c <= maxValue (type image).
Proof.
  intros (_ & _ & _ & _ & Hv). unfold voxelAt.
  set (i := Z.to_nat _).
  destruct (Nat.lt_ge_cases i (length (pointer image))) as [Hi|Hi].
  - rewrite Forall_forall in Hv. apply Hv. now apply nth_In.
  - rewrite nth_overflow by lia. destruct (type image); simpl; lia.
Qed.

Lemma voxelAt_int (image : MemImage) (a b c : Z) :
  wfImage image -> INT_MIN <= voxelAt image a b c <= INT_MAX.
Proof.
  intros H. pose proof (voxelAt_range image a b c H).
  unfold INT_MIN, INT_MAX. destruct (type image); simpl in *; lia.
Qed.

(** ** The element of a finest-layer cell *)

Lemma cellScan_bounds (image : MemImage) (px py pz sx sy sz : Z) :
  wfImage image -> 1 <= sx -> 1 <= sy -> 1 <= sz ->
  let P := fun a b c => px <= a < px + sx /\ py <= b < py + sy /\ pz <= c < pz + sz in
  let e := cellScan image px py pz sx sy sz in
  leastOver image P (e_min e) /\ greatestOver image P (e_max e).
Proof.
  intros Himg Hsx Hsy Hsz P e. subst e. unfold cellScan.
  set (pos := triples (zrange sz) (zrange sy) (zrange sx)).
  set (val := fun p : Z * Z * Z =>
                let '(xx, yy, zz) := p in voxelAt image (px + xx) (py + yy) (pz + zz)).
  assert (Hfold : fold_left (fun e '(xx, yy, zz) =>
                     scanStep e (voxelAt image (px + xx) (py + yy) (pz + zz)))
                    pos OctreeElement_ctor
                  = fold_left scanStep (map val pos) OctreeElement_ctor).
  { apply fold_left_map. intros e [[xx yy] zz]. reflexivity. }
  rewrite Hfold. destruct (fold_scanStep (map val pos) OctreeElement_ctor) as [Emin Emax].
  rewrite Emin, Emax. cbn [e_min e_max OctreeElement_ctor].
  destruct (fold_min_spec (map val pos) INT_MAX) as (_ & Lmin & Amin).
  destruct (fold_max_spec (map val pos) INT_MIN) as (_ & Lmax & Amax).
  cbv zeta in Lmin, Amin, Lmax, Amax.
  assert (Hin : forall a b c, P a b c -> In (voxelAt image a b c) (map val pos)).
  { intros a b c (Ha & Hb & Hc). apply in_map_iff. exists (a - px, b - py, c - pz).
    split.
    - unfold val. f_equal; lia.
    - apply in_triples. rewrite !in_zrange. lia. }
  assert (Hout : forall v, In v (map val pos) -> exists a b c, P a b c /\ voxelAt image a b c = v).
  { intros v Hv. apply in_map_iff in Hv as ([[xx yy] zz] & Hval & Hp).
    apply in_triples in Hp. rewrite !in_zrange in Hp.
    exists (px + xx), (py + yy), (pz + zz). split; [unfold P; lia | exact Hval]. }
  assert (Hne : P px py pz) by (unfold P; lia).
  pose proof (voxelAt_int image px py pz Himg) as Hint.
  split; split.
  - intros a b c HP. apply Lmin. now apply Hin.
  - destruct Amin as [E | Hm]; [|now apply Hout].
    exists px, py, pz. split; [exact Hne|].
    pose proof (Lmin _ (Hin _ _ _ Hne)). lia.
  - intros a b c HP. apply Lmax. now apply Hin.
  - destruct Amax as [E | Hm]; [|now apply Hout].
    exists px, py, pz. split; [exact Hne|].
    pose proof (Lmax _ (Hin _ _ _ Hne)). lia.
Qed.

(** ** The layers of a complete fill *)

Section UpLayers.

Variables gX gY gZ : Grid.

Lemma length_upLayers (k : nat) : forall arr, length (upLayers gX gY gZ k arr) = S k.
Proof.
  induction k as [|k IH]; intros arr; simpl; [reflexivity|].
  rewrite length_app, IH. simpl. lia.
Qed.

Lemma upLayers_last (k : nat) (arr : list OctreeElement) :
  nth_error (upLayers gX gY gZ k arr) k = Some arr.
Proof.
  destruct k as [|k]; cbn [upLayers]; [reflexivity|].
  rewrite nth_error_app2; rewrite length_upLayers; [|lia].
  now rewrite Nat.sub_diag.
Qed.

Lemma upLayers_step (k : nat) : forall arr l, (l < k)%nat ->
  exists down,
    nth_error (upLayers gX gY gZ k arr) (S l) = Some down /\
    nth_error (upLayers gX gY gZ k arr) l = Some (layerAbove gX gY gZ l down).
Proof.
  induction k as [|k IH]; intros arr l Hl; [lia|]. cbn [upLayers].
  destruct (Nat.eq_dec l k) as [-> | Hne].
  - exists arr. split.
    + rewrite nth_error_app2; rewrite length_upLayers; [|lia].
      now rewrite Nat.sub_diag.
    + rewrite nth_error_app1 by (rewrite length_upLayers; lia).
      apply upLayers_last.
  - destruct (IH (layerAbove gX gY gZ k arr) l ltac:(lia)) as (down & H1 & H2).
    exists down. rewrite !nth_error_app1 by (rewrite length_upLayers; lia).
    split; assumption.
Qed.

End UpLayers.

Lemma Forall2_nth_error {A B} (R : A -> B -> Prop) (l1 : list A) (l2 : list B) (i : nat)
    (b : B) :
  Forall2 R l1 l2 -> nth_error l2 i = Some b ->
  exists a, nth_error l1 i = Some a /\ R a b.
Proof.
  intros H. revert i. induction H as [|a0 b0 l1 l2 HR _ IH]; intros [|i] Hi;
    simpl in *; try discriminate.
  - injection Hi as <-. eauto.
  - now apply IH.
Qed.

(** ** Every node holds the least and greatest value of its cell *)

Section NodeFacts.

Variable image : MemImage.
Variable t : Octree.
Hypothesis Himage : wfImage image.
Hypothesis Hgrids : gridsOf image t.

Let gX := m_gridX t.
Let gY := m_gridY t.
Let gZ := m_gridZ t.
Let D := filledData image gX gY gZ (m_numLayers t).

Lemma child_inBounds (l x y z xx yy zz : nat) :
  (S l < m_numLayers t)%nat -> inBounds t l x y z ->
  (xx < splitX t l)%nat -> (yy < splitY t l)%nat -> (zz < splitZ t l)%nat ->
  inBounds t (S l) (splitX t l * x + xx) (splitY t l * y + yy) (splitZ t l * z + zz).
Proof.
  intros Hl (_ & Hx & Hy & Hz) Hxx Hyy Hzz.
  destruct Hgrids as (_ & HX & HY & HZ). destruct Himage as (Hw & Hh & Hs & _).
  destruct (axis_ratio _ _ _ Hw HX l Hl) as (_ & RX).
  destruct (axis_ratio _ _ _ Hh HY l Hl) as (_ & RY).
  destruct (axis_ratio _ _ _ Hs HZ l Hl) as (_ & RZ).
  cbv zeta in RX, RY, RZ.
  fold (splitX t l) in RX. fold (splitY t l) in RY. fold (splitZ t l) in RZ.
  unfold inBounds. rewrite RX, RY, RZ.
  repeat split; try assumption; nia.
Qed.

Lemma split_values (l : nat) : (S l < m_numLayers t)%nat ->
  (splitX t l = 1 \/ splitX t l = 2)%nat /\
  (splitY t l = 1 \/ splitY t l = 2)%nat /\
  (splitZ t l = 1 \/ splitZ t l = 2)%nat.
Proof.
  intros Hl. destruct Hgrids as (_ & HX & HY & HZ). destruct Himage as (Hw & Hh & Hs & _).
  destruct (axis_ratio _ _ _ Hw HX l Hl) as (RX & _).
  destruct (axis_ratio _ _ _ Hh HY l Hl) as (RY & _).
  destruct (axis_ratio _ _ _ Hs HZ l Hl) as (RZ & _).
  auto.
Qed.

Lemma cell_children (l x y z : nat) (a b c : Z) :
  (S l < m_numLayers t)%nat ->
  inCell3 t l x y z a b c <->
  exists xx yy zz,
    (xx < splitX t l)%nat /\ (yy < splitY t l)%nat /\ (zz < splitZ t l)%nat /\
    inCell3 t (S l) (splitX t l * x + xx) (splitY t l * y + yy) (splitZ t l * z + zz)
      a b c.
Proof.
  intros Hl. destruct Hgrids as (_ & HX & HY & HZ). destruct Himage as (Hw & Hh & Hs & _).
  pose proof (axis_children _ _ _ Hw HX l Hl x a) as AX.
  pose proof (axis_children _ _ _ Hh HY l Hl y b) as AY.
  pose proof (axis_children _ _ _ Hs HZ l Hl z c) as AZ.
  unfold inCell3, splitX, splitY, splitZ. rewrite AX, AY, AZ. split.
  - intros ((xx & Hxx & Ha) & (yy & Hyy & Hb) & (zz & Hzz & Hc)).
    exists xx, yy, zz. repeat (split; [assumption|]). assumption.
  - intros (xx & yy & zz & Hxx & Hyy & Hzz & Ha & Hb & Hc).
    repeat split; eauto.
Qed.

Lemma filledData_layers :
  exists last, m_numLayers t = S last /\
    nth_error D last
    = Some (finestElems image (nth last gX []) (nth last gY []) (nth last gZ [])) /\
    forall l, (l < last)%nat ->
      exists down, nth_error D (S l) = Some down /\
                   nth_error D l = Some (layerAbove gX gY gZ l down).
Proof.
  destruct Hgrids as (Hn & _). subst D.
  destruct (m_numLayers t) as [|last]; [lia|]. exists last. cbn [filledData].
  split; [reflexivity|]. split; [apply upLayers_last | intros l Hl; now apply upLayers_step].
Qed.

Lemma filledElem_lookup (l x y z : nat) :
  inBounds t l x y z ->
  nth_error (nth l D [])
    (x + length (nth l gX []) * (y + length (nth l gY []) * z))
  = Some (filledElem image t l x y z).
Proof.
  intros (Hl & Hx & Hy & Hz).
  apply nth_error_nth_default.
  destruct filledData_layers as (last & En & Hfin & Hup).
  assert (Hlen : length (nth l D [])
                 = (length (nth l gX []) * length (nth l gY []) * length (nth l gZ []))%nat).
  { destruct (Nat.eq_dec l last) as [-> | Hne].
    - rewrite (nth_error_nth _ _ _ Hfin). apply length_tab3.
    - destruct (Hup l ltac:(lia)) as (down & _ & Hl').
      rewrite (nth_error_nth _ _ _ Hl'). apply length_layerAbove. }
  unfold D, gX, gY, gZ in *. unfold filledElem. rewrite Hlen. now apply index3_lt.
Qed.

Lemma filledElem_finest (x y z : nat) (last : nat) :
  m_numLayers t = S last -> inBounds t last x y z ->
  filledElem image t last x y z
  = cellScan image (offset (nth last gX []) x) (offset (nth last gY []) y)
      (offset (nth last gZ []) z) (extent (nth last gX []) x)
      (extent (nth last gY []) y) (extent (nth last gZ []) z).
Proof.
  intros En HB. pose proof (filledElem_lookup last x y z HB) as Hlook.
  destruct HB as (_ & Hx & Hy & Hz). fold gX gY gZ in Hx, Hy, Hz.
  destruct filledData_layers as (last' & En' & Hfin & _).
  assert (last' = last) as -> by lia.
  rewrite (nth_error_nth _ _ _ Hfin) in Hlook. unfold finestElems in Hlook.
  rewrite nth_error_tab3 in Hlook by assumption. now injection Hlook as <-.
Qed.

Lemma filledElem_up (l x y z : nat) :
  (S l < m_numLayers t)%nat -> inBounds t l x y z ->
  filledElem image t l x y z
  = fold_left mergeDown
      (map (fun '(cx, cy, cz) => filledElem image t (S l) cx cy cz) (children t l x y z))
      OctreeElement_ctor.
Proof.
  intros Hl HB. pose proof (filledElem_lookup l x y z HB) as Hlook.
  destruct HB as (_ & Hx & Hy & Hz). fold gX gY gZ in Hx, Hy, Hz.
  destruct filledData_layers as (last & En & _ & Hup).
  destruct (Hup l ltac:(lia)) as (down & Hdown & Hcur).
  rewrite (nth_error_nth _ _ _ Hcur) in Hlook. unfold layerAbove in Hlook.
  rewrite nth_error_tab3 in Hlook by assumption. injection Hlook as <-.
  destruct Hgrids as (_ & HX & HY & HZ). destruct Himage as (Hw & Hh & Hs & _).
  destruct (axis_ratio _ _ _ Hw HX l Hl) as (_ & RX).
  destruct (axis_ratio _ _ _ Hh HY l Hl) as (_ & RY).
  cbv zeta in RX, RY. unfold D, gX, gY, gZ in *.
  fold (splitX t l) in RX. fold (splitY t l) in RY.
  fold (splitX t l) (splitY t l) (splitZ t l).
  unfold cellMerge, children, childCoords. rewrite map_map. apply fold_left_map.
  intros up [[xx yy] zz]. unfold filledElem.
  rewrite (nth_error_nth _ _ _ Hdown), RX, RY. reflexivity.
Qed.

Lemma in_children (l x y z cx cy cz : nat) :
  In (cx, cy, cz) (children t l x y z) <->
  exists xx yy zz,
    (xx < splitX t l)%nat /\ (yy < splitY t l)%nat /\ (zz < splitZ t l)%nat /\
    cx = (splitX t l * x + xx)%nat /\ cy = (splitY t l * y + yy)%nat /\
    cz = (splitZ t l * z + zz)%nat.
Proof.
  unfold children, childCoords. rewrite in_map_iff. split.
  - intros ([[xx yy] zz] & E & Hin). apply in_triples in Hin.
    rewrite !in_seq in Hin. injection E as <- <- <-.
    exists xx, yy, zz. repeat split; lia.
  - intros (xx & yy & zz & Hxx & Hyy & Hzz & -> & -> & ->).
    exists (xx, yy, zz). split; [reflexivity|].
    apply in_triples. rewrite !in_seq. lia.
Qed.

Lemma extent_pos (dim : Z) (g : Grid) (l x : nat) :
  0 < dim -> axisGrid dim (m_numLayers t) g -> (l < m_numLayers t)%nat ->
  (x < length (nth l g []))%nat -> 1 <= extent (nth l g []) x.
Proof.
  intros Hd Hg Hl Hx. destruct (axis_layer dim _ g Hd Hg l Hl) as (_ & Hc & _).
  rewrite Forall_forall in Hc. apply Hc. now apply nth_In.
Qed.

Lemma filledElem_bounds_aux (d : nat) : forall l x y z,
  (S (l + d) = m_numLayers t)%nat -> inBounds t l x y z ->
  leastOver image (inCell3 t l x y z) (e_min (filledElem image t l x y z)) /\
  greatestOver image (inCell3 t l x y z) (e_max (filledElem image t l x y z)).
Proof.
  induction d as [|d IH]; intros l x y z Hd HB.
  - rewrite Nat.add_0_r in Hd. rewrite (filledElem_finest x y z l (eq_sym Hd) HB).
    destruct HB as (Hl & Hx & Hy & Hz).
    destruct Hgrids as (_ & HX & HY & HZ). pose proof Himage as (Hw & Hh & Hs & _).
    apply cellScan_bounds;
      [ exact Himage
      | apply (extent_pos (width image)); assumption
      | apply (extent_pos (height image)); assumption
      | apply (extent_pos (slices image)); assumption ].
  - assert (Hl : (S l < m_numLayers t)%nat) by lia.
    rewrite (filledElem_up l x y z Hl HB).
    set (kids := map (fun '(cx, cy, cz) => filledElem image t (S l) cx cy cz)
                   (children t l x y z)).
    destruct (fold_mergeDown kids OctreeElement_ctor) as [Emin Emax].
    rewrite Emin, Emax. cbn [e_min e_max OctreeElement_ctor].
    destruct (fold_min_spec (map e_min kids) INT_MAX) as (_ & Lmin & Amin).
    destruct (fold_max_spec (map e_max kids) INT_MIN) as (_ & Lmax & Amax).
    cbv zeta in Lmin, Amin, Lmax, Amax.
    set (m := fold_left Z.min (map e_min kids) INT_MAX) in *.
    set (M := fold_left Z.max (map e_max kids) INT_MIN) in *.
    (* every child is a node with the bounds of its own cell *)
    assert (Hkid : forall xx yy zz,
              (xx < splitX t l)%nat -> (yy < splitY t l)%nat -> (zz < splitZ t l)%nat ->
              let cx := (splitX t l * x + xx)%nat in
              let cy := (splitY t l * y + yy)%nat in
              let cz := (splitZ t l * z + zz)%nat in
              In (filledElem image t (S l) cx cy cz) kids /\
              leastOver image (inCell3 t (S l) cx cy cz)
                (e_min (filledElem image t (S l) cx cy cz)) /\
              greatestOver image (inCell3 t (S l) cx cy cz)
                (e_max (filledElem image t (S l) cx cy cz))).
    { intros xx yy zz Hxx Hyy Hzz cx cy cz. split.
      - apply in_map_iff. exists (cx, cy, cz). split; [reflexivity|].
        apply in_children. exists xx, yy, zz. auto 10.
      - apply IH; [lia | now apply child_inBounds]. }
    assert (Hsub : forall k, In k kids ->
              exists cx cy cz,
                k = filledElem image t (S l) cx cy cz /\
                (forall a b c, inCell3 t (S l) cx cy cz a b c -> inCell3 t l x y z a b c) /\
                leastOver image (inCell3 t (S l) cx cy cz) (e_min k) /\
                greatestOver image (inCell3 t (S l) cx cy cz) (e_max k)).
    { intros k Hk. apply in_map_iff in Hk as ([[cx cy] cz] & <- & Hc).
      apply in_children in Hc as (xx & yy & zz & Hxx & Hyy & Hzz & -> & -> & ->).
      eexists _, _, _. split; [reflexivity|]. split.
      - intros a b c Hin. apply (cell_children l x y z a b c Hl). eauto 10.
      - apply (Hkid xx yy zz Hxx Hyy Hzz). }
    destruct (split_values l Hl) as (SX & SY & SZ).
    destruct (Hkid O O O ltac:(lia) ltac:(lia) ltac:(lia)) as (Hk0 & (L0 & a0 & b0 & c0 & P0 & V0) & (G0 & a1 & b1 & c1 & P1 & V1)).
    set (k0 := filledElem image t (S l) (splitX t l * x + 0) (splitY t l * y + 0)
                 (splitZ t l * z + 0)) in *.
    split; split.
    + intros a b c Hin. apply (cell_children l x y z a b c Hl) in Hin
        as (xx & yy & zz & Hxx & Hyy & Hzz & Hc).
      destruct (Hkid xx yy zz Hxx Hyy Hzz) as (Hk & (Lk & _) & _).
      specialize (Lmin _ (in_map e_min _ _ Hk)). specialize (Lk a b c Hc). lia.
    + destruct Amin as [E | Hm].
      * exists a0, b0, c0. split.
        -- apply (cell_children l x y z a0 b0 c0 Hl). exists O, O, O.
           repeat (split; [lia|]). exact P0.
        -- pose proof (Lmin _ (in_map e_min _ _ Hk0)).
           pose proof (voxelAt_int image a0 b0 c0 Himage). lia.
      * apply in_map_iff in Hm as (k & Ek & Hk).
        destruct (Hsub k Hk) as (cx & cy & cz & _ & Hincl & (_ & a & b & c & Pk & Vk) & _).
        exists a, b, c. split; [now apply Hincl | lia].
    + intros a b c Hin. apply (cell_children l x y z a b c Hl) in Hin
        as (xx & yy & zz & Hxx & Hyy & Hzz & Hc).
      destruct (Hkid xx yy zz Hxx Hyy Hzz) as (Hk & _ & (Gk & _)).
      specialize (Lmax _ (in_map e_max _ _ Hk)). specialize (Gk a b c Hc). lia.
    + destruct Amax as [E | Hm].
      * exists a1, b1, c1. split.
        -- apply (cell_children l x y z a1 b1 c1 Hl). exists O, O, O.
           repeat (split; [lia|]). exact P1.
        -- pose proof (Lmax _ (in_map e_max _ _ Hk0)).
           pose proof (voxelAt_int image a1 b1 c1 Himage). lia.
      * apply in_map_iff in Hm as (k & Ek & Hk).
        destruct (Hsub k Hk) as (cx & cy & cz & _ & Hincl & _ & (_ & a & b & c & Pk & Vk)).
        exists a, b, c. split; [now apply Hincl | lia].
Qed.

Lemma filledElem_parent (l x y z : nat) :
  (S l < m_numLayers t)%nat -> inBounds t l x y z ->
  let e := filledElem image t l x y z in
  (forall cx cy cz, In (cx, cy, cz) (children t l x y z) ->
     e_min e <= e_min (filledElem image t (S l) cx cy cz) /\
     e_max (filledElem image t (S l) cx cy cz) <= e_max e) /\
  (exists cx cy cz, In (cx, cy, cz) (children t l x y z) /\
     e_min (filledElem image t (S l) cx cy cz) = e_min e) /\
  (exists cx cy cz, In (cx, cy, cz) (children t l x y z) /\
     e_max (filledElem image t (S l) cx cy cz) = e_max e).
Proof.
  intros Hl HB e. subst e. rewrite (filledElem_up l x y z Hl HB).
  set (kid := fun c : nat * nat * nat =>
                let '(cx, cy, cz) := c in filledElem image t (S l) cx cy cz).
  set (kids := map kid (children t l x y z)).
  destruct (fold_mergeDown kids OctreeElement_ctor) as [Emin Emax].
  rewrite Emin, Emax. cbn [e_min e_max OctreeElement_ctor].
  destruct (fold_min_spec (map e_min kids) INT_MAX) as (_ & Lmin & Amin).
  destruct (fold_max_spec (map e_max kids) INT_MIN) as (_ & Lmax & Amax).
  cbv zeta in Lmin, Amin, Lmax, Amax.
  destruct (split_values l Hl) as (SX & SY & SZ).
  assert (Hc0 : In ((splitX t l * x + 0)%nat, (splitY t l * y + 0)%nat,
                    (splitZ t l * z + 0)%nat) (children t l x y z)).
  { apply in_children. exists O, O, O. repeat (split; [lia|]). reflexivity. }
  assert (Hsane : forall cx cy cz, In (cx, cy, cz) (children t l x y z) ->
            e_min (filledElem image t (S l) cx cy cz) <= INT_MAX /\
            INT_MIN <= e_max (filledElem image t (S l) cx cy cz)).
  { intros cx cy cz Hc.
    apply in_children in Hc as (xx & yy & zz & Hxx & Hyy & Hzz & -> & -> & ->).
    destruct (filledElem_bounds_aux (m_numLayers t - S (S l)) (S l) _ _ _ ltac:(lia)
                (child_inBounds l x y z xx yy zz Hl HB Hxx Hyy Hzz))
      as ((_ & a & b & c & _ & V) & (_ & a' & b' & c' & _ & V')).
    pose proof (voxelAt_int image a b c Himage).
    pose proof (voxelAt_int image a' b' c' Himage). lia. }
  assert (Hin : forall c, In c (children t l x y z) -> In (kid c) kids).
  { intros c Hc. now apply in_map. }
  split; [|split].
  - intros cx cy cz Hc. specialize (Hin _ Hc). split.
    + apply Lmin. now apply (in_map e_min) in Hin.
    + apply Lmax. now apply (in_map e_max) in Hin.
  - destruct Amin as [E | Hm].
    + eexists _, _, _. split; [exact Hc0|].
      pose proof (Lmin _ (in_map e_min _ _ (Hin _ Hc0))) as H1.
      pose proof (proj1 (Hsane _ _ _ Hc0)) as H2. cbn [kid] in H1. lia.
    + apply in_map_iff in Hm as (k & Ek & Hk).
      apply in_map_iff in Hk as ([[cx cy] cz] & <- & Hc).
      exists cx, cy, cz. split; [exact Hc | exact Ek].
  - destruct Amax as [E | Hm].
    + eexists _, _, _. split; [exact Hc0|].
      pose proof (Lmax _ (in_map e_max _ _ (Hin _ Hc0))) as H1.
      pose proof (proj2 (Hsane _ _ _ Hc0)) as H2. cbn [kid] in H1. lia.
    + apply in_map_iff in Hm as (k & Ek & Hk).
      apply in_map_iff in Hk as ([[cx cy] cz] & <- & Hc).
      exists cx, cy, cz. split; [exact Hc | exact Ek].
Qed.

Lemma filledElem_bounds (l x y z : nat) :
  inBounds t l x y z ->
  leastOver image (inCell3 t l x y z) (e_min (filledElem image t l x y z)) /\
  greatestOver image (inCell3 t l x y z) (e_max (filledElem image t l x y z)).
Proof.
  intros HB. apply (filledElem_bounds_aux (m_numLayers t - S l)); [|exact HB].
  destruct HB as (Hl & _). lia.
Qed.

End NodeFacts.

(** ** Trees whose min/max data is that of a complete fill *)

Lemma sameBounds_refl (d : list (list OctreeElement)) : sameBounds d d.
Proof.
  unfold sameBounds. induction d as [|arr d IH]; constructor; [|exact IH].
  induction arr as [|e arr IHa]; constructor; auto.
Qed.

Lemma Filled_Summarised (image : MemImage) (t : Octree) :
  Filled image t -> Summarised image t.
Proof. intros [Hg Hd]. split; [exact Hg|]. rewrite Hd at 1. apply sameBounds_refl. Qed.

Lemma FillCompleted_Filled (image : MemImage) (mcs : Z) (t : Octree) :
  wfImage image -> supported image -> 1 <= mcs ->
  FillCompleted image mcs t -> Filled image t.
Proof.
  intros Himg Hsup Hmcs (abortThread & fuel & r & w & Hrun & Hus & <-).
  now destruct (filled_inversion abortThread fuel image mcs r w Himg Hsup Hmcs Hrun Hus).
Qed.

Lemma length_filledData (image : MemImage) (gX gY gZ : Grid) (n : nat) :
  length (filledData image gX gY gZ n) = n.
Proof. destruct n; [reflexivity|]. apply length_upLayers. Qed.

Section SummarisedFacts.

Variable image : MemImage.
Variable t : Octree.
Hypothesis Himage : wfImage image.
Hypothesis Hsum : Summarised image t.

Lemma summarised_elem (l x y z : nat) :
  inBounds t l x y z ->
  exists e, elemAt t l x y z = Some e /\
            e_min e = e_min (filledElem image t l x y z) /\
            e_max e = e_max (filledElem image t l x y z).
Proof.
  intros HB. destruct Hsum as (Hg & Hsame).
  pose proof (filledElem_lookup image t Hg l x y z HB) as Hlook.
  destruct HB as (Hl & _).
  set (D := filledData image (m_gridX t) (m_gridY t) (m_gridZ t) (m_numLayers t)) in *.
  assert (HD : nth_error D l = Some (nth l D [])).
  { apply nth_error_nth_default. subst D. now rewrite length_filledData. }
  destruct (Forall2_nth_error _ _ _ _ _ Hsame HD) as (arr & Harr & Hrow).
  destruct (Forall2_nth_error _ _ _ _ _ Hrow Hlook) as (e & He & Emin & Emax).
  exists e. unfold elemAt. rewrite Harr. auto.
Qed.

Lemma summarised_bounds (l x y z : nat) (e : OctreeElement) :
  inBounds t l x y z -> elemAt t l x y z = Some e ->
  leastOver image (inCell3 t l x y z) (e_min e) /\
  greatestOver image (inCell3 t l x y z) (e_max e).
Proof.
  intros HB He. destruct (summarised_elem l x y z HB) as (e' & He' & Emin & Emax).
  assert (e' = e) as -> by congruence. rewrite Emin, Emax.
  apply filledElem_bounds; [exact Himage | apply Hsum | exact HB].
Qed.

Lemma summarised_parent (l x y z : nat) (e : OctreeElement) :
  (S l < m_numLayers t)%nat -> inBounds t l x y z -> elemAt t l x y z = Some e ->
  (forall cx cy cz, In (cx, cy, cz) (children t l x y z) ->
     exists k, elemAt t (S l) cx cy cz = Some k /\
               e_min e <= e_min k /\ e_max k <= e_max e) /\
  (exists cx cy cz k, In (cx, cy, cz) (children t l x y z) /\
     elemAt t (S l) cx cy cz = Some k /\ e_min k = e_min e) /\
  (exists cx cy cz k, In (cx, cy, cz) (children t l x y z) /\
     elemAt t (S l) cx cy cz = Some k /\ e_max k = e_max e).
Proof.
  intros Hl HB He. pose proof Hsum as (Hg & _).
  destruct (summarised_elem l x y z HB) as (e' & He' & Emin & Emax).
  assert (e' = e) as -> by congruence.
  destruct (filledElem_parent image t Himage Hg l x y z Hl HB) as (Hall & Hmin & Hmax).
  assert (Hkid : forall cx cy cz, In (cx, cy, cz) (children t l x y z) ->
            exists k, elemAt t (S l) cx cy cz = Some k /\
                      e_min k = e_min (filledElem image t (S l) cx cy cz) /\
                      e_max k = e_max (filledElem image t (S l) cx cy cz)).
  { intros cx cy cz Hc. apply summarised_elem.
    apply (in_children t) in Hc as (xx & yy & zz & Hxx & Hyy & Hzz & -> & -> & ->).
    apply (child_inBounds image); auto. }
  split; [|split].
  - intros cx cy cz Hc. destruct (Hkid cx cy cz Hc) as (k & Hk & E1 & E2).
    exists k. destruct (Hall cx cy cz Hc). split; [exact Hk | lia].
  - destruct Hmin as (cx & cy & cz & Hc & E).
    destruct (Hkid cx cy cz Hc) as (k & Hk & E1 & E2).
    exists cx, cy, cz, k. split; [exact Hc | split; [exact Hk | lia]].
  - destruct Hmax as (cx & cy & cz & Hc & E).
    destruct (Hkid cx cy cz Hc) as (k & Hk & E1 & E2).
    exists cx, cy, cz, k. split; [exact Hc | split; [exact Hk | lia]].
Qed.

End SummarisedFacts.

Lemma index3_decode (A B C i : nat) :
  (i < A * B * C)%nat ->
  exists a b c, (a < A)%nat /\ (b < B)%nat /\ (c < C)%nat /\ i = (a + A * (b + B * c))%nat.
Proof.
  intros Hi.
  assert (HA : (0 < A)%nat) by (destruct A; simpl in *; lia).
  assert (HB : (0 < B)%nat) by (destruct B; [rewrite Nat.mul_0_r in Hi; simpl in Hi|]; lia).
  exists (i mod A)%nat, ((i / A) mod B)%nat, (i / A / B)%nat.
  pose proof (Nat.mod_upper_bound i A ltac:(lia)).
  pose proof (Nat.mod_upper_bound (i / A) B ltac:(lia)).
  pose proof (Nat.div_mod_eq i A). pose proof (Nat.div_mod_eq (i / A) B).
  assert ((i / A < B * C)%nat).
  { apply Nat.Div0.div_lt_upper_bound. lia. }
  assert ((i / A / B < C)%nat).
  { apply Nat.Div0.div_lt_upper_bound. lia. }
  repeat split; try assumption. lia.
Qed.

Lemma filledData_layer_length (image : MemImage) (t : Octree) (l : nat)
    (arr : list OctreeElement) :
  gridsOf image t ->
  nth_error (filledData image (m_gridX t) (m_gridY t) (m_gridZ t) (m_numLayers t)) l
  = Some arr ->
  (l < m_numLayers t)%nat /\
  length arr = (length (nth l (m_gridX t) []) * length (nth l (m_gridY t) [])
                * length (nth l (m_gridZ t) []))%nat.
Proof.
  intros Hg Harr.
  assert (Hl : (l < m_numLayers t)%nat).
  { rewrite <- (length_filledData image (m_gridX t) (m_gridY t) (m_gridZ t)).
    apply nth_error_Some. congruence. }
  split; [exact Hl|].
  destruct (filledData_layers image t Hg) as (last & En & Hfin & Hup).
  destruct (Nat.eq_dec l last) as [-> | Hne].
  - rewrite Hfin in Harr. injection Harr as <-. apply length_tab3.
  - destruct (Hup l ltac:(lia)) as (down & _ & Hl').
    rewrite Hl' in Harr. injection Harr as <-. apply length_layerAbove.
Qed.

(** X2.  After a fill that ran to completion on a freshly constructed
    object, over a volume with positive dimensions and with
    [minCubeSize >= 1], every element of every layer has [min <= max], and
    every cell of every layer grid has a positive extent, so that no element
    stays at its initial [INT_MAX], [INT_MIN]. *)
Theorem fill_min_le_max (image : MemImage) (mcs : Z) (t : Octree) :
  wfImage image -> supported image -> 1 <= mcs -> FillCompleted image mcs t ->
  (forall layer arr e,
     nth_error (m_data t) layer = Some arr -> In e arr -> e_min e <= e_max e) /\
  (forall layer cells,
     nth_error (m_gridX t) layer = Some cells \/
     nth_error (m_gridY t) layer = Some cells \/
     nth_error (m_gridZ t) layer = Some cells ->
     Forall (fun s => 1 <= s) cells).
Proof.
  intros Himg Hsup Hmcs Hfill.
  pose proof (FillCompleted_Filled image mcs t Himg Hsup Hmcs Hfill) as HF.
  pose proof (Filled_Summarised image t HF) as Hsum.
  destruct HF as (Hg & Hdata). split.
  - intros layer arr e Harr He.
    pose proof Harr as Harr'. rewrite Hdata in Harr'.
    destruct (filledData_layer_length image t layer arr Hg Harr') as (Hl & Hlen).
    apply In_nth_error in He as (i & Hi).
    assert (Hilt : (i < length arr)%nat) by (apply nth_error_Some; congruence).
    rewrite Hlen in Hilt.
    destruct (index3_decode _ _ _ i Hilt) as (x & y & z & Hx & Hy & Hz & ->).
    assert (HB : inBounds t layer x y z) by (repeat split; assumption).
    assert (Hel : elemAt t layer x y z = Some e).
    { unfold elemAt. now rewrite Harr. }
    destruct (summarised_bounds image t Himg Hsum layer x y z e HB Hel)
      as ((_ & a & b & c & HP & V) & (G & _)).
    specialize (G a b c HP). lia.
  - intros layer cells Hcells. destruct Hg as (_ & HX & HY & HZ).
    assert (Hall : forall dim n g, axisGrid dim n g -> nth_error g layer = Some cells ->
                                   Forall (fun s => 1 <= s) cells).
    { intros dim n g (_ & _ & _ & Hall) Hc. rewrite Forall_forall in Hall.
      apply (Hall cells). eapply nth_error_In; eauto. }
    destruct Hcells as [H | [H | H]]; eauto.
Qed.

(** X1.  After a fill that ran to completion on a freshly constructed
    object, every node above the finest layer has 1 or 2 children per axis
    (the ratio of the grid sizes of the two layers); its [min] is at most
    the [min] of each child and equal to that of one of them, its [max] is
    at least the [max] of each child and equal to that of one of them; and
    the [min] and [max] of every node are the least and the greatest voxel
    value of its cell. *)
Theorem fill_parent_min_max (image : MemImage) (mcs : Z) (t : Octree) :
  wfImage image -> supported image -> 1 <= mcs -> FillCompleted image mcs t ->
  (forall layer x y z,
     (S layer < m_numLayers t)%nat -> inBounds t layer x y z ->
     ((splitX t layer = 1 \/ splitX t layer = 2) /\
      (splitY t layer = 1 \/ splitY t layer = 2) /\
      (splitZ t layer = 1 \/ splitZ t layer = 2))%nat /\
     exists e,
       elemAt t layer x y z = Some e /\
       (forall cx cy cz, In (cx, cy, cz) (children t layer x y z) ->
          exists k, elemAt t (S layer) cx cy cz = Some k /\
                    e_min e <= e_min k /\ e_max k <= e_max e) /\
       (exists cx cy cz k, In (cx, cy, cz) (children t layer x y z) /\
          elemAt t (S layer) cx cy cz = Some k /\ e_min k = e_min e) /\
       (exists cx cy cz k, In (cx, cy, cz) (children t layer x y z) /\
          elemAt t (S layer) cx cy cz = Some k /\ e_max k = e_max e)) /\
  (forall layer x y z,
     inBounds t layer x y z ->
     exists e,
       elemAt t layer x y z = Some e /\
       leastOver image (inCell3 t layer x y z) (e_min e) /\
       greatestOver image (inCell3 t layer x y z) (e_max e)).
Proof.
  intros Himg Hsup Hmcs Hfill.
  pose proof (FillCompleted_Filled image mcs t Himg Hsup Hmcs Hfill) as HF.
  pose proof (Filled_Summarised image t HF) as Hsum.
  split.
  - intros layer x y z Hl HB. split.
    + apply (split_values image t Himg (proj1 HF) layer Hl).
    + destruct (summarised_elem image t Hsum layer x y z HB) as (e & He & _).
      exists e. split; [exact He|].
      apply (summarised_parent image t Himg Hsum layer x y z e Hl HB He).
  - intros layer x y z HB.
    destruct (summarised_elem image t Hsum layer x y z HB) as (e & He & _).
    exists e. split; [exact He|].
    apply (summarised_bounds image t Himg Hsum layer x y z e HB He).
Qed.

(** ** Loop nests as traversals of their iteration space *)

Lemma foldM_ext {S A X} (f g : A -> X -> M S A) (l : list X) :
  (forall a x s, f a x s = g a x s) ->
  forall acc s, foldM f acc l s = foldM g acc l s.
Proof.
  intros H. induction l as [|x l IH]; intros acc s; simpl; [reflexivity|].
  unfold bind. rewrite H. destruct (g acc x s); auto.
Qed.

Lemma foldM_flat_map {S A X Y} (body : A -> Y -> M S A) (g : X -> list Y) (l : list X) :
  forall acc s,
    foldM body acc (flat_map g l) s = foldM (fun a x => foldM body a (g x)) acc l s.
Proof.
  induction l as [|x l IH]; intros acc s; simpl; [reflexivity|].
  rewrite foldM_app. unfold bind. destruct (foldM body acc (g x) s); auto.
Qed.

Lemma foldM_map {S A X Y} (body : A -> Y -> M S A) (g : X -> Y) (l : list X) :
  forall acc s, foldM body acc (map g l) s = foldM (fun a x => body a (g x)) acc l s.
Proof.
  induction l as [|x l IH]; intros acc s; simpl; [reflexivity|].
  unfold bind. destruct (body acc (g x) s); auto.
Qed.

Lemma for3_triples {S A X} (body : A -> X -> X -> X -> M S A) (zs ys xs : list X) :
  forall acc s,
    for3 zs ys xs body acc s
    = foldM (fun a '(xx, yy, zz) => body a xx yy zz) acc (triples zs ys xs) s.
Proof.
  intros acc s. unfold for3, triples. rewrite foldM_flat_map.
  apply foldM_ext. intros a zz s'. rewrite foldM_flat_map.
  apply foldM_ext. intros a' yy s''. now rewrite foldM_map.
Qed.

Lemma foldM_collect {S X V A} (f : X -> M S V) (h : A -> V -> A) (l : list X) :
  forall acc s,
    foldM (fun a x => v <- f x ;; ret (h a v)) acc l s
    = (vs <- mapM f l ;; ret (fold_left h vs acc)) s.
Proof.
  induction l as [|x l IH]; intros acc s; simpl; [reflexivity|].
  unfold bind in *. destruct (f x s) as [v s'| | |]; auto.
  cbn [ret]. rewrite IH. destruct (mapM f l s'); reflexivity.
Qed.

(** The triple loop of [checkChildren] visits the children in order and
    folds their results into the two flags. *)
Lemma checkLoop_mapM {S} (visit : nat -> nat -> nat -> M S ElementType)
    (nxx nyy nzz px py pz : nat) (s : S) :
  for3 (seq 0 nzz) (seq 0 nyy) (seq 0 nxx)
    (fun flags xx yy zz =>
       value <- visit (nxx * px + xx)%nat (nyy * py + yy)%nat (nzz * pz + zz)%nat ;;
       ret (noteChild flags value)) (true, true) s
  = (vs <- mapM (fun '(cx, cy, cz) => visit cx cy cz) (childCoords nxx nyy nzz px py pz) ;;
     ret (fold_left noteChild vs (true, true))) s.
Proof.
  rewrite for3_triples, <- foldM_collect. unfold childCoords. rewrite foldM_map.
  apply foldM_ext. intros a [[xx yy] zz] s'. reflexivity.
Qed.

Lemma fold_noteChild (vs : list ElementType) : forall allIn allOut,
  fold_left noteChild vs (allIn, allOut)
  = (allIn && forallb isIn vs, allOut && forallb isOut vs).
Proof.
  induction vs as [|v vs IH]; intros allIn allOut; simpl.
  - now rewrite !andb_true_r.
  - destruct v; simpl; rewrite IH; simpl; now rewrite ?andb_false_r.
Qed.

Lemma labelOfFlags_fold (vs : list ElementType) :
  labelOfFlags (fold_left noteChild vs (true, true)) = labelOf vs.
Proof. rewrite fold_noteChild. reflexivity. Qed.

(** ** [setInsideRange] with the stored bounds, and the body of [checkChildren] *)

(** C6.  In every state of the object, [setInsideRange] with the stored
    bounds returns false and leaves the object as it is.  A freshly
    constructed object stores [INT_MIN] and [INT_MAX], so a first call with
    these values does nothing and returns false. *)
Theorem setInsideRange_same_bounds :
  (forall (fuel : nat) (t : Octree),
     setInsideRange fuel (m_min t) (m_max t) t = Ret false t) /\
  (forall (fuel : nat) (minCubeSize : Z),
     m_min (Octree_ctor minCubeSize) = INT_MIN /\
     m_max (Octree_ctor minCubeSize) = INT_MAX /\
     setInsideRange fuel INT_MIN INT_MAX (Octree_ctor minCubeSize)
     = Ret false (Octree_ctor minCubeSize)).
Proof.
  split.
  - intros fuel t. unfold setInsideRange, bind, get. now rewrite !Z.eqb_refl.
  - intros fuel mcs. repeat split.
Qed.

Lemma rejected_true_iff (lo hi : Z) (e : OctreeElement) :
  rejected lo hi e = true <-> (lo > e_max e \/ hi < e_min e).
Proof.
  unfold rejected. rewrite orb_true_iff, Z.gtb_gt, Z.ltb_lt. lia.
Qed.

Lemma rejected_false (lo hi : Z) (e : OctreeElement) :
  ~ (lo > e_max e \/ hi < e_min e) -> rejected lo hi e = false.
Proof.
  intros H. destruct (rejected lo hi e) eqn:E; [|reflexivity].
  apply rejected_true_iff in E. contradiction.
Qed.

Lemma checkChildren_step (t : Octree) (layer px py pz : nat) (gx gy : list Z)
    (arr : list OctreeElement) (element : OctreeElement) :
  nth_error (m_gridX t) layer = Some gx ->
  nth_error (m_gridY t) layer = Some gy ->
  nth_error (m_data t) layer = Some arr ->
  nth_error arr (px + length gx * (py + length gy * pz)) = Some element ->
  let pos := (px + length gx * (py + length gy * pz))%nat in
  (m_min t > e_max element \/ m_max t < e_min element ->
   forall fuel,
     checkChildren (S fuel) layer px py pz t
     = Ret LEAF_OUT
         (withLayer layer (list_update arr pos (with_type LEAF_OUT element)) t)) /\
  (~ (m_min t > e_max element \/ m_max t < e_min element) ->
   Z.of_nat layer = Z.of_nat (m_numLayers t) - 1 ->
   forall gz sx sy sz,
     nth_error (m_gridZ t) layer = Some gz ->
     nth_error gx px = Some sx -> nth_error gy py = Some sy -> nth_error gz pz = Some sz ->
     forall fuel,
       checkChildren (S fuel) layer px py pz t
       = Ret LEAF_IN
           (withLayer layer (list_update arr pos (with_type LEAF_IN element))
              (set_voxelsInside (m_voxelsInside t + sx * sy * sz) t))) /\
  (~ (m_min t > e_max element \/ m_max t < e_min element) ->
   Z.of_nat layer <> Z.of_nat (m_numLayers t) - 1 ->
   forall nxx nyy nzz,
     getSplit layer t = Ret (nxx, nyy, nzz) t ->
     forall fuel vs t',
       visitChildren fuel (layer + 1) (childCoords nxx nyy nzz px py pz) t = Ret vs t' ->
       checkChildren (S fuel) layer px py pz t
       = (modifyElement layer pos (with_type (labelOf vs)) ;;; ret (labelOf vs)) t').
Proof.
  intros Hgx Hgy Harr Hel pos.
  assert (Hhead : forall fuel,
    checkChildren (S fuel) layer px py pz t
    = (value <-
         (if rejected (m_min t) (m_max t) element then ret LEAF_OUT
          else if Z.of_nat layer =? Z.of_nat (m_numLayers t) - 1 then
            gz <- lift (nth_error (m_gridZ t) layer) ;;
            sx <- lift (nth_error gx px) ;;
            sy <- lift (nth_error gy py) ;;
            sz <- lift (nth_error gz pz) ;;
            modify (fun t' => set_voxelsInside (m_voxelsInside t' + sx * sy * sz) t') ;;;
            ret LEAF_IN
          else
            '(nxx, nyy, nzz) <- getSplit layer ;;
            flags <- for3 (seq 0 nzz) (seq 0 nyy) (seq 0 nxx)
              (fun flags xx yy zz =>
                 value <- checkChildren fuel (layer + 1)
                            (nxx * px + xx) (nyy * py + yy) (nzz * pz + zz) ;;
                 ret (noteChild flags value)) (true, true) ;;
            ret (labelOfFlags flags)) ;;
       modifyElement layer pos (with_type value) ;;; ret value) t).
  { intros fuel. cbn [checkChildren]. unfold bind at 1, get at 1.
    rewrite Hgx. unfold bind at 1. cbn [lift ret]. rewrite Hgy. unfold bind at 1.
    cbn [lift ret]. fold pos. rewrite (bind_Ret _ (readElement_at Harr Hel)). reflexivity. }
  split; [|split].
  - intros Hout fuel. rewrite (Hhead fuel).
    rewrite (proj2 (rejected_true_iff _ _ _) Hout).
    unfold bind at 1. cbn [ret].
    rewrite (bind_Ret _ (modifyElement_at (with_type LEAF_OUT) Harr Hel)). reflexivity.
  - intros Hin Hlast gz sx sy sz Hgz Hsx Hsy Hsz fuel. rewrite (Hhead fuel).
    rewrite (rejected_false _ _ _ Hin).
    apply Z.eqb_eq in Hlast. rewrite Hlast.
    unfold bind at 1. unfold bind at 1. rewrite Hgz. cbn [lift ret].
    unfold bind at 1. rewrite Hsx. cbn [lift ret].
    unfold bind at 1. rewrite Hsy. cbn [lift ret].
    unfold bind at 1. rewrite Hsz. cbn [lift ret].
    unfold bind at 1, modify at 1. cbn [ret]. subst pos.
    assert (Harr' : nth_error
               (m_data (set_voxelsInside (m_voxelsInside t + sx * sy * sz) t)) layer
             = Some arr) by exact Harr.
    rewrite (bind_Ret _ (modifyElement_at (with_type LEAF_IN) Harr' Hel)). reflexivity.
  - intros Hin Hlast nxx nyy nzz Hsplit fuel vs t' Hvisit. rewrite (Hhead fuel).
    rewrite (rejected_false _ _ _ Hin).
    apply Z.eqb_neq in Hlast. rewrite Hlast.
    unfold bind at 1. rewrite (bind_Ret _ Hsplit). cbv beta iota.
    unfold bind at 1. rewrite checkLoop_mapM.
    unfold visitChildren in Hvisit. rewrite (bind_Ret _ Hvisit).
    cbn [ret]. now rewrite labelOfFlags_fold.
Qed.

(** ** Updating one element of a layered array *)

Lemma index3_inj (A B a b c a' b' c' : nat) :
  (a < A)%nat -> (a' < A)%nat -> (b < B)%nat -> (b' < B)%nat ->
  (a + A * (b + B * c) = a' + A * (b' + B * c'))%nat ->
  a = a' /\ b = b' /\ c = c'.
Proof.
  intros Ha Ha' Hb Hb' E.
  destruct (Nat.div_mod_unique A (b + B * c) (b' + B * c') a a' Ha Ha' ltac:(lia))
    as [E2 ->].
  destruct (Nat.div_mod_unique B c c' b b' Hb Hb' ltac:(lia)) as [-> ->].
  auto.
Qed.

Lemma Forall2_list_update {A B} (R : A -> B -> Prop) (l1 : list A) (l2 : list B)
    (i : nat) (a : A) :
  Forall2 R l1 l2 -> (forall b, nth_error l2 i = Some b -> R a b) ->
  Forall2 R (list_update l1 i a) l2.
Proof.
  intros H. revert i. induction H as [|a0 b0 l1 l2 HR HF IH]; intros i Ha.
  - destruct i; constructor.
  - destruct i as [|i]; simpl.
    + constructor; [now apply Ha | exact HF].
    + constructor; [exact HR | apply IH; intros b Hb; now apply Ha].
Qed.

Lemma sameBounds_retype (d D : list (list OctreeElement)) (l pos : nat)
    (arr : list OctreeElement) (e : OctreeElement) (ty : ElementType) :
  sameBounds d D -> nth_error d l = Some arr -> nth_error arr pos = Some e ->
  sameBounds (list_update d l (list_update arr pos (with_type ty e))) D.
Proof.
  intros Hs Harr He. apply Forall2_list_update; [exact Hs|].
  intros row Hrow. destruct (Forall2_nth_error _ _ _ _ _ Hs Hrow) as (arr' & Harr' & HR).
  assert (arr' = arr) as -> by congruence.
  apply Forall2_list_update; [exact HR|].
  intros b Hb. destruct (Forall2_nth_error _ _ _ _ _ HR Hb) as (e' & He' & Hee).
  assert (e' = e) as -> by congruence. exact Hee.
Qed.

(** ** States of a classification pass *)

Section Pass.

Variable image : MemImage.
Variable t0 : Octree.
Variables lo hi : Z.
Hypothesis Himage : wfImage image.
Hypothesis Hgrids : gridsOf image t0.

Local Notation "'st'" := (passState t0 lo hi).
Local Notation "'D0'" :=
  (filledData image (m_gridX t0) (m_gridY t0) (m_gridZ t0) (m_numLayers t0)).

Lemma st_Summarised (d : list (list OctreeElement)) (v : Z) :
  sameBounds d D0 -> Summarised image (st d v).
Proof. intros H. split; [exact Hgrids | exact H]. Qed.

Lemma st_withLayer (d : list (list OctreeElement)) (v : Z) (l : nat)
    (arr : list OctreeElement) :
  withLayer l arr (st d v) = st (list_update d l arr) v.
Proof. reflexivity. Qed.

Lemma st_elem (d : list (list OctreeElement)) (v : Z) (l x y z : nat) :
  sameBounds d D0 -> inBounds t0 l x y z ->
  exists arr e,
    nth_error d l = Some arr /\
    nth_error arr (x + length (nth l (m_gridX t0) [])
                       * (y + length (nth l (m_gridY t0) []) * z)) = Some e /\
    rejected lo hi e = rejected lo hi (filledElem image t0 l x y z).
Proof.
  intros Hd HB.
  destruct (summarised_elem image (st d v) (st_Summarised d v Hd) l x y z HB)
    as (e & He & Emin & Emax).
  unfold elemAt in He. cbn [m_data passState set_voxelsInside set_data] in He.
  destruct (nth_error d l) as [arr|] eqn:Harr; [|discriminate].
  exists arr, e. split; [reflexivity|]. split; [exact He|].
  unfold rejected. rewrite Emin, Emax. reflexivity.
Qed.

Lemma typeAt_retype_same (d : list (list OctreeElement)) (v : Z) (l x y z : nat)
    (arr : list OctreeElement) (e : OctreeElement) (ty : ElementType) :
  let pos := (x + length (nth l (m_gridX t0) [])
                  * (y + length (nth l (m_gridY t0) []) * z))%nat in
  nth_error d l = Some arr -> nth_error arr pos = Some e ->
  typeAt (st (list_update d l (list_update arr pos (with_type ty e))) v) l x y z
  = Some ty.
Proof.
  intros pos Harr He. unfold typeAt, elemAt.
  cbn [m_data passState set_voxelsInside set_data m_gridX m_gridY set_range].
  rewrite nth_error_list_update_eq by (apply nth_error_Some; congruence).
  fold pos. rewrite nth_error_list_update_eq by (apply nth_error_Some; congruence).
  reflexivity.
Qed.

Lemma typeAt_retype_other (d : list (list OctreeElement)) (v v' : Z)
    (l x y z l' x' y' z' : nat) (arr : list OctreeElement) (e' : OctreeElement) :
  let pos := (x + length (nth l (m_gridX t0) [])
                  * (y + length (nth l (m_gridY t0) []) * z))%nat in
  inBounds t0 l x y z -> inBounds t0 l' x' y' z' ->
  nth_error d l = Some arr ->
  ~ (l' = l /\ x' = x /\ y' = y /\ z' = z) ->
  typeAt (st (list_update d l (list_update arr pos e')) v') l' x' y' z'
  = typeAt (st d v) l' x' y' z'.
Proof.
  intros pos (_ & Hx & Hy & Hz) (_ & Hx' & Hy' & Hz') Harr Hne. unfold typeAt, elemAt.
  cbn [m_data passState set_voxelsInside set_data m_gridX m_gridY set_range].
  destruct (Nat.eq_dec l' l) as [-> | Hl].
  - rewrite nth_error_list_update_eq by (apply nth_error_Some; congruence).
    rewrite Harr. rewrite nth_error_list_update_neq; [reflexivity|].
    intros E. subst pos.
    destruct (index3_inj _ _ _ _ _ _ _ _ Hx Hx' Hy Hy' E) as (-> & -> & ->).
    apply Hne. auto.
  - rewrite nth_error_list_update_neq by congruence. reflexivity.
Qed.

(** *** Subtrees *)

Lemma subtree_layer (k : nat) : forall l x y z l' x' y' z',
  inSubtree t0 k l x y z l' x' y' z' -> (l <= l' <= l + k)%nat.
Proof.
  induction k as [|k IH]; intros l x y z l' x' y' z' H; cbn [inSubtree] in H.
  - destruct H as [(-> & _) | []]. lia.
  - destruct H as [(-> & _) | (cx & cy & cz & _ & H)]; [lia|].
    apply IH in H. lia.
Qed.

Lemma subtree_cell (k : nat) : forall l x y z l' x' y' z' a b c,
  (l + k < m_numLayers t0)%nat -> inBounds t0 l x y z ->
  inSubtree t0 k l x y z l' x' y' z' ->
  inCell3 t0 l' x' y' z' a b c -> inCell3 t0 l x y z a b c.
Proof.
  induction k as [|k IH]; intros l x y z l' x' y' z' a b c Hk HB H Hin;
    cbn [inSubtree] in H.
  - destruct H as [(-> & -> & -> & ->) | []]. exact Hin.
  - destruct H as [(-> & -> & -> & ->) | (cx & cy & cz & Hc & H)]; [exact Hin|].
    apply (in_children t0) in Hc as (xx & yy & zz & Hxx & Hyy & Hzz & -> & -> & ->).
    apply (cell_children image t0 Himage Hgrids l x y z a b c ltac:(lia)).
    exists xx, yy, zz. repeat (split; [assumption|]).
    apply (IH (S l) _ _ _ l' x' y' z'); try assumption; [lia|].
    apply (child_inBounds image); auto. lia.
Qed.

Lemma cell_nonempty (l x y z : nat) :
  inBounds t0 l x y z -> exists a b c, inCell3 t0 l x y z a b c.
Proof.
  intros (Hl & Hx & Hy & Hz). destruct Hgrids as (_ & HX & HY & HZ).
  pose proof Himage as (Hw & Hh & Hs & _).
  pose proof (extent_pos t0 (width image) _ l x Hw HX Hl Hx).
  pose proof (extent_pos t0 (height image) _ l y Hh HY Hl Hy).
  pose proof (extent_pos t0 (slices image) _ l z Hs HZ Hl Hz).
  exists (offset (nth l (m_gridX t0) []) x), (offset (nth l (m_gridY t0) []) y),
    (offset (nth l (m_gridZ t0) []) z).
  unfold inCell3, inCell. lia.
Qed.

Lemma cell_inj (l x y z x' y' z' : nat) (a b c : Z) :
  (l < m_numLayers t0)%nat ->
  inCell3 t0 l x y z a b c -> inCell3 t0 l x' y' z' a b c ->
  x = x' /\ y = y' /\ z = z'.
Proof.
  intros Hl (Ha & Hb & Hc) (Ha' & Hb' & Hc'). destruct Hgrids as (_ & HX & HY & HZ).
  pose proof Himage as (Hw & Hh & Hs & _).
  repeat split.
  - apply (inCell_inj _ _ _ a (axis_layer_nonneg _ _ _ Hw HX l Hl) Ha Ha').
  - apply (inCell_inj _ _ _ b (axis_layer_nonneg _ _ _ Hh HY l Hl) Hb Hb').
  - apply (inCell_inj _ _ _ c (axis_layer_nonneg _ _ _ Hs HZ l Hl) Hc Hc').
Qed.

Lemma subtree_disjoint (k l x1 y1 z1 x2 y2 z2 l' x' y' z' : nat) :
  (l + k < m_numLayers t0)%nat ->
  inBounds t0 l x1 y1 z1 -> inBounds t0 l x2 y2 z2 -> inBounds t0 l' x' y' z' ->
  inSubtree t0 k l x1 y1 z1 l' x' y' z' -> inSubtree t0 k l x2 y2 z2 l' x' y' z' ->
  x1 = x2 /\ y1 = y2 /\ z1 = z2.
Proof.
  intros Hk HB1 HB2 HB' H1 H2.
  destruct (cell_nonempty l' x' y' z' HB') as (a & b & c & Hin).
  apply (cell_inj l x1 y1 z1 x2 y2 z2 a b c); [lia | |].
  - eapply subtree_cell; eauto.
  - eapply subtree_cell; eauto.
Qed.

Lemma classified_frame (k : nat) : forall l x y z t t',
  (l + k < m_numLayers t0)%nat -> inBounds t0 l x y z ->
  (forall l' x' y' z', inBounds t0 l' x' y' z' -> inSubtree t0 k l x y z l' x' y' z' ->
                       typeAt t' l' x' y' z' = typeAt t l' x' y' z') ->
  classified image t0 lo hi t k l x y z -> classified image t0 lo hi t' k l x y z.
Proof.
  induction k as [|k IH]; intros l x y z t t' Hk HB Hframe Hcl; cbn [classified] in *.
  - destruct Hcl as [Hty _]. split; [|exact I].
    rewrite Hframe; [exact Hty | exact HB | now left].
  - destruct Hcl as [Hty Hkids]. split.
    + rewrite Hframe; [exact Hty | exact HB | now left].
    + intros Hnode cx cy cz Hc. apply (IH (S l) cx cy cz t t').
      * lia.
      * apply (in_children t0) in Hc as (xx & yy & zz & Hxx & Hyy & Hzz & -> & -> & ->).
        apply (child_inBounds image); auto. lia.
      * intros l' x' y' z' HB' Hsub. apply Hframe; [exact HB'|].
        right. exists cx, cy, cz. split; assumption.
      * now apply Hkids.
Qed.

(** *** One call of [checkChildren] *)

Lemma st_getSplit (d : list (list OctreeElement)) (v : Z) (l : nat) :
  (S l < m_numLayers t0)%nat ->
  getSplit l (st d v) = Ret (splitX t0 l, splitY t0 l, splitZ t0 l) (st d v).
Proof.
  intros Hl. destruct Hgrids as (_ & HX & HY & HZ).
  pose proof Himage as (Hw & Hh & Hs & _).
  destruct (axis_layer _ _ _ Hw HX l ltac:(lia)) as (HgX & _ & _ & HpX).
  destruct (axis_layer _ _ _ Hh HY l ltac:(lia)) as (HgY & _ & _ & HpY).
  destruct (axis_layer _ _ _ Hs HZ l ltac:(lia)) as (HgZ & _ & _ & HpZ).
  destruct (axis_layer _ _ _ Hw HX (S l) Hl) as (HgX1 & _).
  destruct (axis_layer _ _ _ Hh HY (S l) Hl) as (HgY1 & _).
  destruct (axis_layer _ _ _ Hs HZ (S l) Hl) as (HgZ1 & _).
  apply getSplit_run; try assumption.
  - intros E. rewrite E in HpX. simpl in HpX. lia.
  - intros E. rewrite E in HpY. simpl in HpY. lia.
  - intros E. rewrite E in HpZ. simpl in HpZ. lia.
Qed.

Lemma specLabel_rejected (k l x y z : nat) :
  rejected lo hi (filledElem image t0 l x y z) = true ->
  specLabel image t0 lo hi k l x y z = LEAF_OUT.
Proof. intros H. destruct k; cbn [specLabel]; now rewrite H. Qed.

Lemma specLabel_finest (l x y z : nat) :
  rejected lo hi (filledElem image t0 l x y z) = false ->
  specLabel image t0 lo hi 0 l x y z = LEAF_IN.
Proof. intros H. simpl. now rewrite H. Qed.

Lemma specLabel_internal (k l x y z : nat) :
  rejected lo hi (filledElem image t0 l x y z) = false ->
  specLabel image t0 lo hi (S k) l x y z
  = labelOf (map (fun '(cx, cy, cz) => specLabel image t0 lo hi k (S l) cx cy cz)
               (children t0 l x y z)).
Proof. intros H. simpl. now rewrite H. Qed.

Lemma node_lookups (l x y z : nat) :
  inBounds t0 l x y z ->
  nth_error (m_gridX t0) l = Some (nth l (m_gridX t0) []) /\
  nth_error (m_gridY t0) l = Some (nth l (m_gridY t0) []) /\
  nth_error (m_gridZ t0) l = Some (nth l (m_gridZ t0) []) /\
  nth_error (nth l (m_gridX t0) []) x = Some (extent (nth l (m_gridX t0) []) x) /\
  nth_error (nth l (m_gridY t0) []) y = Some (extent (nth l (m_gridY t0) []) y) /\
  nth_error (nth l (m_gridZ t0) []) z = Some (extent (nth l (m_gridZ t0) []) z).
Proof.
  intros (Hl & Hx & Hy & Hz). destruct Hgrids as (_ & HX & HY & HZ).
  pose proof Himage as (Hw & Hh & Hs & _).
  destruct (axis_layer _ _ _ Hw HX l Hl) as (HgX & _).
  destruct (axis_layer _ _ _ Hh HY l Hl) as (HgY & _).
  destruct (axis_layer _ _ _ Hs HZ l Hl) as (HgZ & _).
  repeat split; try assumption; apply nth_error_nth_default; assumption.
Qed.

(** A rejected node, at any depth. *)
Lemma run_rejected (k l x y z : nat) (d : list (list OctreeElement)) (v : Z)
    (fuel : nat) :
  inBounds t0 l x y z -> sameBounds d D0 ->
  rejected lo hi (filledElem image t0 l x y z) = true ->
  exists d' v',
    checkChildren (S fuel) l x y z (st d v)
    = Ret (specLabel image t0 lo hi k l x y z) (st d' v') /\
    sameBounds d' D0 /\
    (forall l' x' y' z',
       inBounds t0 l' x' y' z' -> ~ inSubtree t0 k l x y z l' x' y' z' ->
       typeAt (st d' v') l' x' y' z' = typeAt (st d v) l' x' y' z') /\
    classified image t0 lo hi (st d' v') k l x y z.
Proof.
  intros HB Hd Hrej.
  destruct (st_elem d v l x y z Hd HB) as (arr & e & Harr & He & Erej).
  destruct (node_lookups l x y z HB) as (HgX & HgY & _).
  destruct (checkChildren_step (st d v) l x y z _ _ arr e HgX HgY Harr He)
    as (Crej & _ & _).
  rewrite Hrej in Erej. apply rejected_true_iff in Erej.
  specialize (Crej Erej fuel). rewrite st_withLayer in Crej.
  eexists _, v. rewrite (specLabel_rejected k l x y z Hrej).
  split; [exact Crej|]. split; [now apply sameBounds_retype|]. split.
  - intros l' x' y' z' HB' Hsub. apply typeAt_retype_other; try assumption.
    intros E. apply Hsub. destruct k; cbn [inSubtree]; now left.
  - destruct k; cbn [classified]; rewrite (specLabel_rejected _ l x y z Hrej);
      (split; [now apply typeAt_retype_same | try exact I; discriminate]).
Qed.

Lemma triple_eq_dec (c c' : nat * nat * nat) : {c = c'} + {c <> c'}.
Proof. repeat decide equality. Qed.

(** The recursive calls of an internal node, given what one call does
    one layer down. *)
Lemma visit_run (k l x y z fuel : nat) :
  RunSpec image t0 lo hi k ->
  S (l + S k) = m_numLayers t0 -> inBounds t0 l x y z -> (k < fuel)%nat ->
  forall cs d v,
    (forall c, In c cs -> In c (children t0 l x y z)) ->
    sameBounds d D0 ->
    exists d' v',
      visitChildren fuel (S l) cs (st d v)
      = Ret (map (fun '(cx, cy, cz) => specLabel image t0 lo hi k (S l) cx cy cz) cs)
            (st d' v') /\
      sameBounds d' D0 /\
      (forall l' x' y' z',
         inBounds t0 l' x' y' z' ->
         (forall cx cy cz, In (cx, cy, cz) cs ->
                           ~ inSubtree t0 k (S l) cx cy cz l' x' y' z') ->
         typeAt (st d' v') l' x' y' z' = typeAt (st d v) l' x' y' z') /\
      (forall cx cy cz, In (cx, cy, cz) cs ->
                        classified image t0 lo hi (st d' v') k (S l) cx cy cz).
Proof.
  intros Hrun Hk HB Hfuel.
  assert (Hchild : forall cx cy cz, In (cx, cy, cz) (children t0 l x y z) ->
                                    inBounds t0 (S l) cx cy cz).
  { intros cx cy cz Hc.
    apply (in_children t0) in Hc as (xx & yy & zz & Hxx & Hyy & Hzz & -> & -> & ->).
    apply (child_inBounds image); auto. lia. }
  induction cs as [|[[cx cy] cz] cs IH]; intros d v Hsub Hd.
  - exists d, v. split; [reflexivity|]. split; [exact Hd|]. split; [reflexivity|].
    intros ? ? ? [].
  - assert (HBc : inBounds t0 (S l) cx cy cz) by (apply Hchild, Hsub; now left).
    destruct (Hrun (S l) cx cy cz d v fuel ltac:(lia) HBc Hd Hfuel)
      as (d1 & v1 & Hcall & Hd1 & Hframe1 & Hcl1).
    destruct (IH d1 v1 ltac:(intros c Hc; apply Hsub; now right) Hd1)
      as (d2 & v2 & Hrest & Hd2 & Hframe2 & Hcl2).
    exists d2, v2. split; [|split; [exact Hd2|split]].
    + unfold visitChildren in *. cbn [mapM map].
      rewrite (bind_Ret _ Hcall), (bind_Ret _ Hrest). reflexivity.
    + intros l' x' y' z' HB' Hnot. rewrite Hframe2, Hframe1; auto.
      * apply Hnot. now left.
      * intros ? ? ? Hc. apply Hnot. now right.
    + intros cx' cy' cz' [E | Hc]; [|now apply Hcl2].
      injection E as <- <- <-.
      destruct (in_dec triple_eq_dec (cx, cy, cz) cs) as [Hin | Hnin];
        [now apply Hcl2|].
      apply (classified_frame k (S l) cx cy cz (st d1 v1) (st d2 v2));
        [lia | exact HBc | | exact Hcl1].
      intros l' x' y' z' HB' Hin'. apply Hframe2; [exact HB'|].
      intros cx' cy' cz' Hc' Hin''.
      assert (HBc' : inBounds t0 (S l) cx' cy' cz') by (apply Hchild, Hsub; now right).
      destruct (subtree_disjoint k (S l) cx cy cz cx' cy' cz' l' x' y' z'
                  ltac:(lia) HBc HBc' HB' Hin' Hin'') as (-> & -> & ->).
      contradiction.
Qed.

Lemma checkChildren_runs (k : nat) : RunSpec image t0 lo hi k.
Proof.
  induction k as [|k IH]; intros l x y z d v fuel Hk HB Hd Hfuel;
    (destruct fuel as [|fuel]; [lia|]);
    destruct (rejected lo hi (filledElem image t0 l x y z)) eqn:Hrej;
    try (now apply run_rejected).
  - (* finest layer, not rejected *)
    destruct (st_elem d v l x y z Hd HB) as (arr & e & Harr & He & Erej).
    destruct (node_lookups l x y z HB) as (HgX & HgY & HgZ & Hsx & Hsy & Hsz).
    destruct (checkChildren_step (st d v) l x y z _ _ arr e HgX HgY Harr He)
      as (_ & Cfin & _).
    rewrite Hrej in Erej.
    assert (Hnot : ~ (lo > e_max e \/ hi < e_min e)).
    { intros H. apply rejected_true_iff in H. congruence. }
    specialize (Cfin Hnot ltac:(cbn; lia) _ _ _ _ HgZ Hsx Hsy Hsz fuel).
    eexists _, _. rewrite (specLabel_finest l x y z Hrej).
    split; [exact Cfin|]. split; [now apply sameBounds_retype|]. split.
    + intros l' x' y' z' HB' Hsub.
      apply (typeAt_retype_other d v); try assumption.
      intros E. apply Hsub. now left.
    + cbn [classified]. rewrite (specLabel_finest l x y z Hrej).
      split; [|exact I]. now apply (typeAt_retype_same d).
  - (* internal node, not rejected *)
    destruct (st_elem d v l x y z Hd HB) as (arr & e & Harr & He & Erej).
    destruct (node_lookups l x y z HB) as (HgX & HgY & _).
    destruct (checkChildren_step (st d v) l x y z _ _ arr e HgX HgY Harr He)
      as (_ & _ & Cint).
    rewrite Hrej in Erej.
    assert (Hnot : ~ (lo > e_max e \/ hi < e_min e)).
    { intros H. apply rejected_true_iff in H. congruence. }
    destruct (visit_run k l x y z fuel IH Hk HB ltac:(lia) (children t0 l x y z) d v
                ltac:(auto) Hd) as (d1 & v1 & Hvisit & Hd1 & Hframe1 & Hcl1).
    specialize (Cint Hnot ltac:(cbn; lia) _ _ _ (st_getSplit d v l ltac:(lia)) fuel _ _
                  ltac:(rewrite Nat.add_1_r; exact Hvisit)).
    destruct (st_elem d1 v1 l x y z Hd1 HB) as (arr1 & e1 & Harr1 & He1 & _).
    set (lab := labelOf (map (fun '(cx, cy, cz) => specLabel image t0 lo hi k (S l) cx cy cz)
                           (children t0 l x y z))) in *.
    assert (Hlab : specLabel image t0 lo hi (S k) l x y z = lab).
    { now apply specLabel_internal. }
    rewrite (bind_Ret _ (@modifyElement_at (st d1 v1) l _ arr1 e1 (with_type lab)
                           Harr1 He1)) in Cint.
    rewrite st_withLayer in Cint.
    eexists _, v1. rewrite Hlab. split; [exact Cint|].
    split; [now apply sameBounds_retype|]. split.
    + intros l' x' y' z' HB' Hsub.
      rewrite (typeAt_retype_other d1 v1 v1 l x y z l' x' y' z' arr1 _ HB HB' Harr1).
      * apply Hframe1; [exact HB'|]. intros cx cy cz Hc Hin. apply Hsub.
        right. exists cx, cy, cz. split; assumption.
      * intros E. apply Hsub. now left.
    + cbn [classified]. rewrite Hlab. split; [now apply (typeAt_retype_same d1)|].
      intros _ cx cy cz Hc.
      assert (HBc : inBounds t0 (S l) cx cy cz).
      { apply (in_children t0) in Hc as (xx & yy & zz & Hxx & Hyy & Hzz & -> & -> & ->).
        apply (child_inBounds image); auto. lia. }
      apply (classified_frame k (S l) cx cy cz (st d1 v1));
        [lia | exact HBc | | now apply Hcl1].
      intros l' x' y' z' HB' Hin.
      apply (typeAt_retype_other d1 v1 v1 l x y z l' x' y' z' arr1 _ HB HB' Harr1).
      intros (-> & _). apply subtree_layer in Hin. lia.
Qed.

End Pass.

(** ** Box enumeration over a classified tree *)

Lemma voxelPos_run (cells : list Z) (p : nat) (s : Octree) :
  (p <= length cells)%nat -> voxelPos cells p s = Ret (offset cells p) s.
Proof.
  intros Hp. unfold voxelPos.
  rewrite (foldM_pure _ (fun v i => v + nth i cells 0)).
  - f_equal. clear Hp. unfold offset.
    assert (H : forall n a acc, fold_left (fun v i => v + nth i cells 0) (seq a n) acc
                                = acc + (zsum (firstn (a + n) cells) - zsum (firstn a cells))).
    { induction n as [|n IH]; intros a acc; simpl.
      - rewrite Nat.add_0_r. lia.
      - rewrite IH. replace (a + S n)%nat with (S a + n)%nat by lia.
        pose proof (offset_S cells a) as HS. unfold offset, extent in HS. lia. }
    rewrite (H p O 0). simpl. lia.
  - intros a i Hi. apply in_seq in Hi. unfold bind.
    rewrite (nth_error_nth_default cells i 0) by lia. reflexivity.
Qed.

(** The triple loop of [enumerateChildren] visits the children in order
    and sums their counts. *)
Lemma enumLoop_foldM {S} (visit : nat -> nat -> nat -> M S Z)
    (nxx nyy nzz px py pz : nat) (s : S) :
  for3 (seq 0 nzz) (seq 0 nyy) (seq 0 nxx)
    (fun count xx yy zz =>
       c <- visit (nxx * px + xx)%nat (nyy * py + yy)%nat (nzz * pz + zz)%nat ;;
       ret (count + c)) 0 s
  = foldM (fun count '(cx, cy, cz) => c <- visit cx cy cz ;; ret (count + c)) 0
      (childCoords nxx nyy nzz px py pz) s.
Proof.
  rewrite for3_triples. unfold childCoords. rewrite foldM_map.
  apply foldM_ext. intros a [[xx yy] zz] s'. reflexivity.
Qed.

Section Enumerate.

Variable image : MemImage.
Variable t0 : Octree.
Variables lo hi : Z.
Hypothesis Himage : wfImage image.
Hypothesis Hgrids : gridsOf image t0.

Variable d : list (list OctreeElement).
Variable v : Z.

Local Notation "'s0'" := (passState t0 lo hi d v).

Lemma specLabel_finest_not_node (l x y z : nat) :
  specLabel image t0 lo hi 0 l x y z <> NODE.
Proof. simpl. destruct (rejected _ _ _); discriminate. Qed.

Lemma specEnum_eq (k l x y z : nat) :
  specEnum image t0 lo hi k l x y z
  = match specLabel image t0 lo hi k l x y z with
    | LEAF_IN => [cellBox t0 l x y z]
    | NODE =>
        match k with
        | O => []
        | S k' =>
            flat_map (fun '(cx, cy, cz) => specEnum image t0 lo hi k' (S l) cx cy cz)
              (children t0 l x y z)
        end
    | LEAF_OUT => []
    end.
Proof. destruct k; reflexivity. Qed.

Lemma classified_type (k l x y z : nat) :
  classified image t0 lo hi s0 k l x y z ->
  typeAt s0 l x y z = Some (specLabel image t0 lo hi k l x y z).
Proof. destruct k; intros [H _]; exact H. Qed.

Lemma enumerateChildren_head (k l x y z : nat) (c : list Z) (fuel : nat) :
  inBounds t0 l x y z -> classified image t0 lo hi s0 k l x y z ->
  enumerateChildren (S fuel) l x y z (set_cubesInside c s0)
  = (match specLabel image t0 lo hi k l x y z with
     | LEAF_IN =>
         gz <- lift (nth_error (m_gridZ t0) l) ;;
         vx <- voxelPos (nth l (m_gridX t0) []) x ;;
         vy <- voxelPos (nth l (m_gridY t0) []) y ;;
         vz <- voxelPos gz z ;;
         sx <- lift (nth_error (nth l (m_gridX t0) []) x) ;;
         sy <- lift (nth_error (nth l (m_gridY t0) []) y) ;;
         sz <- lift (nth_error gz z) ;;
         modify (fun t' => set_cubesInside
                             (m_cubesInside t' ++ [vx; vy; vz; sx; sy; sz]) t') ;;;
         ret 1
     | NODE =>
         '(nxx, nyy, nzz) <- getSplit l ;;
         for3 (seq 0 nzz) (seq 0 nyy) (seq 0 nxx)
           (fun count xx yy zz =>
              n <- enumerateChildren fuel (l + 1)
                     (nxx * x + xx) (nyy * y + yy) (nzz * z + zz) ;;
              ret (count + n)) 0
     | LEAF_OUT => ret 0
     end) (set_cubesInside c s0).
Proof.
  intros HB Hcl. pose proof (classified_type k l x y z Hcl) as Hty.
  destruct (node_lookups image t0 Himage Hgrids l x y z HB) as (HgX & HgY & _).
  unfold typeAt in Hty.
  destruct (elemAt s0 l x y z) as [e|] eqn:He; [|discriminate].
  injection Hty as Hty. unfold elemAt in He.
  destruct (nth_error (m_data s0) l) as [arr|] eqn:Harr; [|discriminate].
  cbn [enumerateChildren]. unfold bind at 1, get at 1.
  change (m_gridX (set_cubesInside c s0)) with (m_gridX t0).
  change (m_gridY (set_cubesInside c s0)) with (m_gridY t0).
  change (m_gridZ (set_cubesInside c s0)) with (m_gridZ t0).
  rewrite HgX. unfold bind at 1. cbn [lift ret]. rewrite HgY. unfold bind at 1.
  cbn [lift ret].
  rewrite (bind_Ret _ (@readElement_at (set_cubesInside c s0) l _ arr e Harr He)).
  rewrite Hty. reflexivity.
Qed.

Lemma enumerate_leaf_in (l x y z : nat) (c : list Z) :
  inBounds t0 l x y z ->
  (gz <- lift (nth_error (m_gridZ t0) l) ;;
   vx <- voxelPos (nth l (m_gridX t0) []) x ;;
   vy <- voxelPos (nth l (m_gridY t0) []) y ;;
   vz <- voxelPos gz z ;;
   sx <- lift (nth_error (nth l (m_gridX t0) []) x) ;;
   sy <- lift (nth_error (nth l (m_gridY t0) []) y) ;;
   sz <- lift (nth_error gz z) ;;
   modify (fun t' => set_cubesInside (m_cubesInside t' ++ [vx; vy; vz; sx; sy; sz]) t') ;;;
   ret 1) (set_cubesInside c s0)
  = Ret 1 (set_cubesInside (c ++ flatBox (cellBox t0 l x y z)) s0).
Proof.
  intros HB.
  destruct (node_lookups image t0 Himage Hgrids l x y z HB)
    as (HgX & HgY & HgZ & Hsx & Hsy & Hsz).
  destruct HB as (_ & Hx & Hy & Hz).
  unfold bind at 1. rewrite HgZ. cbn [lift ret].
  rewrite (bind_Ret _ (voxelPos_run (nth l (m_gridX t0) []) x (set_cubesInside c s0)
                         ltac:(lia))).
  rewrite (bind_Ret _ (voxelPos_run (nth l (m_gridY t0) []) y (set_cubesInside c s0)
                         ltac:(lia))).
  rewrite (bind_Ret _ (voxelPos_run (nth l (m_gridZ t0) []) z (set_cubesInside c s0)
                         ltac:(lia))).
  unfold bind at 1. rewrite Hsx. cbn [lift ret].
  unfold bind at 1. rewrite Hsy. cbn [lift ret].
  unfold bind at 1. rewrite Hsz. cbn [lift ret]. reflexivity.
Qed.

Lemma enumerateChildren_run (k : nat) : forall l x y z c fuel,
  S (l + k) = m_numLayers t0 -> inBounds t0 l x y z ->
  classified image t0 lo hi s0 k l x y z -> (k < fuel)%nat ->
  enumerateChildren fuel l x y z (set_cubesInside c s0)
  = Ret (Z.of_nat (length (specEnum image t0 lo hi k l x y z)))
        (set_cubesInside (c ++ flat_map flatBox (specEnum image t0 lo hi k l x y z)) s0).
Proof.
  induction k as [|k IH]; intros l x y z c fuel Hk HB Hcl Hfuel;
    (destruct fuel as [|fuel]; [lia|]);
    rewrite (enumerateChildren_head _ l x y z c fuel HB Hcl).
  - (* finest layer *)
    rewrite specEnum_eq. destruct (specLabel image t0 lo hi 0 l x y z) eqn:Hlab.
    + now apply specLabel_finest_not_node in Hlab.
    + rewrite (enumerate_leaf_in l x y z c HB). cbn [flat_map length].
      now rewrite app_nil_r.
    + cbn [flat_map length]. now rewrite app_nil_r.
  - (* a layer above the finest *)
    rewrite specEnum_eq. destruct (specLabel image t0 lo hi (S k) l x y z) eqn:Hlab.
    + rewrite (bind_Ret _ (@getSplit_frame l s0 (set_cubesInside c s0) _
                             eq_refl eq_refl eq_refl
                             (st_getSplit image t0 lo hi Himage Hgrids d v l ltac:(lia)))).
      cbv beta iota. rewrite enumLoop_foldM. fold (children t0 l x y z).
      replace (l + 1)%nat with (S l) by lia.
      destruct Hcl as [_ Hkids]. specialize (Hkids Hlab).
      assert (Hloop : forall cs cnt c',
                (forall cx cy cz, In (cx, cy, cz) cs -> In (cx, cy, cz) (children t0 l x y z)) ->
                let boxes := flat_map (fun '(cx, cy, cz) =>
                                         specEnum image t0 lo hi k (S l) cx cy cz) cs in
                foldM (fun count '(cx, cy, cz) =>
                         n <- enumerateChildren fuel (S l) cx cy cz ;; ret (count + n))
                  cnt cs (set_cubesInside c' s0)
                = Ret (cnt + Z.of_nat (length boxes))
                      (set_cubesInside (c' ++ flat_map flatBox boxes) s0)).
      { induction cs as [|[[cx cy] cz] cs IHcs]; intros cnt c' Hsub boxes.
        - subst boxes. cbn. unfold ret. now rewrite app_nil_r, Z.add_0_r.
        - subst boxes. cbn [foldM flat_map].
          assert (Hc : In (cx, cy, cz) (children t0 l x y z)) by (apply Hsub; now left).
          assert (HBc : inBounds t0 (S l) cx cy cz).
          { apply (in_children t0) in Hc
              as (xx & yy & zz & Hxx & Hyy & Hzz & -> & -> & ->).
            apply (child_inBounds image); auto. lia. }
          unfold bind at 1. unfold bind at 1.
          rewrite (IH (S l) cx cy cz c' fuel ltac:(lia) HBc (Hkids cx cy cz Hc) ltac:(lia)).
          cbn [ret].
          rewrite IHcs by (intros ? ? ? H; apply Hsub; now right).
          rewrite flat_map_app, length_app, Nat2Z.inj_add, <- app_assoc, Z.add_assoc.
          reflexivity. }
      rewrite (Hloop (children t0 l x y z) 0 c ltac:(auto)). reflexivity.
    + rewrite (enumerate_leaf_in l x y z c HB). cbn [flat_map length].
      now rewrite app_nil_r.
    + cbn [flat_map length]. now rewrite app_nil_r.
Qed.

End Enumerate.

(** ** Counting the boxes that cover a voxel *)

Lemma coversb_spec (box : Box) (a b c : Z) : coversb box a b c = true <-> covers box a b c.
Proof.
  unfold coversb, covers. rewrite !andb_true_iff, !Z.leb_le, !Z.ltb_lt. tauto.
Qed.

Lemma countCover_app (l1 l2 : list Box) (a b c : Z) :
  countCover (l1 ++ l2) a b c = (countCover l1 a b c + countCover l2 a b c)%nat.
Proof. unfold countCover. now rewrite filter_app, length_app. Qed.

Lemma countCover_pos (boxes : list Box) (a b c : Z) :
  (1 <= countCover boxes a b c)%nat <-> exists box, In box boxes /\ covers box a b c.
Proof.
  unfold countCover. split.
  - intros H. destruct (filter _ boxes) as [|box rest] eqn:E; [simpl in H; lia|].
    assert (Hin : In box (filter (fun box => coversb box a b c) boxes))
      by (rewrite E; now left).
    apply filter_In in Hin as [Hin Hc]. exists box. split; [exact Hin|].
    now apply coversb_spec.
  - intros (box & Hin & Hc).
    assert (Hf : In box (filter (fun box => coversb box a b c) boxes)).
    { apply filter_In. split; [exact Hin | now apply coversb_spec]. }
    destruct (filter _ boxes); [contradiction | simpl; lia].
Qed.

Lemma countCover_flat_map {X} (g : X -> list Box) (cs : list X) (a b c : Z) :
  countCover (flat_map g cs) a b c
  = fold_right (fun x n => (countCover (g x) a b c + n)%nat) O cs.
Proof.
  induction cs as [|x cs IH]; simpl; [reflexivity|].
  now rewrite countCover_app, IH.
Qed.

(** At most one summand is positive. *)
Lemma sum_le_one {X} (f : X -> nat) (cs : list X) :
  NoDup cs -> (forall x, In x cs -> (f x <= 1)%nat) ->
  (forall x y, In x cs -> In y cs -> (1 <= f x)%nat -> (1 <= f y)%nat -> x = y) ->
  (fold_right (fun x n => (f x + n)%nat) O cs <= 1)%nat.
Proof.
  intros Hnd Hle Huniq. induction Hnd as [|x cs Hx Hnd IH]; simpl; [lia|].
  assert (IH' : (fold_right (fun x n => (f x + n)%nat) O cs <= 1)%nat).
  { apply IH; intros; [apply Hle | apply Huniq]; auto; now right. }
  destruct (Nat.eq_dec (f x) 0) as [E | E]; [lia|].
  assert (Hzero : fold_right (fun x n => (f x + n)%nat) O cs = O).
  { clear IH IH'. induction cs as [|y cs IHcs]; simpl; [reflexivity|].
    assert (f y = O).
    { destruct (Nat.eq_dec (f y) 0) as [E' | E']; [exact E'|].
      exfalso. apply Hx. left. symmetry.
      apply Huniq; [now left | right; now left | lia | lia]. }
    rewrite H, IHcs; [reflexivity | | | |].
    - intros Hin. apply Hx. now right.
    - now inversion Hnd.
    - intros z Hz. apply Hle. destruct Hz as [-> | Hz]; [now left | right; now right].
    - intros z w Hz Hw. apply Huniq.
      + destruct Hz as [-> | Hz]; [now left | right; now right].
      + destruct Hw as [-> | Hw]; [now left | right; now right]. }
  pose proof (Hle x ltac:(now left)). lia.
Qed.

Lemma sum_pos {X} (f : X -> nat) (cs : list X) :
  (1 <= fold_right (fun x n => (f x + n)%nat) O cs)%nat <->
  exists x, In x cs /\ (1 <= f x)%nat.
Proof.
  induction cs as [|x cs IH]; simpl.
  - split; [lia | intros (x & [] & _)].
  - split.
    + intros H. destruct (Nat.eq_dec (f x) 0) as [E | E].
      * destruct (proj1 IH ltac:(lia)) as (y & Hy & Hf). exists y. auto.
      * exists x. split; [now left | lia].
    + intros (y & [-> | Hy] & Hf); [lia|].
      assert (1 <= fold_right (fun x n => (f x + n)%nat) O cs)%nat by (apply IH; eauto).
      lia.
Qed.

(** Two boxes at different positions of a list in which every voxel is
    covered at most once do not overlap. *)
Lemma cover_once_disjoint (boxes : list Box) (a b c : Z) (i j : nat) (bi bj : Box) :
  (countCover boxes a b c <= 1)%nat -> i <> j ->
  nth_error boxes i = Some bi -> nth_error boxes j = Some bj ->
  ~ (covers bi a b c /\ covers bj a b c).
Proof.
  revert i j. induction boxes as [|box boxes IH]; intros i j Hc Hij Hi Hj [Ci Cj].
  - destruct i; discriminate.
  - unfold countCover in Hc. simpl in Hc.
    destruct i as [|i], j as [|j]; simpl in Hi, Hj; try lia.
    + injection Hi as ->. apply coversb_spec in Ci. rewrite Ci in Hc. simpl in Hc.
      assert (1 <= countCover boxes a b c)%nat.
      { apply countCover_pos. exists bj. split; [eapply nth_error_In; eauto | exact Cj]. }
      unfold countCover in H. lia.
    + injection Hj as ->. apply coversb_spec in Cj. rewrite Cj in Hc. simpl in Hc.
      assert (1 <= countCover boxes a b c)%nat.
      { apply countCover_pos. exists bi. split; [eapply nth_error_In; eauto | exact Ci]. }
      unfold countCover in H. lia.
    + apply (IH i j); auto.
      unfold countCover. destruct (coversb box a b c); simpl in Hc; lia.
Qed.

Lemma boxesOf_flat (boxes : list Box) : boxesOf (flat_map flatBox boxes) = boxes.
Proof.
  induction boxes as [|[ox oy oz ex ey ez] boxes IH]; [reflexivity|].
  cbn [flat_map flatBox app originX originY originZ extentX extentY extentZ boxesOf].
  now rewrite IH.
Qed.

(** ** The children of a node are pairwise distinct *)

Lemma NoDup_app_disjoint {A} (l1 l2 : list A) :
  NoDup l1 -> NoDup l2 -> (forall a, In a l1 -> ~ In a l2) -> NoDup (l1 ++ l2).
Proof.
  intros H1 H2 Hd. induction H1 as [|a l1 Ha H1 IH]; simpl; [exact H2|].
  constructor.
  - rewrite in_app_iff. intros [H | H]; [contradiction | apply (Hd a); auto; now left].
  - apply IH. intros b Hb. apply Hd. now right.
Qed.

Lemma NoDup_triples {X} (zs ys xs : list X) :
  NoDup zs -> NoDup ys -> NoDup xs -> NoDup (triples zs ys xs).
Proof.
  intros Hz Hy Hx. unfold triples. induction Hz as [|zz zs Hzz Hz IHz]; simpl; [constructor|].
  apply NoDup_app_disjoint; [| exact IHz |].
  - clear IHz Hz Hzz zs. induction Hy as [|yy ys Hyy Hy IHy]; simpl; [constructor|].
    apply NoDup_app_disjoint; [| exact IHy |].
    + clear -Hx. induction Hx as [|xx xs Hxx Hx IHx]; simpl; constructor; [|exact IHx].
      rewrite in_map_iff. intros (x' & E & Hin). injection E as ->. contradiction.
    + intros [[x' y'] z'] H1 H2. apply in_map_iff in H1 as (x'' & E & _).
      injection E as <- <- <-. apply in_flat_map in H2 as (y'' & Hy'' & H2).
      apply in_map_iff in H2 as (x3 & E & _). injection E as <- <-. contradiction.
  - intros [[x' y'] z'] H1 H2. apply in_flat_map in H1 as (y1 & _ & H1).
    apply in_map_iff in H1 as (x1 & E & _). injection E as <- <- <-.
    apply in_flat_map in H2 as (z2 & Hz2 & H2). apply in_flat_map in H2 as (y2 & _ & H2).
    apply in_map_iff in H2 as (x2 & E & _). injection E as <- <- <-. contradiction.
Qed.

Lemma NoDup_childCoords (nxx nyy nzz x y z : nat) :
  NoDup (childCoords nxx nyy nzz x y z).
Proof.
  unfold childCoords.
  assert (Hnd : NoDup (triples (seq 0 nzz) (seq 0 nyy) (seq 0 nxx)))
    by (apply NoDup_triples; apply seq_NoDup).
  induction Hnd as [|[[xx yy] zz] l Hin Hnd IH]; simpl; constructor; [|exact IH].
  rewrite in_map_iff. intros ([[xx' yy'] zz'] & E & Hin').
  injection E as E1 E2 E3.
  assert (xx' = xx) by lia. assert (yy' = yy) by lia. assert (zz' = zz) by lia.
  subst. contradiction.
Qed.

(** ** Which voxels the enumerated boxes cover *)

Lemma labelOf_in (vs : list ElementType) :
  labelOf vs = LEAF_IN -> forall v, In v vs -> v = LEAF_IN.
Proof.
  unfold labelOf. intros H v Hv. destruct (forallb isIn vs) eqn:E.
  - rewrite forallb_forall in E. specialize (E v Hv). now destruct v.
  - destruct (forallb isOut vs); discriminate.
Qed.

Lemma labelOf_out (vs : list ElementType) :
  labelOf vs = LEAF_OUT -> forall v, In v vs -> v = LEAF_OUT.
Proof.
  unfold labelOf. intros H v Hv. destruct (forallb isIn vs) eqn:E; [discriminate|].
  destruct (forallb isOut vs) eqn:E'; [|discriminate].
  rewrite forallb_forall in E'. specialize (E' v Hv). now destruct v.
Qed.

Lemma covers_cellBox (t : Octree) (l x y z : nat) (a b c : Z) :
  covers (cellBox t l x y z) a b c <-> inCell3 t l x y z a b c.
Proof. reflexivity. Qed.

Lemma countCover_single (box : Box) (a b c : Z) :
  (countCover [box] a b c <= 1)%nat /\
  ((1 <= countCover [box] a b c)%nat <-> covers box a b c).
Proof.
  unfold countCover. simpl. destruct (coversb box a b c) eqn:E; simpl.
  - split; [lia|]. split; [intros _; now apply coversb_spec | lia].
  - split; [lia|]. split; [lia|]. intros H. apply coversb_spec in H. congruence.
Qed.

Section Coverage.

Variable image : MemImage.
Variable t0 : Octree.
Variables lo hi : Z.
Hypothesis Himage : wfImage image.
Hypothesis Hgrids : gridsOf image t0.

(** A cell of a finer layer that shares a voxel with a cell of a
    coarser layer lies inside it. *)
Lemma cells_nested (k : nat) : forall l x y z x' y' z' a b c,
  S (l + k) = m_numLayers t0 -> inBounds t0 l x y z ->
  inCell3 t0 (l + k) x' y' z' a b c -> inCell3 t0 l x y z a b c ->
  forall p q r, inCell3 t0 (l + k) x' y' z' p q r -> inCell3 t0 l x y z p q r.
Proof.
  induction k as [|k IH]; intros l x y z x' y' z' a b c Hk HB HF HN p q r Hp.
  - rewrite Nat.add_0_r in *.
    destruct (cell_inj image t0 Himage Hgrids l x y z x' y' z' a b c ltac:(lia) HN HF)
      as (-> & -> & ->).
    exact Hp.
  - replace (l + S k)%nat with (S l + k)%nat in * by lia.
    apply (cell_children image t0 Himage Hgrids l x y z a b c ltac:(lia)) in HN
      as (xx & yy & zz & Hxx & Hyy & Hzz & HC).
    apply (cell_children image t0 Himage Hgrids l x y z p q r ltac:(lia)).
    exists xx, yy, zz. repeat (split; [assumption|]).
    apply (IH (S l) _ _ _ x' y' z' a b c); auto; try lia.
    apply (child_inBounds image); auto. lia.
Qed.


Lemma rejected_not_live (k l x y z : nat) (a b c : Z) :
  S (l + k) = m_numLayers t0 -> inBounds t0 l x y z ->
  rejected lo hi (filledElem image t0 l x y z) = true -> ~ (live image t0 lo hi) l x y z a b c.
Proof.
  intros Hk HB Hrej [HN (x' & y' & z' & HBF & HF & HrejF)].
  replace (m_numLayers t0 - 1)%nat with (l + k)%nat in * by lia.
  destruct (filledElem_bounds image t0 Himage Hgrids _ _ _ _ HB)
    as [[Hmin _] [Hmax _]].
  destruct (filledElem_bounds image t0 Himage Hgrids _ _ _ _ HBF)
    as [[_ (p1 & q1 & r1 & HP1 & HV1)] [_ (p2 & q2 & r2 & HP2 & HV2)]].
  pose proof (cells_nested k l x y z x' y' z' a b c Hk HB HF HN) as Hsub.
  pose proof (Hmin _ _ _ (Hsub _ _ _ HP1)) as H1.
  pose proof (Hmax _ _ _ (Hsub _ _ _ HP2)) as H2.
  apply rejected_true_iff in Hrej.
  assert (HF' : rejected lo hi (filledElem image t0 (l + k) x' y' z') = true).
  { apply rejected_true_iff. lia. }
  congruence.
Qed.

Lemma child_live (k l x y z : nat) (a b c : Z) :
  S (l + S k) = m_numLayers t0 -> inBounds t0 l x y z ->
  (live image t0 lo hi) l x y z a b c <->
  exists cx cy cz, In (cx, cy, cz) (children t0 l x y z) /\ (live image t0 lo hi) (S l) cx cy cz a b c.
Proof.
  intros Hk HB. unfold live. split.
  - intros [HN HM].
    apply (cell_children image t0 Himage Hgrids l x y z a b c ltac:(lia)) in HN
      as (xx & yy & zz & Hxx & Hyy & Hzz & HC).
    eexists _, _, _. split; [|split; [exact HC | exact HM]].
    apply in_children. exists xx, yy, zz. auto 10.
  - intros (cx & cy & cz & Hin & HC & HM). split; [|exact HM].
    apply in_children in Hin as (xx & yy & zz & Hxx & Hyy & Hzz & -> & -> & ->).
    apply (cell_children image t0 Himage Hgrids l x y z a b c ltac:(lia)).
    exists xx, yy, zz. auto.
Qed.

Lemma children_inBounds (l x y z cx cy cz : nat) :
  (S l < m_numLayers t0)%nat -> inBounds t0 l x y z ->
  In (cx, cy, cz) (children t0 l x y z) -> inBounds t0 (S l) cx cy cz.
Proof.
  intros Hl HB Hin.
  apply in_children in Hin as (xx & yy & zz & Hxx & Hyy & Hzz & -> & -> & ->).
  now apply (child_inBounds image).
Qed.

Lemma leaf_in_live (k : nat) : forall l x y z a b c,
  S (l + k) = m_numLayers t0 -> inBounds t0 l x y z ->
  specLabel image t0 lo hi k l x y z = LEAF_IN ->
  inCell3 t0 l x y z a b c -> (live image t0 lo hi) l x y z a b c.
Proof.
  induction k as [|k IH]; intros l x y z a b c Hk HB Hlab HN.
  - split; [exact HN|]. exists x, y, z.
    replace (m_numLayers t0 - 1)%nat with l by lia.
    repeat split; try apply HB; try apply HN.
    simpl in Hlab. destruct (rejected _ _ _); [discriminate | reflexivity].
  - destruct (rejected lo hi (filledElem image t0 l x y z)) eqn:Hrej.
    { rewrite (specLabel_rejected image t0 lo hi (S k) l x y z Hrej) in Hlab.
      discriminate. }
    rewrite (specLabel_internal image t0 lo hi k l x y z Hrej) in Hlab.
    apply (child_live k l x y z a b c Hk HB).
    pose proof HN as HN'.
    apply (cell_children image t0 Himage Hgrids l x y z a b c ltac:(lia)) in HN'
      as (xx & yy & zz & Hxx & Hyy & Hzz & HC).
    assert (Hin : In ((splitX t0 l * x + xx)%nat, (splitY t0 l * y + yy)%nat,
                      (splitZ t0 l * z + zz)%nat) (children t0 l x y z)).
    { apply in_children. exists xx, yy, zz. auto 10. }
    eexists _, _, _. split; [exact Hin|].
    apply IH; auto; [lia | apply (child_inBounds image); auto; lia |].
    apply (labelOf_in _ Hlab).
    apply in_map_iff. eexists (_, _, _). split; [reflexivity | exact Hin].
Qed.

Lemma leaf_out_dead (k : nat) : forall l x y z a b c,
  S (l + k) = m_numLayers t0 -> inBounds t0 l x y z ->
  specLabel image t0 lo hi k l x y z = LEAF_OUT -> ~ (live image t0 lo hi) l x y z a b c.
Proof.
  induction k as [|k IH]; intros l x y z a b c Hk HB Hlab.
  - simpl in Hlab. destruct (rejected lo hi (filledElem image t0 l x y z)) eqn:Hrej;
      [|discriminate].
    now apply (rejected_not_live 0).
  - destruct (rejected lo hi (filledElem image t0 l x y z)) eqn:Hrej.
    { now apply (rejected_not_live (S k)). }
    rewrite (specLabel_internal image t0 lo hi k l x y z Hrej) in Hlab.
    intros HL. apply (child_live k l x y z a b c Hk HB) in HL
      as (cx & cy & cz & Hin & HL).
    revert HL. apply IH; [lia | apply (children_inBounds l x y z); auto; lia |].
    apply (labelOf_out _ Hlab).
    apply in_map_iff. exists (cx, cy, cz). split; [reflexivity | exact Hin].
Qed.

(** Every voxel is covered by at most one box of a subtree, and exactly
    the (live image t0 lo hi) voxels of the node's cell are covered. *)
Lemma specEnum_cover (k : nat) : forall l x y z a b c,
  S (l + k) = m_numLayers t0 -> inBounds t0 l x y z ->
  (countCover (specEnum image t0 lo hi k l x y z) a b c <= 1)%nat /\
  ((1 <= countCover (specEnum image t0 lo hi k l x y z) a b c)%nat
   <-> (live image t0 lo hi) l x y z a b c).
Proof.
  induction k as [|k IH]; intros l x y z a b c Hk HB;
    rewrite (specEnum_eq image t0 lo hi);
    destruct (specLabel image t0 lo hi _ l x y z) eqn:Hlab.
  - now apply specLabel_finest_not_node in Hlab.
  - destruct (countCover_single (cellBox t0 l x y z) a b c) as [H1 H2].
    split; [exact H1|]. rewrite H2, covers_cellBox. split.
    + now apply (leaf_in_live 0).
    + now intros [H _].
  - split; [unfold countCover; simpl; lia|]. split.
    + unfold countCover; simpl; lia.
    + intros HL. now apply (leaf_out_dead 0 l x y z a b c) in HL.
  - (* NODE *)
    rewrite countCover_flat_map.
    set (f := fun c0 : nat * nat * nat =>
                countCover (let '(cx, cy, cz) := c0 in
                            specEnum image t0 lo hi k (S l) cx cy cz) a b c).
    assert (Hkid : forall cx cy cz, In (cx, cy, cz) (children t0 l x y z) ->
              (f (cx, cy, cz) <= 1)%nat /\
              ((1 <= f (cx, cy, cz))%nat <-> (live image t0 lo hi) (S l) cx cy cz a b c)).
    { intros cx cy cz Hin. apply IH; [lia|].
      apply (children_inBounds l x y z); auto. lia. }
    split.
    + apply (sum_le_one f).
      * apply NoDup_childCoords.
      * intros [[cx cy] cz] Hin. now apply Hkid.
      * intros [[cx cy] cz] [[cx' cy'] cz'] Hin Hin' H1 H2.
        apply Hkid in H1; [|exact Hin]. apply Hkid in H2; [|exact Hin'].
        destruct H1 as [H1 _], H2 as [H2 _].
        destruct (cell_inj image t0 Himage Hgrids (S l) cx cy cz cx' cy' cz' a b c
                    ltac:(lia) H1 H2) as (-> & -> & ->).
        reflexivity.
    + destruct (sum_pos f (children t0 l x y z)) as [Hs1 Hs2].
      rewrite (child_live k l x y z a b c Hk HB). split.
      * intros H. destruct (Hs1 H) as ([[cx cy] cz] & Hin & Hf).
        exists cx, cy, cz. split; [exact Hin|]. now apply Hkid.
      * intros (cx & cy & cz & Hin & HL). apply Hs2.
        exists (cx, cy, cz). split; [exact Hin|]. now apply Hkid.
  - destruct (countCover_single (cellBox t0 l x y z) a b c) as [H1 H2].
    split; [exact H1|]. rewrite H2, covers_cellBox. split.
    + now apply (leaf_in_live (S k)).
    + now intros [H _].
  - split; [unfold countCover; simpl; lia|]. split.
    + unfold countCover; simpl; lia.
    + intros HL. now apply (leaf_out_dead (S k) l x y z a b c) in HL.
Qed.

(** The cell of the root is the whole volume. *)
Lemma root_cell (a b c : Z) :
  inCell3 t0 0 0 0 0 a b c <->
  0 <= a < width image /\ 0 <= b < height image /\ 0 <= c < slices image.
Proof.
  destruct Hgrids as (_ & HX & HY & HZ).
  unfold inCell3, inCell.
  rewrite (axis_first _ _ _ HX), (axis_first _ _ _ HY), (axis_first _ _ _ HZ).
  unfold offset, extent. simpl. lia.
Qed.

Lemma root_inBounds : inBounds t0 0 0 0 0.
Proof.
  destruct Hgrids as (Hn & HX & HY & HZ). unfold inBounds.
  rewrite (axis_first _ _ _ HX), (axis_first _ _ _ HY), (axis_first _ _ _ HZ). simpl. lia.
Qed.

(** Every voxel of the volume lies in a cell of the finest layer. *)
Lemma finest_cell_exists (a b c : Z) :
  0 <= a < width image -> 0 <= b < height image -> 0 <= c < slices image ->
  exists x y z,
    inBounds t0 (m_numLayers t0 - 1) x y z /\
    inCell3 t0 (m_numLayers t0 - 1) x y z a b c.
Proof.
  intros Ha Hb Hc. destruct Himage as (HW & HH & HS & _).
  destruct Hgrids as (Hn & HX & HY & HZ).
  set (last := (m_numLayers t0 - 1)%nat).
  assert (Hlast : (last < m_numLayers t0)%nat) by (unfold last; lia).
  assert (Haxis : forall dim g v, 0 < dim -> axisGrid dim (m_numLayers t0) g ->
            0 <= v < dim -> exists i, inCell (nth last g []) i v).
  { intros dim g v Hdim Hg Hv.
    destruct (axis_layer _ _ _ Hdim Hg last Hlast) as (_ & HF & Hsum & _).
    apply inCell_exists.
    - eapply Forall_impl; [|exact HF]. cbv beta. intros; lia.
    - lia. }
  destruct (Haxis _ _ a HW HX Ha) as (x & Hx).
  destruct (Haxis _ _ b HH HY Hb) as (y & Hy).
  destruct (Haxis _ _ c HS HZ Hc) as (z & Hz).
  exists x, y, z. split; [|exact (conj Hx (conj Hy Hz))].
  unfold inBounds.
  split; [exact Hlast|]. split; [|split]; eapply inCell_lt_length; eauto.
Qed.

(** A voxel whose value lies in the range passes the bounding-box test
    of its finest-layer cell. *)
Lemma in_range_meets (a b c : Z) :
  0 <= a < width image -> 0 <= b < height image -> 0 <= c < slices image ->
  lo <= voxelAt image a b c <= hi -> meetsRange image t0 lo hi a b c.
Proof.
  intros Ha Hb Hc Hv.
  destruct (finest_cell_exists a b c Ha Hb Hc) as (x & y & z & HB & HC).
  exists x, y, z. split; [exact HB|]. split; [exact HC|].
  destruct (filledElem_bounds image t0 Himage Hgrids _ _ _ _ HB)
    as [[Hmin _] [Hmax _]].
  specialize (Hmin _ _ _ HC). specialize (Hmax _ _ _ HC).
  apply rejected_false. lia.
Qed.

End Coverage.

(** ** Whole calls of [setInsideRange] and [enumerate] *)

Lemma passState_self (t : Octree) :
  passState t (m_min t) (m_max t) (m_data t) (m_voxelsInside t) = t.
Proof. now destruct t. Qed.

Section Client.

Variable image : MemImage.
Variable t0 : Octree.
Hypothesis Himage : wfImage image.
Hypothesis Hgrids : gridsOf image t0.

Local Notation "'D0'" :=
  (filledData image (m_gridX t0) (m_gridY t0) (m_gridZ t0) (m_numLayers t0)).

Lemma setInsideRange_run (lo0 hi0 lo hi : Z) (d : list (list OctreeElement)) (v : Z)
    (fuel : nat) :
  sameBounds d D0 -> (m_numLayers t0 <= fuel)%nat ->
  (lo0 =? lo) && (hi0 =? hi) = false ->
  exists d' v',
    setInsideRange fuel lo hi (passState t0 lo0 hi0 d v)
    = Ret true (passState t0 lo hi d' v') /\
    sameBounds d' D0 /\
    classified image t0 lo hi (passState t0 lo hi d' v') (m_numLayers t0 - 1) 0 0 0 0.
Proof.
  intros Hd Hfuel Hne.
  pose proof (root_inBounds image t0 Hgrids) as HB.
  destruct Hgrids as (Hn & _).
  destruct (checkChildren_runs image t0 lo hi Himage Hgrids (m_numLayers t0 - 1)
              O O O O d 0 fuel ltac:(lia) HB Hd ltac:(lia))
    as (d' & v' & Hrun & Hd' & _ & Hcl).
  exists d', v'. split; [|split; assumption].
  unfold setInsideRange. unfold bind at 1, get.
  change (m_min (passState t0 lo0 hi0 d v)) with lo0.
  change (m_max (passState t0 lo0 hi0 d v)) with hi0.
  rewrite Hne. unfold bind at 1, put.
  change (set_voxelsInside 0 (set_range lo hi (passState t0 lo0 hi0 d v)))
    with (passState t0 lo hi d 0).
  rewrite (bind_Ret _ Hrun). unfold bind at 1, get.
  destruct (node_lookups image t0 Himage Hgrids O O O O HB)
    as (HgX & HgY & HgZ & Hsx & Hsy & Hsz).
  change (m_gridX (passState t0 lo hi d' v')) with (m_gridX t0).
  change (m_gridY (passState t0 lo hi d' v')) with (m_gridY t0).
  change (m_gridZ (passState t0 lo hi d' v')) with (m_gridZ t0).
  unfold bind at 1. rewrite HgX. cbn [lift ret].
  unfold bind at 1. rewrite HgY. cbn [lift ret].
  unfold bind at 1. rewrite HgZ. cbn [lift ret].
  unfold bind at 1. rewrite Hsx. cbn [lift ret].
  unfold bind at 1. rewrite Hsy. cbn [lift ret].
  unfold bind at 1. rewrite Hsz. cbn [lift ret].
  reflexivity.
Qed.

Lemma setInsideRange_same (lo hi : Z) (d : list (list OctreeElement)) (v : Z)
    (fuel : nat) :
  setInsideRange fuel lo hi (passState t0 lo hi d v)
  = Ret false (passState t0 lo hi d v).
Proof.
  unfold setInsideRange. unfold bind at 1, get.
  change (m_min (passState t0 lo hi d v)) with lo.
  change (m_max (passState t0 lo hi d v)) with hi.
  now rewrite !Z.eqb_refl.
Qed.

(** Any sequence of range changes returns and keeps the min/max data. *)
Lemma setRanges_run (fuel : nat) (ranges : list (Z * Z)) :
  (m_numLayers t0 <= fuel)%nat ->
  forall lo0 hi0 d v, sameBounds d D0 ->
  exists lo1 hi1 d' v',
    setRanges fuel ranges (passState t0 lo0 hi0 d v)
    = Ret tt (passState t0 lo1 hi1 d' v') /\
    sameBounds d' D0.
Proof.
  intros Hfuel. unfold setRanges.
  induction ranges as [|[lo hi] ranges IH]; intros lo0 hi0 d v Hd.
  - exists lo0, hi0, d, v. split; [reflexivity | exact Hd].
  - cbn [foldM]. destruct ((lo0 =? lo) && (hi0 =? hi)) eqn:E.
    + apply andb_true_iff in E as [E1 E2].
      apply Z.eqb_eq in E1, E2. subst lo0 hi0.
      destruct (IH lo hi d v Hd) as (lo1 & hi1 & d' & v' & Hrun & Hd').
      exists lo1, hi1, d', v'. split; [|exact Hd'].
      unfold bind at 1. unfold bind at 1. rewrite setInsideRange_same.
      cbn [ret]. exact Hrun.
    + destruct (setInsideRange_run lo0 hi0 lo hi d v fuel Hd Hfuel E)
        as (d1 & v1 & Hrun1 & Hd1 & _).
      destruct (IH lo hi d1 v1 Hd1) as (lo1 & hi1 & d' & v' & Hrun & Hd').
      exists lo1, hi1, d', v'. split; [|exact Hd'].
      unfold bind at 1. unfold bind at 1. rewrite Hrun1.
      cbn [ret]. exact Hrun.
Qed.

Lemma enumerate_run (lo hi : Z) (d : list (list OctreeElement)) (v : Z) (c : list Z)
    (fuel : nat) :
  (m_numLayers t0 <= fuel)%nat ->
  classified image t0 lo hi (passState t0 lo hi d v) (m_numLayers t0 - 1) 0 0 0 0 ->
  let boxes := specEnum image t0 lo hi (m_numLayers t0 - 1) 0 0 0 0 in
  enumerate fuel (set_cubesInside c (passState t0 lo hi d v))
  = Ret (flat_map flatBox boxes)
        (set_cubesInside (flat_map flatBox boxes) (passState t0 lo hi d v)).
Proof.
  intros Hfuel Hcl boxes.
  pose proof (root_inBounds image t0 Hgrids) as HB.
  destruct Hgrids as (Hn & _).
  unfold enumerate. unfold bind at 1, modify.
  change (set_cubesInside [] (set_cubesInside c (passState t0 lo hi d v)))
    with (set_cubesInside [] (passState t0 lo hi d v)).
  rewrite (bind_Ret _ (enumerateChildren_run image t0 lo hi Himage Hgrids d v
                         (m_numLayers t0 - 1) O O O O [] fuel
                         ltac:(lia) HB Hcl ltac:(lia))).
  reflexivity.
Qed.

(** The boxes of the whole tree: no voxel is covered twice, and the
    covered voxels are those of the volume whose finest-layer cell is
    not bounding-box rejected. *)
Lemma root_cover (lo hi : Z) (a b c : Z) :
  let boxes := specEnum image t0 lo hi (m_numLayers t0 - 1) 0 0 0 0 in
  (countCover boxes a b c <= 1)%nat /\
  ((exists box, In box boxes /\ covers box a b c)
   <-> inVolume image a b c /\ meetsRange image t0 lo hi a b c).
Proof.
  intros boxes.
  pose proof (root_inBounds image t0 Hgrids) as HB.
  assert (Hn : (1 <= m_numLayers t0)%nat) by apply Hgrids.
  destruct (specEnum_cover image t0 lo hi Himage Hgrids (m_numLayers t0 - 1)
              O O O O a b c ltac:(lia) HB) as [H1 H2].
  split; [exact H1|].
  rewrite <- countCover_pos. fold boxes in H2. rewrite H2.
  unfold live, inVolume. now rewrite (root_cell image t0 Hgrids).
Qed.

End Client.

(** ** Cancellation *)




(** C4, at a failing input.  For a volume whose element type is neither
    [UBYTE] nor [USHORT], [setImage] runs no fill and reads the abort flag
    not once, yet it returns with [m_usable] true while every element is
    still at its initial [min = INT_MAX], [max = INT_MIN]. *)
Theorem setImage_unsupported_type_usable (abortThread : nat -> bool) (r : nat) :
  exists t,
    setImage abortThread 4 twoShorts {| tree := Octree_ctor 1; reads := r |}
    = Ret tt {| tree := t; reads := r |} /\
    m_usable t = true /\
    m_data t = [[OctreeElement_ctor]; [OctreeElement_ctor; OctreeElement_ctor]] /\
    e_min OctreeElement_ctor = INT_MAX /\ e_max OctreeElement_ctor = INT_MIN.
Proof.
  eexists. split; [vm_compute; reflexivity|]. repeat split.
Qed.

(** ** The bounding-box test against the raw volume *)

Section RangeFacts.

Variable image : MemImage.
Variable t0 : Octree.
Variables lo hi : Z.
Hypothesis Himage : wfImage image.
Hypothesis Hgrids : gridsOf image t0.

Lemma not_rejected_iff (l x y z : nat) :
  inBounds t0 l x y z ->
  rejected lo hi (filledElem image t0 l x y z) = false <->
  (exists p q r, inCell3 t0 l x y z p q r /\ voxelAt image p q r <= hi) /\
  (exists p q r, inCell3 t0 l x y z p q r /\ lo <= voxelAt image p q r).
Proof.
  intros HB.
  destruct (filledElem_bounds image t0 Himage Hgrids l x y z HB)
    as [[Hmin (p1 & q1 & r1 & HP1 & HV1)] [Hmax (p2 & q2 & r2 & HP2 & HV2)]].
  split.
  - intros Hrej. split.
    + exists p1, q1, r1. split; [exact HP1|].
      destruct (Z_le_gt_dec (voxelAt image p1 q1 r1) hi) as [H | H]; [exact H|].
      assert (rejected lo hi (filledElem image t0 l x y z) = true)
        by (apply rejected_true_iff; lia).
      congruence.
    + exists p2, q2, r2. split; [exact HP2|].
      destruct (Z_le_gt_dec lo (voxelAt image p2 q2 r2)) as [H | H]; [exact H|].
      assert (rejected lo hi (filledElem image t0 l x y z) = true)
        by (apply rejected_true_iff; lia).
      congruence.
  - intros [(p & q & r & HP & HV) (p' & q' & r' & HP' & HV')].
    apply rejected_false. specialize (Hmin _ _ _ HP). specialize (Hmax _ _ _ HP'). lia.
Qed.

Lemma meets_near (a b c : Z) :
  meetsRange image t0 lo hi a b c <-> nearRange image t0 lo hi a b c.
Proof.
  unfold meetsRange, nearRange. split.
  - intros (x & y & z & HB & HC & Hrej). exists x, y, z.
    split; [exact HB|]. split; [exact HC|]. now apply not_rejected_iff.
  - intros (x & y & z & HB & HC & Hnear). exists x, y, z.
    split; [exact HB|]. split; [exact HC|]. now apply not_rejected_iff.
Qed.




End RangeFacts.

(** ** The defensive branch of [checkChildren] *)




(** ** The example volumes, end to end *)

(** On [eightVoxels] with one voxel per finest cell, the range [[2, 5]]
    selects the voxels 2, 3 of the first row and 4, 5 of the second; each
    pair is one box. *)
Example enumerate_eightVoxels :
  exists t1 t2,
    setInsideRange 4 2 5 (builtTree eightVoxels 1) = Ret true t1 /\
    enumerate 4 t1 = Ret [2; 0; 0; 2; 1; 1; 0; 1; 0; 2; 1; 1] t2.
Proof. eexists. eexists. split; vm_compute; reflexivity. Qed.

(** The fill of [twoVoxels] leaves no element with [min > max]. *)
Lemma fill_min_le_max_witness :
  FillCompleted twoVoxels 1 twoVoxelsTree /\
  Forall (fun arr => Forall (fun e => e_min e <= e_max e) arr) (m_data twoVoxelsTree).
Proof.
  assert (Hfill : FillCompleted twoVoxels 1 twoVoxelsTree) by prove_filled.
  split; [exact Hfill|].
  destruct (fill_min_le_max twoVoxels 1 twoVoxelsTree) as [Hle _].
  - prove_wfImage.
  - prove_supported.
  - lia.
  - exact Hfill.
  - apply Forall_forall. intros arr Harr. apply In_nth_error in Harr as (layer & Hl).
    apply Forall_forall. intros e He. exact (Hle layer arr e Hl He).
Defined.

(** The root of the tree over [twoVoxels] holds the least and the greatest
    value of the volume. *)
Lemma fill_parent_min_max_witness :
  FillCompleted twoVoxels 1 twoVoxelsTree /\
  exists e,
    elemAt twoVoxelsTree 0 0 0 0 = Some e /\
    leastOver twoVoxels (inCell3 twoVoxelsTree 0 0 0 0) (e_min e) /\
    greatestOver twoVoxels (inCell3 twoVoxelsTree 0 0 0 0) (e_max e).
Proof.
  assert (Hfill : FillCompleted twoVoxels 1 twoVoxelsTree) by prove_filled.
  split; [exact Hfill|].
  destruct (fill_parent_min_max twoVoxels 1 twoVoxelsTree) as [_ Hcell].
  - prove_wfImage.
  - prove_supported.
  - lia.
  - exact Hfill.
  - apply (Hcell O O O O). unfold inBounds. cbn. lia.
Defined.

(** ** What one call of [checkChildren] stores *)

Lemma elemAt_retype_same (t0 : Octree) (lo hi : Z) (d : list (list OctreeElement)) (v : Z)
    (l x y z : nat) (arr : list OctreeElement) (e e' : OctreeElement) :
  let pos := (x + length (nth l (m_gridX t0) [])
                  * (y + length (nth l (m_gridY t0) []) * z))%nat in
  nth_error d l = Some arr -> nth_error arr pos = Some e ->
  elemAt (passState t0 lo hi (list_update d l (list_update arr pos e')) v) l x y z
  = Some e'.
Proof.
  intros pos Harr He. unfold elemAt.
  cbn [m_data passState set_voxelsInside set_data m_gridX m_gridY set_range].
  rewrite nth_error_list_update_eq by (apply nth_error_Some; congruence).
  fold pos. now rewrite nth_error_list_update_eq by (apply nth_error_Some; congruence).
Qed.

Lemma elemAt_retype_other (t0 : Octree) (lo hi : Z) (d : list (list OctreeElement))
    (v v' : Z) (l x y z l' x' y' z' : nat) (arr : list OctreeElement) (e' : OctreeElement) :
  let pos := (x + length (nth l (m_gridX t0) [])
                  * (y + length (nth l (m_gridY t0) []) * z))%nat in
  inBounds t0 l x y z -> inBounds t0 l' x' y' z' ->
  nth_error d l = Some arr ->
  (l', x', y', z') <> (l, x, y, z) ->
  elemAt (passState t0 lo hi (list_update d l (list_update arr pos e')) v') l' x' y' z'
  = elemAt (passState t0 lo hi d v) l' x' y' z'.
Proof.
  intros pos (_ & Hx & Hy & Hz) (_ & Hx' & Hy' & Hz') Harr Hne. unfold elemAt.
  cbn [m_data passState set_voxelsInside set_data m_gridX m_gridY set_range].
  destruct (Nat.eq_dec l' l) as [-> | Hl].
  - rewrite nth_error_list_update_eq by (apply nth_error_Some; congruence).
    rewrite Harr. rewrite nth_error_list_update_neq; [reflexivity|].
    intros E. subst pos.
    destruct (index3_inj _ _ _ _ _ _ _ _ Hx Hx' Hy Hy' E) as (-> & -> & ->).
    now apply Hne.
  - rewrite nth_error_list_update_neq by congruence. reflexivity.
Qed.

Lemma Forall2_map_labels {A B} (f : A -> B) (P : A -> B -> Prop) (l : list A) :
  (forall a, In a l -> P a (f a)) -> Forall2 P l (map f l).
Proof.
  induction l as [|a l IH]; intros H; simpl; constructor.
  - apply H. now left.
  - apply IH. intros b Hb. apply H. now right.
Qed.

(** The label of an internal node, read off the results of its
    children. *)
Lemma labelOf_cases (vs : list ElementType) :
  (Forall (fun r => r = LEAF_IN) vs -> labelOf vs = LEAF_IN) /\
  (~ Forall (fun r => r = LEAF_IN) vs -> Forall (fun r => r = LEAF_OUT) vs ->
   labelOf vs = LEAF_OUT) /\
  (~ Forall (fun r => r = LEAF_IN) vs -> ~ Forall (fun r => r = LEAF_OUT) vs ->
   labelOf vs = NODE).
Proof.
  assert (Hin : forallb isIn vs = true <-> Forall (fun r => r = LEAF_IN) vs).
  { rewrite forallb_forall, Forall_forall. split; intros H r Hr; specialize (H r Hr).
    - now destruct r.
    - now subst r. }
  assert (Hout : forallb isOut vs = true <-> Forall (fun r => r = LEAF_OUT) vs).
  { rewrite forallb_forall, Forall_forall. split; intros H r Hr; specialize (H r Hr).
    - now destruct r.
    - now subst r. }
  unfold labelOf. destruct (forallb isIn vs) eqn:E1; destruct (forallb isOut vs) eqn:E2;
    repeat split; intros; try reflexivity; intuition congruence.
Qed.

(** C7.  One call of [checkChildren] during a classification pass for
    the range [[lo, hi]] over a tree whose fill ran to completion, on a
    node with the stored bounds [element]: the call returns a label and
    stores it in the node, whose [min] and [max] stay.  When
    [lo > element.max] or [hi < element.min] the label is [LEAF_OUT], fuel
    for the one call is enough (no child is visited), and the voxel counter
    and every other node are as before.  Otherwise, at the finest layer,
    the label is [LEAF_IN], again no further call is made, the voxels of
    the cell are added to the counter and every other node is as before.
    Otherwise the children are visited in loop order; the calls all return,
    with the labels [vs], which are the labels the children hold at the
    end; the label of the node is [LEAF_IN] if all of [vs] are [LEAF_IN],
    else [LEAF_OUT] if all are [LEAF_OUT], else [NODE]; and after the last
    child nothing but the label of the node changes. *)
Theorem checkChildren_labels (image : MemImage) (mcs : Z) (t0 : Octree)
    (lo hi : Z) (d : list (list OctreeElement)) (v : Z) (layer px py pz : nat)
    (fuel : nat) :
  wfImage image -> supported image -> 1 <= mcs -> FillCompleted image mcs t0 ->
  sameBounds d (m_data t0) -> inBounds t0 layer px py pz ->
  (m_numLayers t0 <= fuel)%nat ->
  let s := passState t0 lo hi d v in
  let unchanged (s1 s2 : Octree) :=
    forall l' x' y' z',
      inBounds t0 l' x' y' z' -> (l', x', y', z') <> (layer, px, py, pz) ->
      elemAt s2 l' x' y' z' = elemAt s1 l' x' y' z' in
  exists element value s',
    elemAt s layer px py pz = Some element /\
    checkChildren fuel layer px py pz s = Ret value s' /\
    elemAt s' layer px py pz
    = Some {| e_min := e_min element; e_max := e_max element; e_type := value |} /\
    (lo > e_max element \/ hi < e_min element ->
     value = LEAF_OUT /\
     checkChildren 1 layer px py pz s = Ret LEAF_OUT s' /\
     m_voxelsInside s' = v /\ unchanged s s') /\
    (~ (lo > e_max element \/ hi < e_min element) -> S layer = m_numLayers t0 ->
     value = LEAF_IN /\
     checkChildren 1 layer px py pz s = Ret LEAF_IN s' /\
     m_voxelsInside s'
     = v + extent (nth layer (m_gridX t0) []) px * extent (nth layer (m_gridY t0) []) py
           * extent (nth layer (m_gridZ t0) []) pz /\
     unchanged s s') /\
    (~ (lo > e_max element \/ hi < e_min element) -> (S layer < m_numLayers t0)%nat ->
     exists vs s1,
       visitChildren (Nat.pred fuel) (layer + 1) (children t0 layer px py pz) s
       = Ret vs s1 /\
       (Forall (fun r => r = LEAF_IN) vs -> value = LEAF_IN) /\
       (~ Forall (fun r => r = LEAF_IN) vs -> Forall (fun r => r = LEAF_OUT) vs ->
        value = LEAF_OUT) /\
       (~ Forall (fun r => r = LEAF_IN) vs -> ~ Forall (fun r => r = LEAF_OUT) vs ->
        value = NODE) /\
       Forall2 (fun c r => let '(cx, cy, cz) := c in
                           typeAt s' (layer + 1) cx cy cz = Some r)
         (children t0 layer px py pz) vs /\
       m_voxelsInside s' = m_voxelsInside s1 /\ unchanged s1 s').
Proof.
  intros Himage Hsup Hmcs Hfill Hd HB Hfuel. cbv zeta.
  destruct (FillCompleted_Filled image mcs t0 Himage Hsup Hmcs Hfill) as (Hgrids & Hdata).
  rewrite Hdata in Hd.
  assert (Hl : (layer < m_numLayers t0)%nat) by apply HB.
  destruct fuel as [|f]; [lia|]. cbn [Nat.pred].
  destruct (st_elem image t0 lo hi Hgrids d v layer px py pz Hd HB)
    as (arr & e & Harr & He & _).
  destruct (node_lookups image t0 Himage Hgrids layer px py pz HB)
    as (HgX & HgY & HgZ & Hsx & Hsy & Hsz).
  destruct (checkChildren_step (passState t0 lo hi d v) layer px py pz _ _ arr e
              HgX HgY Harr He) as (Crej & Cfin & Cint).
  change (m_min (passState t0 lo hi d v)) with lo in Crej, Cfin, Cint.
  change (m_max (passState t0 lo hi d v)) with hi in Crej, Cfin, Cint.
  change (m_numLayers (passState t0 lo hi d v)) with (m_numLayers t0) in Cfin, Cint.
  change (m_gridX (passState t0 lo hi d v)) with (m_gridX t0) in *.
  change (m_gridY (passState t0 lo hi d v)) with (m_gridY t0) in *.
  assert (Hel : elemAt (passState t0 lo hi d v) layer px py pz = Some e).
  { unfold elemAt. change (m_data (passState t0 lo hi d v)) with d. now rewrite Harr. }
  exists e.
  destruct (rejected lo hi e) eqn:Hrej.
  - (* rejected *)
    apply rejected_true_iff in Hrej.
    exists LEAF_OUT. eexists. split; [exact Hel|].
    split; [exact (Crej Hrej f)|]. rewrite st_withLayer.
    split; [exact (elemAt_retype_same t0 lo hi d v layer px py pz arr e _ Harr He)|].
    split; [|split; intros Hnot; [contradiction | contradiction]].
    intros _. split; [reflexivity|]. split; [exact (Crej Hrej O)|].
    split; [reflexivity|].
    intros l' x' y' z' HB' Hne.
    exact (elemAt_retype_other t0 lo hi d v v layer px py pz l' x' y' z' arr _
             HB HB' Harr Hne).
  - assert (Hnot : ~ (lo > e_max e \/ hi < e_min e)).
    { intros H. apply rejected_true_iff in H. congruence. }
    destruct (Nat.eq_dec (S layer) (m_numLayers t0)) as [Hlast | Hinner].
    + (* the finest layer *)
      assert (Hz : Z.of_nat layer = Z.of_nat (m_numLayers t0) - 1) by lia.
      exists LEAF_IN. eexists. split; [exact Hel|].
      split; [exact (Cfin Hnot Hz _ _ _ _ HgZ Hsx Hsy Hsz f)|].
      change (withLayer layer ?a (set_voxelsInside ?w (passState t0 lo hi d v)))
        with (passState t0 lo hi (list_update d layer a) w).
      split; [exact (elemAt_retype_same t0 lo hi d _ layer px py pz arr e _ Harr He)|].
      split; [intros H; contradiction|]. split; [|intros _ H; lia].
      intros _ _. split; [reflexivity|].
      split; [exact (Cfin Hnot Hz _ _ _ _ HgZ Hsx Hsy Hsz O)|].
      split; [reflexivity|].
      intros l' x' y' z' HB' Hne.
      exact (elemAt_retype_other t0 lo hi d v _ layer px py pz l' x' y' z' arr _
               HB HB' Harr Hne).
    + (* above the finest layer *)
      set (k := (m_numLayers t0 - layer - 2)%nat).
      assert (Hk : S (layer + S k) = m_numLayers t0) by (unfold k; lia).
      assert (Hz : Z.of_nat layer <> Z.of_nat (m_numLayers t0) - 1) by lia.
      destruct (visit_run image t0 lo hi Himage Hgrids k layer px py pz f
                  (checkChildren_runs image t0 lo hi Himage Hgrids k) Hk HB ltac:(lia)
                  (children t0 layer px py pz) d v ltac:(auto) Hd)
        as (d1 & v1 & Hvisit & Hd1 & _ & Hcl1).
      set (vs := map (fun '(cx, cy, cz) => specLabel image t0 lo hi k (S layer) cx cy cz)
                   (children t0 layer px py pz)) in *.
      replace (S layer) with (layer + 1)%nat in Hvisit by lia.
      pose proof (Cint Hnot Hz _ _ _ (st_getSplit image t0 lo hi Himage Hgrids d v layer
                                        ltac:(lia)) f vs _ Hvisit) as Hcall.
      destruct (st_elem image t0 lo hi Hgrids d1 v1 layer px py pz Hd1 HB)
        as (arr1 & e1 & Harr1 & He1 & _).
      rewrite (bind_Ret _ (@modifyElement_at (passState t0 lo hi d1 v1) layer _ arr1 e1
                             (with_type (labelOf vs)) Harr1 He1)) in Hcall.
      rewrite st_withLayer in Hcall. unfold ret in Hcall.
      assert (Hbounds : e_min e1 = e_min e /\ e_max e1 = e_max e).
      { destruct (summarised_elem image _ (st_Summarised image t0 lo hi Hgrids d v Hd)
                    layer px py pz HB) as (a & Ha & Amin & Amax).
        destruct (summarised_elem image _ (st_Summarised image t0 lo hi Hgrids d1 v1 Hd1)
                    layer px py pz HB) as (b & Hb & Bmin & Bmax).
        assert (Hel1 : elemAt (passState t0 lo hi d1 v1) layer px py pz = Some e1).
        { unfold elemAt. change (m_data (passState t0 lo hi d1 v1)) with d1.
          now rewrite Harr1. }
        assert (a = e) by congruence. assert (b = e1) by congruence. subst a b.
        change (filledElem image (passState t0 lo hi d1 v1) layer px py pz)
          with (filledElem image (passState t0 lo hi d v) layer px py pz) in Bmin, Bmax.
        split; congruence. }
      exists (labelOf vs). eexists. split; [exact Hel|]. split; [exact Hcall|].
      split.
      { rewrite (elemAt_retype_same t0 lo hi d1 v1 layer px py pz arr1 e1 _ Harr1 He1).
        unfold with_type. destruct Hbounds as [-> ->]. reflexivity. }
      split; [intros H; contradiction|]. split; [intros _ H; lia|].
      intros _ _. exists vs. eexists. split; [exact Hvisit|].
      destruct (labelOf_cases vs) as (L1 & L2 & L3).
      split; [exact L1|]. split; [exact L2|]. split; [exact L3|].
      split; [|split].
      * apply Forall2_map_labels. intros [[cx cy] cz] Hin.
        replace (layer + 1)%nat with (S layer) by lia.
        assert (HBc : inBounds t0 (S layer) cx cy cz).
        { apply (children_inBounds image t0 Himage Hgrids layer px py pz); auto. lia. }
        rewrite (typeAt_retype_other t0 lo hi d1 v1 v1 layer px py pz (S layer) cx cy cz
                   arr1 _ HB HBc Harr1) by (intros (E & _); lia).
        exact (classified_type image t0 lo hi d1 v1 k (S layer) cx cy cz
                 (Hcl1 cx cy cz Hin)).
      * reflexivity.
      * intros l' x' y' z' HB' Hne.
        exact (elemAt_retype_other t0 lo hi d1 v1 v1 layer px py pz l' x' y' z' arr1 _
                 HB HB' Harr1 Hne).
Qed.

(** ** The tree a completed [setImage] leaves *)

(** What a completed [setImage] leaves, in terms of the object [prepare]
    built. *)
Lemma completed_tree (abortThread : nat -> bool) (fuel : nat) (image : MemImage)
    (mcs : Z) (r : nat) (w : World) (t1 : Octree) :
  wfImage image -> supported image -> 1 <= mcs -> enoughFuel image fuel ->
  prepare fuel image (Octree_ctor mcs) = Ret tt t1 ->
  setImage abortThread fuel image {| tree := Octree_ctor mcs; reads := r |} = Ret tt w ->
  m_usable (tree w) = true ->
  tree w = set_usable true
             (set_data (filledData image (m_gridX t1) (m_gridY t1) (m_gridZ t1)
                          (m_numLayers t1)) t1).
Proof.
  intros Himage Hsup Hmcs Hfuel Hprep Hrun Hus.
  destruct (prepare_run fuel image (Octree_ctor mcs) Himage Hmcs
              eq_refl eq_refl eq_refl eq_refl Hfuel) as (t1' & Hprep' & HP & _).
  assert (t1' = t1) as -> by congruence.
  destruct HP as (Hgrids & Hdata & _).
  set (w0 := {| tree := Octree_ctor mcs; reads := r |}) in *.
  set (w1 := {| tree := t1; reads := r |}).
  assert (Hstep : onTree (prepare fuel image) w0 = Ret tt w1).
  { unfold onTree, zoom. cbn [tree w0]. now rewrite Hprep. }
  destruct (fill_outcome abortThread image Himage w1 Hgrids Hdata) as [Fdone Fabort].
  cbn [tree reads w1] in Fdone, Fabort.
  unfold setImage in Hrun. rewrite (bind_Ret _ Hstep) in Hrun.
  unfold try_catch, bind in Hrun.
  destruct (abort_dichotomy abortThread r (abortChecks (m_gridZ t1)))
    as [Hno | (j & Hj & Hab)].
  - destruct Hsup as [Hty | Hty]; rewrite Hty, (Fdone Hno) in Hrun;
      injection Hrun as <-; reflexivity.
  - destruct (Fabort j Hj Hab) as (t' & Hexc & Hus').
    destruct Hsup as [Hty | Hty]; rewrite Hty, Hexc in Hrun;
      injection Hrun as <-; cbn [tree] in Hus; congruence.
Qed.

(** A completed [setImage] on a freshly constructed object leaves the
    bounds the constructor stored. *)
Lemma FillCompleted_range (image : MemImage) (mcs : Z) (t : Octree) :
  wfImage image -> supported image -> 1 <= mcs -> FillCompleted image mcs t ->
  m_min t = INT_MIN /\ m_max t = INT_MAX.
Proof.
  intros Himage Hsup Hmcs (abortThread & fuel & r & w & Hrun & Hus & <-).
  set (fuel' := Nat.max fuel
                  (S (Z.to_nat (Z.max (Z.max (width image) (height image)) (slices image))))).
  apply (setImage_fuel_mono fuel') in Hrun; [|lia].
  assert (Hfuel : enoughFuel image fuel') by (unfold enoughFuel; lia).
  destruct (prepare_run fuel' image (Octree_ctor mcs) Himage Hmcs
              eq_refl eq_refl eq_refl eq_refl Hfuel) as (t1 & Hprep & _ & _ & Hlo & Hhi).
  rewrite (completed_tree abortThread fuel' image mcs r w t1
             Himage Hsup Hmcs Hfuel Hprep Hrun Hus).
  cbn [m_min m_max set_usable set_data]. split; assumption.
Qed.

(** ** The cube list does not bear on the classification *)

Section Cubes.

Variable image : MemImage.
Variable t0 : Octree.
Variables lo hi : Z.
Variable c : list Z.

Lemma specLabel_cubes (k : nat) : forall l x y z,
  specLabel image (set_cubesInside c t0) lo hi k l x y z
  = specLabel image t0 lo hi k l x y z.
Proof.
  induction k as [|k IH]; intros l x y z; cbn [specLabel];
    change (filledElem image (set_cubesInside c t0) l x y z)
      with (filledElem image t0 l x y z);
    destruct (rejected lo hi (filledElem image t0 l x y z)); try reflexivity.
  change (children (set_cubesInside c t0) l x y z) with (children t0 l x y z).
  f_equal. apply map_ext. intros [[cx cy] cz]. apply IH.
Qed.

Lemma classified_cubes (d : list (list OctreeElement)) (v : Z) (k : nat) :
  forall l x y z,
    classified image (set_cubesInside c t0) lo hi
      (passState (set_cubesInside c t0) lo hi d v) k l x y z ->
    classified image t0 lo hi (passState t0 lo hi d v) k l x y z.
Proof.
  induction k as [|k IH]; intros l x y z; cbn [classified]; rewrite specLabel_cubes;
    change (typeAt (passState (set_cubesInside c t0) lo hi d v) l x y z)
      with (typeAt (passState t0 lo hi d v) l x y z).
  - exact (fun H => H).
  - intros [Hty Hkids]. split; [exact Hty|]. intros Hlab cx cy cz Hin.
    apply IH. apply Hkids; [exact Hlab | exact Hin].
Qed.

End Cubes.

(** ** Sequences of [setInsideRange] and [enumerate] calls *)

Section Calls.

Variable image : MemImage.
Variable t0 : Octree.
Variable fuel : nat.
Hypothesis Himage : wfImage image.
Hypothesis Hgrids : gridsOf image t0.
Hypothesis Hfuel : (m_numLayers t0 <= fuel)%nat.

Local Notation "'D0'" :=
  (filledData image (m_gridX t0) (m_gridY t0) (m_gridZ t0) (m_numLayers t0)).

(** The states a caller moves through: the filled tree with some cube
    list, some bounds, some classification and voxel count.  Once a
    range change has run a pass ([seen]), the tree is classified for the
    stored bounds; before, the bounds are the constructor's. *)
Let reached (seen : bool) (lo hi : Z) (s : Octree) : Prop :=
  exists c d v,
    s = set_cubesInside c (passState t0 lo hi d v) /\
    sameBounds d D0 /\
    (seen = true ->
     classified image t0 lo hi (passState t0 lo hi d v) (m_numLayers t0 - 1) 0 0 0 0) /\
    (seen = false -> lo = INT_MIN /\ hi = INT_MAX).

Lemma setInsideRange_cubes (c : list Z) (lo0 hi0 lo hi : Z)
    (d : list (list OctreeElement)) (v : Z) :
  sameBounds d D0 -> (lo0 =? lo) && (hi0 =? hi) = false ->
  exists d' v',
    setInsideRange fuel lo hi (set_cubesInside c (passState t0 lo0 hi0 d v))
    = Ret true (set_cubesInside c (passState t0 lo hi d' v')) /\
    sameBounds d' D0 /\
    classified image t0 lo hi (passState t0 lo hi d' v') (m_numLayers t0 - 1) 0 0 0 0.
Proof.
  intros Hd Hne.
  destruct (setInsideRange_run image (set_cubesInside c t0) Himage Hgrids
              lo0 hi0 lo hi d v fuel Hd Hfuel Hne) as (d' & v' & Hrun & Hd' & Hcl).
  exists d', v'. split; [exact Hrun|]. split; [exact Hd'|].
  exact (classified_cubes image t0 lo hi c d' v' _ _ _ _ _ Hcl).
Qed.

Lemma runCalls_reached (calls : list Call) : forall seen lo hi s,
  reached seen lo hi s -> ordered seen calls = true ->
  exists t lo' hi',
    runCalls fuel calls s = Ret tt t /\
    reached (seen || existsb properRange calls) lo' hi' t /\
    (lo', hi') = lastRange (lo, hi) calls.
Proof.
  unfold runCalls.
  induction calls as [|call calls IH]; intros seen lo hi s Hs Hord.
  - exists s, lo, hi. cbn. rewrite orb_false_r. auto.
  - destruct Hs as (c & d & v & -> & Hd & Hcl & Hdef).
    destruct call as [a b|]; cbn [ordered] in Hord; cbn [foldM runCall existsb lastRange].
    + (* setInsideRange *)
      destruct ((lo =? a) && (hi =? b)) eqn:E.
      * apply andb_true_iff in E as [E1 E2]. apply Z.eqb_eq in E1, E2. subst a b.
        assert (Hsame : setInsideRange fuel lo hi (set_cubesInside c (passState t0 lo hi d v))
                        = Ret false (set_cubesInside c (passState t0 lo hi d v))).
        { exact (setInsideRange_same (set_cubesInside c t0) lo hi d v fuel). }
        destruct (IH (seen || properRange (SetInsideRange lo hi)) lo hi
                    (set_cubesInside c (passState t0 lo hi d v))) as (t & lo' & hi' & Hrun & Ht & Hlast).
        { exists c, d, v. split; [reflexivity|]. split; [exact Hd|].
          destruct seen; cbn [orb].
          - split; [exact Hcl | discriminate].
          - destruct (Hdef eq_refl) as [-> ->]. cbn [properRange].
            rewrite !Z.eqb_refl. cbn. split; [discriminate | auto]. }
        { exact Hord. }
        exists t, lo', hi'. split; [|split; [|exact Hlast]].
        -- unfold bind at 1. unfold bind at 1. rewrite Hsame. cbn [ret]. exact Hrun.
        -- now rewrite orb_assoc.
      * destruct (setInsideRange_cubes c lo hi a b d v Hd E)
          as (d1 & v1 & Hset & Hd1 & Hcl1).
        assert (Hseen : seen || properRange (SetInsideRange a b) = true).
        { destruct seen; [reflexivity|]. destruct (Hdef eq_refl) as [-> ->].
          cbn [orb properRange]. rewrite (Z.eqb_sym a), (Z.eqb_sym b), E. reflexivity. }
        rewrite Hseen in Hord.
        destruct (IH true a b (set_cubesInside c (passState t0 a b d1 v1)))
          as (t & lo' & hi' & Hrun & Ht & Hlast).
        { exists c, d1, v1. split; [reflexivity|]. split; [exact Hd1|].
          split; [intros _; exact Hcl1 | discriminate]. }
        { exact Hord. }
        exists t, lo', hi'. split; [|split; [|exact Hlast]].
        -- unfold bind at 1. unfold bind at 1. rewrite Hset. cbn [ret]. exact Hrun.
        -- rewrite orb_assoc, Hseen. exact Ht.
    + (* enumerate *)
      apply andb_true_iff in Hord as [-> Hord].
      pose proof (enumerate_run image t0 Himage Hgrids lo hi d v c fuel Hfuel
                    (Hcl eq_refl)) as Henum. cbv zeta in Henum.
      destruct (IH true lo hi _ ltac:(exists (flat_map flatBox (specEnum image t0 lo hi (m_numLayers t0 - 1) 0 0 0 0)), d, v; split; [reflexivity|]; split; [exact Hd|]; split; [exact Hcl | discriminate]) Hord)
        as (t & lo' & hi' & Hrun & Ht & Hlast).
      exists t, lo', hi'. split; [|split; [exact Ht | exact Hlast]].
      unfold bind at 1. unfold bind at 1. rewrite Henum. cbn [ret]. exact Hrun.
Qed.

(** The boxes [specEnum] lists for the root are an exact cover of the
    voxels whose finest-layer cell meets the range. *)
Lemma specEnum_exactCover (lo hi : Z) :
  exactCover image
    (flat_map flatBox (specEnum image t0 lo hi (m_numLayers t0 - 1) 0 0 0 0))
    (nearRange image t0 lo hi).
Proof.
  set (boxes := specEnum image t0 lo hi (m_numLayers t0 - 1) 0 0 0 0).
  assert (Hcover : forall a b c,
            (countCover boxes a b c <= 1)%nat /\
            ((exists box, In box boxes /\ covers box a b c)
             <-> inVolume image a b c /\ nearRange image t0 lo hi a b c)).
  { intros a b c'.
    destruct (root_cover image t0 Himage Hgrids lo hi a b c') as [H1 H2].
    split; [exact H1|]. fold boxes in H2. rewrite H2.
    now rewrite (meets_near image t0 lo hi Himage Hgrids). }
  unfold exactCover. rewrite boxesOf_flat. split; [reflexivity|]. split.
  - intros i j bi bj a b c' Hij Hi Hj.
    exact (cover_once_disjoint boxes a b c' i j bi bj (proj1 (Hcover a b c')) Hij Hi Hj).
  - intros a b c'. apply Hcover.
Qed.

(** What [enumerate] returns on a classified tree. *)
Lemma enumerate_reached (lo hi : Z) (s : Octree) :
  reached true lo hi s ->
  m_min s = lo /\ m_max s = hi /\
  exists cubes,
    enumerate fuel s = Ret cubes (set_cubesInside cubes s) /\
    exactCover image cubes (nearRange image t0 lo hi) /\
    forall a b c,
      inVolume image a b c -> inRange image lo hi a b c ->
      exists box, In box (boxesOf cubes) /\ covers box a b c.
Proof.
  intros (c & d & v & -> & Hd & Hcl & _). split; [reflexivity|]. split; [reflexivity|].
  exists (flat_map flatBox (specEnum image t0 lo hi (m_numLayers t0 - 1) 0 0 0 0)).
  split.
  { exact (enumerate_run image t0 Himage Hgrids lo hi d v c fuel Hfuel (Hcl eq_refl)). }
  pose proof (specEnum_exactCover lo hi) as Hex. split; [exact Hex|].
  intros a b c' Hvol Hv. apply Hex. split; [exact Hvol|].
  apply (meets_near image t0 lo hi Himage Hgrids).
  destruct Hvol as (Ha & Hb & Hc).
  now apply (in_range_meets image t0 lo hi Himage Hgrids).
Qed.

(** From a tree that carries the constructor's bounds. *)
Lemma runCalls_from_filled (calls : list Call) :
  m_min t0 = INT_MIN -> m_max t0 = INT_MAX -> m_data t0 = D0 ->
  ordered false calls = true ->
  exists t,
    runCalls fuel calls t0 = Ret tt t /\
    (m_min t, m_max t) = lastRange (INT_MIN, INT_MAX) calls /\
    (existsb properRange calls = true ->
     exists cubes,
       enumerate fuel t = Ret cubes (set_cubesInside cubes t) /\
       exactCover image cubes (nearRange image t0 (m_min t) (m_max t)) /\
       forall a b c,
         inVolume image a b c -> inRange image (m_min t) (m_max t) a b c ->
         exists box, In box (boxesOf cubes) /\ covers box a b c).
Proof.
  intros Hlo Hhi Hdata Hord.
  assert (H0 : reached false INT_MIN INT_MAX t0).
  { exists (m_cubesInside t0), (m_data t0), (m_voxelsInside t0).
    split; [|split; [|split]].
    - rewrite <- Hlo, <- Hhi. now destruct t0.
    - rewrite Hdata. apply sameBounds_refl.
    - discriminate.
    - auto. }
  destruct (runCalls_reached calls false INT_MIN INT_MAX t0 H0 Hord)
    as (t & lo' & hi' & Hrun & Ht & Hlast).
  exists t. split; [exact Hrun|]. cbn [orb] in Ht.
  assert (Hb : m_min t = lo' /\ m_max t = hi').
  { destruct Ht as (c & d & v & -> & _). split; reflexivity. }
  destruct Hb as [Hb1 Hb2]. split; [rewrite Hb1, Hb2; exact Hlast|].
  intros Hseen. rewrite Hseen in Ht.
  destruct (enumerate_reached lo' hi' t Ht) as (_ & _ & Henum).
  rewrite Hb1, Hb2. exact Henum.
Qed.

End Calls.

(** C1, amended.  On the tree that a first [setImage], run to completion,
    leaves on a freshly constructed object: every sequence of
    [setInsideRange] and [enumerate] calls in which no [enumerate] comes
    before the first [setInsideRange] with bounds other than the
    constructors' [INT_MIN], [INT_MAX] returns, and leaves the bounds of
    its last [setInsideRange] call stored.  When the sequence holds such a
    [setInsideRange] call, [enumerate] then returns sextuples whose boxes
    are pairwise non-overlapping and cover exactly the voxels of the volume
    whose finest-layer cell holds a value at most [max] and a value at
    least [min], for the stored bounds; every voxel with a value in
    [[min, max]] is covered.  The call leaves its result in
    [m_cubesInside] and changes nothing else. *)
Theorem enumerate_coverage (image : MemImage) (mcs : Z) (t0 : Octree)
    (calls : list Call) (fuel : nat) :
  wfImage image -> supported image -> 1 <= mcs -> FillCompleted image mcs t0 ->
  (m_numLayers t0 <= fuel)%nat ->
  ordered false calls = true ->
  exists t,
    runCalls fuel calls t0 = Ret tt t /\
    (m_min t, m_max t) = lastRange (INT_MIN, INT_MAX) calls /\
    (existsb properRange calls = true ->
     exists cubes,
       enumerate fuel t = Ret cubes (set_cubesInside cubes t) /\
       exactCover image cubes (nearRange image t0 (m_min t) (m_max t)) /\
       forall a b c,
         inVolume image a b c -> inRange image (m_min t) (m_max t) a b c ->
         exists box, In box (boxesOf cubes) /\ covers box a b c).
Proof.
  intros Himage Hsup Hmcs Hfill Hfuel Hord.
  destruct (FillCompleted_Filled image mcs t0 Himage Hsup Hmcs Hfill) as (Hgrids & Hdata).
  destruct (FillCompleted_range image mcs t0 Himage Hsup Hmcs Hfill) as (Hlo & Hhi).
  exact (runCalls_from_filled image t0 fuel Himage Hgrids Hfuel calls Hlo Hhi Hdata Hord).
Qed.

(** ** Enumeration coverage: examples *)

(** The tree over [twoVoxels] with one cell per voxel: after the range
    [[0, 0]], an [enumerate], the range [[50, 100]] and a second
    [enumerate], the cube list holds the box of voxel 1, and a third
    [enumerate] starts from that list. *)
Lemma enumerate_coverage_witness :
  exists t cubes,
    runCalls 4 [SetInsideRange 0 0; Enumerate; SetInsideRange 50 100; Enumerate] twoVoxelsTree
    = Ret tt t /\
    m_cubesInside t = [1; 0; 0; 1; 1; 1] /\
    (m_min t, m_max t) = (50, 100) /\
    enumerate 4 t = Ret cubes (set_cubesInside cubes t) /\
    exactCover twoVoxels cubes (nearRange twoVoxels twoVoxelsTree 50 100).
Proof.
  destruct (enumerate_coverage twoVoxels 1 twoVoxelsTree
              [SetInsideRange 0 0; Enumerate; SetInsideRange 50 100; Enumerate] 4)
    as (t & Hrun & Hlast & Henum).
  - prove_wfImage.
  - prove_supported.
  - lia.
  - prove_filled.
  - cbn. lia.
  - reflexivity.
  - destruct (Henum eq_refl) as (cubes & Hcubes & Hcover & _).
    exists t, cubes. split; [exact Hrun|].
    split; [vm_compute in Hrun; injection Hrun as <-; reflexivity|].
    cbn [lastRange] in Hlast. split; [exact Hlast|].
    injection Hlast as Hlo Hhi. rewrite Hlo, Hhi in Hcover.
    split; [exact Hcubes | exact Hcover].
Defined.

(** C1 as stated fails.  [twoVoxels] with [minCubeSize = 2] has a single
    cell that holds the values 0 and 100; for the range [[50, 100]]
    [enumerate] returns the box of the whole volume, which covers voxel
    [(0, 0, 0)], whose value 0 is outside the range.  On the tree over
    [twoVoxels] a first [setInsideRange] with [INT_MIN], [INT_MAX] returns
    false and classifies nothing, and [enumerate] then reads the layer
    grids past their end.  After [setImage] with [twoVoxels] and then with
    [fourVoxels] on the same object, for the range [[0, 255]] [enumerate]
    returns the one box [0, 0, 0, 2, 1, 1], which leaves out voxel
    [(3, 0, 0)], whose value 9 is in the range.  For [twoShorts], of a
    voxel type [setImage] has no branch for, [enumerate] returns no box for
    the range [[0, 255]], in which the value of voxel [(0, 0, 0)] lies. *)
Lemma enumerate_misses_claimed_cover :
  (* a finest-layer cell of two voxels, one of them out of the range *)
  (exists t1 t2,
     FillCompleted twoVoxels 2 twoVoxelsCoarse /\
     setInsideRange 4 50 100 twoVoxelsCoarse = Ret true t1 /\
     enumerate 4 t1 = Ret [0; 0; 0; 2; 1; 1] t2 /\
     inVolume twoVoxels 0 0 0 /\
     covers (mkBox 0 0 0 2 1 1) 0 0 0 /\
     ~ inRange twoVoxels 50 100 0 0 0 /\
     ~ exactCover twoVoxels [0; 0; 0; 2; 1; 1] (inRange twoVoxels 50 100)) /\
  (* the constructor's bounds as the first range: no classification pass *)
  (FillCompleted twoVoxels 1 twoVoxelsTree /\
   setInsideRange 4 INT_MIN INT_MAX twoVoxelsTree = Ret false twoVoxelsTree /\
   forall fuel, (2 <= fuel)%nat -> enumerate fuel twoVoxelsTree = Fault) /\
  (* a second image on the same object *)
  (exists w t1 t2,
     rebind 1 twoVoxels fourVoxels = Ret tt w /\
     m_usable (tree w) = true /\
     setInsideRange 8 0 255 (tree w) = Ret true t1 /\
     enumerate 8 t1 = Ret [0; 0; 0; 2; 1; 1] t2 /\
     inVolume fourVoxels 3 0 0 /\
     inRange fourVoxels 0 255 3 0 0 /\
     ~ covers (mkBox 0 0 0 2 1 1) 3 0 0) /\
  (* a voxel type without a fill *)
  (exists w t1 t2,
     setImage neverAbort 8 twoShorts (freshWorld 1) = Ret tt w /\
     m_usable (tree w) = true /\
     setInsideRange 8 0 255 (tree w) = Ret true t1 /\
     enumerate 8 t1 = Ret [] t2 /\
     inVolume twoShorts 0 0 0 /\
     inRange twoShorts 0 255 0 0 0).
Proof.
  split; [|split; [|split]].
  - eexists. eexists.
    split; [prove_filled|].
    split; [vm_compute; reflexivity|].
    split; [vm_compute; reflexivity|].
    assert (Hvol : inVolume twoVoxels 0 0 0) by (unfold inVolume; cbn; lia).
    assert (Hcov : covers (mkBox 0 0 0 2 1 1) 0 0 0) by (unfold covers; cbn; lia).
    assert (Hout : ~ inRange twoVoxels 50 100 0 0 0)
      by (unfold inRange, voxelAt; simpl; lia).
    repeat (split; [assumption|]).
    intros (_ & _ & Hcover).
    apply Hout. apply (Hcover 0 0 0).
    exists (mkBox 0 0 0 2 1 1). split; [now left | exact Hcov].
  - split; [prove_filled|]. split; [reflexivity|].
    intros [|[|fuel]] Hfuel; [lia | lia | reflexivity].
  - eexists. eexists. eexists.
    split; [vm_compute; reflexivity|].
    split; [reflexivity|].
    split; [vm_compute; reflexivity|].
    split; [vm_compute; reflexivity|].
    split; [unfold inVolume; cbn; lia|].
    split; [unfold inRange, voxelAt; simpl; lia|].
    unfold covers; cbn; lia.
  - eexists. eexists. eexists.
    split; [vm_compute; reflexivity|].
    split; [reflexivity|].
    split; [vm_compute; reflexivity|].
    split; [vm_compute; reflexivity|].
    split; [unfold inVolume; cbn; lia|].
    unfold inRange, voxelAt; simpl; lia.
Qed.

(** ** A second image on the same object *)

(** C2, at a failing input.  [setImage] with [oneVoxel] and then with
    [twoFifties] on the same object, with [minCubeSize = 1], returns with
    [m_usable] true and two layers.  The root has one child per axis.  It
    holds [min = 5] and [max = 50], its only child [min = 50] and
    [max = 50], and every voxel of the volume has the value 50: the [min]
    of the root is neither the [min] of its child nor a value of the
    volume. *)
Theorem setImage_again_parent_min_max :
  exists w parent child,
    rebind 1 oneVoxel twoFifties = Ret tt w /\
    m_usable (tree w) = true /\
    m_numLayers (tree w) = 2%nat /\
    (splitX (tree w) 0, splitY (tree w) 0, splitZ (tree w) 0) = (1, 1, 1)%nat /\
    children (tree w) 0 0 0 0 = [(0, 0, 0)%nat] /\
    elemAt (tree w) 0 0 0 0 = Some parent /\
    elemAt (tree w) 1 0 0 0 = Some child /\
    (e_min parent, e_max parent) = (5, 50) /\
    (e_min child, e_max child) = (50, 50) /\
    e_min parent <> e_min child /\
    (forall a b c, inVolume twoFifties a b c -> voxelAt twoFifties a b c = 50).
Proof.
  eexists. eexists. eexists.
  split; [vm_compute; reflexivity|].
  split; [reflexivity|]. split; [reflexivity|]. split; [reflexivity|].
  split; [reflexivity|]. split; [reflexivity|]. split; [reflexivity|].
  split; [reflexivity|]. split; [reflexivity|].
  split; [cbn; lia|].
  intros a b c (Ha & Hb & Hc). cbn in Ha, Hb, Hc.
  assert (b = 0) by lia. assert (c = 0) by lia. subst b c.
  assert (Ha' : a = 0 \/ a = 1) by lia.
  destruct Ha' as [-> | ->]; reflexivity.
Qed.

(** C3, at a failing input.  [setImage] with [twoRows] and then with
    [eightSlices], a volume with positive dimensions, on the same object,
    with [minCubeSize = 1], returns with [m_usable] true and four layers.
    The z grid of the finest layer is [[0; 1]], with a cell of extent 0,
    and element [(0, 0, 0)] of the finest layer is still at its initial
    [min = INT_MAX], [max = INT_MIN]. *)
Theorem setImage_again_min_le_max :
  exists w element,
    wfImage eightSlices /\ supported eightSlices /\
    rebind 1 twoRows eightSlices = Ret tt w /\
    m_usable (tree w) = true /\
    m_numLayers (tree w) = 4%nat /\
    nth_error (m_gridZ (tree w)) 3 = Some [0; 1] /\
    inBounds (tree w) 3 0 0 0 /\
    elemAt (tree w) 3 0 0 0 = Some element /\
    (e_min element, e_max element) = (INT_MAX, INT_MIN) /\
    e_min element > e_max element.
Proof.
  eexists. eexists.
  split; [prove_wfImage|]. split; [prove_supported|].
  split; [vm_compute; reflexivity|].
  split; [reflexivity|]. split; [reflexivity|]. split; [reflexivity|].
  split; [unfold inBounds; cbn; lia|].
  split; [reflexivity|]. split; [reflexivity|].
  cbn. unfold INT_MAX, INT_MIN. lia.
Qed.

(** ** Classification: example *)

(** The root of the tree over [twoVoxels] with one cell per voxel.  For
    the range [[0, 100]] both children come back [LEAF_IN] and the root
    becomes [LEAF_IN]; for the range [[0, 50]] the second child is rejected
    and the root stays a [NODE]. *)
Lemma checkChildren_labels_witness :
  (exists s',
     checkChildren 4 0 0 0 0 (passState twoVoxelsTree 0 100 (m_data twoVoxelsTree) 0)
     = Ret LEAF_IN s' /\
     typeAt s' 0 0 0 0 = Some LEAF_IN /\
     typeAt s' 1 0 0 0 = Some LEAF_IN /\
     typeAt s' 1 1 0 0 = Some LEAF_IN /\
     m_voxelsInside s' = 2) /\
  (exists s',
     checkChildren 4 0 0 0 0 (passState twoVoxelsTree 0 50 (m_data twoVoxelsTree) 0)
     = Ret NODE s' /\
     typeAt s' 0 0 0 0 = Some NODE /\
     typeAt s' 1 0 0 0 = Some LEAF_IN /\
     typeAt s' 1 1 0 0 = Some LEAF_OUT /\
     m_voxelsInside s' = 1).
Proof.
  assert (Himage : wfImage twoVoxels) by prove_wfImage.
  assert (Hsup : supported twoVoxels) by prove_supported.
  assert (Hfill : FillCompleted twoVoxels 1 twoVoxelsTree) by prove_filled.
  assert (Hin : inBounds twoVoxelsTree 0 0 0 0) by (unfold inBounds; cbn; lia).
  assert (Hfuel : (m_numLayers twoVoxelsTree <= 4)%nat) by (cbn; lia).
  split.
  - destruct (checkChildren_labels twoVoxels 1 twoVoxelsTree 0 100 (m_data twoVoxelsTree) 0
                0 0 0 0 4 Himage Hsup ltac:(lia) Hfill (sameBounds_refl _) Hin Hfuel)
      as (element & value & s' & Hel & Hrun & Hat & _ & _ & Hnode).
    injection Hel as <-.
    destruct Hnode as (vs & s1 & Hvis & Hallin & _ & _ & Hch & Hv & _).
    { cbn. unfold INT_MAX, INT_MIN. lia. }
    { cbn. lia. }
    vm_compute in Hvis. injection Hvis as <- <-.
    assert (Hval : value = LEAF_IN) by (apply Hallin; repeat constructor).
    subst value. exists s'. split; [exact Hrun|].
    split; [unfold typeAt; rewrite Hat; reflexivity|].
    cbn in Hch. inversion Hch as [|? ? ? ? H0 Hch']; subst.
    inversion Hch' as [|? ? ? ? H1 _]; subst.
    split; [exact H0|]. split; [exact H1|]. exact Hv.
  - destruct (checkChildren_labels twoVoxels 1 twoVoxelsTree 0 50 (m_data twoVoxelsTree) 0
                0 0 0 0 4 Himage Hsup ltac:(lia) Hfill (sameBounds_refl _) Hin Hfuel)
      as (element & value & s' & Hel & Hrun & Hat & _ & _ & Hnode).
    injection Hel as <-.
    destruct Hnode as (vs & s1 & Hvis & _ & _ & Hmixed & Hch & Hv & _).
    { cbn. unfold INT_MAX, INT_MIN. lia. }
    { cbn. lia. }
    vm_compute in Hvis. injection Hvis as <- <-.
    assert (Hval : value = NODE).
    { apply Hmixed; intros Hall; inversion Hall as [|? ? Ha Hb]; subst;
        try discriminate; inversion Hb; subst; discriminate. }
    subst value. exists s'. split; [exact Hrun|].
    split; [unfold typeAt; rewrite Hat; reflexivity|].
    cbn in Hch. inversion Hch as [|? ? ? ? H0 Hch']; subst.
    inversion Hch' as [|? ? ? ? H1 _]; subst.
    split; [exact H0|]. split; [exact H1|]. exact Hv.
Defined.

(** ** The layer grid builder on a vector that already holds layers *)

Lemma loop_appends (fuel : nat) : forall mcs h layer g n g',
  createLayerGrid_loop fuel mcs h layer g = Ret n g' ->
  exists ext,
    g' = g ++ ext /\ n = (layer + 1 + length ext)%nat /\
    forall k, (k < length ext)%nat ->
      nth_error g' (length g + k) = Some (splitLayer (nth (layer + k) g' [])).
Proof.
  induction fuel as [|fuel IH]; intros mcs h layer g n g' Hrun; [discriminate|].
  simpl in Hrun. destruct (h >=? mcs).
  - unfold bind at 1, get in Hrun. unfold bind at 1 in Hrun.
    destruct (nth_error g layer) as [cur|] eqn:Hcur; [|discriminate].
    cbn [lift ret] in Hrun. unfold bind at 1, put in Hrun.
    destruct (IH _ _ _ _ _ _ Hrun) as (ext & Hg' & Hn & Hext).
    exists (splitLayer cur :: ext). rewrite <- app_assoc in Hg'. cbn [app] in Hg'.
    split; [exact Hg'|]. split; [cbn [length]; lia|].
    intros [|k] Hk.
    + rewrite !Nat.add_0_r. rewrite Hg' at 1.
      rewrite nth_error_app2, Nat.sub_diag by lia. cbn [nth_error].
      do 2 f_equal. rewrite Hg'. rewrite app_nth1 by (apply nth_error_Some; congruence).
      symmetry. now apply nth_error_nth.
    + specialize (Hext k ltac:(cbn [length] in Hk; lia)).
      rewrite length_app in Hext. cbn [length] in Hext.
      replace (length g + S k)%nat with (length g + 1 + k)%nat by lia.
      replace (layer + S k)%nat with (S layer + k)%nat by lia. exact Hext.
  - injection Hrun as <- <-. exists []. rewrite app_nil_r.
    split; [reflexivity|]. split; [cbn [length]; lia|]. intros k Hk. inversion Hk.
Qed.

(** X3.  [createLayerGrid] only appends: the layers the vector already holds
    stay, the return value counts the layers appended, and appended layer [k
    + 1] splits layer [k] of the whole vector, counted from its front. *)
Theorem createLayerGrid_appends (mcs dim : Z) (g : Grid) :
  1 <= mcs ->
  exists fuel n g' ext,
    (forall fuel', (fuel <= fuel')%nat -> createLayerGrid fuel' mcs dim g = Ret n g') /\
    g' = g ++ [dim] :: ext /\ n = S (length ext) /\
    forall k, (k < length ext)%nat ->
      nth_error g' (length g + 1 + k) = Some (splitLayer (nth k g' [])).
Proof.
  intros Hmcs.
  destruct (loop_returns (S (Z.to_nat (Z.quot dim 2))) mcs (Z.quot dim 2) O (g ++ [[dim]]))
    as (n & g' & Hrun); try lia.
  { rewrite length_app. simpl. lia. }
  destruct (loop_appends _ _ _ _ _ _ _ Hrun) as (ext & Hg' & Hn & Hext).
  exists (S (Z.to_nat (Z.quot dim 2))), n, g', ext.
  split; [|split; [|split]].
  - intros fuel' Hf. unfold createLayerGrid, bind, modify. eapply loop_fuel_mono; eauto.
  - rewrite Hg', <- app_assoc. reflexivity.
  - lia.
  - intros k Hk. specialize (Hext k Hk). rewrite length_app in Hext. exact Hext.
Qed.

(** A vector that holds the layer [[8]]: the second layer appended for an
    axis of 4 voxels is the split of [[8]], not of [[4]]. *)
Lemma createLayerGrid_appends_witness :
  exists fuel,
    createLayerGrid fuel 2 4 [[8]] = Ret 2%nat [[8]; [4]; [4; 4]].
Proof.
  destruct (createLayerGrid_appends 2 4 [[8]] ltac:(lia))
    as (fuel & n & g' & ext & Hrun & _).
  exists (Nat.max fuel 5). rewrite (Hrun (Nat.max fuel 5) ltac:(lia)).
  pose proof (Hrun (Nat.max fuel 5) ltac:(lia)) as H5.
  assert (H : createLayerGrid (Nat.max fuel 5) 2 4 [[8]] = Ret 2%nat [[8]; [4]; [4; 4]]).
  { apply (@createLayerGrid_fuel_mono 5); [reflexivity | lia]. }
  congruence.
Defined.

(** ** Granularity of the finest layer *)

Lemma quot_pow2_step (dim : Z) (k : nat) :
  Z.quot (Z.quot dim (2 ^ Z.of_nat k)) 2 = Z.quot dim (2 ^ Z.of_nat (S k)).
Proof.
  rewrite Nat2Z.inj_succ, Z.pow_succ_r by lia.
  rewrite Z.quot_quot by (try apply Z.pow_nonzero; lia).
  f_equal. lia.
Qed.

Lemma splitLayer_between (h : Z) (cur : list Z) : 0 <= h ->
  Forall (fun s => 2 * h <= s <= 2 * h + 2) cur ->
  Forall (fun s => h <= s <= h + 1) (splitLayer cur).
Proof.
  intros Hh. induction 1 as [|s cur Hs _ IH]; simpl; [constructor|].
  assert (Hq : Z.quot s 2 = s / 2) by (apply Z.quot_div_nonneg; lia).
  pose proof (Z.div_mod s 2 ltac:(lia)). pose proof (Z.mod_pos_bound s 2 ltac:(lia)).
  constructor; [lia|]. constructor; [lia | exact IH].
Qed.

Section Granularity.

Variables mcs dim : Z.
Hypothesis Hdim : 1 <= dim.

(** What holds at the head of the [while] loop. *)
Let inv (g : Grid) (layer : nat) (h : Z) : Prop :=
  length g = S layer /\
  h = Z.quot dim (2 ^ Z.of_nat (S layer)) /\
  (exists cur, nth_error g layer = Some cur /\
               Forall (fun s => 2 * h <= s <= 2 * h + 2) cur) /\
  (forall l cur, (1 <= l)%nat -> nth_error g l = Some cur ->
                 Forall (fun s => mcs <= s) cur) /\
  (forall l, (1 <= l <= layer)%nat -> mcs <= Z.quot dim (2 ^ Z.of_nat l)).

Lemma loop_granularity (fuel : nat) : forall h layer g n g',
  createLayerGrid_loop fuel mcs h layer g = Ret n g' -> inv g layer h ->
  n = length g' /\
  (forall l cur, (1 <= l)%nat -> nth_error g' l = Some cur ->
                 Forall (fun s => mcs <= s) cur) /\
  (exists last, nth_error g' (n - 1) = Some last /\
                Forall (fun s => s <= 2 * mcs) last) /\
  Z.quot dim (2 ^ Z.of_nat n) < mcs /\
  (forall l, (1 <= l < n)%nat -> mcs <= Z.quot dim (2 ^ Z.of_nat l)).
Proof.
  induction fuel as [|fuel IH]; intros h layer g n g' Hrun Hinv; [discriminate|].
  destruct Hinv as (Hlen & Hh & (cur & Hcur & Hbnd) & Hlow & Hcnt).
  assert (Hh0 : 0 <= h).
  { subst h. apply Z.quot_pos; [lia | apply Z.pow_pos_nonneg; lia]. }
  simpl in Hrun. destruct (Z.geb_spec h mcs) as [Hge | Hlt].
  - unfold bind at 1, get in Hrun. unfold bind at 1 in Hrun. rewrite Hcur in Hrun.
    cbn [lift ret] in Hrun. unfold bind at 1, put in Hrun.
    apply (IH _ _ _ _ _ Hrun). unfold inv. split; [|split; [|split; [|split]]].
    + rewrite length_app. simpl. lia.
    + rewrite Hh. apply quot_pow2_step.
    + exists (splitLayer cur). split.
      * rewrite nth_error_app2 by lia. rewrite Hlen, Nat.sub_diag. reflexivity.
      * pose proof (splitLayer_between h cur Hh0 Hbnd) as Hs.
        eapply Forall_impl; [|exact Hs]. cbv beta. intros s Hs'.
        assert (Hq : Z.quot h 2 = h / 2) by (apply Z.quot_div_nonneg; lia).
        pose proof (Z.div_mod h 2 ltac:(lia)).
        pose proof (Z.mod_pos_bound h 2 ltac:(lia)). lia.
    + intros l c Hl Hc.
      destruct (Nat.lt_ge_cases l (length g)) as [Hin | Hout].
      * rewrite nth_error_app1 in Hc by lia. eauto.
      * assert (l = length g).
        { assert (H : nth_error (g ++ [splitLayer cur]) l <> None) by congruence.
          apply nth_error_Some in H. rewrite length_app in H. simpl in H. lia. }
        subst l. rewrite nth_error_app2, Nat.sub_diag in Hc by lia.
        injection Hc as <-.
        pose proof (splitLayer_between h cur Hh0 Hbnd) as Hs.
        eapply Forall_impl; [|exact Hs]. cbv beta. intros; lia.
    + intros l Hl. destruct (Nat.eq_dec l (S layer)) as [-> | Hne].
      * rewrite <- Hh. lia.
      * apply Hcnt. lia.
  - injection Hrun as <- <-.
    split; [lia|]. split; [exact Hlow|]. split; [|split].
    + exists cur. replace (layer + 1 - 1)%nat with layer by lia.
      split; [exact Hcur|]. eapply Forall_impl; [|exact Hbnd]. cbv beta. intros; lia.
    + replace (layer + 1)%nat with (S layer) by lia. lia.
    + intros l Hl. apply Hcnt. lia.
Qed.

End Granularity.

(** X4.  For an axis of [dim >= 1] voxels and [minCubeSize >= 1], the
    builder returns [n] layers with [dim / 2^n < minCubeSize], every halving
    before that was at least [minCubeSize], every cell of every layer after
    the first has an extent of at least [minCubeSize], and every cell of the
    last layer has an extent of at most [2 * minCubeSize]. *)
Theorem createLayerGrid_granularity (mcs dim : Z) :
  1 <= mcs -> 1 <= dim ->
  exists fuel grid,
    (forall fuel', (fuel <= fuel')%nat ->
       createLayerGrid fuel' mcs dim [] = Ret (length grid) grid) /\
    (forall l cur, (1 <= l)%nat -> nth_error grid l = Some cur ->
                   Forall (fun s => mcs <= s) cur) /\
    (exists last, nth_error grid (length grid - 1) = Some last /\
                  Forall (fun s => s <= 2 * mcs) last) /\
    Z.quot dim (2 ^ Z.of_nat (length grid)) < mcs /\
    (forall l, (1 <= l < length grid)%nat -> mcs <= Z.quot dim (2 ^ Z.of_nat l)).
Proof.
  intros Hmcs Hdim.
  destruct (createLayerGrid_pyramid mcs dim Hmcs Hdim) as (g & Hrun & _ & _).
  exists (S (Z.to_nat dim)), g. split.
  - intros fuel' Hf. apply Hrun. lia.
  - specialize (Hrun (S (Z.to_nat dim)) ltac:(lia)).
    unfold createLayerGrid, bind, modify in Hrun. cbn [app] in Hrun.
    destruct (loop_granularity mcs dim Hdim _ _ _ _ _ _ Hrun)
      as (Hn & Hlow & Hlast & Hstop & Hcnt).
    + split; [reflexivity|]. split; [reflexivity|].
      split; [|split].
      * exists [dim]. split; [reflexivity|]. constructor; [|constructor].
        assert (Hq : Z.quot dim 2 = dim / 2) by (apply Z.quot_div_nonneg; lia).
        pose proof (Z.div_mod dim 2 ltac:(lia)).
        pose proof (Z.mod_pos_bound dim 2 ltac:(lia)). lia.
      * intros [|[|l]] cur Hl Hc; try lia; cbn in Hc; discriminate.
      * intros l Hl. lia.
    + repeat split; assumption.
Qed.

(** An axis of 100 voxels with minimum cube size 12 has four layers; the
    cells of the last one are between 12 and 24 voxels wide. *)
Lemma createLayerGrid_granularity_witness :
  exists fuel grid,
    createLayerGrid fuel 12 100 [] = Ret (length grid) grid /\
    (forall l cur, (1 <= l)%nat -> nth_error grid l = Some cur ->
                   Forall (fun s => 12 <= s) cur) /\
    Z.quot 100 (2 ^ Z.of_nat (length grid)) < 12.
Proof.
  destruct (createLayerGrid_granularity 12 100 ltac:(lia) ltac:(lia))
    as (fuel & grid & Hrun & Hlow & _ & Hstop & _).
  exists fuel, grid. split; [apply Hrun; lia|]. split; assumption.
Defined.

(** ** The layout [setImage] builds *)

Lemma padGrid_repeat (k : nat) : forall (nx : nat) (g : Grid),
  length g = S nx ->
  padGrid k (S nx) g = Ret (S nx + k)%nat (g ++ repeat (nth nx g []) k).
Proof.
  induction k as [|k IH]; intros nx g Hlen.
  - simpl. unfold ret. now rewrite Nat.add_0_r, app_nil_r.
  - simpl. unfold bind at 1, get.
    rewrite (nth_error_nth_default g nx []) by lia.
    unfold bind at 1. cbn [lift ret]. unfold bind at 1, put.
    rewrite (IH (S nx) (g ++ [nth nx g []])) by (rewrite length_app; simpl; lia).
    rewrite app_nth2, Hlen, Nat.sub_diag by lia. cbn [nth].
    rewrite <- app_assoc. cbn [app]. do 2 f_equal. lia.
Qed.

(** [prepare] on a freshly constructed object, with the axes it builds
    written out. *)
Lemma prepare_layout (fuel : nat) (image : MemImage) (mcs : Z) :
  wfImage image -> 1 <= mcs -> enoughFuel image fuel ->
  exists pX pY pZ t1,
    createLayerGrid fuel mcs (width image) [] = Ret (length pX) pX /\
    createLayerGrid fuel mcs (height image) [] = Ret (length pY) pY /\
    createLayerGrid fuel mcs (slices image) [] = Ret (length pZ) pZ /\
    prepare fuel image (Octree_ctor mcs) = Ret tt t1 /\
    m_numLayers t1 = Nat.max (Nat.max (length pX) (length pY)) (length pZ) /\
    m_gridX t1 = padded pX (m_numLayers t1) /\
    m_gridY t1 = padded pY (m_numLayers t1) /\
    m_gridZ t1 = padded pZ (m_numLayers t1).
Proof.
  intros (Hw & Hh & Hs & _) Hmcs Hfuel. unfold enoughFuel in Hfuel.
  destruct (createLayerGrid_pyramid mcs (width image)) as (gX & RX & PX & LX); try lia.
  destruct (createLayerGrid_pyramid mcs (height image)) as (gY & RY & PY & LY); try lia.
  destruct (createLayerGrid_pyramid mcs (slices image)) as (gZ & RZ & PZ & LZ); try lia.
  specialize (RX fuel ltac:(lia)). specialize (RY fuel ltac:(lia)).
  specialize (RZ fuel ltac:(lia)).
  set (n := Nat.max (Nat.max (length gX) (length gY)) (length gZ)).
  pose proof (pyramid_axisGrid _ _ PX) as AX0.
  pose proof (pyramid_axisGrid _ _ PY) as AY0.
  pose proof (pyramid_axisGrid _ _ PZ) as AZ0.
  assert (QX : padGrid (n - length gX) (length gX) gX = Ret n (padded gX n)).
  { pose proof (padGrid_repeat (n - length gX) (length gX - 1) gX ltac:(lia)) as H.
    replace (S (length gX - 1)) with (length gX) in H by lia.
    replace (length gX + (n - length gX))%nat with n in H by (subst n; lia).
    exact H. }
  assert (QY : padGrid (n - length gY) (length gY) gY = Ret n (padded gY n)).
  { pose proof (padGrid_repeat (n - length gY) (length gY - 1) gY ltac:(lia)) as H.
    replace (S (length gY - 1)) with (length gY) in H by lia.
    replace (length gY + (n - length gY))%nat with n in H by (subst n; lia).
    exact H. }
  assert (QZ : padGrid (n - length gZ) (length gZ) gZ = Ret n (padded gZ n)).
  { pose proof (padGrid_repeat (n - length gZ) (length gZ - 1) gZ ltac:(lia)) as H.
    replace (S (length gZ - 1)) with (length gZ) in H by lia.
    replace (length gZ + (n - length gZ))%nat with n in H by (subst n; lia).
    exact H. }
  assert (Hlen : forall p, (1 <= length p)%nat -> (length p <= n)%nat ->
                           length (padded p n) = n).
  { intros p H1 H2. unfold padded. rewrite length_app, repeat_length. lia. }
  set (t1 := mkOctree mcs n (padded gX n) (padded gY n) (padded gZ n) [] INT_MIN INT_MAX
               (Z.shiftl 1 (8 * typeSize image) - 1) [] 0 false).
  destruct (allocLayer_loop n n 0 (O, O, O) t1) as (acc' & Hal);
    try (subst t1; simpl; first [lia | now left | apply Hlen; lia]).
  exists gX, gY, gZ.
  exists (set_data (m_data t1 ++ freshLayers (padded gX n) (padded gY n) (padded gZ n) n) t1).
  split; [exact RX|]. split; [exact RY|]. split; [exact RZ|].
  split; [|subst t1; cbn; auto].
  unfold prepare, Octree_ctor. unfold bind at 1, modify at 1. unfold bind at 1, modify at 1.
  unfold bind at 1, get at 1.
  cbv [set_scale set_usable m_minCubeSize m_numLayers m_gridX m_gridY m_gridZ m_data
       m_min m_max m_scale m_cubesInside m_voxelsInside m_usable].
  unfold onGridX, onGridY, onGridZ.
  match goal with |- bind (zoom _ _ ?m) _ ?s = _ =>
    rewrite (bind_Ret _ (zoom_Ret m_gridX set_gridX m s _ _ RX)) end.
  cbv [set_gridX m_minCubeSize m_numLayers m_gridX m_gridY m_gridZ m_data
       m_min m_max m_scale m_cubesInside m_voxelsInside m_usable].
  match goal with |- bind (zoom _ _ ?m) _ ?s = _ =>
    rewrite (bind_Ret _ (zoom_Ret m_gridY set_gridY m s _ _ RY)) end.
  cbv [set_gridY m_minCubeSize m_numLayers m_gridX m_gridY m_gridZ m_data
       m_min m_max m_scale m_cubesInside m_voxelsInside m_usable].
  match goal with |- bind (zoom _ _ ?m) _ ?s = _ =>
    rewrite (bind_Ret _ (zoom_Ret m_gridZ set_gridZ m s _ _ RZ)) end.
  cbv [set_gridZ m_minCubeSize m_numLayers m_gridX m_gridY m_gridZ m_data
       m_min m_max m_scale m_cubesInside m_voxelsInside m_usable].
  fold n. unfold bind at 1, modify at 1.
  cbv [set_numLayers m_minCubeSize m_numLayers m_gridX m_gridY m_gridZ m_data
       m_min m_max m_scale m_cubesInside m_voxelsInside m_usable].
  match goal with |- bind (zoom _ _ ?m) _ ?s = _ =>
    rewrite (bind_Ret _ (zoom_Ret m_gridX set_gridX m s _ _ QX)) end.
  cbv [set_gridX m_minCubeSize m_numLayers m_gridX m_gridY m_gridZ m_data
       m_min m_max m_scale m_cubesInside m_voxelsInside m_usable].
  match goal with |- bind (zoom _ _ ?m) _ ?s = _ =>
    rewrite (bind_Ret _ (zoom_Ret m_gridY set_gridY m s _ _ QY)) end.
  cbv [set_gridY m_minCubeSize m_numLayers m_gridX m_gridY m_gridZ m_data
       m_min m_max m_scale m_cubesInside m_voxelsInside m_usable].
  match goal with |- bind (zoom _ _ ?m) _ ?s = _ =>
    rewrite (bind_Ret _ (zoom_Ret m_gridZ set_gridZ m s _ _ QZ)) end.
  cbv [set_gridZ m_minCubeSize m_numLayers m_gridX m_gridY m_gridZ m_data
       m_min m_max m_scale m_cubesInside m_voxelsInside m_usable].
  fold t1. unfold bind at 1. rewrite Hal. reflexivity.
Qed.

(** X5.  After a fill that ran to completion on a freshly constructed
    object, the tree has as many layers as the longest of the three axis
    pyramids [createLayerGrid] builds, every shorter axis repeats its last
    layer up to that count, and there is one element array per layer with
    one element per cell of the layer's grid. *)
Theorem setImage_layout (image : MemImage) (mcs : Z) (t : Octree) :
  wfImage image -> supported image -> 1 <= mcs -> FillCompleted image mcs t ->
  exists fuel pX pY pZ,
    createLayerGrid fuel mcs (width image) [] = Ret (length pX) pX /\
    createLayerGrid fuel mcs (height image) [] = Ret (length pY) pY /\
    createLayerGrid fuel mcs (slices image) [] = Ret (length pZ) pZ /\
    m_numLayers t = Nat.max (Nat.max (length pX) (length pY)) (length pZ) /\
    m_gridX t = padded pX (m_numLayers t) /\
    m_gridY t = padded pY (m_numLayers t) /\
    m_gridZ t = padded pZ (m_numLayers t) /\
    length (m_data t) = m_numLayers t /\
    forall layer arr,
      nth_error (m_data t) layer = Some arr ->
      length arr = (length (nth layer (m_gridX t) []) * length (nth layer (m_gridY t) [])
                    * length (nth layer (m_gridZ t) []))%nat.
Proof.
  intros Himage Hsup Hmcs Hfill.
  pose proof (FillCompleted_Filled image mcs t Himage Hsup Hmcs Hfill) as (Hgrids & Hdata).
  destruct Hfill as (abortThread & fuel & r & w & Hrun & Hus & <-).
  set (fuel' := Nat.max fuel
                  (S (Z.to_nat (Z.max (Z.max (width image) (height image)) (slices image))))).
  apply (setImage_fuel_mono fuel') in Hrun; [|lia].
  assert (Hfuel : enoughFuel image fuel') by (unfold enoughFuel; lia).
  destruct (prepare_layout fuel' image mcs Himage Hmcs Hfuel)
    as (pX & pY & pZ & t1 & RX & RY & RZ & Hprep & Hn & HX & HY & HZ).
  pose proof (completed_tree abortThread fuel' image mcs r w t1
                Himage Hsup Hmcs Hfuel Hprep Hrun Hus) as Htree.
  exists fuel', pX, pY, pZ.
  split; [exact RX|]. split; [exact RY|]. split; [exact RZ|].
  rewrite Htree in *. cbn [m_numLayers m_gridX m_gridY m_gridZ m_data set_usable set_data]
    in *.
  repeat (split; [assumption|]). split.
  - apply length_filledData.
  - intros layer arr Harr.
    apply (filledData_layer_length image
             (set_usable true
                (set_data (filledData image (m_gridX t1) (m_gridY t1) (m_gridZ t1)
                             (m_numLayers t1)) t1)) layer arr Hgrids Harr).
Qed.

(** [eightVoxels] with minimum cube size 1: the x axis has three layers
    and the tree has three. *)
Lemma setImage_layout_witness :
  exists fuel pX,
    createLayerGrid fuel 1 4 [] = Ret (length pX) pX /\
    (length pX <= m_numLayers (builtTree eightVoxels 1))%nat /\
    m_gridX (builtTree eightVoxels 1) = padded pX (m_numLayers (builtTree eightVoxels 1)).
Proof.
  destruct (setImage_layout eightVoxels 1 (builtTree eightVoxels 1))
    as (fuel & pX & pY & pZ & RX & _ & _ & Hn & HX & _).
  - prove_wfImage.
  - prove_supported.
  - lia.
  - exists neverAbort, 5%nat, 0%nat; eexists;
      split; [vm_compute; reflexivity | split; reflexivity].
  - exists fuel, pX. split; [exact RX|]. split; [lia | exact HX].
Defined.

(** ** The children of a node *)

Lemma length_triples {X} (zs ys xs : list X) :
  length (triples zs ys xs) = (length zs * (length ys * length xs))%nat.
Proof.
  unfold triples. induction zs as [|zz zs IH]; simpl; [reflexivity|].
  rewrite length_app, IH. f_equal. clear IH.
  induction ys as [|yy ys IHy]; simpl; [reflexivity|].
  now rewrite length_app, length_map, IHy.
Qed.

Lemma length_children (t : Octree) (l x y z : nat) :
  length (children t l x y z) = (splitZ t l * (splitY t l * splitX t l))%nat.
Proof.
  unfold children, childCoords. now rewrite length_map, length_triples, !length_seq.
Qed.

(** Every cell lies inside the volume. *)
Lemma cell_in_volume (image : MemImage) (t : Octree) (l x y z : nat) (a b c : Z) :
  wfImage image -> gridsOf image t -> (l < m_numLayers t)%nat ->
  inCell3 t l x y z a b c -> inVolume image a b c.
Proof.
  intros (Hw & Hh & Hs & _) (_ & HX & HY & HZ) Hl (Ha & Hb & Hc).
  assert (Haxis : forall dim g p v, 0 < dim -> axisGrid dim (m_numLayers t) g ->
            inCell (nth l g []) p v -> 0 <= v < dim).
  { intros dim g p v Hdim Hg Hv.
    destruct (axis_layer _ _ _ Hdim Hg l Hl) as (_ & _ & Hsum & _).
    pose proof (offset_bounds (nth l g []) p (axis_layer_nonneg _ _ _ Hdim Hg l Hl)).
    unfold inCell in Hv. lia. }
  unfold inVolume. split; [|split].
  - exact (Haxis _ _ x a Hw HX Ha).
  - exact (Haxis _ _ y b Hh HY Hb).
  - exact (Haxis _ _ z c Hs HZ Hc).
Qed.



(** ** What a range change leaves alone *)

Lemma sameBounds_sym (d d' : list (list OctreeElement)) :
  sameBounds d d' -> sameBounds d' d.
Proof.
  unfold sameBounds. intros H. induction H as [|a b l l' Hab _ IH]; constructor; [|exact IH].
  induction Hab as [|e e' r r' [H1 H2] _ IHr]; constructor; auto.
Qed.

(** The states a caller can reach on a filled tree by changing the range
    any number of times, whatever cube list an earlier [enumerate] left. *)
Lemma reach_state (image : MemImage) (mcs : Z) (t0 : Octree) (ranges : list (Z * Z))
    (c : list Z) (fuel : nat) :
  wfImage image -> supported image -> 1 <= mcs -> FillCompleted image mcs t0 ->
  (m_numLayers t0 <= fuel)%nat ->
  gridsOf image (set_cubesInside c t0) /\
  exists lo1 hi1 d1 v1,
    setRanges fuel ranges (set_cubesInside c t0)
    = Ret tt (passState (set_cubesInside c t0) lo1 hi1 d1 v1) /\
    sameBounds d1 (filledData image (m_gridX t0) (m_gridY t0) (m_gridZ t0) (m_numLayers t0)) /\
    m_data t0 = filledData image (m_gridX t0) (m_gridY t0) (m_gridZ t0) (m_numLayers t0).
Proof.
  intros Himage Hsup Hmcs Hfill Hfuel.
  destruct (FillCompleted_Filled image mcs t0 Himage Hsup Hmcs Hfill) as (Hgrids & Hdata).
  assert (Hgc : gridsOf image (set_cubesInside c t0)) by exact Hgrids.
  split; [exact Hgc|].
  assert (Hd0 : sameBounds (m_data t0)
                  (filledData image (m_gridX t0) (m_gridY t0) (m_gridZ t0) (m_numLayers t0))).
  { rewrite <- Hdata. apply sameBounds_refl. }
  destruct (setRanges_run image (set_cubesInside c t0) Himage Hgc fuel ranges Hfuel
              (m_min t0) (m_max t0) (m_data t0) (m_voxelsInside t0) Hd0)
    as (lo1 & hi1 & d1 & v1 & Hrun & Hd1).
  change (passState (set_cubesInside c t0) (m_min t0) (m_max t0) (m_data t0)
            (m_voxelsInside t0))
    with (passState (set_cubesInside c t0) (m_min (set_cubesInside c t0))
            (m_max (set_cubesInside c t0)) (m_data (set_cubesInside c t0))
            (m_voxelsInside (set_cubesInside c t0))) in Hrun.
  rewrite passState_self in Hrun.
  exists lo1, hi1, d1, v1. split; [exact Hrun|]. split; [exact Hd1 | exact Hdata].
Qed.

(** X7.  On the tree a fill that ran to completion leaves on a freshly
    constructed object, in any state a caller can reach by range changes,
    whatever cube list an earlier [enumerate] left, [setInsideRange]
    returns; it returns true exactly when the bounds differ from the stored
    ones; afterwards the bounds are stored, and the cube list, the layer
    grids, the layer count, [m_usable] and the [min] and [max] of every
    element are what they were: the result of an earlier [enumerate] stays
    in place. *)
Theorem setInsideRange_frame (image : MemImage) (mcs : Z) (t0 : Octree)
    (ranges : list (Z * Z)) (c : list Z) (fuel : nat) :
  wfImage image -> supported image -> 1 <= mcs -> FillCompleted image mcs t0 ->
  (m_numLayers t0 <= fuel)%nat ->
  exists t,
    setRanges fuel ranges (set_cubesInside c t0) = Ret tt t /\
    forall lo hi,
      exists t1,
        setInsideRange fuel lo hi t
        = Ret (negb ((m_min t =? lo) && (m_max t =? hi))) t1 /\
        m_min t1 = lo /\ m_max t1 = hi /\
        m_cubesInside t1 = c /\
        m_gridX t1 = m_gridX t0 /\ m_gridY t1 = m_gridY t0 /\ m_gridZ t1 = m_gridZ t0 /\
        m_numLayers t1 = m_numLayers t0 /\ m_usable t1 = true /\
        sameBounds (m_data t1) (m_data t0).
Proof.
  intros Himage Hsup Hmcs Hfill Hfuel.
  destruct (reach_state image mcs t0 ranges c fuel Himage Hsup Hmcs Hfill Hfuel)
    as (Hgc & lo1 & hi1 & d1 & v1 & Hrun & Hd1 & Hdata).
  assert (Hus : m_usable t0 = true).
  { destruct Hfill as (? & ? & ? & w & _ & Hus & <-). exact Hus. }
  eexists. split; [exact Hrun|]. intros lo hi.
  change (m_min (passState (set_cubesInside c t0) lo1 hi1 d1 v1)) with lo1.
  change (m_max (passState (set_cubesInside c t0) lo1 hi1 d1 v1)) with hi1.
  destruct ((lo1 =? lo) && (hi1 =? hi)) eqn:E.
  - apply andb_true_iff in E as [E1 E2]. apply Z.eqb_eq in E1, E2. subst lo1 hi1.
    eexists. split; [apply setInsideRange_same|].
    cbn [negb]. repeat (split; [reflexivity|]). split; [exact Hus|].
    cbn. rewrite Hdata. exact Hd1.
  - destruct (setInsideRange_run image (set_cubesInside c t0) Himage Hgc
                lo1 hi1 lo hi d1 v1 fuel Hd1 Hfuel E) as (d2 & v2 & Hset & Hd2 & _).
    eexists. split; [exact Hset|].
    cbn [negb]. repeat (split; [reflexivity|]). split; [exact Hus|].
    cbn. rewrite Hdata. exact Hd2.
Qed.

(** The tree over [twoVoxels] holding a stale cube list: the list outlives
    the change to the range [[50, 100]]. *)
Lemma setInsideRange_frame_witness :
  exists t1,
    setInsideRange 4 50 100 (set_cubesInside [0; 0; 0; 2; 1; 1] twoVoxelsTree)
    = Ret true t1 /\
    m_cubesInside t1 = [0; 0; 0; 2; 1; 1].
Proof.
  destruct (setInsideRange_frame twoVoxels 1 twoVoxelsTree [] [0; 0; 0; 2; 1; 1] 4)
    as (t & Hrun & Hall).
  - prove_wfImage.
  - prove_supported.
  - lia.
  - prove_filled.
  - cbn. lia.
  - injection Hrun as <-.
    destruct (Hall 50 100) as (t1 & Hset & _ & _ & Hc & _).
    exists t1. split; [exact Hset | exact Hc].
Defined.

(** ** Calling [enumerate] again *)

Lemma length_flat_boxes (boxes : list Box) :
  length (flat_map flatBox boxes) = (6 * length boxes)%nat.
Proof.
  induction boxes as [|b bs IH]; [reflexivity|].
  cbn [flat_map]. rewrite length_app, IH. cbn [flatBox length]. lia.
Qed.

(** The state a caller is in after calls of which one ran a classification
    pass. *)
Lemma runCalls_classified (image : MemImage) (mcs : Z) (t0 : Octree)
    (calls : list Call) (fuel : nat) :
  wfImage image -> supported image -> 1 <= mcs -> FillCompleted image mcs t0 ->
  (m_numLayers t0 <= fuel)%nat ->
  ordered false calls = true -> existsb properRange calls = true ->
  gridsOf image t0 /\
  exists c d v lo hi,
    runCalls fuel calls t0 = Ret tt (set_cubesInside c (passState t0 lo hi d v)) /\
    classified image t0 lo hi (passState t0 lo hi d v) (m_numLayers t0 - 1) 0 0 0 0.
Proof.
  intros Himage Hsup Hmcs Hfill Hfuel Hord Hseen.
  destruct (FillCompleted_Filled image mcs t0 Himage Hsup Hmcs Hfill) as (Hgrids & Hdata).
  destruct (FillCompleted_range image mcs t0 Himage Hsup Hmcs Hfill) as (Hlo & Hhi).
  split; [exact Hgrids|].
  destruct (runCalls_reached image t0 fuel Himage Hgrids Hfuel calls false INT_MIN INT_MAX t0)
    as (t & lo & hi & Hrun & (c & d & v & -> & _ & Hcl & _) & _).
  - exists (m_cubesInside t0), (m_data t0), (m_voxelsInside t0).
    split; [|split; [|split]].
    + rewrite <- Hlo, <- Hhi. now destruct t0.
    + rewrite <- Hdata. apply sameBounds_refl.
    + discriminate.
    + auto.
  - exact Hord.
  - exists c, d, v, lo, hi. split; [exact Hrun|]. apply Hcl. cbn [orb]. exact Hseen.
Qed.

(** X8.  After a fill that ran to completion on a freshly constructed object
    and calls of which one ran a classification pass, [enumerate] leaves its
    result in the cube list and changes nothing else, and a second call
    returns the same list and leaves the object as it is: the list is
    rebuilt, not extended.  The list holds six numbers per box. *)
Theorem enumerate_again (image : MemImage) (mcs : Z) (t0 : Octree)
    (calls : list Call) (fuel : nat) :
  wfImage image -> supported image -> 1 <= mcs -> FillCompleted image mcs t0 ->
  (m_numLayers t0 <= fuel)%nat ->
  ordered false calls = true -> existsb properRange calls = true ->
  exists t cubes,
    runCalls fuel calls t0 = Ret tt t /\
    enumerate fuel t = Ret cubes (set_cubesInside cubes t) /\
    enumerate fuel (set_cubesInside cubes t) = Ret cubes (set_cubesInside cubes t) /\
    (length cubes = 6 * length (boxesOf cubes))%nat.
Proof.
  intros Himage Hsup Hmcs Hfill Hfuel Hord Hseen.
  destruct (runCalls_classified image mcs t0 calls fuel Himage Hsup Hmcs Hfill Hfuel
              Hord Hseen) as (Hgrids & c & d & v & lo & hi & Hrun & Hcl).
  pose proof (enumerate_run image t0 Himage Hgrids lo hi d v c fuel Hfuel Hcl) as H1.
  cbv zeta in H1.
  set (cubes := flat_map flatBox (specEnum image t0 lo hi (m_numLayers t0 - 1) 0 0 0 0)) in *.
  pose proof (enumerate_run image t0 Himage Hgrids lo hi d v cubes fuel Hfuel Hcl) as H2.
  cbv zeta in H2. fold cubes in H2.
  exists (set_cubesInside c (passState t0 lo hi d v)), cubes.
  split; [exact Hrun|]. split; [exact H1|]. split; [exact H2|].
  subst cubes. rewrite boxesOf_flat. apply length_flat_boxes.
Qed.

(** [twoVoxels] after the range [[0, 50]]: both calls return the box of
    voxel 0. *)
Lemma enumerate_again_witness :
  exists t cubes,
    runCalls 4 [SetInsideRange 0 50] twoVoxelsTree = Ret tt t /\
    enumerate 4 t = Ret cubes (set_cubesInside cubes t) /\
    enumerate 4 (set_cubesInside cubes t) = Ret cubes (set_cubesInside cubes t) /\
    cubes = [0; 0; 0; 1; 1; 1].
Proof.
  destruct (enumerate_again twoVoxels 1 twoVoxelsTree [SetInsideRange 0 50] 4)
    as (t & cubes & Hrun & H1 & H2 & _).
  - prove_wfImage.
  - prove_supported.
  - lia.
  - prove_filled.
  - cbn. lia.
  - reflexivity.
  - reflexivity.
  - exists t, cubes. split; [exact Hrun|]. split; [exact H1|]. split; [exact H2|].
    vm_compute in Hrun. injection Hrun as <-.
    vm_compute in H1. injection H1 as <-. reflexivity.
Defined.

(** ** Ranges that hold all of the volume, or none of it *)

Section Extremes.

Variable image : MemImage.
Variable t0 : Octree.
Variables lo hi : Z.
Hypothesis Himage : wfImage image.
Hypothesis Hgrids : gridsOf image t0.

Lemma all_in_label (k : nat) : forall l x y z,
  (forall a b c, inVolume image a b c -> inRange image lo hi a b c) ->
  S (l + k) = m_numLayers t0 -> inBounds t0 l x y z ->
  specLabel image t0 lo hi k l x y z = LEAF_IN.
Proof.
  induction k as [|k IH]; intros l x y z Hall Hk HB.
  - apply (specLabel_finest image t0 lo hi).
    apply (not_rejected_iff image t0 lo hi Himage Hgrids l x y z HB).
    destruct (cell_nonempty image t0 Himage Hgrids l x y z HB) as (a & b & c & HC).
    pose proof (Hall a b c (cell_in_volume image t0 l x y z a b c Himage Hgrids
                              ltac:(lia) HC)) as Hv.
    unfold inRange in Hv. split; exists a, b, c; (split; [exact HC | lia]).
  - rewrite (specLabel_internal image t0 lo hi).
    + unfold labelOf.
      assert (E : forallb isIn
                    (map (fun '(cx, cy, cz) => specLabel image t0 lo hi k (S l) cx cy cz)
                       (children t0 l x y z)) = true).
      { apply forallb_forall. intros lab Hlab.
        apply in_map_iff in Hlab as ([[cx cy] cz] & <- & Hin).
        rewrite IH; [reflexivity | exact Hall | lia |].
        apply (children_inBounds image t0 Himage Hgrids l x y z); auto. lia. }
      now rewrite E.
    + apply (not_rejected_iff image t0 lo hi Himage Hgrids l x y z HB).
      destruct (cell_nonempty image t0 Himage Hgrids l x y z HB) as (a & b & c & HC).
      pose proof (Hall a b c (cell_in_volume image t0 l x y z a b c Himage Hgrids
                                ltac:(lia) HC)) as Hv.
      unfold inRange in Hv. split; exists a, b, c; (split; [exact HC | lia]).
Qed.

Lemma none_in_rejected :
  (forall a b c, inVolume image a b c -> voxelAt image a b c < lo) \/
  (forall a b c, inVolume image a b c -> hi < voxelAt image a b c) ->
  rejected lo hi (filledElem image t0 0 0 0 0) = true.
Proof.
  intros Hnone. pose proof (root_inBounds image t0 Hgrids) as HB.
  destruct (filledElem_bounds image t0 Himage Hgrids _ _ _ _ HB)
    as [[_ (p1 & q1 & r1 & HP1 & HV1)] [_ (p2 & q2 & r2 & HP2 & HV2)]].
  apply rejected_true_iff.
  apply (root_cell image t0 Hgrids) in HP1, HP2.
  destruct Hnone as [Hlow | Hhigh].
  - left. specialize (Hlow p2 q2 r2 HP2). lia.
  - right. specialize (Hhigh p1 q1 r1 HP1). lia.
Qed.

Lemma root_box : flatBox (cellBox t0 0 0 0 0)
                 = [0; 0; 0; width image; height image; slices image].
Proof.
  destruct Hgrids as (_ & HX & HY & HZ). unfold flatBox, cellBox.
  cbn [originX originY originZ extentX extentY extentZ].
  rewrite (axis_first _ _ _ HX), (axis_first _ _ _ HY), (axis_first _ _ _ HZ).
  reflexivity.
Qed.

End Extremes.

(** X9.  After a fill that ran to completion on a freshly constructed object
    and calls of which one ran a classification pass: when every voxel of
    the volume has a value in the stored range, the root is labelled
    [LEAF_IN] and [enumerate] returns the one box of the whole volume.  When
    every voxel has a value below the range, or every voxel a value above
    it, the root is labelled [LEAF_OUT] and [enumerate] returns the empty
    list. *)
Theorem enumerate_extremes (image : MemImage) (mcs : Z) (t0 : Octree)
    (calls : list Call) (fuel : nat) :
  wfImage image -> supported image -> 1 <= mcs -> FillCompleted image mcs t0 ->
  (m_numLayers t0 <= fuel)%nat ->
  ordered false calls = true -> existsb properRange calls = true ->
  exists t cubes,
    runCalls fuel calls t0 = Ret tt t /\
    enumerate fuel t = Ret cubes (set_cubesInside cubes t) /\
    ((forall a b c, inVolume image a b c -> inRange image (m_min t) (m_max t) a b c) ->
     typeAt t 0 0 0 0 = Some LEAF_IN /\
     cubes = [0; 0; 0; width image; height image; slices image]) /\
    ((forall a b c, inVolume image a b c -> voxelAt image a b c < m_min t) \/
     (forall a b c, inVolume image a b c -> m_max t < voxelAt image a b c) ->
     typeAt t 0 0 0 0 = Some LEAF_OUT /\ cubes = []).
Proof.
  intros Himage Hsup Hmcs Hfill Hfuel Hord Hseen.
  destruct (runCalls_classified image mcs t0 calls fuel Himage Hsup Hmcs Hfill Hfuel
              Hord Hseen) as (Hgrids & c & d & v & lo & hi & Hrun & Hcl).
  assert (Hn : (1 <= m_numLayers t0)%nat) by apply Hgrids.
  pose proof (enumerate_run image t0 Himage Hgrids lo hi d v c fuel Hfuel Hcl) as H1.
  cbv zeta in H1.
  pose proof (classified_type image t0 lo hi d v (m_numLayers t0 - 1) 0 0 0 0 Hcl) as Hty.
  set (k := (m_numLayers t0 - 1)%nat) in *.
  exists (set_cubesInside c (passState t0 lo hi d v)),
         (flat_map flatBox (specEnum image t0 lo hi k 0 0 0 0)).
  split; [exact Hrun|]. split; [exact H1|].
  change (m_min (set_cubesInside c (passState t0 lo hi d v))) with lo.
  change (m_max (set_cubesInside c (passState t0 lo hi d v))) with hi.
  change (typeAt (set_cubesInside c (passState t0 lo hi d v)) 0 0 0 0)
    with (typeAt (passState t0 lo hi d v) 0 0 0 0).
  split.
  - intros Hall.
    assert (Hlab : specLabel image t0 lo hi k 0 0 0 0 = LEAF_IN).
    { apply (all_in_label image t0 lo hi Himage Hgrids k 0 0 0 0 Hall);
        [subst k; cbn; lia | apply (root_inBounds image t0 Hgrids)]. }
    rewrite Hlab in Hty. split; [exact Hty|].
    rewrite (specEnum_eq image t0 lo hi), Hlab. cbn [flat_map]. rewrite app_nil_r.
    apply (root_box image t0 Hgrids).
  - intros Hnone.
    assert (Hlab : specLabel image t0 lo hi k 0 0 0 0 = LEAF_OUT).
    { apply (specLabel_rejected image t0 lo hi).
      apply (none_in_rejected image t0 lo hi Himage Hgrids Hnone). }
    rewrite Hlab in Hty. split; [exact Hty|].
    rewrite (specEnum_eq image t0 lo hi), Hlab. reflexivity.
Qed.

(** [twoVoxels] for the range [[0, 100]]: one box, the whole volume. *)
Lemma enumerate_extremes_witness :
  exists t,
    runCalls 4 [SetInsideRange 0 100] twoVoxelsTree = Ret tt t /\
    typeAt t 0 0 0 0 = Some LEAF_IN /\
    enumerate 4 t = Ret [0; 0; 0; 2; 1; 1] (set_cubesInside [0; 0; 0; 2; 1; 1] t).
Proof.
  destruct (enumerate_extremes twoVoxels 1 twoVoxelsTree [SetInsideRange 0 100] 4)
    as (t & cubes & Hrun & Henum & Hin & _).
  - prove_wfImage.
  - prove_supported.
  - lia.
  - prove_filled.
  - cbn. lia.
  - reflexivity.
  - reflexivity.
  - assert (Hlo : m_min t = 0 /\ m_max t = 100).
    { vm_compute in Hrun. injection Hrun as <-. split; reflexivity. }
    destruct Hlo as [Hlo Hhi]. rewrite Hlo, Hhi in Hin.
    destruct Hin as [Hty ->].
    + intros a b c (Ha & Hb & Hc). unfold width, height, slices, twoVoxels in Ha, Hb, Hc.
      assert (b = 0) as -> by lia. assert (c = 0) as -> by lia.
      assert (a = 0 \/ a = 1) as [-> | ->] by lia;
        unfold inRange, voxelAt; simpl; lia.
    + exists t. split; [exact Hrun|]. split; [exact Hty | exact Henum].
Defined.

(** ** [enumerate] before any classification pass *)

Lemma scanStep_type (e : OctreeElement) (v : Z) : e_type (scanStep e v) = e_type e.
Proof.
  unfold scanStep. cbv zeta.
  destruct (e_min e >? v); destruct (_ <? v); reflexivity.
Qed.

Lemma mergeDown_type (up down : OctreeElement) : e_type (mergeDown up down) = e_type up.
Proof.
  unfold mergeDown. cbv zeta.
  destruct (e_min up >? e_min down); destruct (_ <? e_max down); reflexivity.
Qed.

Lemma fold_left_type {X} (f : OctreeElement -> X -> OctreeElement) (l : list X) :
  (forall e x, e_type (f e x) = e_type e) ->
  forall e0, e_type (fold_left f l e0) = e_type e0.
Proof.
  intros Hf. induction l as [|x l IH]; intros e0; [reflexivity|].
  cbn [fold_left]. now rewrite IH, Hf.
Qed.

(** The fill pass writes [min] and [max] only: every element keeps the
    label of its constructor. *)
Lemma filledElem_type (image : MemImage) (t : Octree) (l x y z : nat) :
  wfImage image -> gridsOf image t -> inBounds t l x y z ->
  e_type (filledElem image t l x y z) = NODE.
Proof.
  intros Himage Hgrids HB.
  destruct (Nat.eq_dec (S l) (m_numLayers t)) as [E | E].
  - rewrite (filledElem_finest image t Hgrids x y z l (eq_sym E) HB).
    unfold cellScan. rewrite fold_left_type; [reflexivity|].
    intros e [[xx yy] zz]. apply scanStep_type.
  - rewrite (filledElem_up image t Himage Hgrids l x y z).
    + rewrite fold_left_type; [reflexivity|]. intros e e'. apply mergeDown_type.
    + destruct HB as (Hl & _). lia.
    + exact HB.
Qed.

Section Unclassified.

Variable image : MemImage.
Variable t0 : Octree.
Hypothesis Himage : wfImage image.
Hypothesis Hfilled : Filled image t0.

Lemma filled_read (l x y z : nat) (c : list Z) :
  inBounds t0 l x y z ->
  readElement l (x + length (nth l (m_gridX t0) []) * (y + length (nth l (m_gridY t0) []) * z))
    (set_cubesInside c t0)
  = Ret (filledElem image t0 l x y z) (set_cubesInside c t0).
Proof.
  intros HB. destruct Hfilled as (Hgrids & Hdata).
  apply (@readElement_at (set_cubesInside c t0) l _
           (nth l (m_data t0) []) (filledElem image t0 l x y z)).
  - cbn [m_data set_cubesInside]. apply nth_error_nth_default.
    rewrite Hdata, length_filledData. apply HB.
  - rewrite Hdata. apply (filledElem_lookup image t0 Hgrids l x y z HB).
Qed.

Lemma getSplit_past_end (l : nat) (c : list Z) :
  S l = m_numLayers t0 -> getSplit l (set_cubesInside c t0) = Fault.
Proof.
  intros Hl. destruct Hfilled as ((_ & HX & _) & _).
  destruct HX as (Hlen & _).
  unfold getSplit, bind, get. cbn [m_gridX set_cubesInside].
  rewrite (nth_error_nth_default (m_gridX t0) l []) by lia. cbn [lift ret].
  replace (nth_error (m_gridX t0) (l + 1)) with (@None (list Z)); [reflexivity|].
  symmetry. apply nth_error_None. lia.
Qed.

Lemma enumerateChildren_unclassified (k : nat) : forall l x y z c fuel,
  S (l + k) = m_numLayers t0 -> inBounds t0 l x y z -> (k < fuel)%nat ->
  enumerateChildren fuel l x y z (set_cubesInside c t0) = Fault.
Proof.
  pose proof Hfilled as (Hgrids & Hdata).
  induction k as [|k IH]; intros l x y z c fuel Hk HB Hfuel;
    (destruct fuel as [|fuel]; [lia|]);
    destruct (node_lookups image t0 Himage Hgrids l x y z HB) as (HgX & HgY & _);
    cbn [enumerateChildren]; unfold bind at 1, get at 1;
    cbn [m_gridX m_gridY m_gridZ set_cubesInside];
    rewrite HgX; unfold bind at 1; cbn [lift ret];
    rewrite HgY; unfold bind at 1; cbn [lift ret];
    rewrite (bind_Ret _ (filled_read l x y z c HB));
    rewrite (filledElem_type image t0 l x y z Himage Hgrids HB).
  - unfold bind at 1. rewrite (getSplit_past_end l c ltac:(lia)). reflexivity.
  - assert (Hl : (S l < m_numLayers t0)%nat) by lia.
    pose proof (st_getSplit image t0 (m_min t0) (m_max t0) Himage Hgrids
                  (m_data t0) (m_voxelsInside t0) l Hl) as Hsplit.
    rewrite (bind_Ret _ (@getSplit_frame l
                           (passState t0 (m_min t0) (m_max t0) (m_data t0)
                              (m_voxelsInside t0))
                           (set_cubesInside c t0) _ eq_refl eq_refl eq_refl Hsplit)).
    cbv beta iota. rewrite enumLoop_foldM. fold (children t0 l x y z).
    replace (l + 1)%nat with (S l) by lia.
    destruct (children t0 l x y z) as [|[[cx cy] cz] cs] eqn:Ech.
    + exfalso. pose proof (length_children t0 l x y z) as Hlen. rewrite Ech in Hlen.
      destruct (split_values image t0 Himage Hgrids l Hl)
        as ([EX | EX] & [EY | EY] & [EZ | EZ]); rewrite EX, EY, EZ in Hlen;
        discriminate.
    + assert (Hc : In (cx, cy, cz) (children t0 l x y z)) by (rewrite Ech; now left).
      assert (HBc : inBounds t0 (S l) cx cy cz).
      { apply (children_inBounds image t0 Himage Hgrids l x y z); auto. }
      cbn [foldM]. unfold bind at 1. unfold bind at 1.
      rewrite (IH (S l) cx cy cz c fuel ltac:(lia) HBc ltac:(lia)). reflexivity.
Qed.

End Unclassified.

(** X10.  After a fill that ran to completion on a freshly constructed
    object, a first [setInsideRange] call with the bounds the constructors
    store returns false and runs no classification pass; every element still
    carries the label [NODE] of its constructor, so that [enumerate]
    descends to the finest layer and there asks for the split towards a
    layer that does not exist: it reads the layer grids past their end. *)
Theorem enumerate_before_classification (image : MemImage) (mcs : Z) (t0 : Octree)
    (fuel : nat) :
  wfImage image -> supported image -> 1 <= mcs -> FillCompleted image mcs t0 ->
  (m_numLayers t0 <= fuel)%nat ->
  setInsideRange fuel INT_MIN INT_MAX t0 = Ret false t0 /\
  (forall l x y z, inBounds t0 l x y z -> typeAt t0 l x y z = Some NODE) /\
  enumerate fuel t0 = Fault.
Proof.
  intros Himage Hsup Hmcs Hfill Hfuel.
  pose proof (FillCompleted_Filled image mcs t0 Himage Hsup Hmcs Hfill) as Hfilled.
  destruct (FillCompleted_range image mcs t0 Himage Hsup Hmcs Hfill) as (Hlo & Hhi).
  pose proof Hfilled as (Hgrids & Hdata).
  split; [|split].
  - unfold setInsideRange, bind, get. rewrite Hlo, Hhi, !Z.eqb_refl. reflexivity.
  - intros l x y z HB. unfold typeAt, elemAt.
    rewrite (nth_error_nth_default (m_data t0) l [])
      by (rewrite Hdata, length_filledData; apply HB).
    rewrite Hdata.
    rewrite (filledElem_lookup image t0 Hgrids l x y z HB). cbn [option_map].
    now rewrite (filledElem_type image t0 l x y z Himage Hgrids HB).
  - unfold enumerate. unfold bind at 1. cbn [modify].
    unfold bind at 1.
    rewrite (enumerateChildren_unclassified image t0 Himage Hfilled
               (m_numLayers t0 - 1) 0 0 0 0 [] fuel); [reflexivity | | | ].
    + destruct Hgrids as (Hn & _). lia.
    + apply (root_inBounds image t0 Hgrids).
    + destruct Hgrids as (Hn & _). lia.
Qed.

(** [twoVoxels] with one cell per voxel. *)
Lemma enumerate_before_classification_witness :
  setInsideRange 4 INT_MIN INT_MAX twoVoxelsTree = Ret false twoVoxelsTree /\
  typeAt twoVoxelsTree 1 1 0 0 = Some NODE /\
  enumerate 4 twoVoxelsTree = Fault.
Proof.
  destruct (enumerate_before_classification twoVoxels 1 twoVoxelsTree 4)
    as (Hset & Hty & Henum).
  - prove_wfImage.
  - prove_supported.
  - lia.
  - prove_filled.
  - cbn. lia.
  - split; [exact Hset|]. split; [|exact Henum].
    apply Hty. unfold inBounds. cbn. lia.
Defined.

(** ** The client: classify, enumerate on change, read the cube list *)

(** The allocation loop writes [m_data] only. *)
Lemma allocLayer_cubes (nx ny nz : nat) (l : list nat) :
  forall acc acc' t t',
    foldM (allocLayer nx ny nz) acc l t = Ret acc' t' ->
    m_cubesInside t' = m_cubesInside t.
Proof.
  induction l as [|i l IH]; intros [[lx ly] lz] acc' t t' H.
  - cbn in H. injection H as _ <-. reflexivity.
  - cbn [foldM] in H. unfold bind at 1 in H.
    destruct (allocLayer nx ny nz (lx, ly, lz) i t) as [acc1 t1| | |] eqn:E;
      try discriminate.
    apply IH in H. rewrite H. clear H IH.
    unfold allocLayer, bind, get, put, lift, ret, fault in E.
    destruct (nth_error (m_gridX t) lx); [|discriminate].
    destruct (nth_error (m_gridY t) ly); [|discriminate].
    destruct (nth_error (m_gridZ t) lz); [|discriminate].
    injection E as _ <-. reflexivity.
Qed.

(** [setImage] up to the [try] block leaves the cube list alone. *)
Lemma prepare_cubes (fuel : nat) (image : MemImage) (t0 t1 : Octree) :
  prepare fuel image t0 = Ret tt t1 -> m_cubesInside t1 = m_cubesInside t0.
Proof.
  unfold prepare, onGridX, onGridY, onGridZ, zoom.
  unfold bind at 1, modify at 1. unfold bind at 1, modify at 1.
  unfold bind at 1, get at 1.
  unfold bind at 1. destruct (createLayerGrid _ _ _ _) as [nx gX| | |]; try discriminate.
  unfold bind at 1. destruct (createLayerGrid _ _ _ _) as [ny gY| | |]; try discriminate.
  unfold bind at 1. destruct (createLayerGrid _ _ _ _) as [nz gZ| | |]; try discriminate.
  cbv zeta. unfold bind at 1, modify at 1.
  unfold bind at 1. destruct (padGrid _ _ _) as [nx' gX'| | |]; try discriminate.
  unfold bind at 1. destruct (padGrid _ _ _) as [ny' gY'| | |]; try discriminate.
  unfold bind at 1. destruct (padGrid _ _ _) as [nz' gZ'| | |]; try discriminate.
  unfold bind at 1.
  destruct (foldM _ _ _ _) as [acc' t'| | |] eqn:Hal; try discriminate.
  intros H. injection H as <-.
  apply allocLayer_cubes in Hal. rewrite Hal. reflexivity.
Qed.

(** A completed [setImage] on a freshly constructed object leaves the
    empty cube list of the constructor. *)
Lemma FillCompleted_cubes (image : MemImage) (mcs : Z) (t : Octree) :
  wfImage image -> supported image -> 1 <= mcs -> FillCompleted image mcs t ->
  m_cubesInside t = [] /\ m_usable t = true.
Proof.
  intros Himage Hsup Hmcs (abortThread & fuel & r & w & Hrun & Hus & <-).
  split; [|exact Hus].
  set (fuel' := Nat.max fuel
                  (S (Z.to_nat (Z.max (Z.max (width image) (height image)) (slices image))))).
  apply (setImage_fuel_mono fuel') in Hrun; [|lia].
  assert (Hfuel : enoughFuel image fuel') by (unfold enoughFuel; lia).
  destruct (prepare_run fuel' image (Octree_ctor mcs) Himage Hmcs
              eq_refl eq_refl eq_refl eq_refl Hfuel) as (t1 & Hprep & _).
  rewrite (completed_tree abortThread fuel' image mcs r w t1
             Himage Hsup Hmcs Hfuel Hprep Hrun Hus).
  cbn [m_cubesInside set_usable set_data].
  apply (prepare_cubes fuel' image _ _ Hprep).
Qed.

Section Render.

Variable image : MemImage.
Variable t0 : Octree.
Variable fuel : nat.
Hypothesis Himage : wfImage image.
Hypothesis Hgrids : gridsOf image t0.
Hypothesis Hfuel : (m_numLayers t0 <= fuel)%nat.
Hypothesis Husable : m_usable t0 = true.

Local Notation "'D0'" :=
  (filledData image (m_gridX t0) (m_gridY t0) (m_gridZ t0) (m_numLayers t0)).

(** The cube list the client finds: empty until a classification pass
    ran, then the boxes of the stored range. *)
Let cubesOf (seen : bool) (lo hi : Z) : list Z :=
  if seen then flat_map flatBox (specEnum image t0 lo hi (m_numLayers t0 - 1) 0 0 0 0)
  else [].

Let shown (seen : bool) (lo hi : Z) (s : Octree) : Prop :=
  exists d v,
    s = set_cubesInside (cubesOf seen lo hi) (passState t0 lo hi d v) /\
    sameBounds d D0 /\
    (seen = true ->
     classified image t0 lo hi (passState t0 lo hi d v) (m_numLayers t0 - 1) 0 0 0 0) /\
    (seen = false -> lo = INT_MIN /\ hi = INT_MAX).

Lemma render_step (seen : bool) (lo hi a b : Z) (s : Octree) :
  shown seen lo hi s ->
  exists s',
    render fuel a b s = Ret (Some (cubesOf (seen || properPair (a, b)) a b)) s' /\
    shown (seen || properPair (a, b)) a b s'.
Proof.
  intros (d & v & -> & Hd & Hcl & Hdef).
  unfold render, isUsable, getCubesInside. unfold bind at 1. unfold bind at 1, get at 1.
  cbn [ret]. change (m_usable (set_cubesInside (cubesOf seen lo hi) (passState t0 lo hi d v)))
    with (m_usable t0). rewrite Husable.
  destruct ((lo =? a) && (hi =? b)) eqn:E.
  - apply andb_true_iff in E as [E1 E2]. apply Z.eqb_eq in E1, E2. subst a b.
    assert (Hsame : setInsideRange fuel lo hi
                      (set_cubesInside (cubesOf seen lo hi) (passState t0 lo hi d v))
                    = Ret false (set_cubesInside (cubesOf seen lo hi)
                                   (passState t0 lo hi d v))).
    { exact (setInsideRange_same
               (set_cubesInside (cubesOf seen lo hi) t0) lo hi d v fuel). }
    assert (Hseen : seen || properPair (lo, hi) = seen).
    { destruct seen; [reflexivity|]. destruct (Hdef eq_refl) as [-> ->]. reflexivity. }
    rewrite Hseen. eexists. split.
    + unfold bind at 1. rewrite Hsame. cbn [ret]. reflexivity.
    + exists d, v. auto.
  - destruct (setInsideRange_cubes image t0 fuel Himage Hgrids Hfuel
                (cubesOf seen lo hi) lo hi a b d v Hd E) as (d1 & v1 & Hset & Hd1 & Hcl1).
    assert (Hseen : seen || properPair (a, b) = true).
    { destruct seen; [reflexivity|]. destruct (Hdef eq_refl) as [-> ->].
      cbn [orb]. unfold properPair. cbn [fst snd].
      rewrite (Z.eqb_sym a), (Z.eqb_sym b), E. reflexivity. }
    rewrite Hseen.
    pose proof (enumerate_run image t0 Himage Hgrids a b d1 v1 (cubesOf seen lo hi)
                  fuel Hfuel Hcl1) as Henum. cbv zeta in Henum.
    eexists. split.
    + unfold bind at 1. rewrite Hset. cbn [ret].
      unfold bind at 1. unfold bind at 1. rewrite Henum. cbn [ret]. reflexivity.
    + exists d1, v1. split; [reflexivity|]. split; [exact Hd1|].
      split; [intros _; exact Hcl1 | discriminate].
Qed.

Lemma renders_run (ranges : list (Z * Z)) : forall seen lo hi s,
  shown seen lo hi s ->
  exists outs s' lo' hi',
    renders fuel ranges s = Ret outs s' /\
    length outs = length ranges /\ Forall (fun out => out <> None) outs /\
    shown (seen || existsb properPair ranges) lo' hi' s'.
Proof.
  unfold renders.
  induction ranges as [|[a b] ranges IH]; intros seen lo hi s Hs.
  - exists [], s, lo, hi. cbn. rewrite orb_false_r. auto.
  - destruct (render_step seen lo hi a b s Hs) as (s1 & Hrun & Hs1).
    destruct (IH _ a b s1 Hs1) as (outs & s' & lo' & hi' & Hruns & Hlen & Hall & Hs').
    eexists (_ :: outs), s', lo', hi'. split; [|split; [|split]].
    + cbn [mapM]. unfold bind at 1. rewrite Hrun.
      unfold bind at 1. rewrite Hruns. reflexivity.
    + cbn. now rewrite Hlen.
    + constructor; [discriminate | exact Hall].
    + cbn [existsb]. now rewrite orb_assoc.
Qed.

End Render.

(** X11.  The client on an object that is not usable takes the
    unoptimized rendering and leaves the object alone.  On the tree a fill
    that ran to completion leaves on a freshly constructed object, the
    client run for any pairs of intensities, one after the other, returns
    each time with a cube list for the optimized rendering.  Once one of
    the pairs differs from [INT_MIN], [INT_MAX], the list it reads is the
    exact cover for the pair at hand, also when [setInsideRange] returns
    false and [enumerate] is skipped.  While every pair is [INT_MIN],
    [INT_MAX], the list is empty. *)
Theorem render_cubes (image : MemImage) (mcs : Z) (t0 : Octree)
    (ranges : list (Z * Z)) (lo hi : Z) (fuel : nat) :
  wfImage image -> supported image -> 1 <= mcs -> FillCompleted image mcs t0 ->
  (m_numLayers t0 <= fuel)%nat ->
  (forall s, m_usable s = false -> render fuel lo hi s = Ret None s) /\
  exists outs t cubes t',
    renders fuel ranges t0 = Ret outs t /\
    length outs = length ranges /\ Forall (fun out => out <> None) outs /\
    render fuel lo hi t = Ret (Some cubes) t' /\
    m_cubesInside t' = cubes /\
    (existsb properPair (ranges ++ [(lo, hi)]) = true ->
     exactCover image cubes (nearRange image t0 lo hi)) /\
    (existsb properPair (ranges ++ [(lo, hi)]) = false -> cubes = []).
Proof.
  intros Himage Hsup Hmcs Hfill Hfuel. split.
  { intros s Hs. unfold render, isUsable, bind, get, ret. now rewrite Hs. }
  destruct (FillCompleted_Filled image mcs t0 Himage Hsup Hmcs Hfill) as (Hgrids & Hdata).
  destruct (FillCompleted_range image mcs t0 Himage Hsup Hmcs Hfill) as (Hlo & Hhi).
  destruct (FillCompleted_cubes image mcs t0 Himage Hsup Hmcs Hfill) as (Hcubes & Hus).
  destruct (renders_run image t0 fuel Himage Hgrids Hfuel Hus ranges
              false INT_MIN INT_MAX t0) as (outs & t & lo' & hi' & Hruns & Hlen & Hall & Ht).
  { exists (m_data t0), (m_voxelsInside t0). split; [|split; [|split]].
    - rewrite <- Hlo, <- Hhi, <- Hcubes. now destruct t0.
    - rewrite <- Hdata. apply sameBounds_refl.
    - discriminate.
    - auto. }
  destruct (render_step image t0 fuel Himage Hgrids Hfuel Hus _ lo' hi' lo hi t Ht)
    as (t' & Hrun & (d & v & -> & _)).
  cbn [orb] in Hrun.
  eexists outs, t, _, _. split; [exact Hruns|]. split; [exact Hlen|].
  split; [exact Hall|]. split; [exact Hrun|]. split; [reflexivity|].
  rewrite existsb_app. cbn [existsb]. rewrite orb_false_r. split.
  - intros ->. apply (specEnum_exactCover image t0 Himage Hgrids).
  - intros ->. reflexivity.
Qed.

(** [twoVoxels]: a first frame with the constructors' bounds shows
    nothing; the range [[0, 50]] then shows the box of voxel 0, and shows
    it again when the same range is asked for once more. *)
Lemma render_cubes_witness :
  renders 4 [(INT_MIN, INT_MAX)] twoVoxelsTree = Ret [Some []] twoVoxelsTree /\
  exists outs t t',
    renders 4 [(INT_MIN, INT_MAX); (0, 50)] twoVoxelsTree = Ret outs t /\
    render 4 0 50 t = Ret (Some [0; 0; 0; 1; 1; 1]) t' /\
    setInsideRange 4 0 50 t = Ret false t.
Proof.
  split; [reflexivity|].
  destruct (render_cubes twoVoxels 1 twoVoxelsTree [(INT_MIN, INT_MAX); (0, 50)] 0 50 4)
    as (_ & outs & t & cubes & t' & Hruns & _ & _ & Hrun & _).
  - prove_wfImage.
  - prove_supported.
  - lia.
  - prove_filled.
  - cbn. lia.
  - exists outs, t, t'. split; [exact Hruns|].
    vm_compute in Hruns. injection Hruns as <- <-.
    split; [|reflexivity].
    rewrite Hrun. vm_compute in Hrun. injection Hrun as <- <-. reflexivity.
Defined.

(** ** The voxel counter of a classification pass *)

Section Counter.

Variable image : MemImage.
Variable t0 : Octree.
Variables lo hi : Z.
Hypothesis Himage : wfImage image.
Hypothesis Hgrids : gridsOf image t0.

Local Notation "'st'" := (passState t0 lo hi).
Local Notation "'D0'" :=
  (filledData image (m_gridX t0) (m_gridY t0) (m_gridZ t0) (m_numLayers t0)).

(** What one call adds to the counter, [k] layers above the finest. *)
Let Counts (k : nat) : Prop :=
  forall l x y z d v fuel,
    S (l + k) = m_numLayers t0 -> inBounds t0 l x y z -> sameBounds d D0 ->
    (k < fuel)%nat ->
    exists d',
      checkChildren fuel l x y z (st d v)
      = Ret (specLabel image t0 lo hi k l x y z)
            (st d' (v + specVoxels image t0 lo hi k l x y z)) /\
      sameBounds d' D0.

Lemma specVoxels_rejected (k l x y z : nat) :
  rejected lo hi (filledElem image t0 l x y z) = true ->
  specVoxels image t0 lo hi k l x y z = 0.
Proof. intros H. destruct k; cbn [specVoxels]; now rewrite H. Qed.

Lemma count_visit (k l x y z fuel : nat) :
  Counts k ->
  S (l + S k) = m_numLayers t0 -> inBounds t0 l x y z -> (k < fuel)%nat ->
  forall cs d v,
    (forall c, In c cs -> In c (children t0 l x y z)) ->
    sameBounds d D0 ->
    exists d',
      visitChildren fuel (S l) cs (st d v)
      = Ret (map (fun '(cx, cy, cz) => specLabel image t0 lo hi k (S l) cx cy cz) cs)
            (st d' (v + zsum (map (fun '(cx, cy, cz) =>
                                     specVoxels image t0 lo hi k (S l) cx cy cz) cs))) /\
      sameBounds d' D0.
Proof.
  intros Hrun Hk HB Hfuel.
  induction cs as [|[[cx cy] cz] cs IH]; intros d v Hsub Hd.
  - exists d. cbn [map zsum fold_right]. rewrite Z.add_0_r. split; [reflexivity | exact Hd].
  - assert (HBc : inBounds t0 (S l) cx cy cz).
    { apply (children_inBounds image t0 Himage Hgrids l x y z); [lia | exact HB |].
      apply Hsub. now left. }
    destruct (Hrun (S l) cx cy cz d v fuel ltac:(lia) HBc Hd Hfuel)
      as (d1 & Hcall & Hd1).
    destruct (IH d1 (v + specVoxels image t0 lo hi k (S l) cx cy cz)
                ltac:(intros c Hc; apply Hsub; now right) Hd1)
      as (d2 & Hrest & Hd2).
    exists d2. split; [|exact Hd2].
    unfold visitChildren in *. cbn [mapM map].
    rewrite (bind_Ret _ Hcall), (bind_Ret _ Hrest). unfold ret.
    cbn [zsum fold_right]. fold (zsum (map (fun '(cx, cy, cz) =>
                                     specVoxels image t0 lo hi k (S l) cx cy cz) cs)).
    now rewrite Z.add_assoc.
Qed.

Lemma count_run (k : nat) : Counts k.
Proof.
  induction k as [|k IH]; intros l x y z d v fuel Hk HB Hd Hfuel;
    (destruct fuel as [|fuel]; [lia|]);
    destruct (st_elem image t0 lo hi Hgrids d v l x y z Hd HB)
      as (arr & e & Harr & He & Erej);
    destruct (node_lookups image t0 Himage Hgrids l x y z HB)
      as (HgX & HgY & HgZ & Hsx & Hsy & Hsz);
    destruct (checkChildren_step (st d v) l x y z _ _ arr e HgX HgY Harr He)
      as (Crej & Cfin & Cint);
    destruct (rejected lo hi (filledElem image t0 l x y z)) eqn:Hrej.
  - apply rejected_true_iff in Erej. specialize (Crej Erej fuel).
    rewrite st_withLayer in Crej.
    rewrite (specLabel_rejected image t0 lo hi _ l x y z Hrej),
      (specVoxels_rejected _ l x y z Hrej), Z.add_0_r.
    eexists. split; [exact Crej|]. now apply sameBounds_retype.
  - assert (Hnot : ~ (lo > e_max e \/ hi < e_min e)).
    { intros H. apply rejected_true_iff in H. congruence. }
    specialize (Cfin Hnot ltac:(cbn; lia) _ _ _ _ HgZ Hsx Hsy Hsz fuel).
    rewrite (specLabel_finest image t0 lo hi l x y z Hrej).
    cbn [specVoxels]. rewrite Hrej.
    eexists. split; [exact Cfin|]. now apply sameBounds_retype.
  - apply rejected_true_iff in Erej. specialize (Crej Erej fuel).
    rewrite st_withLayer in Crej.
    rewrite (specLabel_rejected image t0 lo hi _ l x y z Hrej),
      (specVoxels_rejected _ l x y z Hrej), Z.add_0_r.
    eexists. split; [exact Crej|]. now apply sameBounds_retype.
  - assert (Hnot : ~ (lo > e_max e \/ hi < e_min e)).
    { intros H. apply rejected_true_iff in H. congruence. }
    destruct (count_visit k l x y z fuel IH Hk HB ltac:(lia) (children t0 l x y z) d v
                ltac:(auto) Hd) as (d1 & Hvisit & Hd1).
    specialize (Cint Hnot ltac:(cbn; lia) _ _ _
                  (st_getSplit image t0 lo hi Himage Hgrids d v l ltac:(lia)) fuel _ _
                  ltac:(rewrite Nat.add_1_r; exact Hvisit)).
    set (v1 := v + zsum (map (fun '(cx, cy, cz) =>
                                specVoxels image t0 lo hi k (S l) cx cy cz)
                           (children t0 l x y z))) in *.
    set (lab := labelOf (map (fun '(cx, cy, cz) => specLabel image t0 lo hi k (S l) cx cy cz)
                           (children t0 l x y z))) in *.
    destruct (st_elem image t0 lo hi Hgrids d1 v1 l x y z Hd1 HB)
      as (arr1 & e1 & Harr1 & He1 & _).
    rewrite (bind_Ret _ (@modifyElement_at (st d1 v1) l _ arr1 e1 (with_type lab)
                           Harr1 He1)) in Cint.
    rewrite st_withLayer in Cint.
    rewrite (specLabel_internal image t0 lo hi k l x y z Hrej). fold lab.
    cbn [specVoxels]. rewrite Hrej. fold v1.
    eexists. split; [exact Cint|]. now apply sameBounds_retype.
Qed.

End Counter.

(** *** The counter and the enumerated boxes *)

Lemma zsum_map_ext {X} (f g : X -> Z) (l : list X) :
  (forall c, In c l -> f c = g c) -> zsum (map f l) = zsum (map g l).
Proof.
  induction l as [|c l IH]; intros H; [reflexivity|].
  cbn [map]. rewrite !zsum_cons, (H c) by now left.
  rewrite IH; [reflexivity|]. intros c' Hc'. apply H. now right.
Qed.

Lemma zsum_map_zero {X} (f : X -> Z) (l : list X) :
  (forall c, In c l -> f c = 0) -> zsum (map f l) = 0.
Proof.
  induction l as [|c l IH]; intros H; [reflexivity|].
  cbn [map]. rewrite zsum_cons, (H c) by now left.
  rewrite IH; [reflexivity|]. intros c' Hc'. apply H. now right.
Qed.

Lemma zsum_flat_map {X} (f : Box -> Z) (F : X -> list Box) (l : list X) :
  zsum (map f (flat_map F l)) = zsum (map (fun c => zsum (map f (F c))) l).
Proof.
  induction l as [|c l IH]; [reflexivity|].
  cbn [flat_map map]. now rewrite map_app, zsum_app, zsum_cons, IH.
Qed.

(** Along one axis the cells of the children of a cell add up to the
    cell. *)
Lemma axis_extent_split (dim : Z) (n : nat) (g : Grid) (l : nat) :
  0 < dim -> axisGrid dim n g -> (S l < n)%nat ->
  let cur := nth l g [] in
  let next := nth (S l) g [] in
  let r := (length next / length cur)%nat in
  forall x,
    zsum (map (fun xx => extent next (r * x + xx)) (seq 0 r)) = extent cur x.
Proof.
  intros Hdim Hg Hl cur next r x.
  destruct (axis_layer dim n g Hdim Hg l ltac:(lia)) as (_ & _ & _ & Hpos).
  fold cur in Hpos.
  destruct (axis_step dim n g Hg l Hl) as [E | E]; fold cur next in E; subst r; rewrite E.
  - rewrite length_splitLayer, Nat.div_mul by lia.
    cbn [seq map]. rewrite !zsum_cons. cbn [zsum fold_right].
    rewrite Nat.add_0_r, extent_splitLayer_even, extent_splitLayer_odd. lia.
  - rewrite Nat.div_same by lia. cbn [seq map]. rewrite zsum_cons. cbn [zsum fold_right].
    rewrite Nat.mul_1_l, Nat.add_0_r. lia.
Qed.

Lemma zsum_triples (F G H : nat -> Z) (zs ys xs : list nat) :
  zsum (map (fun '(a, b, c) => F a * G b * H c) (triples zs ys xs))
  = zsum (map F xs) * zsum (map G ys) * zsum (map H zs).
Proof.
  unfold triples.
  induction zs as [|c zs IHz]; [cbn; lia|].
  cbn [flat_map]. rewrite map_app, zsum_app, IHz. cbn [map]. rewrite zsum_cons.
  assert (Hy : zsum (map (fun '(a, b, c0) => F a * G b * H c0)
                       (flat_map (fun yy => map (fun xx => (xx, yy, c)) xs) ys))
               = zsum (map F xs) * zsum (map G ys) * H c).
  { clear IHz. induction ys as [|b ys IHy]; [cbn; lia|].
    cbn [flat_map]. rewrite map_app, zsum_app, IHy. cbn [map]. rewrite zsum_cons.
    assert (Hx : zsum (map (fun '(a, b0, c0) => F a * G b0 * H c0)
                         (map (fun xx => (xx, b, c)) xs))
                 = zsum (map F xs) * G b * H c).
    { clear IHy. induction xs as [|a xs IHx]; [cbn; lia|].
      cbn [map]. rewrite !zsum_cons, IHx. lia. }
    rewrite Hx. lia. }
  rewrite Hy. lia.
Qed.

Section Volume.

Variable image : MemImage.
Variable t0 : Octree.
Variables lo hi : Z.
Hypothesis Himage : wfImage image.
Hypothesis Hgrids : gridsOf image t0.

(** The cells of the children of a node hold as many voxels as the cell
    of the node. *)
Lemma children_volume (l x y z : nat) :
  (S l < m_numLayers t0)%nat ->
  zsum (map (fun '(cx, cy, cz) => boxVolume (cellBox t0 (S l) cx cy cz))
          (children t0 l x y z))
  = boxVolume (cellBox t0 l x y z).
Proof.
  intros Hl. destruct Hgrids as (_ & HX & HY & HZ).
  pose proof Himage as (Hw & Hh & Hs & _).
  unfold children, childCoords. rewrite map_map.
  rewrite (zsum_map_ext _
             (fun '(xx, yy, zz) =>
                extent (nth (S l) (m_gridX t0) []) (splitX t0 l * x + xx)
                * extent (nth (S l) (m_gridY t0) []) (splitY t0 l * y + yy)
                * extent (nth (S l) (m_gridZ t0) []) (splitZ t0 l * z + zz)))
    by (intros [[xx yy] zz] _; reflexivity).
  rewrite (zsum_triples
             (fun xx => extent (nth (S l) (m_gridX t0) []) (splitX t0 l * x + xx))
             (fun yy => extent (nth (S l) (m_gridY t0) []) (splitY t0 l * y + yy))
             (fun zz => extent (nth (S l) (m_gridZ t0) []) (splitZ t0 l * z + zz))).
  unfold splitX, splitY, splitZ.
  rewrite (axis_extent_split _ _ _ l Hw HX Hl x), (axis_extent_split _ _ _ l Hh HY Hl y),
    (axis_extent_split _ _ _ l Hs HZ Hl z).
  reflexivity.
Qed.

Lemma specVoxels_out (k : nat) : forall l x y z,
  specLabel image t0 lo hi k l x y z = LEAF_OUT ->
  specVoxels image t0 lo hi k l x y z = 0.
Proof.
  induction k as [|k IH]; intros l x y z Hlab; cbn [specLabel specVoxels] in *;
    destruct (rejected lo hi (filledElem image t0 l x y z)); try reflexivity;
    try discriminate.
  apply zsum_map_zero. intros [[cx cy] cz] Hc. apply IH.
  apply (labelOf_out _ Hlab). apply in_map_iff. now exists (cx, cy, cz).
Qed.

Lemma specVoxels_in (k : nat) : forall l x y z,
  S (l + k) = m_numLayers t0 ->
  specLabel image t0 lo hi k l x y z = LEAF_IN ->
  specVoxels image t0 lo hi k l x y z = boxVolume (cellBox t0 l x y z).
Proof.
  induction k as [|k IH]; intros l x y z Hk Hlab; cbn [specLabel specVoxels] in *;
    destruct (rejected lo hi (filledElem image t0 l x y z)); try discriminate;
    try reflexivity.
  rewrite <- (children_volume l x y z) by lia.
  apply zsum_map_ext. intros [[cx cy] cz] Hc. apply IH; [lia|].
  apply (labelOf_in _ Hlab). apply in_map_iff. now exists (cx, cy, cz).
Qed.

(** The counter is the number of voxels of the boxes [enumerate]
    lists. *)
Lemma specVoxels_boxes (k : nat) : forall l x y z,
  S (l + k) = m_numLayers t0 ->
  zsum (map boxVolume (specEnum image t0 lo hi k l x y z))
  = specVoxels image t0 lo hi k l x y z.
Proof.
  induction k as [|k IH]; intros l x y z Hk; rewrite (specEnum_eq image t0 lo hi);
    destruct (specLabel image t0 lo hi _ l x y z) eqn:Hlab.
  - cbn [specLabel] in Hlab.
    destruct (rejected lo hi (filledElem image t0 l x y z)); discriminate.
  - rewrite (specVoxels_in 0 l x y z Hk Hlab). cbn. lia.
  - now rewrite (specVoxels_out 0 l x y z Hlab).
  - rewrite zsum_flat_map.
    cbn [specLabel specVoxels] in *.
    destruct (rejected lo hi (filledElem image t0 l x y z)); [discriminate|].
    apply zsum_map_ext. intros [[cx cy] cz] Hc. apply IH. lia.
  - rewrite (specVoxels_in (S k) l x y z Hk Hlab). cbn. lia.
  - now rewrite (specVoxels_out (S k) l x y z Hlab).
Qed.

End Volume.

Lemma specVoxels_cubes (image : MemImage) (t0 : Octree) (lo hi : Z) (c : list Z)
    (k : nat) : forall l x y z,
  specVoxels image (set_cubesInside c t0) lo hi k l x y z
  = specVoxels image t0 lo hi k l x y z.
Proof.
  induction k as [|k IH]; intros l x y z; cbn [specVoxels];
    change (filledElem image (set_cubesInside c t0) l x y z)
      with (filledElem image t0 l x y z);
    destruct (rejected lo hi (filledElem image t0 l x y z)); try reflexivity.
  change (children (set_cubesInside c t0) l x y z) with (children t0 l x y z).
  f_equal. apply map_ext. intros [[cx cy] cz]. apply IH.
Qed.

Section CounterPass.

Variable image : MemImage.
Variable t0 : Octree.
Variable fuel : nat.
Hypothesis Himage : wfImage image.
Hypothesis Hgrids : gridsOf image t0.
Hypothesis Hfuel : (m_numLayers t0 <= fuel)%nat.

Local Notation "'D0'" :=
  (filledData image (m_gridX t0) (m_gridY t0) (m_gridZ t0) (m_numLayers t0)).
Local Notation "'rootVoxels' lo hi" :=
  (specVoxels image t0 lo hi (m_numLayers t0 - 1) 0 0 0 0)
    (at level 10, lo at level 9, hi at level 9).

(** A pass starts the counter at 0. *)
Lemma setInsideRange_counter (lo0 hi0 lo hi : Z) (d : list (list OctreeElement))
    (v : Z) :
  sameBounds d D0 -> (lo0 =? lo) && (hi0 =? hi) = false ->
  exists d',
    setInsideRange fuel lo hi (passState t0 lo0 hi0 d v)
    = Ret true (passState t0 lo hi d' (rootVoxels lo hi)).
Proof.
  intros Hd Hne.
  pose proof (root_inBounds image t0 Hgrids) as HB.
  pose proof Hgrids as (Hn & _).
  destruct (count_run image t0 lo hi Himage Hgrids (m_numLayers t0 - 1)
              O O O O d 0 fuel ltac:(lia) HB Hd ltac:(lia)) as (d' & Hrun & _).
  exists d'.
  unfold setInsideRange. unfold bind at 1, get.
  change (m_min (passState t0 lo0 hi0 d v)) with lo0.
  change (m_max (passState t0 lo0 hi0 d v)) with hi0.
  rewrite Hne. unfold bind at 1, put.
  change (set_voxelsInside 0 (set_range lo hi (passState t0 lo0 hi0 d v)))
    with (passState t0 lo hi d 0).
  rewrite (bind_Ret _ Hrun). unfold bind at 1, get.
  destruct (node_lookups image t0 Himage Hgrids O O O O HB)
    as (HgX & HgY & HgZ & Hsx & Hsy & Hsz).
  change (m_gridX (passState t0 lo hi d' (0 + rootVoxels lo hi))) with (m_gridX t0).
  change (m_gridY (passState t0 lo hi d' (0 + rootVoxels lo hi))) with (m_gridY t0).
  change (m_gridZ (passState t0 lo hi d' (0 + rootVoxels lo hi))) with (m_gridZ t0).
  unfold bind at 1. rewrite HgX. cbn [lift ret].
  unfold bind at 1. rewrite HgY. cbn [lift ret].
  unfold bind at 1. rewrite HgZ. cbn [lift ret].
  unfold bind at 1. rewrite Hsx. cbn [lift ret].
  unfold bind at 1. rewrite Hsy. cbn [lift ret].
  unfold bind at 1. rewrite Hsz. cbn [lift ret].
  rewrite Z.add_0_l. reflexivity.
Qed.

End CounterPass.

Section Counted.

Variable image : MemImage.
Variable t0 : Octree.
Variable fuel : nat.
Hypothesis Himage : wfImage image.
Hypothesis Hgrids : gridsOf image t0.
Hypothesis Hfuel : (m_numLayers t0 <= fuel)%nat.

Local Notation "'D0'" :=
  (filledData image (m_gridX t0) (m_gridY t0) (m_gridZ t0) (m_numLayers t0)).
Local Notation "'rootVoxels' lo hi" :=
  (specVoxels image t0 lo hi (m_numLayers t0 - 1) 0 0 0 0)
    (at level 10, lo at level 9, hi at level 9).

Lemma setInsideRange_counted (c : list Z) (lo0 hi0 lo hi : Z)
    (d : list (list OctreeElement)) (v : Z) :
  sameBounds d D0 -> (lo0 =? lo) && (hi0 =? hi) = false ->
  exists d',
    setInsideRange fuel lo hi (set_cubesInside c (passState t0 lo0 hi0 d v))
    = Ret true (set_cubesInside c (passState t0 lo hi d' (rootVoxels lo hi))) /\
    sameBounds d' D0 /\
    classified image t0 lo hi (passState t0 lo hi d' (rootVoxels lo hi))
      (m_numLayers t0 - 1) 0 0 0 0.
Proof.
  intros Hd Hne.
  destruct (setInsideRange_cubes image t0 fuel Himage Hgrids Hfuel c lo0 hi0 lo hi d v
              Hd Hne) as (d1 & v1 & Hset & Hd1 & Hcl1).
  exists d1.
  assert (Hv : v1 = rootVoxels lo hi).
  { assert (Hgc : gridsOf image (set_cubesInside c t0)) by exact Hgrids.
    destruct (setInsideRange_counter image (set_cubesInside c t0) fuel Himage Hgc Hfuel
                lo0 hi0 lo hi d v Hd Hne) as (d2 & Hset2).
    change (passState (set_cubesInside c t0) lo0 hi0 d v)
      with (set_cubesInside c (passState t0 lo0 hi0 d v)) in Hset2.
    rewrite Hset in Hset2.
    apply (f_equal (fun r => match r with Ret _ s => m_voxelsInside s | _ => 0 end))
      in Hset2.
    cbn [m_voxelsInside passState set_voxelsInside set_cubesInside set_data set_range]
      in Hset2.
    rewrite Hset2. apply specVoxels_cubes. }
  subst v1. split; [exact Hset|]. split; assumption.
Qed.

(** The states a caller moves through, with the counter: once a pass
    ran, the counter holds the voxels of the boxes of the stored
    range. *)
Let counted (seen : bool) (lo hi : Z) (s : Octree) : Prop :=
  exists c d v,
    s = set_cubesInside c (passState t0 lo hi d v) /\
    sameBounds d D0 /\
    (seen = true ->
     v = rootVoxels lo hi /\
     classified image t0 lo hi (passState t0 lo hi d v) (m_numLayers t0 - 1) 0 0 0 0) /\
    (seen = false -> lo = INT_MIN /\ hi = INT_MAX).

Lemma runCalls_counted (calls : list Call) : forall seen lo hi s,
  counted seen lo hi s -> ordered seen calls = true ->
  exists t lo' hi',
    runCalls fuel calls s = Ret tt t /\
    counted (seen || existsb properRange calls) lo' hi' t.
Proof.
  unfold runCalls.
  induction calls as [|call calls IH]; intros seen lo hi s Hs Hord.
  - exists s, lo, hi. cbn. rewrite orb_false_r. auto.
  - destruct Hs as (c & d & v & -> & Hd & Hcl & Hdef).
    destruct call as [a b|]; cbn [ordered] in Hord; cbn [foldM runCall existsb].
    + destruct ((lo =? a) && (hi =? b)) eqn:E.
      * apply andb_true_iff in E as [E1 E2]. apply Z.eqb_eq in E1, E2. subst a b.
        assert (Hsame : setInsideRange fuel lo hi (set_cubesInside c (passState t0 lo hi d v))
                        = Ret false (set_cubesInside c (passState t0 lo hi d v))).
        { exact (setInsideRange_same (set_cubesInside c t0) lo hi d v fuel). }
        destruct (IH (seen || properRange (SetInsideRange lo hi)) lo hi
                    (set_cubesInside c (passState t0 lo hi d v)))
          as (t & lo' & hi' & Hrun & Ht).
        { exists c, d, v. split; [reflexivity|]. split; [exact Hd|].
          destruct seen; cbn [orb].
          - split; [exact Hcl | discriminate].
          - destruct (Hdef eq_refl) as [-> ->]. cbn [properRange].
            rewrite !Z.eqb_refl. cbn. split; [discriminate | auto]. }
        { exact Hord. }
        exists t, lo', hi'. split.
        -- unfold bind at 1. unfold bind at 1. rewrite Hsame. cbn [ret]. exact Hrun.
        -- now rewrite orb_assoc.
      * destruct (setInsideRange_counted c lo hi a b d v Hd E) as (d1 & Hset & Hd1 & Hcl1).
        assert (Hseen : seen || properRange (SetInsideRange a b) = true).
        { destruct seen; [reflexivity|]. destruct (Hdef eq_refl) as [-> ->].
          cbn [orb properRange]. rewrite (Z.eqb_sym a), (Z.eqb_sym b), E. reflexivity. }
        rewrite Hseen in Hord.
        destruct (IH true a b (set_cubesInside c (passState t0 a b d1 (rootVoxels a b))))
          as (t & lo' & hi' & Hrun & Ht).
        { exists c, d1, (rootVoxels a b). split; [reflexivity|]. split; [exact Hd1|].
          split; [intros _; split; [reflexivity | exact Hcl1] | discriminate]. }
        { exact Hord. }
        exists t, lo', hi'. split.
        -- unfold bind at 1. unfold bind at 1. rewrite Hset. cbn [ret]. exact Hrun.
        -- rewrite orb_assoc, Hseen. exact Ht.
    + apply andb_true_iff in Hord as [-> Hord].
      destruct (Hcl eq_refl) as (Hv & Hcl').
      pose proof (enumerate_run image t0 Himage Hgrids lo hi d v c fuel Hfuel Hcl')
        as Henum. cbv zeta in Henum.
      destruct (IH true lo hi
                  (set_cubesInside
                     (flat_map flatBox (specEnum image t0 lo hi (m_numLayers t0 - 1) 0 0 0 0))
                     (passState t0 lo hi d v)))
        as (t & lo' & hi' & Hrun & Ht).
      { eexists _, d, v. split; [reflexivity|]. split; [exact Hd|].
        split; [intros _; split; assumption | discriminate]. }
      { exact Hord. }
      exists t, lo', hi'. split; [|exact Ht].
      unfold bind at 1. unfold bind at 1. rewrite Henum. cbn [ret]. exact Hrun.
Qed.

End Counted.

(** X12.  After a fill that ran to completion on a freshly constructed
    object and calls of which one ran a classification pass,
    [m_voxelsInside] is the number of voxels of the boxes [enumerate]
    returns: every pass starts the counter at 0 and adds the extent of
    every finest-layer cell it labels [LEAF_IN], and the boxes of coarser
    nodes hold the voxels of the finest-layer cells below them. *)
Theorem setInsideRange_voxelsInside (image : MemImage) (mcs : Z) (t0 : Octree)
    (calls : list Call) (fuel : nat) :
  wfImage image -> supported image -> 1 <= mcs -> FillCompleted image mcs t0 ->
  (m_numLayers t0 <= fuel)%nat ->
  ordered false calls = true -> existsb properRange calls = true ->
  exists t cubes,
    runCalls fuel calls t0 = Ret tt t /\
    enumerate fuel t = Ret cubes (set_cubesInside cubes t) /\
    m_voxelsInside t = zsum (map boxVolume (boxesOf cubes)).
Proof.
  intros Himage Hsup Hmcs Hfill Hfuel Hord Hseen.
  destruct (FillCompleted_Filled image mcs t0 Himage Hsup Hmcs Hfill) as (Hgrids & Hdata).
  destruct (FillCompleted_range image mcs t0 Himage Hsup Hmcs Hfill) as (Hlo & Hhi).
  destruct (runCalls_counted image t0 fuel Himage Hgrids Hfuel calls
              false INT_MIN INT_MAX t0)
    as (t & lo & hi & Hrun & (c & d & v & -> & Hd & Hcl & _)).
  - exists (m_cubesInside t0), (m_data t0), (m_voxelsInside t0).
    split; [|split; [|split]].
    + rewrite <- Hlo, <- Hhi. now destruct t0.
    + rewrite <- Hdata. apply sameBounds_refl.
    + discriminate.
    + auto.
  - exact Hord.
  - cbn [orb] in Hcl. destruct (Hcl Hseen) as (-> & Hcl').
    pose proof Hgrids as (Hn & _).
    eexists _, _. split; [exact Hrun|]. split.
    + exact (enumerate_run image t0 Himage Hgrids lo hi d _ c fuel Hfuel Hcl').
    + cbn [m_voxelsInside passState set_voxelsInside set_cubesInside set_data set_range].
      rewrite boxesOf_flat.
      symmetry. apply (specVoxels_boxes image t0 lo hi Himage Hgrids). lia.
Qed.

(** [eightVoxels] for the range [[2, 5]]: two boxes of two voxels. *)
Lemma setInsideRange_voxelsInside_witness :
  exists t,
    runCalls 4 [SetInsideRange 0 7; Enumerate; SetInsideRange 2 5]
      (builtTree eightVoxels 1) = Ret tt t /\
    m_voxelsInside t = 4.
Proof.
  destruct (setInsideRange_voxelsInside eightVoxels 1 (builtTree eightVoxels 1)
              [SetInsideRange 0 7; Enumerate; SetInsideRange 2 5] 4)
    as (t & cubes & Hrun & Henum & Hv).
  - prove_wfImage.
  - prove_supported.
  - lia.
  - exists neverAbort, 5%nat, 0%nat; eexists;
      split; [vm_compute; reflexivity | split; reflexivity].
  - vm_compute. lia.
  - reflexivity.
  - reflexivity.
  - exists t. split; [exact Hrun|]. rewrite Hv.
    vm_compute in Hrun. injection Hrun as <-.
    vm_compute in Henum. injection Henum as <-. reflexivity.
Defined.
